(** * AdaptivePIV: the multigrid sampling mesh of [PIV/multiGrid.py]

    A shallow embedding of [MultiGrid], [GridCell] and [Grid].  Python
    objects live in an arena: a correlation window is its index in
    [windows] (the list the source calls [cw_list]), a grid cell is its
    index in [heap], the store of every [GridCell] object ever
    constructed.  [cells] is the list [MultiGrid.cells] of the source: the
    cells that were registered with the mesh, in registration order.

    Exceptions are explicit: every operation returns a [result] together
    with the store as it is at the time of the return or of the raise, so
    the mutations made before a raise stay visible, as in Python. *)

From Stdlib Require Import ZArith QArith Lia Lqa.
From stdpp Require Import base tactics option list numbers.

Open Scope nat_scope.

(** ** Exceptions and results *)

Inductive exn :=
| AlreadySplit          (* ValueError("This cell has already been split") *)
| RefinementNotPossible (* ValueError("Grid refinement not possible") *)
| ZeroDivisionError     (* np.arange with a zero step *)
| IndexError            (* list index out of range *)
| AttributeError        (* attribute access on None *)
| TypeError             (* a slice bound that is not an integer *)
| EmptyMax.             (* np.max of a zero-size array *)

Inductive result (A : Type) :=
| Ok (a : A)
| Raise (e : exn)
| OutOfFuel.
Arguments Ok {A} a.
Arguments Raise {A} e.
Arguments OutOfFuel {A}.

#[global] Instance exn_eq_dec : EqDecision exn.
Proof. solve_decision. Defined.

Definition is_ok {A} (r : result A) : bool :=
  match r with Ok _ => true | _ => false end.

(** ** Data *)

(** [corr_window.CorrWindow]: position and window size.  Coordinates are the
    exact values of the source's arithmetic: integers at tier 0, midpoints
    [(a + b) / 2] below. *)
Record CorrWindow := mkCorrWindow {
  cw_x : Q;
  cw_y : Q;
  cw_WS : Z
}.

(** [Grid]: [_array] holds window references (indices) or [None]. *)
Record Grid := mkGrid {
  g_img_dim : Z * Z;
  g_spacing : Z;
  g_x_vec : list Z;
  g_y_vec : list Z;
  g_ny : nat;
  g_nx : nat;
  g_array : list (list (option nat))
}.

(** The dictionary [{'bl': bl, 'br': br, 'tl': tl, 'tr': tr}]. *)
Record Children := mkChildren {
  ch_bl : nat;
  ch_br : nat;
  ch_tl : nat;
  ch_tr : nat
}.

Record GridCell := mkGridCell {
  id_bl : nat;
  id_br : nat;
  id_tl : nat;
  id_tr : nat;
  tier : nat;
  ix : nat;
  iy : nat;
  children : option Children;
  parent : option nat;
  north : option nat;
  east : option nat;
  south : option nat;
  west : option nat
}.

Record MultiGrid := mkMultiGrid {
  img_dim : Z * Z;                 (* (n_rows, n_cols) *)
  spacing : Z;
  windows : list CorrWindow;
  grids : list Grid;
  cells : list nat;
  max_tier : nat;
  cells_in_top_tier : nat;
  heap : list GridCell
}.

#[global] Instance CorrWindow_inhabited : Inhabited CorrWindow :=
  populate (mkCorrWindow 0 0 0).
#[global] Instance GridCell_inhabited : Inhabited GridCell :=
  populate (mkGridCell 0 0 0 0 0 0 0 None None None None None None).
#[global] Instance Grid_inhabited : Inhabited Grid :=
  populate (mkGrid (0, 0)%Z 0 [] [] 0 0 []).
#[global] Instance Children_eq_dec : EqDecision Children.
Proof. solve_decision. Defined.

(** Field updates of a cell object. *)
Definition set_children (v : option Children) (c : GridCell) : GridCell :=
  mkGridCell (id_bl c) (id_br c) (id_tl c) (id_tr c) (tier c) (ix c) (iy c)
    v (parent c) (north c) (east c) (south c) (west c).
Definition set_north (v : option nat) (c : GridCell) : GridCell :=
  mkGridCell (id_bl c) (id_br c) (id_tl c) (id_tr c) (tier c) (ix c) (iy c)
    (children c) (parent c) v (east c) (south c) (west c).
Definition set_east (v : option nat) (c : GridCell) : GridCell :=
  mkGridCell (id_bl c) (id_br c) (id_tl c) (id_tr c) (tier c) (ix c) (iy c)
    (children c) (parent c) (north c) v (south c) (west c).
Definition set_south (v : option nat) (c : GridCell) : GridCell :=
  mkGridCell (id_bl c) (id_br c) (id_tl c) (id_tr c) (tier c) (ix c) (iy c)
    (children c) (parent c) (north c) (east c) v (west c).
Definition set_west (v : option nat) (c : GridCell) : GridCell :=
  mkGridCell (id_bl c) (id_br c) (id_tl c) (id_tr c) (tier c) (ix c) (iy c)
    (children c) (parent c) (north c) (east c) (south c) v.

(** Store updates. *)
Definition with_heap (h : list GridCell) (m : MultiGrid) : MultiGrid :=
  mkMultiGrid (img_dim m) (spacing m) (windows m) (grids m) (cells m)
    (max_tier m) (cells_in_top_tier m) h.
Definition with_windows (w : list CorrWindow) (m : MultiGrid) : MultiGrid :=
  mkMultiGrid (img_dim m) (spacing m) w (grids m) (cells m)
    (max_tier m) (cells_in_top_tier m) (heap m).
Definition with_cells (cs : list nat) (m : MultiGrid) : MultiGrid :=
  mkMultiGrid (img_dim m) (spacing m) (windows m) (grids m) cs
    (max_tier m) (cells_in_top_tier m) (heap m).
Definition with_grids (gs : list Grid) (m : MultiGrid) : MultiGrid :=
  mkMultiGrid (img_dim m) (spacing m) (windows m) gs (cells m)
    (max_tier m) (cells_in_top_tier m) (heap m).
Definition with_max_tier (t : nat) (m : MultiGrid) : MultiGrid :=
  mkMultiGrid (img_dim m) (spacing m) (windows m) (grids m) (cells m)
    t (cells_in_top_tier m) (heap m).

(** The object behind a cell reference.  References never dangle in
    Python; the default is only there to make the lookup total. *)
Definition cell (m : MultiGrid) (c : nat) : GridCell := heap m !!! c.

Definition upd_cell (c : nat) (f : GridCell -> GridCell) (m : MultiGrid)
  : MultiGrid := with_heap (alter f c (heap m)) m.

(** ** The state-and-exception monad *)

Definition M (A : Type) : Type := MultiGrid -> result A * MultiGrid.

Definition ret {A} (a : A) : M A := fun m => (Ok a, m).
Definition raise {A} (e : exn) : M A := fun m => (Raise e, m).
Definition bind {A B} (c : M A) (k : A -> M B) : M B :=
  fun m => match c m with
           | (Ok a, m') => k a m'
           | (Raise e, m') => (Raise e, m')
           | (OutOfFuel, m') => (OutOfFuel, m')
           end.
Definition get : M MultiGrid := fun m => (Ok m, m).
Definition modify (f : MultiGrid -> MultiGrid) : M unit :=
  fun m => (Ok tt, f m).

Notation "x <- c1 ;; c2" := (bind c1 (fun x => c2))
  (at level 100, c1 at next level, right associativity).
Notation "c1 ;;; c2" := (bind c1 (fun _ => c2))
  (at level 100, right associativity).

(** ** numpy's [arange] on integers *)

(** Number of entries of [np.arange(0, stop, step)]:
    [max 0 (ceil (stop / step))]. *)
Definition arange_len (stop step : Z) : nat :=
  Z.to_nat (Z.max 0 (- ((- stop) / step)))%Z.

Definition arange (stop step : Z) : result (list Z) :=
  if (step =? 0)%Z then Raise ZeroDivisionError
  else Ok (map (fun i => (Z.of_nat i * step)%Z) (seq 0 (arange_len stop step))).

(** ** [Grid.__init__] *)

Definition Grid_init (dim : Z * Z) (sp : Z) : result Grid :=
  match arange (snd dim) sp, arange (fst dim) sp with
  | Ok xv, Ok yv =>
      Ok (mkGrid dim sp xv yv (length yv) (length xv)
            (replicate (length yv) (replicate (length xv) None)))
  | Raise e, _ => Raise e
  | _, Raise e => Raise e
  | _, _ => OutOfFuel
  end.

(** [_array[r][c] = w] *)
Definition grid_set (r c : nat) (w : nat) (g : Grid) : result Grid :=
  match g_array g !! r with
  | None => Raise IndexError
  | Some row =>
      if decide (c < length row) then
        Ok (mkGrid (g_img_dim g) (g_spacing g) (g_x_vec g) (g_y_vec g)
              (g_ny g) (g_nx g)
              (<[r := <[c := Some w]> row]> (g_array g)))
      else Raise IndexError
  end.

Definition set_tier (t : nat) (c : GridCell) : GridCell :=
  mkGridCell (id_bl c) (id_br c) (id_tl c) (id_tr c) t (ix c) (iy c)
    (children c) (parent c) (north c) (east c) (south c) (west c).
Definition set_parent (v : option nat) (c : GridCell) : GridCell :=
  mkGridCell (id_bl c) (id_br c) (id_tl c) (id_tr c) (tier c) (ix c) (iy c)
    (children c) v (north c) (east c) (south c) (west c).
Definition set_ixy (i j : nat) (c : GridCell) : GridCell :=
  mkGridCell (id_bl c) (id_br c) (id_tl c) (id_tr c) (tier c) i j
    (children c) (parent c) (north c) (east c) (south c) (west c).
Definition with_top_tier (n : nat) (m : MultiGrid) : MultiGrid :=
  mkMultiGrid (img_dim m) (spacing m) (windows m) (grids m) (cells m)
    (max_tier m) n (heap m).

(** ** Loops *)

Fixpoint for_each {A} (l : list A) (body : A -> M unit) : M unit :=
  match l with
  | [] => ret tt
  | a :: l' => body a ;;; for_each l' body
  end.

(** [for i in range(n): body] *)
Definition for_range (n : nat) (body : nat -> M unit) : M unit :=
  for_each (seq 0 n) body.

(** ** [GridCell.__init__]

    The constructor reads [cw_list[id]] for its four corners, so an index
    out of range raises; the new object gets the next free reference. *)
Definition new_GridCell (bl br tl tr : nat) : M nat := fun m =>
  if decide (bl < length (windows m) /\ br < length (windows m) /\
             tl < length (windows m) /\ tr < length (windows m)) then
    (Ok (length (heap m)),
     with_heap (heap m ++
       [mkGridCell bl br tl tr 0 0 0 None None None None None None]) m)
  else (Raise IndexError, m).

(** The corner windows of a cell: [self.bl_win] and the like.  The window
    list only grows, so the object captured by the constructor is the one
    found at the index. *)
Definition bl_win (m : MultiGrid) (c : GridCell) : CorrWindow := windows m !!! id_bl c.
Definition br_win (m : MultiGrid) (c : GridCell) : CorrWindow := windows m !!! id_br c.
Definition tl_win (m : MultiGrid) (c : GridCell) : CorrWindow := windows m !!! id_tl c.
Definition tr_win (m : MultiGrid) (c : GridCell) : CorrWindow := windows m !!! id_tr c.

(** [self.grids[t]._array[r][c] = self.windows[w]] *)
Definition set_grid_entry (t r c w : nat) : M unit := fun m =>
  match grids m !! t with
  | None => (Raise IndexError, m)
  | Some g =>
      if decide (w < length (windows m)) then
        match grid_set r c w g with
        | Ok g' => (Ok tt, with_grids (<[t := g']> (grids m)) m)
        | Raise e => (Raise e, m)
        | OutOfFuel => (OutOfFuel, m)
        end
      else (Raise IndexError, m)
  end.

(** [self.cells[i]] *)
Definition cells_at (i : nat) : M nat := fun m =>
  match cells m !! i with
  | Some c => (Ok c, m)
  | None => (Raise IndexError, m)
  end.

(** ** [MultiGrid.__init__] *)

Definition init_windows (x_vec y_vec : list Z) (WS : Z) : list CorrWindow :=
  flat_map (fun y => map (fun x => mkCorrWindow (inject_Z x) (inject_Z y) WS) x_vec)
           y_vec.

Definition init_fill_grid (ny nx : nat) : M unit :=
  for_range ny (fun ii =>
    for_range nx (fun jj => set_grid_entry 0 ii jj (jj + ii * nx))).

Definition init_cells (n_rc n_cc n_cols : nat) : M unit :=
  for_range n_rc (fun rr =>
    for_range n_cc (fun cc =>
      let bl := rr * n_cols + cc in
      let br := bl + 1 in
      let tl := bl + n_cols in
      let tr := tl + 1 in
      gc <- new_GridCell bl br tl tr ;;
      modify (upd_cell gc (set_tier 0)) ;;;
      modify (upd_cell gc (set_ixy cc rr)) ;;;
      modify (fun m => with_cells (cells m ++ [gc]) m))).

Definition init_neighbours (n_rc n_cc : nat) : M unit :=
  for_range n_rc (fun rr =>
    for_range n_cc (fun cc =>
      let cn := rr * n_cc + cc in
      (if decide (rr <> n_rc - 1) then
         c <- cells_at cn ;; n <- cells_at (cn + n_cc) ;;
         modify (upd_cell c (set_north (Some n)))
       else ret tt) ;;;
      (if decide (cc <> n_cc - 1) then
         c <- cells_at cn ;; n <- cells_at (cn + 1) ;;
         modify (upd_cell c (set_east (Some n)))
       else ret tt) ;;;
      (if decide (rr <> 0) then
         c <- cells_at cn ;; n <- cells_at (cn - n_cc) ;;
         modify (upd_cell c (set_south (Some n)))
       else ret tt) ;;;
      (if decide (cc <> 0) then
         c <- cells_at cn ;; n <- cells_at (cn - 1) ;;
         modify (upd_cell c (set_west (Some n)))
       else ret tt))).

Definition MultiGrid_init (dim : Z * Z) (sp : Z) (WS : Z) : result MultiGrid :=
  match arange (snd dim) sp, arange (fst dim) sp with
  | Ok x_vec, Ok y_vec =>
      match Grid_init dim sp with
      | Ok g0 =>
          let n_rows := length y_vec in
          let n_cols := length x_vec in
          let n_rc := n_rows - 1 in
          let n_cc := n_cols - 1 in
          let m0 := mkMultiGrid dim sp (init_windows x_vec y_vec WS) [g0] [] 0 0 [] in
          match (init_fill_grid n_rows n_cols ;;;
                 init_cells n_rc n_cc n_cols ;;;
                 init_neighbours n_rc n_cc ;;;
                 modify (fun m => with_top_tier (length (cells m)) m)) m0 with
          | (Ok _, m) => Ok m
          | (Raise e, _) => Raise e
          | (OutOfFuel, _) => OutOfFuel
          end
      | Raise e => Raise e
      | OutOfFuel => OutOfFuel
      end
  | Raise e, _ => Raise e
  | _, Raise e => Raise e
  | _, _ => OutOfFuel
  end.

Definition n_windows (m : MultiGrid) : nat := length (windows m).
Definition n_cells (m : MultiGrid) : nat := length (cells m).

(** ** [MultiGrid.new_tier] *)

(** [int(self.spacing / (2**self.max_tier))]: truncation towards zero. *)
Definition h_curr (m : MultiGrid) : Z :=
  (spacing m ÷ 2 ^ Z.of_nat (max_tier m))%Z.

(** [h_new = h_curr / 2] is integral exactly when [h_curr] is even. *)
Definition new_tier : M unit := fun m =>
  if Z.even (h_curr m) then
    let m1 := with_max_tier (max_tier m + 1) m in
    match Grid_init (img_dim m1) (h_curr m ÷ 2)%Z with
    | Ok g => (Ok tt, with_grids (grids m1 ++ [g]) m1)
    | Raise e => (Raise e, m1)
    | OutOfFuel => (OutOfFuel, m1)
    end
  else (Raise RefinementNotPossible, m).

(** ** [GridCell] *)

Definition has_children (c : GridCell) : bool :=
  match children c with None => false | Some _ => true end.

(** One of the four blocks of [split_neighbs_if_needed]: when the cell has
    no neighbour on a side, the parent's neighbour on that side, if there
    is one, is split.  [self.parent] is dereferenced without a test. *)
Definition split_side (split_rec : nat -> M unit)
    (side : GridCell -> option nat) (self : nat) : M unit :=
  m <- get ;;
  match side (cell m self) with
  | Some _ => ret tt
  | None =>
      match parent (cell m self) with
      | None => raise AttributeError
      | Some p =>
          match side (cell m p) with
          | Some pn => split_rec pn
          | None => ret tt
          end
      end
  end.

Definition split_neighbs_if_needed (split_rec : nat -> M unit) (self : nat)
  : M unit :=
  split_side split_rec north self ;;;
  split_side split_rec east self ;;;
  split_side split_rec south self ;;;
  split_side split_rec west self.

(** [win = CorrWindow(x, y, WS); self.cw_list.append(win);
     id = self.multigrid.n_windows - 1] *)
Definition append_window (x y : Q) (WS : Z) : M nat := fun m =>
  let m' := with_windows (windows m ++ [mkCorrWindow x y WS]) m in
  (Ok (n_windows m' - 1), m').

(** The point shared with a neighbour that has children, or a new one. *)
Definition shared_or_new (side : GridCell -> option nat)
    (pick : Children -> nat) (corner : GridCell -> nat)
    (x y : Q) (WS : Z) (self : nat) : M nat :=
  m <- get ;;
  match side (cell m self) with
  | Some n =>
      match children (cell m n) with
      | Some ch => ret (corner (cell m (pick ch)))
      | None => append_window x y WS
      end
  | None => append_window x y WS
  end.

Definition midpoint (a b : Q) : Q := Qred ((a + b) / 2).

Definition create_new_corrWindows (self : nat) : M (nat * nat * nat * nat * nat) :=
  m <- get ;;
  let c := cell m self in
  let ctr_x := midpoint (cw_x (bl_win m c)) (cw_x (br_win m c)) in
  let ctr_y := midpoint (cw_y (bl_win m c)) (cw_y (tl_win m c)) in
  let WS := cw_WS (bl_win m c) in
  left_mid <- shared_or_new west ch_br id_tr (cw_x (bl_win m c)) ctr_y WS self ;;
  ctr_btm <- shared_or_new south ch_tl id_tr ctr_x (cw_y (bl_win m c)) WS self ;;
  ctr_mid <- append_window ctr_x ctr_y WS ;;
  ctr_top <- shared_or_new north ch_br id_bl ctr_x (cw_y (tl_win m c)) WS self ;;
  right_mid <- shared_or_new east ch_bl id_tl (cw_x (br_win m c)) ctr_y WS self ;;
  ret (left_mid, ctr_btm, ctr_mid, ctr_top, right_mid).

(** The four [GridCell(...)] calls of [split], [self.children = {...}], and
    the assignments of tier, parent and grid indices to the children. *)
Definition make_children (self lm cb cm ct rm : nat) : M Children :=
  m <- get ;;
  let c := cell m self in
  bl <- new_GridCell (id_bl c) cb lm cm ;;
  br <- new_GridCell cb (id_br c) cm rm ;;
  tl <- new_GridCell lm cm (id_tl c) ct ;;
  tr <- new_GridCell cm rm ct (id_tr c) ;;
  let ch := mkChildren bl br tl tr in
  modify (upd_cell self (set_children (Some ch))) ;;;
  modify (upd_cell bl (set_tier (tier c + 1))) ;;;
  modify (upd_cell br (set_tier (tier c + 1))) ;;;
  modify (upd_cell tl (set_tier (tier c + 1))) ;;;
  modify (upd_cell tr (set_tier (tier c + 1))) ;;;
  modify (upd_cell bl (set_parent (Some self))) ;;;
  modify (upd_cell br (set_parent (Some self))) ;;;
  modify (upd_cell tl (set_parent (Some self))) ;;;
  modify (upd_cell tr (set_parent (Some self))) ;;;
  modify (upd_cell bl (set_ixy (ix c * 2) (iy c * 2))) ;;;
  modify (upd_cell br (set_ixy (ix c * 2 + 1) (iy c * 2))) ;;;
  modify (upd_cell tl (set_ixy (ix c * 2) (iy c * 2 + 1))) ;;;
  modify (upd_cell tr (set_ixy (ix c * 2 + 1) (iy c * 2 + 1))) ;;;
  ret ch.

(** "Add the references of the newly created windows to the grids" *)
Definition register_windows (self : nat) (ch : Children) (lm cb cm ct rm : nat)
  : M unit :=
  m <- get ;;
  let c := cell m self in
  let ix_bl := ix c * 2 in
  let iy_bl := iy c * 2 in
  let t := tier (cell m (ch_bl ch)) in
  set_grid_entry t (iy_bl + 1) ix_bl lm ;;;
  set_grid_entry t (iy_bl + 0) (ix_bl + 1) cb ;;;
  set_grid_entry t (iy_bl + 1) (ix_bl + 1) cm ;;;
  set_grid_entry t (iy_bl + 2) (ix_bl + 1) ct ;;;
  set_grid_entry t (iy_bl + 1) (ix_bl + 2) rm.

(** "set known neighbours" *)
Definition set_known_neighbours (ch : Children) : M unit :=
  let bl := ch_bl ch in let br := ch_br ch in
  let tl := ch_tl ch in let tr := ch_tr ch in
  modify (upd_cell bl (set_north (Some tl))) ;;;
  modify (upd_cell bl (set_east (Some br))) ;;;
  modify (upd_cell br (set_north (Some tr))) ;;;
  modify (upd_cell br (set_west (Some bl))) ;;;
  modify (upd_cell tl (set_south (Some bl))) ;;;
  modify (upd_cell tl (set_east (Some tr))) ;;;
  modify (upd_cell tr (set_south (Some br))) ;;;
  modify (upd_cell tr (set_west (Some tl))).

(** One side of [update_child_neighbours]: when the neighbour on that side
    has children, [a1], [a2] (children of the cell) and [b1], [b2]
    (children of the neighbour) are linked across the shared edge. *)
Definition stitch (side : GridCell -> option nat)
    (set_out set_back : option nat -> GridCell -> GridCell)
    (a1 a2 : nat) (b1 b2 : Children -> nat) (self : nat) : M unit :=
  m <- get ;;
  match side (cell m self) with
  | None => ret tt
  | Some n =>
      match children (cell m n) with
      | None => ret tt
      | Some ney_child =>
          modify (upd_cell a1 (set_out (Some (b1 ney_child)))) ;;;
          modify (upd_cell a2 (set_out (Some (b2 ney_child)))) ;;;
          modify (upd_cell (b1 ney_child) (set_back (Some a1))) ;;;
          modify (upd_cell (b2 ney_child) (set_back (Some a2)))
      end
  end.

Definition update_child_neighbours (self : nat) : M unit :=
  m <- get ;;
  match children (cell m self) with
  | None => raise TypeError    (* self.children['bl'] on None *)
  | Some ch =>
      let bl := ch_bl ch in let br := ch_br ch in
      let tl := ch_tl ch in let tr := ch_tr ch in
      stitch north set_north set_south tl tr ch_bl ch_br self ;;;
      stitch east set_east set_west br tr ch_bl ch_tl self ;;;
      stitch south set_south set_north bl br ch_tl ch_tr self ;;;
      stitch west set_west set_east bl tl ch_br ch_tr self
  end.

Definition append_cell (c : nat) : M unit :=
  modify (fun m => with_cells (cells m ++ [c]) m).

(** ** [GridCell.split]

    [split_body] is the part of [split] after the neighbours were dealt
    with: new windows, children, the new tier if one is needed, the grid
    entries, the neighbour links, and the registration of the children. *)
Definition split_body (self : nat) : M unit :=
  ids <- create_new_corrWindows self ;;
  let '(lm, cb, cm, ct, rm) := ids in
  ch <- make_children self lm cb cm ct rm ;;
  m1 <- get ;;
  (if decide (max_tier m1 < tier (cell m1 (ch_bl ch)))
   then new_tier else ret tt) ;;;
  register_windows self ch lm cb cm ct rm ;;;
  set_known_neighbours ch ;;;
  update_child_neighbours self ;;;
  append_cell (ch_bl ch) ;;;
  append_cell (ch_br ch) ;;;
  append_cell (ch_tl ch) ;;;
  append_cell (ch_tr ch).

(** The recursion goes through [split_neighbs_if_needed], to a neighbour
    of the parent; [fuel] bounds its depth. *)
Fixpoint split_fuel (fuel : nat) (self : nat) : M unit :=
  match fuel with
  | 0 => fun m => (OutOfFuel, m)
  | S fuel' =>
      m <- get ;;
      if has_children (cell m self) then raise AlreadySplit
      else
        (if decide (0 < tier (cell m self))
         then split_neighbs_if_needed (split_fuel fuel') self
         else ret tt) ;;;
        split_body self
  end.

(** [cell.split()]: the cascade climbs one tier per call, so the tier of
    the cell bounds the depth. *)
Definition split (self : nat) : M unit := fun m =>
  split_fuel (S (tier (cell m self))) self m.

(** ** [MultiGrid.get_all_leaf_cells] *)

Fixpoint add_children (fuel : nat) (m : MultiGrid) (c : nat)
    (out_list : list nat) : option (list nat) :=
  match fuel with
  | 0 => None
  | S fuel' =>
      match children (cell m c) with
      | None => Some (out_list ++ [c])
      | Some ch =>
          out1 ← add_children fuel' m (ch_bl ch) out_list;
          out2 ← add_children fuel' m (ch_br ch) out1;
          out3 ← add_children fuel' m (ch_tl ch) out2;
          add_children fuel' m (ch_tr ch) out3
      end
  end.

Fixpoint add_children_all (fuel : nat) (m : MultiGrid) (cs : list nat)
    (out_list : list nat) : option (list nat) :=
  match cs with
  | [] => Some out_list
  | c :: cs' =>
      out1 ← add_children fuel m c out_list;
      add_children_all fuel m cs' out1
  end.

(** The recursion descends one object per call, so the number of objects
    bounds its depth. *)
Definition get_all_leaf_cells (m : MultiGrid) : option (list nat) :=
  add_children_all (S (length (heap m))) m
    (take (cells_in_top_tier m) (cells m)) [].

(** ** [MultiGrid.split_all_cells] *)

Definition split_all_cells : M unit :=
  m <- get ;;
  let n := n_cells m in
  for_range n (fun i => c <- cells_at i ;; split c).

(** [cell.coordinates]: anticlockwise from the bottom left. *)
Definition coordinates (m : MultiGrid) (c : GridCell) : list (Q * Q) :=
  [ (cw_x (bl_win m c), cw_y (bl_win m c));
    (cw_x (br_win m c), cw_y (br_win m c));
    (cw_x (tr_win m c), cw_y (tr_win m c));
    (cw_x (tl_win m c), cw_y (tl_win m c)) ].

(** ** [MultiGrid.adaptive_split_peak_value_cells] *)

(** A coordinate used as a slice bound.  The point class is not part of
    the sources at hand; an integral coordinate stands for the index it
    denotes, any other value is refused as numpy refuses it. *)
Definition py_index (q : Q) : result Z :=
  let r := Qred q in
  if (Qden r =? 1)%positive then Ok (Qnum r) else Raise TypeError.

(** Python's normalisation of a slice bound for a sequence of length
    [len]: negative bounds count from the end, and all are clamped. *)
Definition slice_bound (len : nat) (i : Z) : nat :=
  if (i <? 0)%Z then Z.to_nat (Z.max 0 (i + Z.of_nat len))
  else Nat.min (Z.to_nat i) len.

(** [l[i:j]] *)
Definition py_slice {A} (l : list A) (i j : Z) : list A :=
  let a := slice_bound (length l) i in
  let b := slice_bound (length l) j in
  take (b - a) (drop a l).

(** [obj_func[y0:y1, x0:x1]] *)
Definition sub_region (obj_func : list (list Q)) (y0 y1 x0 x1 : Z)
  : list (list Q) :=
  map (fun row => py_slice row x0 x1) (py_slice obj_func y0 y1).

Definition Qmaxb (a b : Q) : Q := if Qle_bool a b then b else a.

(** [np.max] *)
Definition np_max (a : list (list Q)) : result Q :=
  match concat a with
  | [] => Raise EmptyMax
  | q :: qs => Ok (fold_left Qmaxb qs q)
  end.

Definition peak_value (m : MultiGrid) (obj_func : list (list Q)) (c : nat)
  : result Q :=
  match coordinates m (cell m c) with
  | [bl; _; tr; _] =>
      match py_index (snd bl), py_index (snd tr),
            py_index (fst bl), py_index (fst tr) with
      | Ok y0, Ok y1, Ok x0, Ok x1 => np_max (sub_region obj_func y0 y1 x0 x1)
      | _, _, _, _ => Raise TypeError
      end
  | _ => Raise IndexError
  end.

Fixpoint peak_values (m : MultiGrid) (obj_func : list (list Q))
    (leaf_cells : list nat) : result (list Q) :=
  match leaf_cells with
  | [] => Ok []
  | c :: rest =>
      match peak_value m obj_func c with
      | Ok v =>
          match peak_values m obj_func rest with
          | Ok vs => Ok (v :: vs)
          | Raise e => Raise e
          | OutOfFuel => OutOfFuel
          end
      | Raise e => Raise e
      | OutOfFuel => OutOfFuel
      end
  end.

(** [leaf_cells[I]]: fancy indexing by a list of positions. *)
Fixpoint take_indices (leaf_cells : list nat) (I : list nat)
  : result (list nat) :=
  match I with
  | [] => Ok []
  | i :: I' =>
      match leaf_cells !! i, take_indices leaf_cells I' with
      | Some c, Ok cs => Ok (c :: cs)
      | None, _ => Raise IndexError
      | _, Raise e => Raise e
      | _, OutOfFuel => OutOfFuel
      end
  end.

(** The loop over the ranked cells.  [try: cell.split() ... except:
    continue] catches every exception; running out of fuel is not one.
    The value returned is the final [split_counter]. *)
Fixpoint adaptive_loop (lc : list nat) (split_counter max_splits : nat)
  : M nat :=
  match lc with
  | [] => ret split_counter
  | c :: rest => fun m =>
      match split c m with
      | (Ok _, m') =>
          let split_counter := split_counter + 1 in
          if decide (split_counter = max_splits) then (Ok split_counter, m')
          else adaptive_loop rest split_counter max_splits m'
      | (Raise _, m') => adaptive_loop rest split_counter max_splits m'
      | (OutOfFuel, m') => (OutOfFuel, m')
      end
  end.

(** The same loop, recording each cell on which [split] was called and
    whether the call returned. *)
Fixpoint adaptive_trace (lc : list nat) (split_counter max_splits : nat)
    (m : MultiGrid) : list (nat * bool) :=
  match lc with
  | [] => []
  | c :: rest =>
      match split c m with
      | (Ok _, m') =>
          let split_counter := split_counter + 1 in
          if decide (split_counter = max_splits) then [(c, true)]
          else (c, true) :: adaptive_trace rest split_counter max_splits m'
      | (Raise _, m') =>
          (c, false) :: adaptive_trace rest split_counter max_splits m'
      | (OutOfFuel, m') => [(c, false)]
      end
  end.

Section Adaptive.
(** [np.argsort]: the positions of the values in ascending order. *)
Variable argsort : list Q -> list nat.

(** The ranked candidates: [leaf_cells[I[::-1]]]. *)
Definition ranked_cells (m : MultiGrid) (obj_func : list (list Q))
  : result (list nat) :=
  match get_all_leaf_cells m with
  | None => OutOfFuel
  | Some leaf_cells =>
      match peak_values m obj_func leaf_cells with
      | Ok pv => take_indices leaf_cells (rev (argsort pv))
      | Raise e => Raise e
      | OutOfFuel => OutOfFuel
      end
  end.

Definition adaptive_split_peak_value_cells (obj_func : list (list Q))
  : M unit := fun m =>
  match ranked_cells m obj_func with
  | Ok lc =>
      (* len(I) // 2, and lc has one cell per entry of I *)
      let max_splits := length lc / 2 in
      match adaptive_loop lc 0 max_splits m with
      | (Ok _, m') => (Ok tt, m')
      | (Raise e, m') => (Raise e, m')
      | (OutOfFuel, m') => (OutOfFuel, m')
      end
  | Raise e => (Raise e, m)
  | OutOfFuel => (OutOfFuel, m)
  end.
End Adaptive.


(** * Elementary facts about the store *)

Lemma cell_upd_cell m c f j :
  cell (upd_cell c f m) j =
    if decide (c = j /\ c < length (heap m)) then f (cell m c) else cell m j.
Proof. exact (list_lookup_total_alter f (heap m) c j). Qed.

Lemma cell_upd_cell_ne m c f j : c <> j -> cell (upd_cell c f m) j = cell m j.
Proof. intros. rewrite cell_upd_cell. case_decide; [naive_solver | done]. Qed.

Lemma cell_upd_cell_eq m c f :
  c < length (heap m) -> cell (upd_cell c f m) c = f (cell m c).
Proof. intros. rewrite cell_upd_cell. case_decide; [done | naive_solver]. Qed.

Lemma heap_upd_cell_length m c f : length (heap (upd_cell c f m)) = length (heap m).
Proof. unfold upd_cell. simpl. apply length_alter. Qed.

(** The point a neighbour with children already holds, if there is one. *)
Definition reuse (side : GridCell -> option nat) (pick : Children -> nat)
    (corner : GridCell -> nat) (m : MultiGrid) (self : nat) : option nat :=
  match side (cell m self) with
  | Some n =>
      match children (cell m n) with
      | Some ch => Some (corner (cell m (pick ch)))
      | None => None
      end
  | None => None
  end.

Lemma shared_or_new_eq side pick corner x y WS self m :
  shared_or_new side pick corner x y WS self m =
    match reuse side pick corner m self with
    | Some i => (Ok i, m)
    | None => (Ok (length (windows m)),
               with_windows (windows m ++ [mkCorrWindow x y WS]) m)
    end.
Proof.
  unfold shared_or_new, reuse, bind, get, append_window, ret, n_windows.
  destruct (side (cell m self)) as [n|]; simpl.
  - destruct (children (cell m n)); simpl; [done|].
    rewrite length_app. simpl. do 2 f_equal. lia.
  - rewrite length_app. simpl. do 2 f_equal. lia.
Qed.

Lemma reuse_with_windows side pick corner w m self :
  reuse side pick corner (with_windows w m) self = reuse side pick corner m self.
Proof. done. Qed.

(** What one of the five steps of [create_new_corrWindows] does to the
    window list. *)
Definition step_windows (r : option nat) (x y : Q) (WS : Z)
    (ws : list CorrWindow) : list CorrWindow :=
  match r with Some _ => ws | None => ws ++ [mkCorrWindow x y WS] end.
Definition step_id (r : option nat) (ws : list CorrWindow) : nat :=
  match r with Some i => i | None => length ws end.

Lemma shared_or_new_step side pick corner x y WS self m :
  shared_or_new side pick corner x y WS self m =
    (Ok (step_id (reuse side pick corner m self) (windows m)),
     with_windows (step_windows (reuse side pick corner m self) x y WS (windows m)) m).
Proof.
  rewrite shared_or_new_eq. destruct (reuse _ _ _ _ _); simpl; [|done].
  by destruct m.
Qed.

Lemma append_window_step x y WS m :
  append_window x y WS m =
    (Ok (step_id None (windows m)),
     with_windows (step_windows None x y WS (windows m)) m).
Proof.
  unfold append_window, n_windows. simpl. rewrite length_app. simpl.
  do 2 f_equal. lia.
Qed.

Definition ctr_x (m : MultiGrid) (c : GridCell) : Q :=
  midpoint (cw_x (bl_win m c)) (cw_x (br_win m c)).
Definition ctr_y (m : MultiGrid) (c : GridCell) : Q :=
  midpoint (cw_y (bl_win m c)) (cw_y (tl_win m c)).

(** The window list after [create_new_corrWindows]. *)
Definition windows_after (m : MultiGrid) (self : nat) : list CorrWindow :=
  let c := cell m self in
  let WS := cw_WS (bl_win m c) in
  let w1 := step_windows (reuse west ch_br id_tr m self)
              (cw_x (bl_win m c)) (ctr_y m c) WS (windows m) in
  let w2 := step_windows (reuse south ch_tl id_tr m self)
              (ctr_x m c) (cw_y (bl_win m c)) WS w1 in
  let w3 := step_windows None (ctr_x m c) (ctr_y m c) WS w2 in
  let w4 := step_windows (reuse north ch_br id_bl m self)
              (ctr_x m c) (cw_y (tl_win m c)) WS w3 in
  step_windows (reuse east ch_bl id_tl m self)
              (cw_x (br_win m c)) (ctr_y m c) WS w4.

Definition ids_after (m : MultiGrid) (self : nat) : nat * nat * nat * nat * nat :=
  let c := cell m self in
  let WS := cw_WS (bl_win m c) in
  let w1 := step_windows (reuse west ch_br id_tr m self)
              (cw_x (bl_win m c)) (ctr_y m c) WS (windows m) in
  let w2 := step_windows (reuse south ch_tl id_tr m self)
              (ctr_x m c) (cw_y (bl_win m c)) WS w1 in
  let w3 := step_windows None (ctr_x m c) (ctr_y m c) WS w2 in
  let w4 := step_windows (reuse north ch_br id_bl m self)
              (ctr_x m c) (cw_y (tl_win m c)) WS w3 in
  (step_id (reuse west ch_br id_tr m self) (windows m),
   step_id (reuse south ch_tl id_tr m self) w1,
   step_id None w2,
   step_id (reuse north ch_br id_bl m self) w3,
   step_id (reuse east ch_bl id_tl m self) w4).

Lemma create_new_corrWindows_eq self m :
  create_new_corrWindows self m =
    (Ok (ids_after m self), with_windows (windows_after m self) m).
Proof.
  unfold create_new_corrWindows, bind at 1, get.
  unfold bind at 1. rewrite shared_or_new_step.
  unfold bind at 1. rewrite shared_or_new_step.
  unfold bind at 1. rewrite append_window_step.
  unfold bind at 1. rewrite shared_or_new_step.
  unfold bind at 1. rewrite shared_or_new_step.
  unfold ret. simpl. reflexivity.
Qed.

(** The four children as [split] leaves them before any link is set. *)
Definition child_bl (self : nat) (c : GridCell) (lm cb cm ct rm : nat) : GridCell :=
  mkGridCell (id_bl c) cb lm cm (tier c + 1) (ix c * 2) (iy c * 2)
    None (Some self) None None None None.
Definition child_br (self : nat) (c : GridCell) (lm cb cm ct rm : nat) : GridCell :=
  mkGridCell cb (id_br c) cm rm (tier c + 1) (ix c * 2 + 1) (iy c * 2)
    None (Some self) None None None None.
Definition child_tl (self : nat) (c : GridCell) (lm cb cm ct rm : nat) : GridCell :=
  mkGridCell lm cm (id_tl c) ct (tier c + 1) (ix c * 2) (iy c * 2 + 1)
    None (Some self) None None None None.
Definition child_tr (self : nat) (c : GridCell) (lm cb cm ct rm : nat) : GridCell :=
  mkGridCell cm rm ct (id_tr c) (tier c + 1) (ix c * 2 + 1) (iy c * 2 + 1)
    None (Some self) None None None None.

Definition fresh_children (m : MultiGrid) : Children :=
  let k := length (heap m) in mkChildren k (k + 1) (k + 2) (k + 3).

Definition heap_with_children (self lm cb cm ct rm : nat) (m : MultiGrid)
  : list GridCell :=
  let c := cell m self in
  alter (set_children (Some (fresh_children m))) self (heap m) ++
    [child_bl self c lm cb cm ct rm; child_br self c lm cb cm ct rm;
     child_tl self c lm cb cm ct rm; child_tr self c lm cb cm ct rm].




(** * Links between neighbours *)

(** A link runs south to north or west to east. *)
Inductive dir := NS | EW.

#[global] Instance dir_eq_dec : EqDecision dir.
Proof. solve_decision. Defined.

Definition out_of (d : dir) : GridCell -> option nat :=
  match d with NS => north | EW => east end.
Definition back_of (d : dir) : GridCell -> option nat :=
  match d with NS => south | EW => west end.
Definition set_out (d : dir) : option nat -> GridCell -> GridCell :=
  match d with NS => set_north | EW => set_east end.
Definition set_back (d : dir) : option nat -> GridCell -> GridCell :=
  match d with NS => set_south | EW => set_west end.

(** [a.north = b; b.south = a], or the same from west to east. *)
Definition link (d : dir) (a b : nat) (m : MultiGrid) : MultiGrid :=
  upd_cell b (set_back d (Some a)) (upd_cell a (set_out d (Some b)) m).

Definition apply_links (ls : list (dir * nat * nat)) (m : MultiGrid) : MultiGrid :=
  foldl (fun m l => link l.1.1 l.1.2 l.2 m) m ls.

(** A setter touches one field only. *)
Definition nb_setter (f : GridCell -> GridCell) : Prop :=
  forall c, id_bl (f c) = id_bl c /\ id_br (f c) = id_br c /\
            id_tl (f c) = id_tl c /\ id_tr (f c) = id_tr c /\
            tier (f c) = tier c /\ ix (f c) = ix c /\ iy (f c) = iy c /\
            children (f c) = children c /\ parent (f c) = parent c.

Lemma nb_setter_out d v : nb_setter (set_out d v).
Proof. by destruct d. Qed.
Lemma nb_setter_back d v : nb_setter (set_back d v).
Proof. by destruct d. Qed.

(** Two stores with the same cells up to the neighbour fields. *)
Definition same_skeleton (m m' : MultiGrid) : Prop :=
  length (heap m') = length (heap m) /\
  windows m' = windows m /\ grids m' = grids m /\ cells m' = cells m /\
  max_tier m' = max_tier m /\ spacing m' = spacing m /\
  img_dim m' = img_dim m /\ cells_in_top_tier m' = cells_in_top_tier m /\
  forall c, id_bl (cell m' c) = id_bl (cell m c) /\
            id_br (cell m' c) = id_br (cell m c) /\
            id_tl (cell m' c) = id_tl (cell m c) /\
            id_tr (cell m' c) = id_tr (cell m c) /\
            tier (cell m' c) = tier (cell m c) /\
            ix (cell m' c) = ix (cell m c) /\ iy (cell m' c) = iy (cell m c) /\
            children (cell m' c) = children (cell m c) /\
            parent (cell m' c) = parent (cell m c).

Lemma same_skeleton_refl m : same_skeleton m m.
Proof. by repeat split. Qed.

Lemma same_skeleton_trans m1 m2 m3 :
  same_skeleton m1 m2 -> same_skeleton m2 m3 -> same_skeleton m1 m3.
Proof.
  intros (?&?&?&?&?&?&?&?&H12) (?&?&?&?&?&?&?&?&H23).
  repeat split; try congruence;
    destruct (H12 c) as (?&?&?&?&?&?&?&?&?);
    destruct (H23 c) as (?&?&?&?&?&?&?&?&?); congruence.
Qed.

Lemma same_skeleton_upd c f m : nb_setter f -> same_skeleton m (upd_cell c f m).
Proof.
  intros Hf. repeat split; try done; try apply heap_upd_cell_length;
    rewrite cell_upd_cell; case_decide as Hc; try done;
    destruct Hc as [-> _]; by destruct (Hf (cell m c0)) as (?&?&?&?&?&?&?&?&?).
Qed.

Lemma same_skeleton_link d a b m : same_skeleton m (link d a b m).
Proof.
  unfold link. eapply same_skeleton_trans;
    apply same_skeleton_upd; auto using nb_setter_out, nb_setter_back.
Qed.

Lemma same_skeleton_apply_links ls m : same_skeleton m (apply_links ls m).
Proof.
  revert m. induction ls as [|[[d a] b] ls IH]; intros m; simpl.
  - apply same_skeleton_refl.
  - eapply same_skeleton_trans; [apply same_skeleton_link | apply IH].
Qed.

(** The neighbour fields after a link. *)
Lemma out_of_set_out d d' v c :
  out_of d (set_out d' v c) = if decide (d = d') then v else out_of d c.
Proof. by destruct d, d'. Qed.
Lemma out_of_set_back d d' v c : out_of d (set_back d' v c) = out_of d c.
Proof. by destruct d, d'. Qed.
Lemma back_of_set_back d d' v c :
  back_of d (set_back d' v c) = if decide (d = d') then v else back_of d c.
Proof. by destruct d, d'. Qed.
Lemma back_of_set_out d d' v c : back_of d (set_out d' v c) = back_of d c.
Proof. by destruct d, d'. Qed.

Lemma out_of_link d d' a b m x :
  a < length (heap m) ->
  out_of d (cell (link d' a b m) x) =
    if decide (d = d' /\ x = a) then Some b else out_of d (cell m x).
Proof.
  intros Ha. unfold link. rewrite cell_upd_cell, heap_upd_cell_length.
  case_decide as Hb.
  - destruct Hb as [-> Hb]. rewrite out_of_set_back, cell_upd_cell.
    case_decide as Hx.
    + destruct Hx as [-> _]. rewrite out_of_set_out.
      repeat case_decide; naive_solver.
    + case_decide; naive_solver.
  - rewrite cell_upd_cell. case_decide as Hx.
    + destruct Hx as [-> _]. rewrite out_of_set_out.
      repeat case_decide; naive_solver.
    + case_decide; naive_solver.
Qed.

Lemma back_of_link d d' a b m x :
  b < length (heap m) ->
  back_of d (cell (link d' a b m) x) =
    if decide (d = d' /\ x = b) then Some a else back_of d (cell m x).
Proof.
  intros Hb. unfold link. rewrite cell_upd_cell, heap_upd_cell_length.
  case_decide as Hx.
  - destruct Hx as [-> _]. rewrite back_of_set_back.
    case_decide as Hd.
    + subst. by rewrite decide_True.
    + rewrite decide_False by naive_solver.
      rewrite cell_upd_cell. case_decide as Hy; [|done].
      destruct Hy as [-> _]. by rewrite back_of_set_out.
  - rewrite decide_False by naive_solver.
    rewrite cell_upd_cell. case_decide as Hy; [|done].
    destruct Hy as [-> _]. by rewrite back_of_set_out.
Qed.


Lemma new_GridCell_ok bl br tl tr m :
  bl < length (windows m) -> br < length (windows m) ->
  tl < length (windows m) -> tr < length (windows m) ->
  new_GridCell bl br tl tr m =
    (Ok (length (heap m)),
     with_heap (heap m ++
       [mkGridCell bl br tl tr 0 0 0 None None None None None None]) m).
Proof. intros. unfold new_GridCell. by rewrite decide_True. Qed.

Lemma alter_app_r_len {A} (f : A -> A) (l1 l2 : list A) n i :
  length l1 = n -> alter f (n + i) (l1 ++ l2) = l1 ++ alter f i l2.
Proof. intros <-. apply alter_app_r. Qed.

Lemma alter_app_r_len0 {A} (f : A -> A) (l1 l2 : list A) n :
  length l1 = n -> alter f n (l1 ++ l2) = l1 ++ alter f 0 l2.
Proof. intros <-. rewrite <- (Nat.add_0_r (length l1)) at 1. apply alter_app_r. Qed.

Lemma heap_with_heap h m : heap (with_heap h m) = h.
Proof. done. Qed.
Lemma windows_with_heap h m : windows (with_heap h m) = windows m.
Proof. done. Qed.
Lemma with_heap_with_heap h1 h2 m : with_heap h1 (with_heap h2 m) = with_heap h1 m.
Proof. done. Qed.
Lemma upd_cell_with_heap c f h m :
  upd_cell c f (with_heap h m) = with_heap (alter f c h) m.
Proof. done. Qed.

Lemma make_children_eq self lm cb cm ct rm m :
  self < length (heap m) ->
  id_bl (cell m self) < length (windows m) ->
  id_br (cell m self) < length (windows m) ->
  id_tl (cell m self) < length (windows m) ->
  id_tr (cell m self) < length (windows m) ->
  lm < length (windows m) -> cb < length (windows m) ->
  cm < length (windows m) -> ct < length (windows m) ->
  rm < length (windows m) ->
  make_children self lm cb cm ct rm m =
    (Ok (fresh_children m),
     with_heap (heap_with_children self lm cb cm ct rm m) m).
Proof.
  intros Hself ? ? ? ? ? ? ? ? ?.
  unfold make_children. unfold bind at 1, get. cbv beta iota.
  unfold bind at 1. rewrite new_GridCell_ok by done. cbv beta iota.
  unfold bind at 1. rewrite new_GridCell_ok by done. cbv beta iota.
  unfold bind at 1. rewrite new_GridCell_ok by done. cbv beta iota.
  unfold bind at 1. rewrite new_GridCell_ok by done. cbv beta iota.
  unfold bind, modify, ret. cbv beta iota.
  rewrite !heap_with_heap, !with_heap_with_heap, !upd_cell_with_heap.
  unfold fresh_children, heap_with_children.
  rewrite !length_app. cbn [length].
  set (k := length (heap m)).
  replace (k + 1 + 1 + 1) with (k + 3) by lia.
  replace (k + 1 + 1) with (k + 2) by lia.
  f_equal. f_equal.
  rewrite <- !app_assoc. cbn [app].
  set (F := set_children (Some (mkChildren k (k + 1) (k + 2) (k + 3)))).
  rewrite (alter_app_l F) by done.
  assert (Hk : length (alter F self (heap m)) = k) by apply length_alter.
  repeat first
    [ rewrite (alter_app_r_len _ _ _ k _ Hk)
    | rewrite (alter_app_r_len0 _ _ _ k Hk) ].
  reflexivity.
Qed.


(** * The invariant of the mesh *)

(** Neighbour symmetry, for both directions. *)
Definition Sym (m : MultiGrid) : Prop :=
  forall d a b, out_of d (cell m a) = Some b <-> back_of d (cell m b) = Some a.

(** The children of the neighbour of [p] on one side. *)
Definition nchildren (m : MultiGrid) (side : GridCell -> option nat) (p : nat)
  : option Children :=
  match side (cell m p) with
  | Some n => children (cell m n)
  | None => None
  end.

(** The children on the far edge and on the near edge of a direction. *)
Definition out_edge (d : dir) (ch : Children) (x : nat) : Prop :=
  match d with
  | NS => x = ch_tl ch \/ x = ch_tr ch
  | EW => x = ch_br ch \/ x = ch_tr ch
  end.
Definition back_edge (d : dir) (ch : Children) (x : nat) : Prop :=
  match d with
  | NS => x = ch_bl ch \/ x = ch_br ch
  | EW => x = ch_bl ch \/ x = ch_tl ch
  end.

(** A child has a neighbour across an edge of its parent only when the
    parent's neighbour across that edge has children. *)
Definition Origin (m : MultiGrid) : Prop :=
  forall d p ch x, children (cell m p) = Some ch ->
    (out_edge d ch x -> is_Some (out_of d (cell m x)) ->
     is_Some (nchildren m (out_of d) p)) /\
    (back_edge d ch x -> is_Some (back_of d (cell m x)) ->
     is_Some (nchildren m (back_of d) p)).

(** The corner windows on the far and near edge of a direction. *)
Definition out_ids (d : dir) (c : GridCell) : nat * nat :=
  match d with NS => (id_tl c, id_tr c) | EW => (id_br c, id_tr c) end.
Definition back_ids (d : dir) (c : GridCell) : nat * nat :=
  match d with NS => (id_bl c, id_br c) | EW => (id_bl c, id_tl c) end.

(** No cell is its own neighbour. *)
Definition NoLoop (m : MultiGrid) : Prop :=
  forall d a, out_of d (cell m a) <> Some a.

Definition NbTier (m : MultiGrid) : Prop :=
  forall d a b, out_of d (cell m a) = Some b -> tier (cell m b) = tier (cell m a).

(** Neighbours share the two windows of their common edge. *)
Definition NbIds (m : MultiGrid) : Prop :=
  forall d a b, out_of d (cell m a) = Some b ->
    back_ids d (cell m b) = out_ids d (cell m a).

(** The window in the middle of the far edge, and of the near edge, as the
    children hold it. *)
Definition mid_out (d : dir) (m : MultiGrid) (ch : Children) : nat :=
  match d with
  | NS => id_tr (cell m (ch_tl ch))
  | EW => id_tr (cell m (ch_br ch))
  end.
Definition mid_back (d : dir) (m : MultiGrid) (ch : Children) : nat :=
  match d with
  | NS => id_br (cell m (ch_bl ch))
  | EW => id_tl (cell m (ch_bl ch))
  end.

(** Two neighbours that both have children hold one and the same window
    in the middle of their common edge. *)
Definition Shared (m : MultiGrid) : Prop :=
  forall d a b cha chb, out_of d (cell m a) = Some b ->
    children (cell m a) = Some cha -> children (cell m b) = Some chb ->
    mid_out d m cha = mid_back d m chb.

Definition is_child (ch : Children) (x : nat) : Prop :=
  x = ch_bl ch \/ x = ch_br ch \/ x = ch_tl ch \/ x = ch_tr ch.

(** The shape of the children of a cell: four consecutive objects created
    after the parent, one tier below it, that point back to it and share
    the nine windows as [split] lays them out. *)
Record child_shape (m : MultiGrid) (p : nat) (ch : Children) : Prop := {
  cs_order : p < ch_bl ch;
  cs_br : ch_br ch = ch_bl ch + 1;
  cs_tl : ch_tl ch = ch_bl ch + 2;
  cs_tr : ch_tr ch = ch_bl ch + 3;
  cs_valid : ch_tr ch < length (heap m);
  cs_parent : forall x, is_child ch x -> parent (cell m x) = Some p;
  cs_tier : forall x, is_child ch x -> tier (cell m x) = S (tier (cell m p));
  cs_bl : id_bl (cell m (ch_bl ch)) = id_bl (cell m p);
  cs_brr : id_br (cell m (ch_br ch)) = id_br (cell m p);
  cs_tll : id_tl (cell m (ch_tl ch)) = id_tl (cell m p);
  cs_trr : id_tr (cell m (ch_tr ch)) = id_tr (cell m p);
  cs_cb : id_br (cell m (ch_bl ch)) = id_bl (cell m (ch_br ch));
  cs_lm : id_tl (cell m (ch_bl ch)) = id_bl (cell m (ch_tl ch));
  cs_cm1 : id_tr (cell m (ch_bl ch)) = id_bl (cell m (ch_tr ch));
  cs_cm2 : id_tl (cell m (ch_br ch)) = id_bl (cell m (ch_tr ch));
  cs_cm3 : id_br (cell m (ch_tl ch)) = id_bl (cell m (ch_tr ch));
  cs_rm : id_tr (cell m (ch_br ch)) = id_br (cell m (ch_tr ch));
  cs_ct : id_tr (cell m (ch_tl ch)) = id_tl (cell m (ch_tr ch))
}.

Definition ChildrenOK (m : MultiGrid) : Prop :=
  forall p ch, children (cell m p) = Some ch -> child_shape m p ch.

Definition IdsValid (m : MultiGrid) : Prop :=
  forall c, c < length (heap m) ->
    id_bl (cell m c) < length (windows m) /\
    id_br (cell m c) < length (windows m) /\
    id_tl (cell m c) < length (windows m) /\
    id_tr (cell m c) < length (windows m).

(** Every object is a root, one of the cells of the top tier, or a child
    of the cell its [parent] field names. *)
Definition ParentOK (m : MultiGrid) : Prop :=
  forall c, c < length (heap m) ->
    match parent (cell m c) with
    | None => tier (cell m c) = 0 /\ c < cells_in_top_tier m
    | Some p => exists ch, children (cell m p) = Some ch /\ is_child ch c
    end.

(** The cells of the top tier are the first objects, in order. *)
Definition RootsOK (m : MultiGrid) : Prop :=
  cells_in_top_tier m <= length (heap m) /\
  take (cells_in_top_tier m) (cells m) = seq 0 (cells_in_top_tier m) /\
  (forall c, c ∈ cells m -> c < length (heap m)) /\
  (forall c, c < cells_in_top_tier m -> parent (cell m c) = None).

Record HeapWF (m : MultiGrid) : Prop := {
  wf_sym : Sym m;
  wf_origin : Origin m;
  wf_nb_tier : NbTier m;
  wf_nb_ids : NbIds m;
  wf_noloop : NoLoop m;
  wf_shared : Shared m;
  wf_children : ChildrenOK m;
  wf_ids : IdsValid m;
  wf_parent : ParentOK m;
  wf_roots : RootsOK m
}.

(** ** Consequences *)

Lemma cell_default m c : length (heap m) <= c -> cell m c = inhabitant.
Proof.
  intros. unfold cell. rewrite list_lookup_total_alt.
  by rewrite lookup_ge_None_2.
Qed.

Lemma out_valid m d a b :
  out_of d (cell m a) = Some b -> a < length (heap m).
Proof.
  intros H. destruct (decide (a < length (heap m))); [done|].
  rewrite cell_default in H by lia. by destruct d.
Qed.

Lemma back_valid m d a b :
  back_of d (cell m b) = Some a -> b < length (heap m).
Proof.
  intros H. destruct (decide (b < length (heap m))); [done|].
  rewrite cell_default in H by lia. by destruct d.
Qed.

Lemma children_valid m p ch :
  children (cell m p) = Some ch -> p < length (heap m).
Proof.
  intros H. destruct (decide (p < length (heap m))); [done|].
  by rewrite cell_default in H by lia.
Qed.

Lemma Sym_out_valid m d a b :
  Sym m -> out_of d (cell m a) = Some b -> b < length (heap m).
Proof. intros Hs H. apply Hs in H. eauto using back_valid. Qed.

Lemma Sym_back_valid m d a b :
  Sym m -> back_of d (cell m b) = Some a -> a < length (heap m).
Proof. intros Hs H. apply Hs in H. eauto using out_valid. Qed.

(** ** A link preserves the invariant *)

Record link_pre (m : MultiGrid) (d : dir) (a b : nat) : Prop := {
  lp_a : a < length (heap m);
  lp_b : b < length (heap m);
  lp_ne : a <> b;
  lp_leaf : children (cell m a) = None \/ children (cell m b) = None;
  lp_out : out_of d (cell m a) = None;
  lp_back : back_of d (cell m b) = None;
  lp_tier : tier (cell m b) = tier (cell m a);
  lp_ids : back_ids d (cell m b) = out_ids d (cell m a);
  lp_origin : forall p ch, children (cell m p) = Some ch ->
    (out_edge d ch a -> is_Some (nchildren m (out_of d) p)) /\
    (back_edge d ch b -> is_Some (nchildren m (back_of d) p))
}.

Ltac skel H c :=
  let H' := fresh in
  destruct H as (?&?&?&?&?&?&?&?&H');
  pose proof (H' c) as (?&?&?&?&?&?&?&?&?).

Lemma skel_cell m m' : same_skeleton m m' ->
  forall c, id_bl (cell m' c) = id_bl (cell m c) /\
            id_br (cell m' c) = id_br (cell m c) /\
            id_tl (cell m' c) = id_tl (cell m c) /\
            id_tr (cell m' c) = id_tr (cell m c) /\
            tier (cell m' c) = tier (cell m c) /\
            ix (cell m' c) = ix (cell m c) /\ iy (cell m' c) = iy (cell m c) /\
            children (cell m' c) = children (cell m c) /\
            parent (cell m' c) = parent (cell m c).
Proof. by intros (?&?&?&?&?&?&?&?&H). Qed.

Lemma skel_children m m' c :
  same_skeleton m m' -> children (cell m' c) = children (cell m c).
Proof. intros H. by destruct (skel_cell _ _ H c) as (?&?&?&?&?&?&?&?&?). Qed.
Lemma skel_tier m m' c :
  same_skeleton m m' -> tier (cell m' c) = tier (cell m c).
Proof. intros H. by destruct (skel_cell _ _ H c) as (?&?&?&?&?&?&?&?&?). Qed.
Lemma skel_parent m m' c :
  same_skeleton m m' -> parent (cell m' c) = parent (cell m c).
Proof. intros H. by destruct (skel_cell _ _ H c) as (?&?&?&?&?&?&?&?&?). Qed.
Lemma skel_length m m' :
  same_skeleton m m' -> length (heap m') = length (heap m).
Proof. by intros (?&?). Qed.
Lemma skel_out_ids m m' d c :
  same_skeleton m m' -> out_ids d (cell m' c) = out_ids d (cell m c).
Proof.
  intros H. destruct (skel_cell _ _ H c) as (?&?&?&?&?&?&?&?&?).
  destruct d; simpl; congruence.
Qed.
Lemma skel_back_ids m m' d c :
  same_skeleton m m' -> back_ids d (cell m' c) = back_ids d (cell m c).
Proof.
  intros H. destruct (skel_cell _ _ H c) as (?&?&?&?&?&?&?&?&?).
  destruct d; simpl; congruence.
Qed.

Lemma child_shape_skel m m' p ch :
  same_skeleton m m' -> child_shape m p ch -> child_shape m' p ch.
Proof.
  intros Hs [].
  pose proof (skel_cell _ _ Hs) as Hc.
  pose proof (skel_length _ _ Hs) as Hl.
  split; try done; try lia.
  - intros x Hx. destruct (Hc x) as (?&?&?&?&?&?&?&?&->). auto.
  - intros x Hx. destruct (Hc x) as (?&?&?&?&->&?&?&?&?).
    destruct (Hc p) as (?&?&?&?&->&?&?&?&?). auto.
  - destruct (Hc (ch_bl ch)) as (->&?&?&?&?&?&?&?&?).
    by destruct (Hc p) as (->&?&?&?&?&?&?&?&?).
  - destruct (Hc (ch_br ch)) as (?&->&?&?&?&?&?&?&?).
    by destruct (Hc p) as (?&->&?&?&?&?&?&?&?).
  - destruct (Hc (ch_tl ch)) as (?&?&->&?&?&?&?&?&?).
    by destruct (Hc p) as (?&?&->&?&?&?&?&?&?).
  - destruct (Hc (ch_tr ch)) as (?&?&?&->&?&?&?&?&?).
    by destruct (Hc p) as (?&?&?&->&?&?&?&?&?).
  - destruct (Hc (ch_bl ch)) as (?&->&?&?&?&?&?&?&?).
    by destruct (Hc (ch_br ch)) as (->&?&?&?&?&?&?&?&?).
  - destruct (Hc (ch_bl ch)) as (?&?&->&?&?&?&?&?&?).
    by destruct (Hc (ch_tl ch)) as (->&?&?&?&?&?&?&?&?).
  - destruct (Hc (ch_bl ch)) as (?&?&?&->&?&?&?&?&?).
    by destruct (Hc (ch_tr ch)) as (->&?&?&?&?&?&?&?&?).
  - destruct (Hc (ch_br ch)) as (?&?&->&?&?&?&?&?&?).
    by destruct (Hc (ch_tr ch)) as (->&?&?&?&?&?&?&?&?).
  - destruct (Hc (ch_tl ch)) as (?&->&?&?&?&?&?&?&?).
    by destruct (Hc (ch_tr ch)) as (->&?&?&?&?&?&?&?&?).
  - destruct (Hc (ch_br ch)) as (?&?&?&->&?&?&?&?&?).
    by destruct (Hc (ch_tr ch)) as (?&->&?&?&?&?&?&?&?).
  - destruct (Hc (ch_tl ch)) as (?&?&?&->&?&?&?&?&?).
    by destruct (Hc (ch_tr ch)) as (?&?&->&?&?&?&?&?&?).
Qed.


Lemma nchildren_link_out m d a b d' p :
  link_pre m d a b ->
  is_Some (nchildren m (out_of d') p) ->
  nchildren (link d a b m) (out_of d') p = nchildren m (out_of d') p.
Proof.
  intros Hp. unfold nchildren. rewrite out_of_link by apply Hp.
  case_decide as Hc.
  - destruct Hc as [-> ->]. rewrite (lp_out _ _ _ _ Hp). by intros [? ?].
  - intros _. destruct (out_of d' (cell m p)); [|done].
    apply skel_children, same_skeleton_link.
Qed.

Lemma nchildren_link_back m d a b d' p :
  link_pre m d a b ->
  is_Some (nchildren m (back_of d') p) ->
  nchildren (link d a b m) (back_of d') p = nchildren m (back_of d') p.
Proof.
  intros Hp. unfold nchildren. rewrite back_of_link by apply Hp.
  case_decide as Hc.
  - destruct Hc as [-> ->]. rewrite (lp_back _ _ _ _ Hp). by intros [? ?].
  - intros _. destruct (back_of d' (cell m p)); [|done].
    apply skel_children, same_skeleton_link.
Qed.

Lemma Sym_link m d a b : Sym m -> link_pre m d a b -> Sym (link d a b m).
Proof.
  intros Hs Hp d' x y.
  rewrite out_of_link, back_of_link by apply Hp.
  destruct (decide (d' = d)) as [->|Hd].
  - destruct (decide (x = a)) as [->|Hx], (decide (y = b)) as [->|Hy].
    + rewrite !decide_True by done. done.
    + rewrite decide_True, decide_False by naive_solver.
      split; [naive_solver|]. intros H%Hs.
      rewrite (lp_out _ _ _ _ Hp) in H. done.
    + rewrite decide_False, decide_True by naive_solver.
      split; [|naive_solver]. intros H%Hs.
      rewrite (lp_back _ _ _ _ Hp) in H. done.
    + rewrite !decide_False by naive_solver. apply Hs.
  - rewrite !decide_False by naive_solver. apply Hs.
Qed.

Lemma NbTier_link m d a b : NbTier m -> link_pre m d a b -> NbTier (link d a b m).
Proof.
  intros Ht Hp d' x y. rewrite out_of_link by apply Hp.
  rewrite (skel_tier m _ x), (skel_tier m _ y) by apply same_skeleton_link.
  case_decide as Hc.
  - destruct Hc as [-> ->]. intros [= <-]. apply Hp.
  - apply Ht.
Qed.

Lemma NbIds_link m d a b : NbIds m -> link_pre m d a b -> NbIds (link d a b m).
Proof.
  intros Ht Hp d' x y. rewrite out_of_link by apply Hp.
  rewrite (skel_out_ids m _ _ x), (skel_back_ids m _ _ y)
    by apply same_skeleton_link.
  case_decide as Hc.
  - destruct Hc as [-> ->]. intros [= <-]. apply Hp.
  - apply Ht.
Qed.

Lemma Origin_link m d a b : Origin m -> link_pre m d a b -> Origin (link d a b m).
Proof.
  intros Ho Hp d' p ch x. rewrite (skel_children m) by apply same_skeleton_link.
  intros Hch. rewrite out_of_link, back_of_link by apply Hp.
  destruct (Ho d' p ch x Hch) as [Ho1 Ho2].
  destruct (lp_origin _ _ _ _ Hp p ch Hch) as [Hp1 Hp2].
  split.
  - intros He Hx.
    assert (is_Some (nchildren m (out_of d') p)) as Hn.
    { case_decide as Hc; [|auto]. destruct Hc as [-> ->]. auto. }
    by rewrite nchildren_link_out.
  - intros He Hx.
    assert (is_Some (nchildren m (back_of d') p)) as Hn.
    { case_decide as Hc; [|auto]. destruct Hc as [-> ->]. auto. }
    by rewrite nchildren_link_back.
Qed.

Lemma NoLoop_link m d a b : NoLoop m -> link_pre m d a b -> NoLoop (link d a b m).
Proof.
  intros Hn Hp d' x. rewrite out_of_link by apply Hp.
  case_decide as Hc.
  - destruct Hc as [-> ->]. intros [= <-]. by apply (lp_ne _ _ _ _ Hp).
  - apply Hn.
Qed.

Lemma skel_mid_out m m' d ch :
  same_skeleton m m' -> mid_out d m' ch = mid_out d m ch.
Proof.
  intros H. unfold mid_out.
  destruct (skel_cell _ _ H (ch_tl ch)) as (?&?&?&?&?).
  destruct (skel_cell _ _ H (ch_br ch)) as (?&?&?&?&?).
  by destruct d.
Qed.
Lemma skel_mid_back m m' d ch :
  same_skeleton m m' -> mid_back d m' ch = mid_back d m ch.
Proof.
  intros H. unfold mid_back.
  destruct (skel_cell _ _ H (ch_bl ch)) as (?&?&?&?&?).
  by destruct d.
Qed.

Lemma Shared_link m d a b : Shared m -> link_pre m d a b -> Shared (link d a b m).
Proof.
  intros Hsh Hp d' x y cha chb. rewrite out_of_link by apply Hp.
  rewrite (skel_children m _ x), (skel_children m _ y),
    (skel_mid_out m), (skel_mid_back m) by apply same_skeleton_link.
  case_decide as Hc.
  - destruct Hc as [-> ->]. intros [= <-] Ha Hb.
    destruct (lp_leaf _ _ _ _ Hp); congruence.
  - apply Hsh.
Qed.

Lemma HeapWF_skel_nb m m' :
  same_skeleton m m' ->
  Sym m' -> Origin m' -> NbTier m' -> NbIds m' -> NoLoop m' -> Shared m' ->
  HeapWF m -> HeapWF m'.
Proof.
  intros Hs ? ? ? ? ? ? [_ _ _ _ _ _ wf_children0 wf_ids0 wf_parent0 wf_roots0].
  pose proof (skel_length _ _ Hs) as Hl.
  split; try done.
  - intros p ch. rewrite (skel_children m) by done.
    intros. eapply child_shape_skel; eauto.
  - intros c. rewrite Hl. intros Hc. specialize (wf_ids0 c Hc).
    destruct Hs as (?&Hw&?&?&?&?&?&?&Hcell).
    destruct (Hcell c) as (->&->&->&->&?). rewrite Hw. auto.
  - intros c. rewrite Hl. intros Hc.
    rewrite (skel_parent m _ c), (skel_tier m _ c) by done.
    specialize (wf_parent0 c Hc).
    destruct (parent (cell m c)) as [p|].
    + destruct wf_parent0 as (ch&?&?). exists ch.
      by rewrite (skel_children m).
    + destruct Hs as (?&?&?&?&?&?&?&->&?). done.
  - destruct wf_roots0 as (?&?&?&?).
    destruct Hs as (?&?&?&Hc&?&?&?&Ht&Hcell).
    unfold RootsOK. rewrite Ht, Hc, Hl. repeat split; try done.
    intros c Hlt. destruct (Hcell c) as (?&?&?&?&?&?&?&?&->). auto.
Qed.

Lemma HeapWF_link m d a b : HeapWF m -> link_pre m d a b -> HeapWF (link d a b m).
Proof.
  intros Hwf Hp. apply (HeapWF_skel_nb m); [apply same_skeleton_link|..|done].
  - apply Sym_link; [apply Hwf|done].
  - apply Origin_link; [apply Hwf|done].
  - apply NbTier_link; [apply Hwf|done].
  - apply NbIds_link; [apply Hwf|done].
  - apply NoLoop_link; [apply Hwf|done].
  - apply Shared_link; [apply Hwf|done].
Qed.

(** ** A list of links *)

Definition link_src (l : dir * nat * nat) : dir * nat := (l.1.1, l.1.2).
Definition link_dst (l : dir * nat * nat) : dir * nat := (l.1.1, l.2).

Lemma link_pre_link m d a b d' a' b' :
  link_pre m d a b -> link_pre m d' a' b' ->
  (d, a) <> (d', a') -> (d, b) <> (d', b') ->
  link_pre (link d a b m) d' a' b'.
Proof.
  intros Hp Hp' Ha Hb.
  pose proof (same_skeleton_link d a b m) as Hs.
  destruct Hp' as [? ? ? ? ? ? ? ? lp_origin0].
  split.
  - by rewrite (skel_length m).
  - by rewrite (skel_length m).
  - done.
  - by rewrite (skel_children m _ a'), (skel_children m _ b').
  - rewrite out_of_link by apply Hp. rewrite decide_False; [done|].
    intros [-> ->]. done.
  - rewrite back_of_link by apply Hp. rewrite decide_False; [done|].
    intros [-> ->]. done.
  - by rewrite (skel_tier m _ a'), (skel_tier m _ b').
  - by rewrite (skel_out_ids m _ _ a'), (skel_back_ids m _ _ b').
  - intros p ch. rewrite (skel_children m) by done. intros Hch.
    destruct (lp_origin0 p ch Hch) as [H1 H2]. split.
    + intros He. rewrite nchildren_link_out; auto.
    + intros He. rewrite nchildren_link_back; auto.
Qed.

Lemma HeapWF_apply_links ls m :
  HeapWF m ->
  Forall (fun l => link_pre m l.1.1 l.1.2 l.2) ls ->
  NoDup (link_src <$> ls) -> NoDup (link_dst <$> ls) ->
  HeapWF (apply_links ls m).
Proof.
  revert m. induction ls as [|[[d a] b] ls IH]; intros m Hwf Hall Hs Hd; [done|].
  simpl. inversion Hall as [|?? Hp Hrest]; subst. simpl in Hp.
  rewrite fmap_cons in Hs, Hd. apply list.NoDup_cons in Hs as [Hs1 Hs2].
  apply list.NoDup_cons in Hd as [Hd1 Hd2].
  apply IH; [by apply HeapWF_link| |done|done].
  rewrite list.Forall_forall in Hrest. apply list.Forall_forall.
  intros [[d' a'] b'] Hin. simpl.
  apply link_pre_link; [done|by apply (Hrest _ Hin)|..].
  - intros Heq. apply Hs1. apply list_elem_of_fmap.
    exists (d', a', b'). split; [exact Heq|done].
  - intros Heq. apply Hd1. apply list_elem_of_fmap.
    exists (d', a', b'). split; [exact Heq|done].
Qed.


(** ** The store after [make_children] *)

Section make_children.
Variables (m : MultiGrid) (self lm cb cm ct rm : nat).
Hypothesis Hself : self < length (heap m).

Let k := length (heap m).
Let mB := with_heap (heap_with_children self lm cb cm ct rm m) m.
Let c := cell m self.

Lemma heap_with_children_length :
  length (heap_with_children self lm cb cm ct rm m) = length (heap m) + 4.
Proof.
  unfold heap_with_children. rewrite length_app, length_alter. done.
Qed.

Lemma cell_with_children j :
  cell (with_heap (heap_with_children self lm cb cm ct rm m) m) j =
    if decide (j = self) then set_children (Some (fresh_children m)) (cell m self)
    else if decide (j = length (heap m)) then child_bl self (cell m self) lm cb cm ct rm
    else if decide (j = length (heap m) + 1) then child_br self (cell m self) lm cb cm ct rm
    else if decide (j = length (heap m) + 2) then child_tl self (cell m self) lm cb cm ct rm
    else if decide (j = length (heap m) + 3) then child_tr self (cell m self) lm cb cm ct rm
    else cell m j.
Proof.
  unfold cell. rewrite heap_with_heap. unfold heap_with_children.
  destruct (decide (j < length (heap m))) as [Hj|Hj].
  - rewrite lookup_total_app_l by (by rewrite length_alter).
    rewrite list_lookup_total_alter.
    repeat case_decide; try lia; naive_solver.
  - rewrite lookup_total_app_r by (rewrite length_alter; lia).
    rewrite length_alter.
    rewrite decide_False by lia.
    destruct (decide (j = length (heap m))) as [->|?].
    { by rewrite Nat.sub_diag. }
    destruct (decide (j = length (heap m) + 1)) as [->|?].
    { by replace (length (heap m) + 1 - length (heap m)) with 1 by lia. }
    destruct (decide (j = length (heap m) + 2)) as [->|?].
    { by replace (length (heap m) + 2 - length (heap m)) with 2 by lia. }
    destruct (decide (j = length (heap m) + 3)) as [->|?].
    { by replace (length (heap m) + 3 - length (heap m)) with 3 by lia. }
    rewrite !list_lookup_total_alt.
    rewrite (lookup_ge_None_2 (heap m)) by lia.
    rewrite lookup_ge_None_2; [done|]. simpl. lia.
Qed.

(** Neighbour fields are untouched, and the new objects have none. *)
Lemma out_of_with_children d j :
  out_of d (cell (with_heap (heap_with_children self lm cb cm ct rm m) m) j) =
    out_of d (cell m j).
Proof.
  rewrite cell_with_children.
  destruct (decide (j = self)) as [->|?]; [by destruct d|].
  repeat case_decide; try done;
    rewrite (cell_default m j) by lia; by destruct d.
Qed.

Lemma back_of_with_children d j :
  back_of d (cell (with_heap (heap_with_children self lm cb cm ct rm m) m) j) =
    back_of d (cell m j).
Proof.
  rewrite cell_with_children.
  destruct (decide (j = self)) as [->|?]; [by destruct d|].
  repeat case_decide; try done;
    rewrite (cell_default m j) by lia; by destruct d.
Qed.

(** An object that was there keeps everything but its children. *)
Lemma old_with_children j :
  j < length (heap m) ->
  let c' := cell (with_heap (heap_with_children self lm cb cm ct rm m) m) j in
  id_bl c' = id_bl (cell m j) /\ id_br c' = id_br (cell m j) /\
  id_tl c' = id_tl (cell m j) /\ id_tr c' = id_tr (cell m j) /\
  tier c' = tier (cell m j) /\ ix c' = ix (cell m j) /\
  iy c' = iy (cell m j) /\ parent c' = parent (cell m j) /\
  children c' = if decide (j = self) then Some (fresh_children m)
                else children (cell m j).
Proof.
  intros Hj. simpl. rewrite cell_with_children.
  repeat case_decide; subst; try lia; done.
Qed.

Hypothesis Hwf : HeapWF m.
Hypothesis Hleaf : children (cell m self) = None.
Hypothesis Hlm : lm < length (windows m).
Hypothesis Hcb : cb < length (windows m).
Hypothesis Hcm : cm < length (windows m).
Hypothesis Hct : ct < length (windows m).
Hypothesis Hrm : rm < length (windows m).
Hypothesis Hlm_reused : forall wc,
  nchildren m west self = Some wc -> lm = id_tr (cell m (ch_br wc)).
Hypothesis Hcb_reused : forall sc,
  nchildren m south self = Some sc -> cb = id_tr (cell m (ch_tl sc)).
Hypothesis Hct_reused : forall nc,
  nchildren m north self = Some nc -> ct = id_bl (cell m (ch_br nc)).
Hypothesis Hrm_reused : forall ec,
  nchildren m east self = Some ec -> rm = id_tl (cell m (ch_bl ec)).

Lemma children_with_children p ch :
  children (cell mB p) = Some ch ->
  (p = self /\ ch = fresh_children m) \/
  (p <> self /\ children (cell m p) = Some ch).
Proof.
  unfold mB. rewrite cell_with_children.
  repeat case_decide; subst; try done.
  - intros [= <-]. by left.
  - intros. by right.
Qed.

Lemma children_with_children_mono p ch :
  children (cell m p) = Some ch -> children (cell mB p) = Some ch.
Proof.
  intros Hch. pose proof (children_valid _ _ _ Hch) as Hp. unfold mB.
  destruct (old_with_children p Hp) as (_&_&_&_&_&_&_&_&->).
  case_decide; [congruence|done].
Qed.

Lemma nchildren_with_children side p :
  (side = out_of NS \/ side = out_of EW \/ side = back_of NS \/ side = back_of EW) ->
  is_Some (nchildren m side p) -> is_Some (nchildren mB side p).
Proof.
  intros Hside. unfold nchildren.
  assert (side (cell mB p) = side (cell m p)) as ->.
  { destruct Hside as [-> | [-> | [-> | ->]]];
      auto using out_of_with_children, back_of_with_children. }
  destruct (side (cell m p)) as [n|]; [|done].
  intros [ch Hch]. exists ch. by apply children_with_children_mono.
Qed.

Lemma Sym_with_children : Sym mB.
Proof.
  intros d a b. unfold mB.
  rewrite out_of_with_children, back_of_with_children. apply Hwf.
Qed.

Lemma NbTier_with_children : NbTier mB.
Proof.
  intros d a b. unfold mB. rewrite out_of_with_children. intros Hab.
  pose proof (out_valid _ _ _ _ Hab) as Ha.
  pose proof (Sym_out_valid _ _ _ _ (wf_sym _ Hwf) Hab) as Hb.
  destruct (old_with_children a Ha) as (_&_&_&_&Hta&_).
  destruct (old_with_children b Hb) as (_&_&_&_&Htb&_).
  unfold mB. rewrite Hta, Htb.
  by apply (wf_nb_tier _ Hwf d).
Qed.

Lemma NbIds_with_children : NbIds mB.
Proof.
  intros d a b. unfold mB. rewrite out_of_with_children. intros Hab.
  pose proof (out_valid _ _ _ _ Hab) as Ha.
  pose proof (Sym_out_valid _ _ _ _ (wf_sym _ Hwf) Hab) as Hb.
  destruct (old_with_children a Ha) as (Ha1&Ha2&Ha3&Ha4&_).
  destruct (old_with_children b Hb) as (Hb1&Hb2&Hb3&Hb4&_).
  pose proof (wf_nb_ids _ Hwf d a b Hab) as Hids. unfold mB.
  destruct d; simpl in *; congruence.
Qed.

Lemma NoLoop_with_children : NoLoop mB.
Proof.
  intros d a. unfold mB. rewrite out_of_with_children. apply Hwf.
Qed.

Lemma mid_out_fresh d :
  mid_out d mB (fresh_children m) = match d with NS => ct | EW => rm end.
Proof.
  unfold mid_out, mB, fresh_children. cbn [ch_tl ch_br].
  rewrite !cell_with_children. rewrite !decide_False by lia.
  rewrite !decide_True by done.
  rewrite !decide_False by lia. rewrite decide_True by done. by destruct d.
Qed.

Lemma mid_back_fresh d :
  mid_back d mB (fresh_children m) = match d with NS => cb | EW => lm end.
Proof.
  unfold mid_back, mB, fresh_children. cbn [ch_bl].
  rewrite !cell_with_children. rewrite !decide_False by lia.
  rewrite !decide_True by done. by destruct d.
Qed.

Lemma mid_out_old d p ch :
  children (cell m p) = Some ch -> mid_out d mB ch = mid_out d m ch.
Proof.
  intros Hch. pose proof (wf_children _ Hwf p ch Hch) as Hsh.
  pose proof (cs_valid _ _ _ Hsh). pose proof (cs_tr _ _ _ Hsh).
  pose proof (cs_tl _ _ _ Hsh). pose proof (cs_br _ _ _ Hsh).
  unfold mid_out, mB.
  destruct (old_with_children (ch_tl ch)) as (_&_&_&->&_); [lia|].
  destruct (old_with_children (ch_br ch)) as (_&_&_&->&_); [lia|]. done.
Qed.

Lemma mid_back_old d p ch :
  children (cell m p) = Some ch -> mid_back d mB ch = mid_back d m ch.
Proof.
  intros Hch. pose proof (wf_children _ Hwf p ch Hch) as Hsh.
  pose proof (cs_valid _ _ _ Hsh). pose proof (cs_tr _ _ _ Hsh).
  unfold mid_back, mB.
  destruct (old_with_children (ch_bl ch)) as (_&Hb&Ht&_); [lia|].
  rewrite Hb, Ht. done.
Qed.

Lemma Shared_with_children : Shared mB.
Proof.
  intros d a b cha chb. unfold mB at 1. rewrite out_of_with_children.
  intros Hab Ha Hb.
  assert (a <> b) as Hne.
  { intros ->. by apply (wf_noloop _ Hwf d b). }
  destruct (children_with_children a cha Ha) as [[-> ->]|[Hna Ha']];
  destruct (children_with_children b chb Hb) as [[-> ->]|[Hnb Hb']];
    try done.
  - rewrite mid_out_fresh, (mid_back_old d b chb Hb').
    pose proof (wf_children _ Hwf b chb Hb') as Hsh.
    destruct d; simpl.
    + rewrite (Hct_reused chb); [by rewrite (cs_cb _ _ _ Hsh)|].
      unfold nchildren. simpl in Hab. by rewrite Hab.
    + rewrite (Hrm_reused chb); [done|].
      unfold nchildren. simpl in Hab. by rewrite Hab.
  - rewrite mid_back_fresh, (mid_out_old d a cha Ha').
    apply (wf_sym _ Hwf) in Hab.
    destruct d; simpl.
    + rewrite (Hcb_reused cha); [done|].
      unfold nchildren. simpl in Hab. by rewrite Hab.
    + rewrite (Hlm_reused cha); [done|].
      unfold nchildren. simpl in Hab. by rewrite Hab.
  - rewrite (mid_out_old d a cha Ha'), (mid_back_old d b chb Hb').
    by apply (wf_shared _ Hwf d a b).
Qed.

Lemma Origin_with_children : Origin mB.
Proof.
  intros d p ch x Hch.
  destruct (children_with_children p ch Hch) as [[-> ->]|[Hne Hch']].
  - split; intros He [y Hy]; exfalso.
    + unfold mB in Hy. rewrite out_of_with_children in Hy.
      apply out_valid in Hy.
      destruct d; simpl in He; destruct He as [->| ->]; simpl in Hy; lia.
    + unfold mB in Hy. rewrite back_of_with_children in Hy.
      apply back_valid in Hy.
      destruct d; simpl in He; destruct He as [->| ->]; simpl in Hy; lia.
  - destruct (wf_origin _ Hwf d p ch x Hch') as [H1 H2]. split.
    + intros He Hx. unfold mB in Hx. rewrite out_of_with_children in Hx.
      apply nchildren_with_children; [destruct d; auto|auto].
    + intros He Hx. unfold mB in Hx. rewrite back_of_with_children in Hx.
      apply nchildren_with_children; [destruct d; auto|auto].
Qed.

Lemma fresh_is_child x :
  is_child (fresh_children m) x ->
  x = length (heap m) \/ x = length (heap m) + 1 \/
  x = length (heap m) + 2 \/ x = length (heap m) + 3.
Proof. unfold is_child, fresh_children. simpl. lia. Qed.

Lemma ChildrenOK_with_children : ChildrenOK mB.
Proof.
  intros p ch Hch.
  destruct (children_with_children p ch Hch) as [[-> ->]|[Hne Hch']].
  - assert (Hs : cell mB self = set_children (Some (fresh_children m)) (cell m self)).
    { unfold mB. rewrite cell_with_children. by rewrite decide_True. }
    assert (H0 : cell mB (length (heap m)) = child_bl self (cell m self) lm cb cm ct rm).
    { unfold mB. rewrite cell_with_children.
      rewrite decide_False by lia. by rewrite decide_True. }
    assert (H1 : cell mB (length (heap m) + 1) = child_br self (cell m self) lm cb cm ct rm).
    { unfold mB. rewrite cell_with_children.
      rewrite !decide_False by lia. by rewrite decide_True. }
    assert (H2 : cell mB (length (heap m) + 2) = child_tl self (cell m self) lm cb cm ct rm).
    { unfold mB. rewrite cell_with_children.
      rewrite !decide_False by lia. by rewrite decide_True. }
    assert (H3 : cell mB (length (heap m) + 3) = child_tr self (cell m self) lm cb cm ct rm).
    { unfold mB. rewrite cell_with_children.
      rewrite !decide_False by lia. by rewrite decide_True. }
    split; unfold fresh_children; simpl; rewrite ?H0, ?H1, ?H2, ?H3, ?Hs;
      try done; try lia.
    + unfold mB. rewrite ?heap_with_heap, ?heap_with_children_length. lia.
    + intros x Hx. apply fresh_is_child in Hx.
      destruct Hx as [-> | [-> | [-> | ->]]]; by rewrite ?H0, ?H1, ?H2, ?H3.
    + intros x Hx. apply fresh_is_child in Hx.
      destruct Hx as [-> | [-> | [-> | ->]]]; rewrite ?H0, ?H1, ?H2, ?H3;
        simpl; lia.
  - pose proof (wf_children _ Hwf p ch Hch') as Hsh.
    pose proof (children_valid _ _ _ Hch') as Hp.
    assert (Hold : forall x, is_child ch x -> x < length (heap m)).
    { intros x Hx. destruct Hsh. unfold is_child in Hx. lia. }
    assert (Hbl : is_child ch (ch_bl ch)) by (unfold is_child; auto).
    assert (Hbr : is_child ch (ch_br ch)) by (unfold is_child; auto).
    assert (Htl : is_child ch (ch_tl ch)) by (unfold is_child; auto).
    assert (Htr : is_child ch (ch_tr ch)) by (unfold is_child; auto).
    destruct (old_with_children p Hp) as (Hp1&Hp2&Hp3&Hp4&Hp5&_).
    destruct (old_with_children _ (Hold _ Hbl)) as (Ha1&Ha2&Ha3&Ha4&_).
    destruct (old_with_children _ (Hold _ Hbr)) as (Hb1&Hb2&Hb3&Hb4&_).
    destruct (old_with_children _ (Hold _ Htl)) as (Hc1&Hc2&Hc3&Hc4&_).
    destruct (old_with_children _ (Hold _ Htr)) as (Hd1&Hd2&Hd3&Hd4&_).
    destruct Hsh. unfold mB.
    split; try done; try congruence.
    + rewrite heap_with_heap, heap_with_children_length. lia.
    + intros x Hx.
      destruct (old_with_children x (Hold x Hx)) as (_&_&_&_&_&_&_&->&_).
      auto.
    + intros x Hx.
      destruct (old_with_children x (Hold x Hx)) as (_&_&_&_&->&_).
      rewrite Hp5. auto.
Qed.

Lemma IdsValid_with_children : IdsValid mB.
Proof.
  intros j. unfold mB. rewrite heap_with_heap, heap_with_children_length.
  rewrite windows_with_heap. intros Hj.
  pose proof (wf_ids _ Hwf self Hself) as (?&?&?&?).
  destruct (decide (j < length (heap m))) as [Hlt|Hge].
  - destruct (old_with_children j Hlt) as (->&->&->&->&_).
    by apply (wf_ids _ Hwf).
  - rewrite cell_with_children.
    rewrite decide_False by lia.
    repeat case_decide; try lia; simpl; auto.
Qed.

Lemma ParentOK_with_children : ParentOK mB.
Proof.
  intros j. unfold mB at 1. rewrite heap_with_heap, heap_with_children_length.
  intros Hj.
  assert (Hs : children (cell mB self) = Some (fresh_children m)).
  { unfold mB. rewrite cell_with_children. by rewrite decide_True. }
  destruct (decide (j < length (heap m))) as [Hlt|Hge].
  - destruct (old_with_children j Hlt) as (_&_&_&_&Ht&_&_&Hp&_).
    unfold mB. rewrite Hp, Ht.
    pose proof (wf_parent _ Hwf j Hlt) as Hpar.
    destruct (parent (cell m j)) as [p|]; [|done].
    destruct Hpar as (ch&Hch&Hin). exists ch. split; [|done].
    by apply children_with_children_mono.
  - unfold mB at 1. rewrite cell_with_children.
    rewrite decide_False by lia.
    repeat case_decide; try lia; cbn [parent child_bl child_br child_tl child_tr];
      exists (fresh_children m);
      (split; [done|]); unfold is_child, fresh_children; simpl; lia.
Qed.

Lemma RootsOK_with_children : RootsOK mB.
Proof.
  destruct (wf_roots _ Hwf) as (H1&H2&H3&H4).
  unfold RootsOK, mB. rewrite heap_with_heap, heap_with_children_length.
  repeat split.
  - simpl. lia.
  - done.
  - intros x Hx. apply H3 in Hx. lia.
  - intros x Hx.
    destruct (old_with_children x) as (_&_&_&_&_&_&_&->&_); [simpl in *; lia|].
    by apply H4.
Qed.

Lemma HeapWF_with_children : HeapWF mB.
Proof.
  split; auto using Sym_with_children, Origin_with_children,
    NbTier_with_children, NbIds_with_children, NoLoop_with_children,
    Shared_with_children, ChildrenOK_with_children,
    IdsValid_with_children, ParentOK_with_children, RootsOK_with_children.
Qed.
End make_children.


(** ** Changes that leave the objects alone *)

Lemma HeapWF_same_heap m m' :
  heap m' = heap m ->
  length (windows m) <= length (windows m') ->
  cells_in_top_tier m' = cells_in_top_tier m ->
  take (cells_in_top_tier m) (cells m') = take (cells_in_top_tier m) (cells m) ->
  (forall c, c ∈ cells m' -> c < length (heap m)) ->
  HeapWF m -> HeapWF m'.
Proof.
  intros Hh Hw Ht Hc Hv [Hsym Ho Hnt Hni Hnl Hshr Hch Hids Hpar Hroots].
  assert (Hcell : forall c, cell m' c = cell m c).
  { intros c. unfold cell. by rewrite Hh. }
  split.
  - intros d a b. rewrite !Hcell. apply Hsym.
  - intros d p ch x. unfold nchildren. rewrite !Hcell.
    intros Hp. destruct (Ho d p ch x Hp) as [H1 H2]. unfold nchildren in *.
    split; intros He Hx.
    + specialize (H1 He Hx). destruct (out_of d (cell m p)); [|done].
      by rewrite Hcell.
    + specialize (H2 He Hx). destruct (back_of d (cell m p)); [|done].
      by rewrite Hcell.
  - intros d a b. rewrite !Hcell. apply Hnt.
  - intros d a b. rewrite !Hcell. apply Hni.
  - intros d a. rewrite Hcell. apply Hnl.
  - intros d a b cha chb. unfold mid_out, mid_back. rewrite !Hcell.
    apply Hshr.
  - intros p ch. rewrite Hcell. intros Hp. destruct (Hch p ch Hp).
    split; rewrite ?Hcell, ?Hh; try done.
    + intros x Hx. rewrite Hcell. auto.
    + intros x Hx. rewrite Hcell. auto.
  - intros c. rewrite Hh, Hcell. intros Hc'. specialize (Hids c Hc'). lia.
  - intros c. rewrite Hh, Hcell, Ht. intros Hc'. specialize (Hpar c Hc').
    destruct (parent (cell m c)); [|done].
    destruct Hpar as (ch&?&?). exists ch. by rewrite Hcell.
  - destruct Hroots as (H1&H2&H3&H4). unfold RootsOK.
    rewrite Ht, Hh, Hc. repeat split; try done.
    intros c Hlt. rewrite Hcell. auto.
Qed.

Lemma HeapWF_with_windows m ws :
  length (windows m) <= length ws -> HeapWF m -> HeapWF (with_windows ws m).
Proof.
  intros Hl Hwf. apply (HeapWF_same_heap m); try done.
  apply (wf_roots _ Hwf).
Qed.

Lemma HeapWF_with_grids m gs : HeapWF m -> HeapWF (with_grids gs m).
Proof.
  intros Hwf. apply (HeapWF_same_heap m); try done.
  apply (wf_roots _ Hwf).
Qed.

Lemma HeapWF_with_max_tier m t : HeapWF m -> HeapWF (with_max_tier t m).
Proof.
  intros Hwf. apply (HeapWF_same_heap m); try done.
  apply (wf_roots _ Hwf).
Qed.

Lemma HeapWF_append_cell m c :
  c < length (heap m) -> HeapWF m -> HeapWF (with_cells (cells m ++ [c]) m).
Proof.
  intros Hc Hwf. destruct (wf_roots _ Hwf) as (H1&H2&H3&H4).
  apply (HeapWF_same_heap m); try done.
  - simpl. rewrite take_app_le; [done|].
    apply (f_equal length) in H2. rewrite length_take, length_seq in H2. lia.
  - simpl. intros x [Hx|Hx%list_elem_of_singleton]%elem_of_app; [auto|by subst].
Qed.


(** ** The neighbour assignments of [split] as links *)

Lemma bind_ok {A B} (c : M A) (k : A -> M B) m a m' :
  c m = (Ok a, m') -> bind c k m = k a m'.
Proof. unfold bind. by intros ->. Qed.

Lemma bind_modify {B} f (k : unit -> M B) m :
  bind (modify f) k m = k tt (f m).
Proof. done. Qed.

Lemma alter_comm {A} (f g : A -> A) (l : list A) i j :
  (forall x, f (g x) = g (f x)) ->
  alter f i (alter g j l) = alter g j (alter f i l).
Proof.
  intros Hc. revert i j. induction l as [|x l IH]; intros [|i] [|j];
    cbn [alter list_alter]; try done.
  - by rewrite Hc.
  - f_equal. apply IH.
Qed.

Lemma upd_cell_comm c1 f c2 g m :
  (forall x, f (g x) = g (f x)) ->
  upd_cell c1 f (upd_cell c2 g m) = upd_cell c2 g (upd_cell c1 f m).
Proof.
  intros Hc. unfold upd_cell.
  rewrite !heap_with_heap, !with_heap_with_heap.
  f_equal. by apply alter_comm.
Qed.

Lemma out_back_comm d v d' w x :
  set_out d v (set_back d' w x) = set_back d' w (set_out d v x).
Proof. by destruct d, d'. Qed.

Lemma out_out_comm v w x :
  set_out NS v (set_out EW w x) = set_out EW w (set_out NS v x).
Proof. done. Qed.

Lemma back_back_comm v w x :
  set_back NS v (set_back EW w x) = set_back EW w (set_back NS v x).
Proof. done. Qed.

Definition known_links (ch : Children) : list (dir * nat * nat) :=
  [ (NS, ch_bl ch, ch_tl ch); (EW, ch_bl ch, ch_br ch);
    (NS, ch_br ch, ch_tr ch); (EW, ch_tl ch, ch_tr ch) ].

Lemma set_known_neighbours_eq ch m :
  set_known_neighbours ch m = (Ok tt, apply_links (known_links ch) m).
Proof.
  unfold set_known_neighbours. cbv zeta. rewrite !bind_modify.
  unfold modify. f_equal.
  unfold apply_links, known_links. cbn [foldl fst snd]. unfold link.
  change set_north with (set_out NS). change set_east with (set_out EW).
  change set_south with (set_back NS). change set_west with (set_back EW).
  set (bl := ch_bl ch). set (br := ch_br ch).
  set (tl := ch_tl ch). set (tr := ch_tr ch).
  (* code:  bl.N bl.E br.N br.W tl.S tl.E tr.S tr.W
     links: bl.N tl.S bl.E br.W br.N tr.S tl.E tr.W *)
  rewrite (upd_cell_comm tr (set_back NS (Some br)) tl (set_out EW (Some tr)))
    by (intros; symmetry; apply out_back_comm).
  rewrite (upd_cell_comm tl (set_back NS (Some bl)) br (set_back EW (Some bl)))
    by (intros; apply back_back_comm).
  rewrite (upd_cell_comm tl (set_back NS (Some bl)) br (set_out NS (Some tr)))
    by (intros; symmetry; apply out_back_comm).
  rewrite (upd_cell_comm tl (set_back NS (Some bl)) bl (set_out EW (Some br)))
    by (intros; symmetry; apply out_back_comm).
  rewrite (upd_cell_comm br (set_back EW (Some bl)) br (set_out NS (Some tr)))
    by (intros; symmetry; apply out_back_comm).
  reflexivity.
Qed.

(** The links of one side of [update_child_neighbours]. *)
Definition north_links (m : MultiGrid) (self : nat) (ch : Children) :=
  match nchildren m north self with
  | Some nc => [ (NS, ch_tl ch, ch_bl nc); (NS, ch_tr ch, ch_br nc) ]
  | None => []
  end.
Definition east_links (m : MultiGrid) (self : nat) (ch : Children) :=
  match nchildren m east self with
  | Some nc => [ (EW, ch_br ch, ch_bl nc); (EW, ch_tr ch, ch_tl nc) ]
  | None => []
  end.
Definition south_links (m : MultiGrid) (self : nat) (ch : Children) :=
  match nchildren m south self with
  | Some nc => [ (NS, ch_tl nc, ch_bl ch); (NS, ch_tr nc, ch_br ch) ]
  | None => []
  end.
Definition west_links (m : MultiGrid) (self : nat) (ch : Children) :=
  match nchildren m west self with
  | Some nc => [ (EW, ch_br nc, ch_bl ch); (EW, ch_tr nc, ch_tl ch) ]
  | None => []
  end.

Definition side_links (m : MultiGrid) (self : nat) (ch : Children) :=
  north_links m self ch ++ east_links m self ch ++
  south_links m self ch ++ west_links m self ch.

Lemma stitch_north_eq m self ch :
  stitch north set_north set_south (ch_tl ch) (ch_tr ch) ch_bl ch_br self m =
    (Ok tt, apply_links (north_links m self ch) m).
Proof.
  unfold stitch, north_links, nchildren, bind at 1, get. cbv beta iota.
  destruct (north (cell m self)) as [n|]; [|done].
  destruct (children (cell m n)) as [nc|]; [|done].
  rewrite !bind_modify. unfold modify. f_equal.
  unfold apply_links. cbn [foldl fst snd]. unfold link.
  change set_north with (set_out NS). change set_south with (set_back NS).
  rewrite (upd_cell_comm (ch_bl nc) (set_back NS (Some (ch_tl ch)))
             (ch_tr ch) (set_out NS (Some (ch_br nc))))
    by (intros; symmetry; apply out_back_comm).
  reflexivity.
Qed.

Lemma stitch_east_eq m self ch :
  stitch east set_east set_west (ch_br ch) (ch_tr ch) ch_bl ch_tl self m =
    (Ok tt, apply_links (east_links m self ch) m).
Proof.
  unfold stitch, east_links, nchildren, bind at 1, get. cbv beta iota.
  destruct (east (cell m self)) as [n|]; [|done].
  destruct (children (cell m n)) as [nc|]; [|done].
  rewrite !bind_modify. unfold modify. f_equal.
  unfold apply_links. cbn [foldl fst snd]. unfold link.
  change set_east with (set_out EW). change set_west with (set_back EW).
  rewrite (upd_cell_comm (ch_bl nc) (set_back EW (Some (ch_br ch)))
             (ch_tr ch) (set_out EW (Some (ch_tl nc))))
    by (intros; symmetry; apply out_back_comm).
  reflexivity.
Qed.

Lemma stitch_south_eq m self ch :
  stitch south set_south set_north (ch_bl ch) (ch_br ch) ch_tl ch_tr self m =
    (Ok tt, apply_links (south_links m self ch) m).
Proof.
  unfold stitch, south_links, nchildren, bind at 1, get. cbv beta iota.
  destruct (south (cell m self)) as [n|]; [|done].
  destruct (children (cell m n)) as [nc|]; [|done].
  rewrite !bind_modify. unfold modify. f_equal.
  unfold apply_links. cbn [foldl fst snd]. unfold link.
  change set_north with (set_out NS). change set_south with (set_back NS).
  (* code:  bl.S br.S tl'.N tr'.N     links: tl'.N bl.S tr'.N br.S *)
  rewrite (upd_cell_comm (ch_tl nc) (set_out NS (Some (ch_bl ch)))
             (ch_br ch) (set_back NS (Some (ch_tr nc))))
    by (intros; apply out_back_comm).
  rewrite (upd_cell_comm (ch_tl nc) (set_out NS (Some (ch_bl ch)))
             (ch_bl ch) (set_back NS (Some (ch_tl nc))))
    by (intros; apply out_back_comm).
  rewrite (upd_cell_comm (ch_tr nc) (set_out NS (Some (ch_br ch)))
             (ch_br ch) (set_back NS (Some (ch_tr nc))))
    by (intros; apply out_back_comm).
  reflexivity.
Qed.

Lemma stitch_west_eq m self ch :
  stitch west set_west set_east (ch_bl ch) (ch_tl ch) ch_br ch_tr self m =
    (Ok tt, apply_links (west_links m self ch) m).
Proof.
  unfold stitch, west_links, nchildren, bind at 1, get. cbv beta iota.
  destruct (west (cell m self)) as [n|]; [|done].
  destruct (children (cell m n)) as [nc|]; [|done].
  rewrite !bind_modify. unfold modify. f_equal.
  unfold apply_links. cbn [foldl fst snd]. unfold link.
  change set_east with (set_out EW). change set_west with (set_back EW).
  rewrite (upd_cell_comm (ch_br nc) (set_out EW (Some (ch_bl ch)))
             (ch_tl ch) (set_back EW (Some (ch_tr nc))))
    by (intros; apply out_back_comm).
  rewrite (upd_cell_comm (ch_br nc) (set_out EW (Some (ch_bl ch)))
             (ch_bl ch) (set_back EW (Some (ch_br nc))))
    by (intros; apply out_back_comm).
  rewrite (upd_cell_comm (ch_tr nc) (set_out EW (Some (ch_tl ch)))
             (ch_tl ch) (set_back EW (Some (ch_tr nc))))
    by (intros; apply out_back_comm).
  reflexivity.
Qed.

(** Links leave the cells that are not their end points alone. *)
Lemma cell_link_other d a b m x :
  x <> a -> x <> b -> cell (link d a b m) x = cell m x.
Proof. intros. unfold link. by rewrite !cell_upd_cell_ne. Qed.

Lemma cell_apply_links_other ls m x :
  (forall l, l ∈ ls -> x <> l.1.2 /\ x <> l.2) ->
  cell (apply_links ls m) x = cell m x.
Proof.
  revert m. induction ls as [|[[d a] b] ls IH]; intros m Hx; [done|].
  simpl. rewrite IH.
  - apply cell_link_other; apply (Hx (d, a, b)); by left.
  - intros l Hl. apply Hx. by right.
Qed.

Lemma nchildren_apply_links ls m side x :
  (forall l, l ∈ ls -> x <> l.1.2 /\ x <> l.2) ->
  nchildren (apply_links ls m) side x = nchildren m side x.
Proof.
  intros Hx. unfold nchildren. rewrite cell_apply_links_other by done.
  destruct (side (cell m x)); [|done].
  apply skel_children, same_skeleton_apply_links.
Qed.

Lemma apply_links_app l1 l2 m :
  apply_links (l1 ++ l2) m = apply_links l2 (apply_links l1 m).
Proof. unfold apply_links. by rewrite foldl_app. Qed.

Lemma update_child_neighbours_eq m self ch :
  children (cell m self) = Some ch ->
  (forall l, l ∈ side_links m self ch -> self <> l.1.2 /\ self <> l.2) ->
  update_child_neighbours self m =
    (Ok tt, apply_links (side_links m self ch) m).
Proof.
  intros Hch Hne. unfold update_child_neighbours, bind at 1, get.
  cbv beta iota. rewrite Hch. cbv zeta.
  unfold side_links in *.
  assert (Hn : forall l, l ∈ north_links m self ch -> self <> l.1.2 /\ self <> l.2).
  { intros l Hl. apply Hne. rewrite !elem_of_app. auto. }
  assert (He : forall l, l ∈ east_links m self ch -> self <> l.1.2 /\ self <> l.2).
  { intros l Hl. apply Hne. rewrite !elem_of_app. auto. }
  assert (Hs : forall l, l ∈ south_links m self ch -> self <> l.1.2 /\ self <> l.2).
  { intros l Hl. apply Hne. rewrite !elem_of_app. auto. }
  rewrite (bind_ok _ _ _ _ _ (stitch_north_eq m self ch)).
  set (m1 := apply_links (north_links m self ch) m).
  assert (E1 : east_links m1 self ch = east_links m self ch).
  { unfold east_links, m1. by rewrite nchildren_apply_links. }
  rewrite (bind_ok _ _ _ _ _ (stitch_east_eq m1 self ch)). rewrite E1.
  set (m2 := apply_links (east_links m self ch) m1).
  assert (E2 : south_links m2 self ch = south_links m self ch).
  { unfold south_links, m2, m1. by rewrite !nchildren_apply_links. }
  rewrite (bind_ok _ _ _ _ _ (stitch_south_eq m2 self ch)). rewrite E2.
  set (m3 := apply_links (south_links m self ch) m2).
  assert (E3 : west_links m3 self ch = west_links m self ch).
  { unfold west_links, m3, m2, m1. by rewrite !nchildren_apply_links. }
  rewrite stitch_west_eq, E3.
  unfold m3, m2, m1. by rewrite !apply_links_app.
Qed.

(** All the links of one [split]. *)
Definition split_links (m : MultiGrid) (self : nat) (ch : Children) :=
  known_links ch ++ side_links m self ch.

Lemma wiring_eq m self ch :
  children (cell m self) = Some ch ->
  (forall l, l ∈ split_links m self ch -> self <> l.1.2 /\ self <> l.2) ->
  (set_known_neighbours ch ;;; update_child_neighbours self) m =
    (Ok tt, apply_links (split_links m self ch) m).
Proof.
  intros Hch Hne. unfold split_links in *.
  rewrite (bind_ok _ _ _ _ _ (set_known_neighbours_eq ch m)).
  assert (Hk : forall l, l ∈ known_links ch -> self <> l.1.2 /\ self <> l.2).
  { intros l Hl. apply Hne. rewrite elem_of_app. auto. }
  set (m1 := apply_links (known_links ch) m).
  assert (E : side_links m1 self ch = side_links m self ch).
  { unfold side_links, north_links, east_links, south_links, west_links, m1.
    by rewrite !nchildren_apply_links. }
  rewrite (update_child_neighbours_eq m1 self ch).
  - rewrite E. unfold m1. by rewrite apply_links_app.
  - unfold m1.
    by rewrite (skel_children m) by apply same_skeleton_apply_links.
  - rewrite E. intros l Hl. apply Hne. rewrite elem_of_app. auto.
Qed.


(** ** The windows of one [split] *)

Lemma step_windows_length r x y WS ws :
  length ws <= length (step_windows r x y WS ws) <= length ws + 1.
Proof. destruct r; simpl; rewrite ?length_app; simpl; lia. Qed.

Lemma step_windows_prefix r x y WS ws :
  exists new, step_windows r x y WS ws = ws ++ new /\ length new <= 1 /\
    Forall (fun w => cw_WS w = WS) new.
Proof.
  destruct r; simpl.
  - exists []. rewrite app_nil_r. split; [done|]. split; [simpl; lia|constructor].
  - exists [mkCorrWindow x y WS]. split; [done|]. split; [simpl; lia|].
    by constructor.
Qed.

Lemma step_id_valid r x y WS ws :
  (forall i, r = Some i -> i < length ws) ->
  step_id r ws < length (step_windows r x y WS ws) \/
  (exists i, r = Some i /\ step_id r ws = i /\ i < length ws).
Proof.
  destruct r as [i|]; simpl.
  - intros H. right. exists i. auto.
  - intros _. left. rewrite length_app. simpl. lia.
Qed.

(** The new windows: between one and five, all with the window size of
    the bottom left corner. *)
Lemma windows_after_spec m self :
  exists new, windows_after m self = windows m ++ new /\
    1 <= length new <= 5 /\
    Forall (fun w => cw_WS w = cw_WS (bl_win m (cell m self))) new.
Proof.
  unfold windows_after. cbv zeta.
  set (WS := cw_WS (bl_win m (cell m self))).
  destruct (step_windows_prefix (reuse west ch_br id_tr m self)
    (cw_x (bl_win m (cell m self))) (ctr_y m (cell m self)) WS (windows m))
    as (n1&->&L1&F1).
  destruct (step_windows_prefix (reuse south ch_tl id_tr m self)
    (ctr_x m (cell m self)) (cw_y (bl_win m (cell m self))) WS (windows m ++ n1))
    as (n2&->&L2&F2).
  cbn [step_windows].
  destruct (step_windows_prefix (reuse north ch_br id_bl m self)
    (ctr_x m (cell m self)) (cw_y (tl_win m (cell m self))) WS
    (((windows m ++ n1) ++ n2) ++
       [mkCorrWindow (ctr_x m (cell m self)) (ctr_y m (cell m self)) WS]))
    as (n4&->&L4&F4).
  destruct (step_windows_prefix (reuse east ch_bl id_tl m self)
    (cw_x (br_win m (cell m self))) (ctr_y m (cell m self)) WS
    ((((windows m ++ n1) ++ n2) ++
       [mkCorrWindow (ctr_x m (cell m self)) (ctr_y m (cell m self)) WS]) ++ n4))
    as (n5&->&L5&F5).
  exists (n1 ++ n2 ++ [mkCorrWindow (ctr_x m (cell m self)) (ctr_y m (cell m self)) WS]
          ++ n4 ++ n5).
  split; [by rewrite <- !app_assoc|]. split.
  - rewrite !length_app. simpl. lia.
  - rewrite !Forall_app. repeat split; try done. by constructor.
Qed.

Lemma windows_after_length m self :
  length (windows m) < length (windows_after m self).
Proof.
  destruct (windows_after_spec m self) as (new&->&?&_).
  rewrite length_app. lia.
Qed.

Lemma lookup_windows_after m self i :
  i < length (windows m) -> windows_after m self !!! i = windows m !!! i.
Proof.
  intros Hi. destruct (windows_after_spec m self) as (new&->&_).
  by rewrite lookup_total_app_l.
Qed.

Lemma child_valid m p ch x :
  HeapWF m -> children (cell m p) = Some ch -> is_child ch x ->
  x < length (heap m).
Proof.
  intros Hwf Hch Hx. destruct (wf_children _ Hwf p ch Hch).
  unfold is_child in Hx. lia.
Qed.

Lemma reuse_valid m side pick corner self i :
  HeapWF m ->
  (forall ch, is_child ch (pick ch)) ->
  (forall c, corner c = id_bl c \/ corner c = id_br c \/
             corner c = id_tl c \/ corner c = id_tr c) ->
  reuse side pick corner m self = Some i -> i < length (windows m).
Proof.
  intros Hwf Hpick Hcorner. unfold reuse.
  destruct (side (cell m self)) as [n|]; [|done].
  destruct (children (cell m n)) as [ch|] eqn:Hch; [|done].
  intros [= <-].
  pose proof (child_valid m n ch (pick ch) Hwf Hch (Hpick ch)) as Hv.
  destruct (wf_ids _ Hwf _ Hv) as (?&?&?&?).
  destruct (Hcorner (cell m (pick ch))) as [-> | [-> | [-> | ->]]]; done.
Qed.

Lemma ids_after_valid m self lm cb cm ct rm :
  HeapWF m -> ids_after m self = (lm, cb, cm, ct, rm) ->
  lm < length (windows_after m self) /\ cb < length (windows_after m self) /\
  cm < length (windows_after m self) /\ ct < length (windows_after m self) /\
  rm < length (windows_after m self).
Proof.
  intros Hwf. unfold ids_after, windows_after. cbv zeta.
  assert (Hw := reuse_valid m west ch_br id_tr self).
  assert (Hs := reuse_valid m south ch_tl id_tr self).
  assert (Hn := reuse_valid m north ch_br id_bl self).
  assert (He := reuse_valid m east ch_bl id_tl self).
  destruct (reuse west ch_br id_tr m self) as [i1|];
  destruct (reuse south ch_tl id_tr m self) as [i2|];
  destruct (reuse north ch_br id_bl m self) as [i4|];
  destruct (reuse east ch_bl id_tl m self) as [i5|];
  intros [= <- <- <- <- <-]; cbn [step_windows step_id];
  rewrite ?length_app; cbn [length];
  repeat match goal with
  | H : forall i, HeapWF m -> _ -> _ -> Some ?j = Some i -> _ |- _ =>
      let H' := fresh in
      assert (H' : j < length (windows m));
      [ apply H; [done| intros; unfold is_child; auto | intros; auto | done] |];
      clear H
  | H : forall i, HeapWF m -> _ -> _ -> None = Some i -> _ |- _ => clear H
  end; lia.
Qed.

Lemma lm_reused m self wc lm cb cm ct rm :
  ids_after m self = (lm, cb, cm, ct, rm) ->
  nchildren m west self = Some wc -> lm = id_tr (cell m (ch_br wc)).
Proof.
  unfold ids_after, nchildren, reuse. cbv zeta.
  destruct (west (cell m self)) as [n|]; [|done].
  intros H Hc. rewrite Hc in H. by injection H.
Qed.

Lemma cb_reused m self sc lm cb cm ct rm :
  ids_after m self = (lm, cb, cm, ct, rm) ->
  nchildren m south self = Some sc -> cb = id_tr (cell m (ch_tl sc)).
Proof.
  unfold ids_after, nchildren, reuse. cbv zeta.
  destruct (south (cell m self)) as [n|]; [|done].
  intros H Hc. rewrite Hc in H. by injection H.
Qed.

Lemma ct_reused m self nc lm cb cm ct rm :
  ids_after m self = (lm, cb, cm, ct, rm) ->
  nchildren m north self = Some nc -> ct = id_bl (cell m (ch_br nc)).
Proof.
  unfold ids_after, nchildren, reuse. cbv zeta.
  destruct (north (cell m self)) as [n|]; [|done].
  intros H Hc. rewrite Hc in H. by injection H.
Qed.

Lemma rm_reused m self ec lm cb cm ct rm :
  ids_after m self = (lm, cb, cm, ct, rm) ->
  nchildren m east self = Some ec -> rm = id_tl (cell m (ch_bl ec)).
Proof.
  unfold ids_after, nchildren, reuse. cbv zeta.
  destruct (east (cell m self)) as [n|]; [|done].
  intros H Hc. rewrite Hc in H. by injection H.
Qed.


Lemma NoDup_app_sep {A} (P : A -> Prop) (l1 l2 : list A) :
  NoDup l1 -> NoDup l2 -> Forall P l1 -> Forall (fun x => ~ P x) l2 ->
  NoDup (l1 ++ l2).
Proof.
  intros H1 H2 F1 F2. apply list.NoDup_app. split; [done|]. split; [|done].
  intros x Hx1 Hx2. rewrite list.Forall_forall in F1, F2.
  by apply (F2 x Hx2), F1.
Qed.

Section nodup.
Variables (k : nat) (ln le ls lw : list (dir * nat * nat)).
Hypothesis Hn : ln = [] \/ exists b, b + 1 < k /\
  ln = [ (NS, k + 2, b); (NS, k + 3, b + 1) ].
Hypothesis He : le = [] \/ exists b, b + 2 < k /\
  le = [ (EW, k + 1, b); (EW, k + 3, b + 2) ].
Hypothesis Hs : ls = [] \/ exists a, a + 3 < k /\
  ls = [ (NS, a + 2, k); (NS, a + 3, k + 1) ].
Hypothesis Hw : lw = [] \/ exists a, a + 3 < k /\
  lw = [ (EW, a + 1, k); (EW, a + 3, k + 2) ].

Let known : list (dir * nat * nat) :=
  [ (NS, k, k + 2); (EW, k, k + 1); (NS, k + 1, k + 3); (EW, k + 2, k + 3) ].

Ltac side H := destruct H as [->|(?&?&->)].
Ltac nodup_small :=
  repeat (apply NoDup_cons_2;
    [ rewrite ?elem_of_cons, ?elem_of_nil; intros Hx;
      repeat (destruct Hx as [Hx|Hx]); try done;
      injection Hx; intros; lia | ]);
  apply NoDup_nil_2.
Ltac forall_small tac :=
  repeat (apply Forall_cons_2; [cbn [fst snd link_src link_dst]; tac|]);
  apply Forall_nil_2.

Lemma src_NoDup : NoDup (link_src <$> (known ++ ln ++ le ++ ls ++ lw)).
Proof.
  rewrite !fmap_app.
  apply (NoDup_app_sep (fun x => x ∈ link_src <$> known)).
  - unfold known. cbn [fmap list_fmap link_src fst snd]. nodup_small.
  - apply (NoDup_app_sep (fun x => x.1 = NS /\ k <= x.2)).
    + side Hn; cbn [fmap list_fmap link_src fst snd]; nodup_small.
    + apply (NoDup_app_sep (fun x => k <= x.2)).
      * side He; cbn [fmap list_fmap link_src fst snd]; nodup_small.
      * apply (NoDup_app_sep (fun x => x.1 = NS)).
        -- side Hs; cbn [fmap list_fmap link_src fst snd]; nodup_small.
        -- side Hw; cbn [fmap list_fmap link_src fst snd]; nodup_small.
        -- side Hs; cbn [fmap list_fmap]; forall_small ltac:(done).
        -- side Hw; cbn [fmap list_fmap]; forall_small ltac:(done).
      * side He; cbn [fmap list_fmap]; forall_small ltac:(lia).
      * rewrite list.Forall_app. split.
        -- side Hs; cbn [fmap list_fmap]; forall_small ltac:(lia).
        -- side Hw; cbn [fmap list_fmap]; forall_small ltac:(lia).
    + side Hn; cbn [fmap list_fmap]; forall_small ltac:(split; [done|lia]).
    + rewrite !list.Forall_app. split_and!.
      * side He; cbn [fmap list_fmap]; forall_small ltac:(intros [? ?]; done).
      * side Hs; cbn [fmap list_fmap]; forall_small ltac:(intros [? ?]; lia).
      * side Hw; cbn [fmap list_fmap]; forall_small ltac:(intros [? ?]; done).
  - apply list.Forall_fmap, list.Forall_forall. intros x Hx.
    apply list_elem_of_fmap. by exists x.
  - unfold known. cbn [fmap list_fmap link_src fst snd].
    rewrite !list.Forall_app. split_and!.
    + side Hn; cbn [fmap list_fmap];
        forall_small ltac:(rewrite ?elem_of_cons, ?elem_of_nil; intros Hx;
          repeat (destruct Hx as [Hx|Hx]); try done; injection Hx; intros; lia).
    + side He; cbn [fmap list_fmap];
        forall_small ltac:(rewrite ?elem_of_cons, ?elem_of_nil; intros Hx;
          repeat (destruct Hx as [Hx|Hx]); try done; injection Hx; intros; lia).
    + side Hs; cbn [fmap list_fmap];
        forall_small ltac:(rewrite ?elem_of_cons, ?elem_of_nil; intros Hx;
          repeat (destruct Hx as [Hx|Hx]); try done; injection Hx; intros; lia).
    + side Hw; cbn [fmap list_fmap];
        forall_small ltac:(rewrite ?elem_of_cons, ?elem_of_nil; intros Hx;
          repeat (destruct Hx as [Hx|Hx]); try done; injection Hx; intros; lia).
Qed.

Lemma dst_NoDup : NoDup (link_dst <$> (known ++ ln ++ le ++ ls ++ lw)).
Proof.
  rewrite !fmap_app.
  apply (NoDup_app_sep (fun x => x ∈ link_dst <$> known)).
  - unfold known. cbn [fmap list_fmap link_dst fst snd]. nodup_small.
  - apply (NoDup_app_sep (fun x => x.1 = NS /\ x.2 < k)).
    + side Hn; cbn [fmap list_fmap link_dst fst snd]; nodup_small.
    + apply (NoDup_app_sep (fun x => x.2 < k)).
      * side He; cbn [fmap list_fmap link_dst fst snd]; nodup_small.
      * apply (NoDup_app_sep (fun x => x.1 = NS)).
        -- side Hs; cbn [fmap list_fmap link_dst fst snd]; nodup_small.
        -- side Hw; cbn [fmap list_fmap link_dst fst snd]; nodup_small.
        -- side Hs; cbn [fmap list_fmap]; forall_small ltac:(done).
        -- side Hw; cbn [fmap list_fmap]; forall_small ltac:(done).
      * side He; cbn [fmap list_fmap]; forall_small ltac:(lia).
      * rewrite list.Forall_app. split.
        -- side Hs; cbn [fmap list_fmap]; forall_small ltac:(lia).
        -- side Hw; cbn [fmap list_fmap]; forall_small ltac:(lia).
    + side Hn; cbn [fmap list_fmap]; forall_small ltac:(split; [done|lia]).
    + rewrite !list.Forall_app. split_and!.
      * side He; cbn [fmap list_fmap]; forall_small ltac:(intros [? ?]; done).
      * side Hs; cbn [fmap list_fmap]; forall_small ltac:(intros [? ?]; lia).
      * side Hw; cbn [fmap list_fmap]; forall_small ltac:(intros [? ?]; done).
  - apply list.Forall_fmap, list.Forall_forall. intros x Hx.
    apply list_elem_of_fmap. by exists x.
  - unfold known. cbn [fmap list_fmap link_dst fst snd].
    rewrite !list.Forall_app. split_and!.
    + side Hn; cbn [fmap list_fmap];
        forall_small ltac:(rewrite ?elem_of_cons, ?elem_of_nil; intros Hx;
          repeat (destruct Hx as [Hx|Hx]); try done; injection Hx; intros; lia).
    + side He; cbn [fmap list_fmap];
        forall_small ltac:(rewrite ?elem_of_cons, ?elem_of_nil; intros Hx;
          repeat (destruct Hx as [Hx|Hx]); try done; injection Hx; intros; lia).
    + side Hs; cbn [fmap list_fmap];
        forall_small ltac:(rewrite ?elem_of_cons, ?elem_of_nil; intros Hx;
          repeat (destruct Hx as [Hx|Hx]); try done; injection Hx; intros; lia).
    + side Hw; cbn [fmap list_fmap];
        forall_small ltac:(rewrite ?elem_of_cons, ?elem_of_nil; intros Hx;
          repeat (destruct Hx as [Hx|Hx]); try done; injection Hx; intros; lia).
Qed.
End nodup.

(** ** The links of a split satisfy their preconditions *)

Section split_links.
Variables (m : MultiGrid) (self lm cb cm ct rm : nat).
Hypothesis Hwf : HeapWF m.
Hypothesis Hself : self < length (heap m).
Hypothesis Hleaf : children (cell m self) = None.
Hypothesis Hlm_reused : forall wc,
  nchildren m west self = Some wc -> lm = id_tr (cell m (ch_br wc)).
Hypothesis Hcb_reused : forall sc,
  nchildren m south self = Some sc -> cb = id_tr (cell m (ch_tl sc)).
Hypothesis Hct_reused : forall nc,
  nchildren m north self = Some nc -> ct = id_bl (cell m (ch_br nc)).
Hypothesis Hrm_reused : forall ec,
  nchildren m east self = Some ec -> rm = id_tl (cell m (ch_bl ec)).

Let k := length (heap m).
Let ch := fresh_children m.
Let mB := with_heap (heap_with_children self lm cb cm ct rm m) m.

Lemma B_length : length (heap mB) = length (heap m) + 4.
Proof. unfold mB. by rewrite heap_with_heap, heap_with_children_length. Qed.

Lemma B_out d x : out_of d (cell mB x) = out_of d (cell m x).
Proof. apply out_of_with_children; done. Qed.
Lemma B_back d x : back_of d (cell mB x) = back_of d (cell m x).
Proof. apply back_of_with_children; done. Qed.

Lemma B_new_out d x : length (heap m) <= x -> out_of d (cell mB x) = None.
Proof. intros. rewrite B_out, cell_default by done. by destruct d. Qed.
Lemma B_new_back d x : length (heap m) <= x -> back_of d (cell mB x) = None.
Proof. intros. rewrite B_back, cell_default by done. by destruct d. Qed.

Lemma B_new_children x :
  length (heap m) <= x -> children (cell mB x) = None.
Proof.
  intros Hx. unfold mB. rewrite cell_with_children by done.
  rewrite decide_False by lia.
  repeat case_decide; try done. by rewrite cell_default.
Qed.

Lemma B_self : children (cell mB self) = Some ch.
Proof. unfold mB. rewrite cell_with_children by done. by rewrite decide_True. Qed.

Lemma B_bl : cell mB (length (heap m)) = child_bl self (cell m self) lm cb cm ct rm.
Proof.
  unfold mB. rewrite cell_with_children by done.
  rewrite decide_False by lia. by rewrite decide_True.
Qed.
Lemma B_br : cell mB (length (heap m) + 1) = child_br self (cell m self) lm cb cm ct rm.
Proof.
  unfold mB. rewrite cell_with_children by done.
  rewrite !decide_False by lia. by rewrite decide_True.
Qed.
Lemma B_tl : cell mB (length (heap m) + 2) = child_tl self (cell m self) lm cb cm ct rm.
Proof.
  unfold mB. rewrite cell_with_children by done.
  rewrite !decide_False by lia. by rewrite decide_True.
Qed.
Lemma B_tr : cell mB (length (heap m) + 3) = child_tr self (cell m self) lm cb cm ct rm.
Proof.
  unfold mB. rewrite cell_with_children by done.
  rewrite !decide_False by lia. by rewrite decide_True.
Qed.

Lemma B_old x :
  x < length (heap m) ->
  id_bl (cell mB x) = id_bl (cell m x) /\ id_br (cell mB x) = id_br (cell m x) /\
  id_tl (cell mB x) = id_tl (cell m x) /\ id_tr (cell mB x) = id_tr (cell m x) /\
  tier (cell mB x) = tier (cell m x) /\ parent (cell mB x) = parent (cell m x).
Proof.
  intros Hx. destruct (old_with_children m self lm cb cm ct rm Hself x Hx)
    as (?&?&?&?&?&?&?&?&?). done.
Qed.

Lemma B_children p ch' :
  children (cell mB p) = Some ch' ->
  (p = self /\ ch' = ch) \/ (p <> self /\ children (cell m p) = Some ch').
Proof. apply children_with_children; done. Qed.

Lemma B_children_old p ch' :
  children (cell m p) = Some ch' -> children (cell mB p) = Some ch'.
Proof. apply children_with_children_mono; done. Qed.

(** A neighbour of [self] is another cell, so its children are those it
    had. *)
Lemma out_ne d n : out_of d (cell m self) = Some n -> n <> self.
Proof. intros H ->. by apply (wf_noloop _ Hwf d self). Qed.
Lemma back_ne d n : back_of d (cell m self) = Some n -> n <> self.
Proof.
  intros H ->. apply (wf_sym _ Hwf) in H. by apply (wf_noloop _ Hwf d self).
Qed.

Lemma B_nchildren_out d :
  nchildren mB (out_of d) self = nchildren m (out_of d) self.
Proof.
  unfold nchildren. rewrite B_out.
  destruct (out_of d (cell m self)) as [n|] eqn:Hn; [|done].
  pose proof (out_ne d n Hn).
  pose proof (Sym_out_valid _ _ _ _ (wf_sym _ Hwf) Hn) as Hv.
  destruct (old_with_children m self lm cb cm ct rm Hself n Hv)
    as (_&_&_&_&_&_&_&_&Hc). unfold mB. rewrite Hc. by rewrite decide_False.
Qed.
Lemma B_nchildren_back d :
  nchildren mB (back_of d) self = nchildren m (back_of d) self.
Proof.
  unfold nchildren. rewrite B_back.
  destruct (back_of d (cell m self)) as [n|] eqn:Hn; [|done].
  pose proof (back_ne d n Hn).
  pose proof (Sym_back_valid _ _ _ _ (wf_sym _ Hwf) Hn) as Hv.
  destruct (old_with_children m self lm cb cm ct rm Hself n Hv)
    as (_&_&_&_&_&_&_&_&Hc). unfold mB. rewrite Hc. by rewrite decide_False.
Qed.

(** The neighbour cell behind [nchildren], with what the invariant says
    about it. *)
Lemma nchildren_out_inv d nc :
  nchildren m (out_of d) self = Some nc ->
  exists n, out_of d (cell m self) = Some n /\ children (cell m n) = Some nc /\
    back_of d (cell m n) = Some self /\ n <> self /\ n < length (heap m) /\
    tier (cell m n) = tier (cell m self) /\
    back_ids d (cell m n) = out_ids d (cell m self) /\ child_shape m n nc.
Proof.
  unfold nchildren. destruct (out_of d (cell m self)) as [n|] eqn:Hn; [|done].
  intros Hc. exists n. split_and!; try done.
  - by apply (wf_sym _ Hwf).
  - by apply (out_ne d).
  - by apply (Sym_out_valid _ _ _ _ (wf_sym _ Hwf) Hn).
  - by apply (wf_nb_tier _ Hwf d).
  - by apply (wf_nb_ids _ Hwf d).
  - by apply (wf_children _ Hwf).
Qed.

Lemma nchildren_back_inv d nc :
  nchildren m (back_of d) self = Some nc ->
  exists n, back_of d (cell m self) = Some n /\ children (cell m n) = Some nc /\
    out_of d (cell m n) = Some self /\ n <> self /\ n < length (heap m) /\
    tier (cell m n) = tier (cell m self) /\
    back_ids d (cell m self) = out_ids d (cell m n) /\ child_shape m n nc.
Proof.
  unfold nchildren. destruct (back_of d (cell m self)) as [n|] eqn:Hn; [|done].
  intros Hc. exists n.
  assert (Ho : out_of d (cell m n) = Some self) by by apply (wf_sym _ Hwf).
  split_and!; try done.
  - by apply (back_ne d).
  - by apply (Sym_back_valid _ _ _ _ (wf_sym _ Hwf) Hn).
  - symmetry. by apply (wf_nb_tier _ Hwf d).
  - by apply (wf_nb_ids _ Hwf d).
  - by apply (wf_children _ Hwf).
Qed.

(** The near side of a child of the neighbour is free while [self] has
    no children. *)
Lemma neighbour_child_back_free d n nc x :
  out_of d (cell m self) = Some n -> children (cell m n) = Some nc ->
  back_edge d nc x -> back_of d (cell m x) = None.
Proof.
  intros Hn Hc Hx.
  destruct (back_of d (cell m x)) as [y|] eqn:Hy; [|done]. exfalso.
  destruct (wf_origin _ Hwf d n nc x Hc) as [_ H].
  destruct (H Hx) as [z Hz]; [by rewrite Hy|].
  unfold nchildren in Hz. apply (wf_sym _ Hwf) in Hn. rewrite Hn in Hz.
  congruence.
Qed.

Lemma neighbour_child_out_free d n nc x :
  back_of d (cell m self) = Some n -> children (cell m n) = Some nc ->
  out_edge d nc x -> out_of d (cell m x) = None.
Proof.
  intros Hn Hc Hx.
  destruct (out_of d (cell m x)) as [y|] eqn:Hy; [|done]. exfalso.
  destruct (wf_origin _ Hwf d n nc x Hc) as [H _].
  destruct (H Hx) as [z Hz]; [by rewrite Hy|].
  unfold nchildren in Hz. apply (wf_sym _ Hwf) in Hn. rewrite Hn in Hz.
  congruence.
Qed.

(** Whose child an object is. *)
Lemma B_parent_new p ch' x :
  children (cell mB p) = Some ch' -> is_child ch' x ->
  length (heap m) <= x -> p = self /\ ch' = ch.
Proof.
  intros Hc Hx Hge. destruct (B_children p ch' Hc) as [?|[_ Hc']]; [done|].
  pose proof (child_valid m p ch' x Hwf Hc' Hx). lia.
Qed.

Lemma B_parent_old p ch' n nc x :
  children (cell mB p) = Some ch' -> is_child ch' x ->
  children (cell m n) = Some nc -> is_child nc x ->
  p = n /\ ch' = nc.
Proof.
  intros Hc Hx Hn Hnx. pose proof (child_valid m n nc x Hwf Hn Hnx) as Hv.
  destruct (B_children p ch' Hc) as [[-> ->]|[_ Hc']].
  - exfalso. unfold is_child, ch, fresh_children in Hx. simpl in Hx. lia.
  - pose proof (cs_parent _ _ _ (wf_children _ Hwf p ch' Hc') x Hx) as H1.
    pose proof (cs_parent _ _ _ (wf_children _ Hwf n nc Hn) x Hnx) as H2.
    assert (p = n) as -> by congruence. split; [done|congruence].
Qed.

Lemma out_edge_child d ch' x : out_edge d ch' x -> is_child ch' x.
Proof. unfold is_child. destruct d; simpl; tauto. Qed.
Lemma back_edge_child d ch' x : back_edge d ch' x -> is_child ch' x.
Proof. unfold is_child. destruct d; simpl; tauto. Qed.

Lemma fresh_child_range x :
  is_child ch x -> length (heap m) <= x < length (heap m) + 4.
Proof. unfold is_child, ch, fresh_children. simpl. lia. Qed.

(** A link between two of the new children. *)
Lemma pre_known_link d a b :
  is_child ch a -> is_child ch b -> a <> b ->
  ~ out_edge d ch a -> ~ back_edge d ch b ->
  tier (cell mB b) = tier (cell mB a) ->
  back_ids d (cell mB b) = out_ids d (cell mB a) ->
  link_pre mB d a b.
Proof.
  intros Ha Hb Hne Hoa Hbb Ht Hi.
  pose proof (fresh_child_range a Ha). pose proof (fresh_child_range b Hb).
  split; try done.
  - rewrite B_length. lia.
  - rewrite B_length. lia.
  - left. apply B_new_children. lia.
  - apply B_new_out. lia.
  - apply B_new_back. lia.
  - intros p ch' Hc. split; intros He; exfalso.
    + destruct (B_parent_new p ch' a Hc) as [-> ->];
        [by eapply out_edge_child|lia|done].
    + destruct (B_parent_new p ch' b Hc) as [-> ->];
        [by eapply back_edge_child|lia|done].
Qed.

(** A link from a new child to a child of the neighbour beyond. *)
Lemma pre_out_link d nc a b :
  nchildren m (out_of d) self = Some nc ->
  is_child ch a -> out_edge d ch a -> back_edge d nc b ->
  tier (cell mB a) = S (tier (cell m self)) ->
  back_ids d (cell m b) = out_ids d (cell mB a) ->
  link_pre mB d a b.
Proof.
  intros Hnc Ha Hoa Hbb Ht Hi.
  destruct (nchildren_out_inv d nc Hnc) as (n&Hn&Hc&Hback&Hne&Hv&Htn&Hin&Hsh).
  pose proof (fresh_child_range a Ha).
  pose proof (child_valid m n nc b Hwf Hc (back_edge_child _ _ _ Hbb)) as Hb.
  destruct (B_old b Hb) as (Hb1&Hb2&Hb3&Hb4&Hb5&_).
  split.
  - rewrite B_length. lia.
  - rewrite B_length. lia.
  - lia.
  - left. apply B_new_children. lia.
  - apply B_new_out. lia.
  - rewrite B_back. by eapply neighbour_child_back_free.
  - rewrite Hb5, Ht, (cs_tier _ _ _ Hsh b (back_edge_child _ _ _ Hbb)). lia.
  - rewrite <- Hi. destruct d; simpl; congruence.
  - intros p ch' Hc'. split; intros He.
    + destruct (B_parent_new p ch' a Hc') as [-> ->];
        [by eapply out_edge_child|lia|].
      rewrite B_nchildren_out. by rewrite Hnc.
    + destruct (B_parent_old p ch' n nc b Hc') as [-> ->];
        [by eapply back_edge_child|done|by eapply back_edge_child|].
      unfold nchildren. rewrite B_back, Hback, B_self. done.
Qed.

(** A link from a child of the neighbour before to a new child. *)
Lemma pre_back_link d nc a b :
  nchildren m (back_of d) self = Some nc ->
  out_edge d nc a -> is_child ch b -> back_edge d ch b ->
  tier (cell mB b) = S (tier (cell m self)) ->
  back_ids d (cell mB b) = out_ids d (cell m a) ->
  link_pre mB d a b.
Proof.
  intros Hnc Hoa Hb Hbb Ht Hi.
  destruct (nchildren_back_inv d nc Hnc) as (n&Hn&Hc&Hout&Hne&Hv&Htn&Hin&Hsh).
  pose proof (fresh_child_range b Hb).
  pose proof (child_valid m n nc a Hwf Hc (out_edge_child _ _ _ Hoa)) as Ha.
  destruct (B_old a Ha) as (Ha1&Ha2&Ha3&Ha4&Ha5&_).
  split.
  - rewrite B_length. lia.
  - rewrite B_length. lia.
  - lia.
  - right. apply B_new_children. lia.
  - rewrite B_out. by eapply neighbour_child_out_free.
  - apply B_new_back. lia.
  - rewrite Ha5, Ht, (cs_tier _ _ _ Hsh a (out_edge_child _ _ _ Hoa)). lia.
  - rewrite Hi. destruct d; simpl; congruence.
  - intros p ch' Hc'. split; intros He.
    + destruct (B_parent_old p ch' n nc a Hc') as [-> ->];
        [by eapply out_edge_child|done|by eapply out_edge_child|].
      unfold nchildren. rewrite B_out, Hout, B_self. done.
    + destruct (B_parent_new p ch' b Hc') as [-> ->];
        [by eapply back_edge_child|lia|].
      rewrite B_nchildren_back. by rewrite Hnc.
Qed.

Lemma pre_known_links :
  Forall (fun l => link_pre mB l.1.1 l.1.2 l.2) (known_links ch).
Proof.
  unfold known_links.
  repeat apply Forall_cons_2; [..|apply Forall_nil_2]; cbn [fst snd];
    apply pre_known_link;
    try (unfold is_child, ch, fresh_children; simpl; lia);
    try (unfold out_edge, back_edge, ch, fresh_children; simpl; lia);
    unfold ch, fresh_children; cbn [ch_bl ch_br ch_tl ch_tr];
    rewrite ?B_bl, ?B_br, ?B_tl, ?B_tr; done.
Qed.

Lemma pre_north_links :
  Forall (fun l => link_pre mB l.1.1 l.1.2 l.2) (north_links mB self ch).
Proof.
  unfold north_links.
  change (nchildren mB north self) with (nchildren mB (out_of NS) self).
  rewrite (B_nchildren_out NS).
  destruct (nchildren m (out_of NS) self) as [nc|] eqn:Hnc; [|apply Forall_nil_2].
  destruct (nchildren_out_inv NS nc Hnc) as (n&Hn&Hc&Hback&Hne&Hv&Htn&Hin&Hsh).
  pose proof (Hct_reused _ Hnc) as Hct.
  destruct Hsh. simpl in Hin.
  repeat apply Forall_cons_2; [..|apply Forall_nil_2]; cbn [fst snd];
    apply (pre_out_link NS nc); try done;
    try (unfold is_child, ch, fresh_children; simpl; lia);
    try (unfold out_edge, back_edge, ch, fresh_children; simpl; lia);
    try (unfold back_edge; simpl; tauto);
    unfold ch, fresh_children; cbn [ch_bl ch_br ch_tl ch_tr];
    rewrite ?B_tl, ?B_tr; simpl; try lia; congruence.
Qed.

Lemma pre_east_links :
  Forall (fun l => link_pre mB l.1.1 l.1.2 l.2) (east_links mB self ch).
Proof.
  unfold east_links.
  change (nchildren mB east self) with (nchildren mB (out_of EW) self).
  rewrite (B_nchildren_out EW).
  destruct (nchildren m (out_of EW) self) as [nc|] eqn:Hnc; [|apply Forall_nil_2].
  destruct (nchildren_out_inv EW nc Hnc) as (n&Hn&Hc&Hback&Hne&Hv&Htn&Hin&Hsh).
  pose proof (Hrm_reused _ Hnc) as Hrm.
  destruct Hsh. simpl in Hin.
  repeat apply Forall_cons_2; [..|apply Forall_nil_2]; cbn [fst snd];
    apply (pre_out_link EW nc); try done;
    try (unfold is_child, ch, fresh_children; simpl; lia);
    try (unfold out_edge, back_edge, ch, fresh_children; simpl; lia);
    try (unfold back_edge; simpl; tauto);
    unfold ch, fresh_children; cbn [ch_bl ch_br ch_tl ch_tr];
    rewrite ?B_br, ?B_tr; simpl; try lia; congruence.
Qed.

Lemma pre_south_links :
  Forall (fun l => link_pre mB l.1.1 l.1.2 l.2) (south_links mB self ch).
Proof.
  unfold south_links.
  change (nchildren mB south self) with (nchildren mB (back_of NS) self).
  rewrite (B_nchildren_back NS).
  destruct (nchildren m (back_of NS) self) as [nc|] eqn:Hnc; [|apply Forall_nil_2].
  destruct (nchildren_back_inv NS nc Hnc) as (n&Hn&Hc&Hout&Hne&Hv&Htn&Hin&Hsh).
  pose proof (Hcb_reused _ Hnc) as Hcb.
  destruct Hsh. simpl in Hin.
  repeat apply Forall_cons_2; [..|apply Forall_nil_2]; cbn [fst snd];
    apply (pre_back_link NS nc); try done;
    try (unfold is_child, ch, fresh_children; simpl; lia);
    try (unfold out_edge, back_edge, ch, fresh_children; simpl; lia);
    try (unfold out_edge; simpl; tauto);
    unfold ch, fresh_children; cbn [ch_bl ch_br ch_tl ch_tr];
    rewrite ?B_bl, ?B_br; simpl; try lia; congruence.
Qed.

Lemma pre_west_links :
  Forall (fun l => link_pre mB l.1.1 l.1.2 l.2) (west_links mB self ch).
Proof.
  unfold west_links.
  change (nchildren mB west self) with (nchildren mB (back_of EW) self).
  rewrite (B_nchildren_back EW).
  destruct (nchildren m (back_of EW) self) as [nc|] eqn:Hnc; [|apply Forall_nil_2].
  destruct (nchildren_back_inv EW nc Hnc) as (n&Hn&Hc&Hout&Hne&Hv&Htn&Hin&Hsh).
  pose proof (Hlm_reused _ Hnc) as Hlm.
  destruct Hsh. simpl in Hin.
  repeat apply Forall_cons_2; [..|apply Forall_nil_2]; cbn [fst snd];
    apply (pre_back_link EW nc); try done;
    try (unfold is_child, ch, fresh_children; simpl; lia);
    try (unfold out_edge, back_edge, ch, fresh_children; simpl; lia);
    try (unfold out_edge; simpl; tauto);
    unfold ch, fresh_children; cbn [ch_bl ch_br ch_tl ch_tr];
    rewrite ?B_bl, ?B_tl; simpl; try lia; congruence.
Qed.

Lemma pre_split_links :
  Forall (fun l => link_pre mB l.1.1 l.1.2 l.2) (split_links mB self ch).
Proof.
  unfold split_links, side_links. rewrite !Forall_app.
  auto using pre_known_links, pre_north_links, pre_east_links,
    pre_south_links, pre_west_links.
Qed.

(** The shape of the four lists of side links. *)
Lemma neighbour_child_ne n nc x :
  tier (cell m n) = tier (cell m self) -> child_shape m n nc ->
  is_child nc x -> x <> self.
Proof.
  intros Ht Hsh Hx ->. pose proof (cs_tier _ _ _ Hsh self Hx). lia.
Qed.

Lemma north_links_shape :
  north_links mB self ch = [] \/
  exists b, b + 1 < length (heap m) /\ b <> self /\ b + 1 <> self /\
    north_links mB self ch =
      [ (NS, length (heap m) + 2, b); (NS, length (heap m) + 3, b + 1) ].
Proof.
  unfold north_links.
  change (nchildren mB north self) with (nchildren mB (out_of NS) self).
  rewrite (B_nchildren_out NS).
  destruct (nchildren m (out_of NS) self) as [nc|] eqn:Hnc; [right|by left].
  destruct (nchildren_out_inv NS nc Hnc) as (n&Hn&Hc&Hback&Hne&Hv&Htn&Hin&Hsh).
  exists (ch_bl nc).
  pose proof (neighbour_child_ne n nc (ch_bl nc) Htn Hsh).
  pose proof (neighbour_child_ne n nc (ch_br nc) Htn Hsh).
  pose proof (cs_br _ _ _ Hsh) as cs_br0. pose proof (cs_tl _ _ _ Hsh) as cs_tl0.
  pose proof (cs_tr _ _ _ Hsh) as cs_tr0. pose proof (cs_valid _ _ _ Hsh).
  unfold is_child in *. unfold ch, fresh_children.
  cbn [ch_bl ch_br ch_tl ch_tr]. rewrite ?cs_br0, ?cs_tl0, ?cs_tr0.
  split_and!; try lia; done.
Qed.

Lemma east_links_shape :
  east_links mB self ch = [] \/
  exists b, b + 2 < length (heap m) /\ b <> self /\ b + 2 <> self /\
    east_links mB self ch =
      [ (EW, length (heap m) + 1, b); (EW, length (heap m) + 3, b + 2) ].
Proof.
  unfold east_links.
  change (nchildren mB east self) with (nchildren mB (out_of EW) self).
  rewrite (B_nchildren_out EW).
  destruct (nchildren m (out_of EW) self) as [nc|] eqn:Hnc; [right|by left].
  destruct (nchildren_out_inv EW nc Hnc) as (n&Hn&Hc&Hback&Hne&Hv&Htn&Hin&Hsh).
  exists (ch_bl nc).
  pose proof (neighbour_child_ne n nc (ch_bl nc) Htn Hsh).
  pose proof (neighbour_child_ne n nc (ch_tl nc) Htn Hsh).
  pose proof (cs_br _ _ _ Hsh) as cs_br0. pose proof (cs_tl _ _ _ Hsh) as cs_tl0.
  pose proof (cs_tr _ _ _ Hsh) as cs_tr0. pose proof (cs_valid _ _ _ Hsh).
  unfold is_child in *. unfold ch, fresh_children.
  cbn [ch_bl ch_br ch_tl ch_tr]. rewrite ?cs_br0, ?cs_tl0, ?cs_tr0.
  split_and!; try lia; done.
Qed.

Lemma south_links_shape :
  south_links mB self ch = [] \/
  exists a, a + 3 < length (heap m) /\ a + 2 <> self /\ a + 3 <> self /\
    south_links mB self ch =
      [ (NS, a + 2, length (heap m)); (NS, a + 3, length (heap m) + 1) ].
Proof.
  unfold south_links.
  change (nchildren mB south self) with (nchildren mB (back_of NS) self).
  rewrite (B_nchildren_back NS).
  destruct (nchildren m (back_of NS) self) as [nc|] eqn:Hnc; [right|by left].
  destruct (nchildren_back_inv NS nc Hnc) as (n&Hn&Hc&Hback&Hne&Hv&Htn&Hin&Hsh).
  exists (ch_bl nc).
  pose proof (neighbour_child_ne n nc (ch_tl nc) Htn Hsh).
  pose proof (neighbour_child_ne n nc (ch_tr nc) Htn Hsh).
  pose proof (cs_br _ _ _ Hsh) as cs_br0. pose proof (cs_tl _ _ _ Hsh) as cs_tl0.
  pose proof (cs_tr _ _ _ Hsh) as cs_tr0. pose proof (cs_valid _ _ _ Hsh).
  unfold is_child in *. unfold ch, fresh_children.
  cbn [ch_bl ch_br ch_tl ch_tr]. rewrite ?cs_br0, ?cs_tl0, ?cs_tr0.
  split_and!; try lia; done.
Qed.

Lemma west_links_shape :
  west_links mB self ch = [] \/
  exists a, a + 3 < length (heap m) /\ a + 1 <> self /\ a + 3 <> self /\
    west_links mB self ch =
      [ (EW, a + 1, length (heap m)); (EW, a + 3, length (heap m) + 2) ].
Proof.
  unfold west_links.
  change (nchildren mB west self) with (nchildren mB (back_of EW) self).
  rewrite (B_nchildren_back EW).
  destruct (nchildren m (back_of EW) self) as [nc|] eqn:Hnc; [right|by left].
  destruct (nchildren_back_inv EW nc Hnc) as (n&Hn&Hc&Hback&Hne&Hv&Htn&Hin&Hsh).
  exists (ch_bl nc).
  pose proof (neighbour_child_ne n nc (ch_br nc) Htn Hsh).
  pose proof (neighbour_child_ne n nc (ch_tr nc) Htn Hsh).
  pose proof (cs_br _ _ _ Hsh) as cs_br0. pose proof (cs_tl _ _ _ Hsh) as cs_tl0.
  pose proof (cs_tr _ _ _ Hsh) as cs_tr0. pose proof (cs_valid _ _ _ Hsh).
  unfold is_child in *. unfold ch, fresh_children.
  cbn [ch_bl ch_br ch_tl ch_tr]. rewrite ?cs_br0, ?cs_tl0, ?cs_tr0.
  split_and!; try lia; done.
Qed.

Lemma split_links_src_NoDup : NoDup (link_src <$> split_links mB self ch).
Proof.
  apply (src_NoDup (length (heap m)) (north_links mB self ch)
           (east_links mB self ch) (south_links mB self ch)
           (west_links mB self ch)).
  - destruct north_links_shape as [->|(b&?&?&?&->)]; [by left|right; eauto].
  - destruct east_links_shape as [->|(b&?&?&?&->)]; [by left|right; eauto].
  - destruct south_links_shape as [->|(b&?&?&?&->)]; [by left|right; eauto].
  - destruct west_links_shape as [->|(b&?&?&?&->)]; [by left|right; eauto].
Qed.

Lemma split_links_dst_NoDup : NoDup (link_dst <$> split_links mB self ch).
Proof.
  apply (dst_NoDup (length (heap m)) (north_links mB self ch)
           (east_links mB self ch) (south_links mB self ch)
           (west_links mB self ch)).
  - destruct north_links_shape as [->|(b&?&?&?&->)]; [by left|right; eauto].
  - destruct east_links_shape as [->|(b&?&?&?&->)]; [by left|right; eauto].
  - destruct south_links_shape as [->|(b&?&?&?&->)]; [by left|right; eauto].
  - destruct west_links_shape as [->|(b&?&?&?&->)]; [by left|right; eauto].
Qed.

Lemma split_links_not_self l :
  l ∈ split_links mB self ch -> self <> l.1.2 /\ self <> l.2.
Proof.
  unfold split_links, side_links, known_links.
  destruct north_links_shape as [->|(bn&?&?&?&->)];
  destruct east_links_shape as [->|(be&?&?&?&->)];
  destruct south_links_shape as [->|(bs&?&?&?&->)];
  destruct west_links_shape as [->|(bw&?&?&?&->)];
  unfold ch, fresh_children; cbn [ch_bl ch_br ch_tl ch_tr app];
  rewrite ?elem_of_cons, ?elem_of_nil; intros Hx;
  repeat (destruct Hx as [Hx|Hx]); try done; subst l; simpl; lia.
Qed.

(** The store once the children are linked. *)
Lemma HeapWF_wired :
  lm < length (windows m) -> cb < length (windows m) ->
  cm < length (windows m) -> ct < length (windows m) ->
  rm < length (windows m) ->
  HeapWF (apply_links (split_links mB self ch) mB).
Proof.
  intros. apply HeapWF_apply_links.
  - by apply HeapWF_with_children.
  - apply pre_split_links.
  - apply split_links_src_NoDup.
  - apply split_links_dst_NoDup.
Qed.
End split_links.


(** ** Steps of [split] that leave the objects alone *)

(** Same objects, windows and cells; the tiers and grids may differ. *)
Definition same_objects (m m' : MultiGrid) : Prop :=
  heap m' = heap m /\ windows m' = windows m /\ cells m' = cells m /\
  cells_in_top_tier m' = cells_in_top_tier m /\ spacing m' = spacing m /\
  img_dim m' = img_dim m.

Lemma same_objects_refl m : same_objects m m.
Proof. by repeat split. Qed.

Lemma same_objects_trans m1 m2 m3 :
  same_objects m1 m2 -> same_objects m2 m3 -> same_objects m1 m3.
Proof.
  intros (?&?&?&?&?&?) (?&?&?&?&?&?). repeat split; congruence.
Qed.

Lemma same_objects_cell m m' c : same_objects m m' -> cell m' c = cell m c.
Proof. intros (H&_). unfold cell. by rewrite H. Qed.

Lemma new_tier_same_objects m r m' :
  new_tier m = (r, m') -> same_objects m m'.
Proof.
  unfold new_tier. destruct (Z.even (h_curr m)).
  - destruct (Grid_init _ _); intros [= <- <-]; by repeat split.
  - intros [= <- <-]. apply same_objects_refl.
Qed.

Lemma set_grid_entry_same_objects t r0 c w m r m' :
  set_grid_entry t r0 c w m = (r, m') ->
  same_objects m m' /\ max_tier m' = max_tier m.
Proof.
  unfold set_grid_entry. destruct (grids m !! t); [|by intros [= <- <-]].
  case_decide; [|by intros [= <- <-]].
  destruct (grid_set _ _ _ _); by intros [= <- <-].
Qed.

(** Actions that only touch grid entries. *)
Definition grid_only {A} (c : M A) : Prop :=
  forall m r m', c m = (r, m') -> same_objects m m' /\ max_tier m' = max_tier m.

Lemma grid_only_bind {A B} (c : M A) (k : A -> M B) :
  grid_only c -> (forall a, grid_only (k a)) -> grid_only (bind c k).
Proof.
  intros Hc Hk m r m'. unfold bind. destruct (c m) as [[a| |] m1] eqn:E.
  - intros Hr. destruct (Hc _ _ _ E) as [H1 H2].
    destruct (Hk _ _ _ _ Hr) as [H3 H4].
    split; [by eapply same_objects_trans|congruence].
  - intros [= <- <-]. by apply (Hc _ _ _ E).
  - intros [= <- <-]. by apply (Hc _ _ _ E).
Qed.

Lemma grid_only_set_grid_entry t r0 c w : grid_only (set_grid_entry t r0 c w).
Proof. intros m r m'. apply set_grid_entry_same_objects. Qed.

Lemma register_windows_same_objects self ch lm cb cm ct rm m r m' :
  register_windows self ch lm cb cm ct rm m = (r, m') ->
  same_objects m m' /\ max_tier m' = max_tier m.
Proof.
  unfold register_windows. unfold bind at 1, get. cbv beta iota zeta.
  apply grid_only_bind; [apply grid_only_set_grid_entry|intros _].
  apply grid_only_bind; [apply grid_only_set_grid_entry|intros _].
  apply grid_only_bind; [apply grid_only_set_grid_entry|intros _].
  apply grid_only_bind; [apply grid_only_set_grid_entry|intros _].
  apply grid_only_set_grid_entry.
Qed.

(** ** [split_body], stage by stage *)

Definition state_A (m : MultiGrid) (self : nat) : MultiGrid :=
  with_windows (windows_after m self) m.

Definition state_B (m : MultiGrid) (self : nat) : MultiGrid :=
  let '(lm, cb, cm, ct, rm) := ids_after m self in
  with_heap (heap_with_children self lm cb cm ct rm (state_A m self))
    (state_A m self).

(** "Create a new tier if it is needed" *)
Definition tier_stage (ch : Children) : M unit := fun m1 =>
  (if decide (max_tier m1 < tier (cell m1 (ch_bl ch))) then new_tier
   else ret tt) m1.

Definition register_stage (self : nat) (ch : Children) (m : MultiGrid) : M unit :=
  let '(lm, cb, cm, ct, rm) := ids_after m self in
  register_windows self ch lm cb cm ct rm.

(** The store when [split] returns: the children linked and registered. *)
Definition wired (self : nat) (ch : Children) (m : MultiGrid) : MultiGrid :=
  let mW := apply_links (split_links m self ch) m in
  with_cells (cells mW ++ [ch_bl ch; ch_br ch; ch_tl ch; ch_tr ch]) mW.

Lemma cells_with_cells cs m : cells (with_cells cs m) = cs.
Proof. done. Qed.
Lemma with_cells_with_cells c1 c2 m :
  with_cells c1 (with_cells c2 m) = with_cells c1 m.
Proof. done. Qed.

Lemma append_cells_eq a b c d m :
  (append_cell a ;;; append_cell b ;;; append_cell c ;;; append_cell d) m =
    (Ok tt, with_cells (cells m ++ [a; b; c; d]) m).
Proof.
  unfold append_cell. rewrite !bind_modify. unfold modify.
  rewrite !cells_with_cells, !with_cells_with_cells.
  by rewrite <- !app_assoc.
Qed.

Lemma split_links_same_heap m m' self ch :
  heap m' = heap m -> split_links m' self ch = split_links m self ch.
Proof.
  intros H. unfold split_links, side_links, north_links, east_links,
    south_links, west_links, nchildren, cell. by rewrite H.
Qed.

Lemma bind_bind_ok {A B C} (c1 : M A) (c2 : M B) (k : M C) m x m' :
  (c1 ;;; c2) m = (Ok x, m') -> (c1 ;;; c2 ;;; k) m = k m'.
Proof.
  unfold bind. destruct (c1 m) as [[a| |] m1]; [|done|done].
  destruct (c2 m1) as [[b| |] m2]; [|done|done]. by intros [= _ ->].
Qed.

Lemma wiring_then {B} m self ch (k : M B) :
  children (cell m self) = Some ch ->
  (forall l, l ∈ split_links m self ch -> self <> l.1.2 /\ self <> l.2) ->
  (set_known_neighbours ch ;;; update_child_neighbours self ;;; k) m =
    k (apply_links (split_links m self ch) m).
Proof.
  intros H1 H2. exact (bind_bind_ok _ _ _ _ _ _ (wiring_eq m self ch H1 H2)).
Qed.

Lemma HeapWF_state_A m self : HeapWF m -> HeapWF (state_A m self).
Proof.
  intros. apply HeapWF_with_windows; [|done].
  pose proof (windows_after_length m self). lia.
Qed.

Section split_body.
Variables (m : MultiGrid) (self lm cb cm ct rm : nat).
Hypothesis Hwf : HeapWF m.
Hypothesis Hself : self < length (heap m).
Hypothesis Hleaf : children (cell m self) = None.
Hypothesis Hids : ids_after m self = (lm, cb, cm, ct, rm).

Let ch := fresh_children m.
Let mA := state_A m self.
Let mB := with_heap (heap_with_children self lm cb cm ct rm mA) mA.

Lemma state_B_eq : state_B m self = mB.
Proof. unfold state_B. by rewrite Hids. Qed.

Lemma HeapWF_state_B : HeapWF mB.
Proof.
  destruct (ids_after_valid m self lm cb cm ct rm Hwf Hids) as (?&?&?&?&?).
  apply HeapWF_with_children; try done.
  - by apply HeapWF_state_A.
  - intros x Hx. exact (lm_reused m self x lm cb cm ct rm Hids Hx).
  - intros x Hx. exact (cb_reused m self x lm cb cm ct rm Hids Hx).
  - intros x Hx. exact (ct_reused m self x lm cb cm ct rm Hids Hx).
  - intros x Hx. exact (rm_reused m self x lm cb cm ct rm Hids Hx).
Qed.

Lemma HeapWF_links_B : HeapWF (apply_links (split_links mB self ch) mB).
Proof.
  destruct (ids_after_valid m self lm cb cm ct rm Hwf Hids) as (?&?&?&?&?).
  apply (HeapWF_wired mA); try done.
  - by apply HeapWF_state_A.
  - intros x Hx. exact (lm_reused m self x lm cb cm ct rm Hids Hx).
  - intros x Hx. exact (cb_reused m self x lm cb cm ct rm Hids Hx).
  - intros x Hx. exact (ct_reused m self x lm cb cm ct rm Hids Hx).
  - intros x Hx. exact (rm_reused m self x lm cb cm ct rm Hids Hx).
Qed.

Lemma split_body_eq :
  split_body self m =
    match tier_stage ch mB with
    | (Ok _, mC) =>
        match register_windows self ch lm cb cm ct rm mC with
        | (Ok _, mD) => (Ok tt, wired self ch mD)
        | (Raise e, mD) => (Raise e, mD)
        | (OutOfFuel, mD) => (OutOfFuel, mD)
        end
    | (Raise e, mC) => (Raise e, mC)
    | (OutOfFuel, mC) => (OutOfFuel, mC)
    end.
Proof.
  destruct (ids_after_valid m self lm cb cm ct rm Hwf Hids) as (?&?&?&?&?).
  destruct (wf_ids _ Hwf self Hself) as (?&?&?&?).
  pose proof (windows_after_length m self).
  unfold split_body.
  rewrite (bind_ok _ _ _ _ _ (create_new_corrWindows_eq self m)).
  rewrite Hids.
  assert (Hb1 : id_bl (cell mA self) < length (windows mA)).
  { change (id_bl (cell m self) < length (windows_after m self)). lia. }
  assert (Hb2 : id_br (cell mA self) < length (windows mA)).
  { change (id_br (cell m self) < length (windows_after m self)). lia. }
  assert (Hb3 : id_tl (cell mA self) < length (windows mA)).
  { change (id_tl (cell m self) < length (windows_after m self)). lia. }
  assert (Hb4 : id_tr (cell mA self) < length (windows mA)).
  { change (id_tr (cell m self) < length (windows_after m self)). lia. }
  fold (state_A m self). fold mA.
  rewrite (bind_ok _ _ _ _ _
    (make_children_eq self lm cb cm ct rm mA Hself Hb1 Hb2 Hb3 Hb4
       ltac:(done) ltac:(done) ltac:(done) ltac:(done) ltac:(done))).
  fold mA. fold mB. change (fresh_children mA) with ch.
  unfold bind at 1, get. cbv beta iota.
  unfold bind at 1.
  change ((if decide (max_tier mB < tier (cell mB (ch_bl ch))) then new_tier
           else ret tt) mB) with (tier_stage ch mB).
  destruct (tier_stage ch mB) as [[[]| |] mC] eqn:EC; [|done|done].
  unfold bind at 1.
  destruct (register_windows self ch lm cb cm ct rm mC) as [[[]| |] mD] eqn:ED;
    [|done|done].
  assert (HC : same_objects mB mC).
  { unfold tier_stage in EC. case_decide.
    - by apply new_tier_same_objects in EC.
    - injection EC as <-. apply same_objects_refl. }
  pose proof (register_windows_same_objects _ _ _ _ _ _ _ _ _ _ ED) as [HD _].
  pose proof (same_objects_trans _ _ _ HC HD) as (HBD&_).
  rewrite wiring_then.
  - by rewrite append_cells_eq.
  - unfold cell. rewrite HBD. apply (B_self mA); done.
  - rewrite (split_links_same_heap mB) by done.
    apply (split_links_not_self mA); [by apply HeapWF_state_A|done].
Qed.
End split_body.


(** ** What [split_body] leaves behind *)

(** Two objects that agree on everything but their neighbours. *)
Definition tree_eq (c c' : GridCell) : Prop :=
  id_bl c' = id_bl c /\ id_br c' = id_br c /\ id_tl c' = id_tl c /\
  id_tr c' = id_tr c /\ tier c' = tier c /\ ix c' = ix c /\ iy c' = iy c /\
  children c' = children c /\ parent c' = parent c.

(** Two stores with the same windows and the same tree of cells. *)
Definition same_tree (m m' : MultiGrid) : Prop :=
  length (heap m') = length (heap m) /\ windows m' = windows m /\
  cells_in_top_tier m' = cells_in_top_tier m /\
  take (cells_in_top_tier m) (cells m') = take (cells_in_top_tier m) (cells m) /\
  spacing m' = spacing m /\ img_dim m' = img_dim m /\
  forall c, tree_eq (cell m c) (cell m' c).

Lemma tree_eq_refl c : tree_eq c c.
Proof. by repeat split. Qed.

Lemma tree_eq_trans c1 c2 c3 : tree_eq c1 c2 -> tree_eq c2 c3 -> tree_eq c1 c3.
Proof.
  intros (?&?&?&?&?&?&?&?&?) (?&?&?&?&?&?&?&?&?). repeat split; congruence.
Qed.

Lemma same_tree_refl m : same_tree m m.
Proof. repeat split; done. Qed.

Lemma same_tree_trans m1 m2 m3 :
  same_tree m1 m2 -> same_tree m2 m3 -> same_tree m1 m3.
Proof.
  intros (?&?&Ha&?&?&?&H12) (?&?&?&Hb&?&?&H23). rewrite Ha in Hb.
  repeat split; try congruence.
  all: destruct (H12 c) as (?&?&?&?&?&?&?&?&?);
    destruct (H23 c) as (?&?&?&?&?&?&?&?&?); congruence.
Qed.

Lemma same_skeleton_tree m m' : same_skeleton m m' -> same_tree m m'.
Proof.
  intros (?&?&?&Hc&?&?&?&?&H). repeat split; try done; try apply H.
  by rewrite Hc.
Qed.

Lemma same_objects_tree m m' : same_objects m m' -> same_tree m m'.
Proof.
  intros (Hh&?&Hc&?&?&?). unfold same_tree, cell. rewrite Hh, Hc.
  repeat split; done.
Qed.

Lemma same_objects_eq m m' :
  same_objects m m' ->
  m' = with_grids (grids m') (with_max_tier (max_tier m') m).
Proof.
  destruct m, m'. unfold same_objects. simpl.
  intros (->&->&->&->&->&->). done.
Qed.

Lemma link_with_grids d a b g m :
  link d a b (with_grids g m) = with_grids g (link d a b m).
Proof. done. Qed.
Lemma link_with_max_tier d a b t m :
  link d a b (with_max_tier t m) = with_max_tier t (link d a b m).
Proof. done. Qed.

Lemma apply_links_with_grids ls g m :
  apply_links ls (with_grids g m) = with_grids g (apply_links ls m).
Proof.
  revert m. induction ls as [|l ls IH]; intros m; [done|].
  change (apply_links ls (link l.1.1 l.1.2 l.2 (with_grids g m)) =
          with_grids g (apply_links ls (link l.1.1 l.1.2 l.2 m))).
  by rewrite link_with_grids, IH.
Qed.
Lemma apply_links_with_max_tier ls t m :
  apply_links ls (with_max_tier t m) = with_max_tier t (apply_links ls m).
Proof.
  revert m. induction ls as [|l ls IH]; intros m; [done|].
  change (apply_links ls (link l.1.1 l.1.2 l.2 (with_max_tier t m)) =
          with_max_tier t (apply_links ls (link l.1.1 l.1.2 l.2 m))).
  by rewrite link_with_max_tier, IH.
Qed.

(** Only [split_fuel] can run out of fuel. *)
Definition no_fuel {A} (c : M A) : Prop := forall m, (c m).1 <> OutOfFuel.

Lemma no_fuel_bind {A B} (c : M A) (k : A -> M B) :
  no_fuel c -> (forall a, no_fuel (k a)) -> no_fuel (bind c k).
Proof.
  intros Hc Hk m. unfold bind. specialize (Hc m).
  destruct (c m) as [[a| |] m1]; simpl in *; [apply Hk|done|done].
Qed.

Lemma Grid_init_no_fuel dim sp : Grid_init dim sp <> OutOfFuel.
Proof. unfold Grid_init, arange. by destruct (sp =? 0)%Z. Qed.

Lemma new_tier_no_fuel : no_fuel new_tier.
Proof.
  intros m. unfold new_tier. destruct (Z.even _); [|done].
  pose proof (Grid_init_no_fuel (img_dim (with_max_tier (max_tier m + 1) m))
                (h_curr m ÷ 2)%Z).
  by destruct (Grid_init _ _).
Qed.

Lemma set_grid_entry_no_fuel t r c w : no_fuel (set_grid_entry t r c w).
Proof.
  intros m. unfold set_grid_entry. destruct (grids m !! t) as [g|]; [|done].
  case_decide; [|done]. unfold grid_set.
  destruct (g_array g !! r); [|done]. by case_decide.
Qed.

Lemma register_windows_no_fuel self ch lm cb cm ct rm :
  no_fuel (register_windows self ch lm cb cm ct rm).
Proof.
  unfold register_windows. apply no_fuel_bind; [done|intros m0].
  repeat (apply no_fuel_bind; [apply set_grid_entry_no_fuel|intros _]).
  apply set_grid_entry_no_fuel.
Qed.

(** The exceptions [split] raises after the neighbours were dealt with. *)
Definition body_exn (e : exn) : Prop :=
  e = RefinementNotPossible \/ e = ZeroDivisionError \/ e = IndexError.

Lemma Grid_init_exn dim sp e : Grid_init dim sp = Raise e -> e = ZeroDivisionError.
Proof.
  unfold Grid_init, arange. destruct (sp =? 0)%Z; [|done]. by intros [= <-].
Qed.

Lemma new_tier_exn m e m' : new_tier m = (Raise e, m') -> body_exn e.
Proof.
  unfold new_tier, body_exn. destruct (Z.even _); [|intros [= <- _]; auto].
  destruct (Grid_init _ _) eqn:E; intros [= <- _].
  apply Grid_init_exn in E. auto.
Qed.

Definition raises_only {A} (P : exn -> Prop) (c : M A) : Prop :=
  forall m e m', c m = (Raise e, m') -> P e.

Lemma raises_only_bind {A B} P (c : M A) (k : A -> M B) :
  raises_only P c -> (forall a, raises_only P (k a)) -> raises_only P (bind c k).
Proof.
  intros Hc Hk m e m'. unfold bind. destruct (c m) as [[a| |] m1] eqn:E.
  - apply Hk.
  - intros [= <- <-]. by apply (Hc _ _ _ E).
  - done.
Qed.

Lemma set_grid_entry_exn t r c w : raises_only body_exn (set_grid_entry t r c w).
Proof.
  intros m e m'. unfold set_grid_entry, body_exn.
  destruct (grids m !! t) as [g|]; [|intros [= <- _]; auto].
  case_decide; [|intros [= <- _]; auto]. unfold grid_set.
  destruct (g_array g !! r); [|intros [= <- _]; auto].
  case_decide; [done|intros [= <- _]; auto].
Qed.

Lemma register_windows_exn self ch lm cb cm ct rm :
  raises_only body_exn (register_windows self ch lm cb cm ct rm).
Proof.
  unfold register_windows. apply raises_only_bind; [done|intros m0].
  repeat (apply raises_only_bind; [apply set_grid_entry_exn|intros _]).
  apply set_grid_entry_exn.
Qed.

(** The outcome of [split_body] on a leaf of a well-formed store. *)
Record body_post (m : MultiGrid) (self : nat) (r : result unit)
    (m' : MultiGrid) : Prop := {
  bp_fuel : r <> OutOfFuel;
  bp_exn : forall e, r = Raise e -> body_exn e;
  bp_wf : HeapWF m';
  bp_tree : same_tree (state_B m self) m';
  bp_max_tier : max_tier m <= max_tier m';
  bp_cells : cells m' =
    if is_ok r then
      cells m ++ [ch_bl (fresh_children m); ch_br (fresh_children m);
                  ch_tl (fresh_children m); ch_tr (fresh_children m)]
    else cells m
}.

Lemma tier_stage_spec ch m r m' :
  tier_stage ch m = (r, m') ->
  same_objects m m' /\ max_tier m <= max_tier m' /\ r <> OutOfFuel /\
  (forall e, r = Raise e -> body_exn e).
Proof.
  unfold tier_stage. case_decide as Hd.
  - intros E. pose proof (new_tier_no_fuel m) as Hf. rewrite E in Hf.
    split_and!; [by eapply new_tier_same_objects| |done|].
    + revert E. unfold new_tier. destruct (Z.even _); [|intros [= _ <-]; lia].
      destruct (Grid_init _ _); intros [= _ <-]; simpl; lia.
    + intros e ->. by eapply new_tier_exn.
  - intros [= <- <-]. split_and!; try done.
Qed.

Section split_body_post.
Variables (m : MultiGrid) (self : nat).
Hypothesis Hwf : HeapWF m.
Hypothesis Hself : self < length (heap m).
Hypothesis Hleaf : children (cell m self) = None.

Lemma split_body_post r m' : split_body self m = (r, m') -> body_post m self r m'.
Proof.
  destruct (ids_after m self) as [[[[lm cb] cm] ct] rm] eqn:Hids.
  rewrite (split_body_eq m self lm cb cm ct rm Hwf Hself Hids).
  rewrite <- (state_B_eq m self lm cb cm ct rm Hids).
  pose proof (HeapWF_state_B m self lm cb cm ct rm Hwf Hself Hleaf Hids) as HB.
  pose proof (HeapWF_links_B m self lm cb cm ct rm Hwf Hself Hleaf Hids) as HL.
  rewrite <- (state_B_eq m self lm cb cm ct rm Hids) in HB, HL.
  set (mB := state_B m self) in *. set (ch := fresh_children m) in *.
  assert (HmB : max_tier mB = max_tier m /\ cells mB = cells m /\
                tier (cell mB (ch_bl ch)) = S (tier (cell m self))).
  { unfold mB. rewrite (state_B_eq m self lm cb cm ct rm Hids).
    split_and!; [done|done|].
    rewrite cell_with_children by done.
    unfold ch, fresh_children, state_A. simpl.
    repeat case_decide; try lia. simpl. unfold cell. simpl. lia. }
  destruct HmB as (Hmt&Hcs&Htier).
  destruct (tier_stage ch mB) as [rC mC] eqn:EC.
  destruct (tier_stage_spec _ _ _ _ EC) as (HC&HCt&HCf&HCe).
  assert (HwfC : HeapWF mC).
  { rewrite (same_objects_eq _ _ HC).
    by apply HeapWF_with_grids, HeapWF_with_max_tier. }
  destruct rC as [[]| |]; [| |done].
  2:{ intros [= <- <-]. split; try done; try lia.
      - by apply same_objects_tree.
      - simpl. destruct HC as (?&?&?&?). congruence. }
  destruct (register_windows self ch lm cb cm ct rm mC) as [rD mD] eqn:ED.
  destruct (register_windows_same_objects _ _ _ _ _ _ _ _ _ _ ED) as [HD HDt].
  pose proof (register_windows_no_fuel self ch lm cb cm ct rm mC) as HDf.
  rewrite ED in HDf. simpl in HDf.
  pose proof (same_objects_trans _ _ _ HC HD) as HBD.
  assert (HwfD : HeapWF mD).
  { rewrite (same_objects_eq _ _ HBD).
    by apply HeapWF_with_grids, HeapWF_with_max_tier. }
  destruct rD as [[]| |]; [| |done].
  2:{ intros [= <- <-]. split; try done; try lia.
      - intros e' [= <-]. by eapply register_windows_exn.
      - by apply same_objects_tree.
      - simpl. destruct HBD as (?&?&?&?). congruence. }
  intros [= <- <-]. unfold wired.
  assert (HW : apply_links (split_links mD self ch) mD =
               with_grids (grids mD) (with_max_tier (max_tier mD)
                 (apply_links (split_links mB self ch) mB))).
  { rewrite (split_links_same_heap mB mD) by apply HBD.
    rewrite (same_objects_eq _ _ HBD) at 1.
    by rewrite apply_links_with_grids, apply_links_with_max_tier. }
  set (mW := apply_links (split_links mD self ch) mD) in *.
  assert (HwfW : HeapWF mW).
  { rewrite HW. by apply HeapWF_with_grids, HeapWF_with_max_tier. }
  pose proof (same_skeleton_apply_links (split_links mD self ch) mD) as HS.
  fold mW in HS.
  assert (HlenW : length (heap mW) = length (heap m) + 4).
  { rewrite (skel_length _ _ HS). destruct HBD as (->&_).
    unfold mB. rewrite (state_B_eq m self lm cb cm ct rm Hids).
    rewrite heap_with_heap, heap_with_children_length. done. }
  destruct (wf_roots _ HwfW) as (Hr1&Hr2&Hr3&Hr4).
  assert (Htake : forall l,
    take (cells_in_top_tier mW) (cells mW ++ l) =
    take (cells_in_top_tier mW) (cells mW)).
  { intros l. rewrite take_app_le; [done|].
    apply (f_equal length) in Hr2. rewrite length_take, length_seq in Hr2. lia. }
  split; try done; try (simpl; lia).
  - apply (HeapWF_same_heap mW); try done.
    + apply Htake.
    + simpl. intros x [Hx|Hx]%elem_of_app; [auto|].
      unfold ch, fresh_children in Hx. simpl in Hx.
      rewrite !elem_of_cons, elem_of_nil in Hx. lia.
  - eapply same_tree_trans; [apply same_objects_tree, HBD|].
    eapply same_tree_trans; [apply same_skeleton_tree, HS|].
    repeat split; try done. simpl.
    rewrite Htake. done.
  - simpl. destruct HS as (_&_&_&_&->&_). lia.
  - simpl. destruct HS as (_&_&_&->&_). destruct HBD as (_&_&->&_).
    by rewrite Hcs.
Qed.
End split_body_post.


(** ** The store only grows *)

(** What never changes in an object once it is made. *)
Definition same_fixed (c c' : GridCell) : Prop :=
  id_bl c' = id_bl c /\ id_br c' = id_br c /\ id_tl c' = id_tl c /\
  id_tr c' = id_tr c /\ tier c' = tier c /\ ix c' = ix c /\ iy c' = iy c /\
  parent c' = parent c.

Lemma same_fixed_refl c : same_fixed c c.
Proof. by repeat split. Qed.
Lemma same_fixed_trans c1 c2 c3 :
  same_fixed c1 c2 -> same_fixed c2 c3 -> same_fixed c1 c3.
Proof.
  intros (?&?&?&?&?&?&?&?) (?&?&?&?&?&?&?&?). repeat split; congruence.
Qed.
Lemma tree_eq_fixed c c' : tree_eq c c' -> same_fixed c c'.
Proof. intros (?&?&?&?&?&?&?&?&?). by repeat split. Qed.

(** [m'] comes after [m]: windows, objects and registered cells are only
    added, an object keeps its windows, tier, grid position and parent,
    and a cell that has children keeps them. *)
Record extends (m m' : MultiGrid) : Prop := {
  ext_heap : length (heap m) <= length (heap m');
  ext_windows : windows m `prefix_of` windows m';
  ext_cells : cells m `prefix_of` cells m';
  ext_top : cells_in_top_tier m' = cells_in_top_tier m;
  ext_spacing : spacing m' = spacing m;
  ext_dim : img_dim m' = img_dim m;
  ext_max_tier : max_tier m <= max_tier m';
  ext_old : forall c, c < length (heap m) -> same_fixed (cell m c) (cell m' c);
  ext_children : forall c ch,
    children (cell m c) = Some ch -> children (cell m' c) = Some ch
}.

Lemma extends_refl m : extends m m.
Proof. split; try done. Qed.

Lemma extends_trans m1 m2 m3 : extends m1 m2 -> extends m2 m3 -> extends m1 m3.
Proof.
  intros [] []. split; try congruence; try (etrans; done); auto.
  intros c Hc. eapply same_fixed_trans; [by apply ext_old0|].
  apply ext_old1. lia.
Qed.

(** The cells deeper than tier [t] have the children they had. *)
Definition deeper_kept (t : nat) (m m' : MultiGrid) : Prop :=
  forall c, c < length (heap m) -> t < tier (cell m c) ->
    children (cell m' c) = children (cell m c).

Lemma deeper_kept_refl t m : deeper_kept t m m.
Proof. done. Qed.

Lemma deeper_kept_trans t m1 m2 m3 :
  extends m1 m2 -> deeper_kept t m1 m2 -> deeper_kept t m2 m3 ->
  deeper_kept t m1 m3.
Proof.
  intros He H12 H23 c Hc Ht. rewrite <- (H12 c Hc Ht). apply H23.
  - pose proof (ext_heap _ _ He). lia.
  - destruct (ext_old _ _ He c Hc) as (_&_&_&_&->&_). done.
Qed.

Lemma deeper_kept_mono t t' m m' :
  t <= t' -> deeper_kept t m m' -> deeper_kept t' m m'.
Proof. intros Hle H c Hc Ht. apply H; [done|lia]. Qed.

(** ** The store after the children were made *)

Section state_B.
Variables (m : MultiGrid) (self : nat).
Hypothesis Hself : self < length (heap m).

Lemma state_B_length : length (heap (state_B m self)) = length (heap m) + 4.
Proof.
  destruct (ids_after m self) as [[[[lm cb] cm] ct] rm] eqn:Hids.
  rewrite (state_B_eq m self lm cb cm ct rm Hids).
  by rewrite heap_with_heap, heap_with_children_length.
Qed.

Lemma state_B_windows : windows (state_B m self) = windows_after m self.
Proof.
  destruct (ids_after m self) as [[[[lm cb] cm] ct] rm] eqn:Hids.
  by rewrite (state_B_eq m self lm cb cm ct rm Hids).
Qed.

Lemma state_B_params :
  cells_in_top_tier (state_B m self) = cells_in_top_tier m /\
  spacing (state_B m self) = spacing m /\
  img_dim (state_B m self) = img_dim m /\
  cells (state_B m self) = cells m /\
  max_tier (state_B m self) = max_tier m /\
  grids (state_B m self) = grids m.
Proof.
  destruct (ids_after m self) as [[[[lm cb] cm] ct] rm] eqn:Hids.
  by rewrite (state_B_eq m self lm cb cm ct rm Hids).
Qed.

Lemma state_B_cell j :
  cell (state_B m self) j =
    let '(lm, cb, cm, ct, rm) := ids_after m self in
    if decide (j = self) then set_children (Some (fresh_children m)) (cell m self)
    else if decide (j = length (heap m)) then child_bl self (cell m self) lm cb cm ct rm
    else if decide (j = length (heap m) + 1) then child_br self (cell m self) lm cb cm ct rm
    else if decide (j = length (heap m) + 2) then child_tl self (cell m self) lm cb cm ct rm
    else if decide (j = length (heap m) + 3) then child_tr self (cell m self) lm cb cm ct rm
    else cell m j.
Proof.
  destruct (ids_after m self) as [[[[lm cb] cm] ct] rm] eqn:Hids.
  rewrite (state_B_eq m self lm cb cm ct rm Hids).
  by rewrite cell_with_children.
Qed.

Lemma state_B_old j :
  j < length (heap m) ->
  same_fixed (cell m j) (cell (state_B m self) j) /\
  children (cell (state_B m self) j) =
    if decide (j = self) then Some (fresh_children m) else children (cell m j).
Proof.
  intros Hj. rewrite state_B_cell.
  destruct (ids_after m self) as [[[[lm cb] cm] ct] rm].
  repeat case_decide; subst; try lia; by repeat split.
Qed.

Lemma state_B_new j :
  length (heap m) <= j -> children (cell (state_B m self) j) = None.
Proof.
  intros Hj. rewrite state_B_cell.
  destruct (ids_after m self) as [[[[lm cb] cm] ct] rm].
  repeat case_decide; subst; try lia; try done.
  by rewrite cell_default.
Qed.
End state_B.

Lemma tree_children m m' c :
  same_tree m m' -> children (cell m' c) = children (cell m c).
Proof. intros (_&_&_&_&_&_&H). by destruct (H c) as (?&?&?&?&?&?&?&?&?). Qed.

Lemma body_post_extends m self r m' :
  self < length (heap m) -> children (cell m self) = None ->
  body_post m self r m' ->
  extends m m' /\
  (forall c, c <> self -> c < length (heap m) ->
     children (cell m' c) = children (cell m c)) /\
  children (cell m' self) = Some (fresh_children m) /\
  length (heap m') = length (heap m) + 4 /\
  windows m' = windows_after m self /\
  (forall c, length (heap m) <= c -> children (cell m' c) = None).
Proof.
  intros Hself Hleaf [Hf He Hwf Ht Hmt Hcs].
  pose proof Ht as (Hl&Hw&Htop&_&Hsp&Hdim&Hcell).
  rewrite state_B_length in Hl by done. rewrite state_B_windows in Hw by done.
  destruct (state_B_params m self) as (HBt&HBs&HBd&_).
  rewrite HBt in Htop. rewrite HBs in Hsp. rewrite HBd in Hdim.
  assert (Hch : forall c, children (cell m' c) = children (cell (state_B m self) c)).
  { intros c. by apply tree_children. }
  split_and!; try done.
  - split; try done.
    + lia.
    + rewrite Hw. destruct (windows_after_spec m self) as (new&->&_).
      by apply prefix_app_r.
    + rewrite Hcs. destruct (is_ok r); [by apply prefix_app_r|done].
    + intros c Hc.
      eapply same_fixed_trans; [exact (proj1 (state_B_old m self Hself c Hc))|].
      exact (tree_eq_fixed _ _ (Hcell c)).
    + intros c ch Hc. rewrite Hch.
      destruct (decide (c < length (heap m))) as [Hlt|Hge].
      * destruct (state_B_old m self Hself c Hlt) as [_ ->].
        case_decide; [congruence|done].
      * rewrite cell_default in Hc by lia. done.
  - intros c Hne Hc. rewrite Hch.
    destruct (state_B_old m self Hself c Hc) as [_ ->]. by case_decide.
  - rewrite Hch. destruct (state_B_old m self Hself self Hself) as [_ ->].
    by case_decide.
  - intros c Hc. rewrite Hch. by apply state_B_new.
Qed.

(** ** [split], by induction on the depth of the cascade *)

Definition is_side (side : GridCell -> option nat) : Prop :=
  exists d, side = out_of d \/ side = back_of d.

Lemma side_valid m side a b :
  HeapWF m -> is_side side -> side (cell m a) = Some b ->
  b < length (heap m) /\ tier (cell m b) = tier (cell m a).
Proof.
  intros Hwf [d [-> | ->]] H.
  - split; [exact (Sym_out_valid m d a b (wf_sym _ Hwf) H)|].
    exact (wf_nb_tier _ Hwf d a b H).
  - split; [exact (Sym_back_valid m d b a (wf_sym _ Hwf) H)|].
    apply (wf_sym _ Hwf) in H. symmetry. exact (wf_nb_tier _ Hwf d b a H).
Qed.

Lemma parent_of_deep m c :
  HeapWF m -> c < length (heap m) -> 0 < tier (cell m c) ->
  exists p, parent (cell m c) = Some p /\ p < length (heap m) /\
            tier (cell m c) = S (tier (cell m p)).
Proof.
  intros Hwf Hc Ht. pose proof (wf_parent _ Hwf c Hc) as Hp.
  destruct (parent (cell m c)) as [p|]; [|lia].
  destruct Hp as (ch&Hch&Hin). exists p. split_and!; [done| |].
  - by eapply children_valid.
  - exact (cs_tier _ _ _ (wf_children _ Hwf p ch Hch) c Hin).
Qed.

Section split_inv.
Variable Inv : MultiGrid -> Prop.
Hypothesis Inv_wf : forall m, Inv m -> HeapWF m.
Hypothesis Inv_body : forall m self r m',
  Inv m -> self < length (heap m) -> children (cell m self) = None ->
  split_body self m = (r, m') -> Inv m'.

(** The outcome of a call that touches the children of cells of tier
    [t] at most. *)
Record split_post (m : MultiGrid) (t : nat) (r : result unit)
    (m' : MultiGrid) : Prop := {
  sp_fuel : r <> OutOfFuel;
  sp_attr : r <> Raise AttributeError;
  sp_inv : Inv m';
  sp_ext : extends m m';
  sp_deep : deeper_kept t m m'
}.

Lemma split_post_ret m t : Inv m -> split_post m t (Ok tt) m.
Proof. intros. by split. Qed.

Lemma split_post_trans m1 m2 m3 t r :
  split_post m1 t (Ok tt) m2 -> split_post m2 t r m3 -> split_post m1 t r m3.
Proof.
  intros [_ _ _ He1 Hd1] [? ? ? He2 Hd2]. split; try done.
  - by eapply extends_trans.
  - by eapply deeper_kept_trans.
Qed.

Lemma split_post_mono m t t' r m' :
  t <= t' -> split_post m t r m' -> split_post m t' r m'.
Proof. intros Hle []. split; try done. by eapply deeper_kept_mono. Qed.

Definition rec_ok (fuel : nat) (rec : nat -> M unit) : Prop :=
  forall c m r m', Inv m -> c < length (heap m) -> tier (cell m c) < fuel ->
    rec c m = (r, m') -> split_post m (tier (cell m c)) r m'.

Lemma split_side_post fuel rec side self t m r m' :
  rec_ok fuel rec -> is_side side -> Inv m -> self < length (heap m) ->
  tier (cell m self) = S t -> t < fuel ->
  split_side rec side self m = (r, m') -> split_post m t r m'.
Proof.
  intros Hrec Hside Hinv Hself Ht Hfuel. pose proof (Inv_wf _ Hinv) as Hwf.
  unfold split_side, bind, get.
  destruct (side (cell m self)) as [n|].
  { intros [= <- <-]. by apply split_post_ret. }
  destruct (parent_of_deep m self Hwf Hself ltac:(lia)) as (p&->&Hp&Htp).
  destruct (side (cell m p)) as [pn|] eqn:Hpn.
  2:{ intros [= <- <-]. by apply split_post_ret. }
  destruct (side_valid m side p pn Hwf Hside Hpn) as [Hv Htn].
  intros Hr. assert (tier (cell m pn) = t) as <- by lia.
  apply (Hrec pn m r m'); try done.
Qed.

Lemma split_neighbs_post fuel rec self t m r m' :
  rec_ok fuel rec -> Inv m -> self < length (heap m) ->
  tier (cell m self) = S t -> t < fuel ->
  split_neighbs_if_needed rec self m = (r, m') -> split_post m t r m'.
Proof.
  intros Hrec Hinv Hself Ht Hfuel. unfold split_neighbs_if_needed.
  assert (Hstep : forall side (k : M unit) m0 r0 m0',
    is_side side -> Inv m0 -> self < length (heap m0) ->
    tier (cell m0 self) = S t ->
    (forall m1, Inv m1 -> self < length (heap m1) ->
       tier (cell m1 self) = S t -> k m1 = (r0, m0') -> split_post m1 t r0 m0') ->
    (split_side rec side self ;;; k) m0 = (r0, m0') -> split_post m0 t r0 m0').
  { intros side k m0 r0 m0' Hs Hi0 Hs0 Ht0 Hk. unfold bind at 1.
    destruct (split_side rec side self m0) as [r1 m1] eqn:E1.
    pose proof (split_side_post fuel rec side self t m0 r1 m1
                  Hrec Hs Hi0 Hs0 Ht0 Hfuel E1) as H1.
    destruct r1 as [[]| |].
    - intros E2. eapply split_post_trans; [exact H1|].
      destruct H1 as [_ _ Hi1 He1 _].
      apply Hk; try done.
      + pose proof (ext_heap _ _ He1). lia.
      + destruct (ext_old _ _ He1 self Hs0) as (_&_&_&_&->&_). done.
    - by intros [= <- <-].
    - by intros [= <- <-]. }
  revert m r m' Hinv Hself Ht.
  intros m r m' Hinv Hself Ht.
  apply (Hstep north); [by exists NS; left|done..|].
  intros m1 Hi1 Hs1 Ht1.
  apply (Hstep east); [by exists EW; left|done..|].
  intros m2 Hi2 Hs2 Ht2.
  apply (Hstep south); [by exists NS; right|done..|].
  intros m3 Hi3 Hs3 Ht3.
  apply (split_side_post fuel rec west self t m3 r m'); try done.
  by exists EW; right.
Qed.

Lemma split_body_inv_post m self r m' :
  Inv m -> self < length (heap m) -> children (cell m self) = None ->
  split_body self m = (r, m') -> split_post m (tier (cell m self)) r m'.
Proof.
  intros Hinv Hself Hleaf E. pose proof (Inv_wf _ Hinv) as Hwf.
  pose proof (split_body_post m self Hwf Hself Hleaf r m' E) as Hp.
  destruct (body_post_extends m self r m' Hself Hleaf Hp) as (He&Hother&_).
  split.
  - apply Hp.
  - intros ->. destruct (bp_exn _ _ _ _ Hp _ eq_refl) as [|[|]]; done.
  - by eapply Inv_body.
  - done.
  - intros c Hc Ht. apply Hother; [|done]. intros ->. lia.
Qed.

Lemma split_fuel_post fuel : rec_ok fuel (split_fuel fuel).
Proof.
  induction fuel as [|fuel IH]; intros self m r m' Hinv Hself Ht; [lia|].
  simpl. unfold bind at 1, get. unfold has_children.
  destruct (children (cell m self)) as [ch|] eqn:Hch.
  { intros [= <- <-]. by split. }
  unfold bind at 1. case_decide as Hpos.
  - destruct (split_neighbs_if_needed (split_fuel fuel) self m) as [r1 m1] eqn:E1.
    assert (Hts : tier (cell m self) = S (pred (tier (cell m self)))) by lia.
    pose proof (split_neighbs_post fuel (split_fuel fuel) self _ m r1 m1
                  IH Hinv Hself Hts ltac:(lia) E1) as H1.
    apply (split_post_mono _ _ (tier (cell m self))) in H1; [|lia].
    destruct r1 as [[]| |]; [|by intros [= <- <-]..].
    intros E2. eapply split_post_trans; [exact H1|].
    pose proof (split_neighbs_post fuel (split_fuel fuel) self _ m (Ok tt) m1
                  IH Hinv Hself Hts ltac:(lia) E1) as [_ _ Hi1 He1 Hd1].
    assert (Hs1 : self < length (heap m1)).
    { pose proof (ext_heap _ _ He1). lia. }
    assert (Ht1 : tier (cell m1 self) = tier (cell m self)).
    { by destruct (ext_old _ _ He1 self Hself) as (_&_&_&_&->&_). }
    rewrite <- Ht1. apply split_body_inv_post; try done.
    rewrite (Hd1 self Hself); [done|lia].
  - intros E. by apply split_body_inv_post.
Qed.

Lemma split_post_inv m self r m' :
  Inv m -> self < length (heap m) -> split self m = (r, m') ->
  split_post m (tier (cell m self)) r m'.
Proof.
  intros Hinv Hself E. apply (split_fuel_post (S (tier (cell m self)))); try done.
  lia.
Qed.
End split_inv.


(** * The constructor *)

(** ** Loops with an invariant *)

Lemma for_each_ok {A} (J : nat -> MultiGrid -> Prop) (l : list A)
    (body : A -> M unit) k m :
  J k m ->
  (forall i a m, l !! i = Some a -> J (k + i) m ->
     exists m', body a m = (Ok tt, m') /\ J (S (k + i)) m') ->
  exists m', for_each l body m = (Ok tt, m') /\ J (k + length l) m'.
Proof.
  revert k m. induction l as [|a l IH]; intros k m HJ Hbody.
  - exists m. simpl. by rewrite Nat.add_0_r.
  - destruct (Hbody 0 a m eq_refl) as (m1&E1&H1); [by rewrite Nat.add_0_r|].
    rewrite Nat.add_0_r in H1.
    destruct (IH (S k) m1 H1) as (m2&E2&H2).
    { intros i b m0 Hi Hm0.
      replace (S (S k + i)) with (S (k + S i)) by lia.
      apply (Hbody (S i) b m0 Hi).
      by replace (k + S i) with (S k + i) by lia. }
    exists m2. split.
    + simpl. unfold bind. by rewrite E1.
    + simpl. by replace (k + S (length l)) with (S k + length l) by lia.
Qed.

Lemma for_range_ok (J : nat -> MultiGrid -> Prop) n (body : nat -> M unit) m :
  J 0 m ->
  (forall i m, i < n -> J i m -> exists m', body i m = (Ok tt, m') /\ J (S i) m') ->
  exists m', for_range n body m = (Ok tt, m') /\ J n m'.
Proof.
  intros H0 Hbody. unfold for_range.
  destruct (for_each_ok J (seq 0 n) body 0 m H0) as (m'&E&H).
  - intros i a m0 [-> Hi]%lookup_seq. apply Hbody; done.
  - exists m'. by rewrite length_seq in H.
Qed.

(** The two nested loops over rows and columns, counted as one. *)
Lemma nested_range_ok (J : nat -> MultiGrid -> Prop) n1 n2
    (body : nat -> nat -> M unit) m :
  J 0 m ->
  (forall rr cc m, rr < n1 -> cc < n2 -> J (rr * n2 + cc) m ->
     exists m', body rr cc m = (Ok tt, m') /\ J (S (rr * n2 + cc)) m') ->
  exists m', for_range n1 (fun rr => for_range n2 (body rr)) m = (Ok tt, m') /\
             J (n1 * n2) m'.
Proof.
  intros H0 Hbody.
  apply (for_range_ok (fun rr => J (rr * n2))); [done|].
  intros rr m1 Hrr H1.
  destruct (for_range_ok (fun cc => J (rr * n2 + cc)) n2 (body rr) m1) as (m2&E&H2).
  - by rewrite Nat.add_0_r.
  - intros cc m2 Hcc H2.
    replace (rr * n2 + S cc) with (S (rr * n2 + cc)) by lia. by apply Hbody.
  - exists m2. split; [done|]. by replace (S rr * n2) with (rr * n2 + n2) by lia.
Qed.

(** ** [np.arange] and the windows of the top tier *)

Lemma arange_ok stop step :
  step <> 0%Z ->
  arange stop step =
    Ok (map (fun i => (Z.of_nat i * step)%Z) (seq 0 (arange_len stop step))).
Proof.
  intros H. unfold arange. by rewrite (proj2 (Z.eqb_neq step 0) H).
Qed.

Lemma arange_zero stop : arange stop 0 = Raise ZeroDivisionError.
Proof. done. Qed.

Lemma init_windows_length xv yv WS :
  length (init_windows xv yv WS) = length yv * length xv.
Proof.
  unfold init_windows. induction yv as [|y yv IH]; [done|].
  simpl. rewrite length_app, length_map, IH. done.
Qed.

Lemma init_windows_lookup xv yv WS r c x y :
  yv !! r = Some y -> xv !! c = Some x ->
  init_windows xv yv WS !! (r * length xv + c) =
    Some (mkCorrWindow (inject_Z x) (inject_Z y) WS).
Proof.
  unfold init_windows. revert r. induction yv as [|y0 yv IH]; intros r Hr Hc; [done|].
  pose proof (lookup_lt_Some _ _ _ Hc) as Hlt.
  destruct r as [|r]; simpl in *.
  - injection Hr as ->. rewrite lookup_app_l by (by rewrite length_map).
    by rewrite list_lookup_fmap, Hc.
  - rewrite lookup_app_r by (rewrite length_map; lia).
    rewrite length_map.
    replace (length xv + r * length xv + c - length xv) with (r * length xv + c) by lia.
    by apply IH.
Qed.

Lemma arange_lookup n step i :
  i < n ->
  map (fun i => (Z.of_nat i * step)%Z) (seq 0 n) !! i = Some (Z.of_nat i * step)%Z.
Proof.
  intros Hi. change (map ?f ?l) with (f <$> l).
  rewrite list_lookup_fmap, lookup_seq_lt by done. done.
Qed.

(** ** The three loops of the constructor *)

(** The fields the loops over the cells leave alone. *)
Definition same_frame (m m' : MultiGrid) : Prop :=
  img_dim m' = img_dim m /\ spacing m' = spacing m /\ windows m' = windows m /\
  grids m' = grids m /\ max_tier m' = max_tier m /\
  cells_in_top_tier m' = cells_in_top_tier m.

Lemma same_frame_refl m : same_frame m m.
Proof. by repeat split. Qed.
Lemma same_frame_trans m1 m2 m3 :
  same_frame m1 m2 -> same_frame m2 m3 -> same_frame m1 m3.
Proof. intros (?&?&?&?&?&?) (?&?&?&?&?&?). repeat split; congruence. Qed.

(** A grid of [ny] rows of [nx] entries. *)
Definition grid_shape (ny nx : nat) (g : Grid) : Prop :=
  length (g_array g) = ny /\ Forall (fun row => length row = nx) (g_array g).

Lemma grid_set_ok r c w g ny nx :
  grid_shape ny nx g -> r < ny -> c < nx ->
  exists g', grid_set r c w g = Ok g' /\ grid_shape ny nx g'.
Proof.
  intros [Hl Hrows] Hr Hc. unfold grid_set.
  destruct (lookup_lt_is_Some_2 (g_array g) r ltac:(lia)) as [row Hrow].
  rewrite Hrow. rewrite list.Forall_forall in Hrows.
  pose proof (Hrows row (list_elem_of_lookup_2 _ _ _ Hrow)) as Hlen.
  rewrite decide_True by lia. eexists; split; [done|].
  split; simpl.
  - by rewrite length_insert.
  - apply Forall_insert; [by apply list.Forall_forall|].
    by rewrite length_insert.
Qed.

Lemma set_grid_entry_ok t r c w m ny nx g :
  grids m !! t = Some g -> grid_shape ny nx g -> r < ny -> c < nx ->
  w < length (windows m) ->
  exists g', set_grid_entry t r c w m =
               (Ok tt, with_grids (<[t := g']> (grids m)) m) /\
             grid_shape ny nx g'.
Proof.
  intros Hg Hs Hr Hc Hw. unfold set_grid_entry. rewrite Hg.
  rewrite decide_True by done.
  destruct (grid_set_ok r c w g ny nx Hs Hr Hc) as (g'&->&Hs').
  by exists g'.
Qed.

Lemma init_fill_grid_ok m0 g0 ny nx :
  grids m0 = [g0] -> grid_shape ny nx g0 -> length (windows m0) = ny * nx ->
  exists m1, init_fill_grid ny nx m0 = (Ok tt, m1) /\
    same_objects m0 m1 /\ max_tier m1 = max_tier m0 /\
    exists g, grids m1 = [g] /\ grid_shape ny nx g.
Proof.
  intros Hg0 Hs0 Hw. unfold init_fill_grid.
  destruct (nested_range_ok (fun _ m => same_objects m0 m /\
      max_tier m = max_tier m0 /\ exists g, grids m = [g] /\ grid_shape ny nx g)
    ny nx (fun ii jj => set_grid_entry 0 ii jj (jj + ii * nx)) m0) as (m1&E&H).
  - split_and!; [apply same_objects_refl|done|by exists g0].
  - intros ii jj m Hii Hjj (Ho&Hmt&g&Hg&Hs).
    destruct (set_grid_entry_ok 0 ii jj (jj + ii * nx) m ny nx g) as (g'&E&Hs');
      try done.
    { by rewrite Hg. }
    { destruct Ho as (_&->&_). rewrite Hw. nia. }
    eexists; split; [exact E|]. split_and!.
    + eapply same_objects_trans; [exact Ho|]. by repeat split.
    + done.
    + exists g'. split; [|done]. simpl. by rewrite Hg.
  - by exists m1.
Qed.

Section top_tier.
Variables (n_cols n_rc n_cc : nat).

(** A cell of the top tier as [__init__] makes it, and as it is once its
    neighbours were set. *)
Definition bare_cell (rr cc : nat) : GridCell :=
  let bl := rr * n_cols + cc in
  mkGridCell bl (bl + 1) (bl + n_cols) (bl + n_cols + 1) 0 cc rr
    None None None None None None.

Definition top_cell (rr cc : nat) : GridCell :=
  let bl := rr * n_cols + cc in
  let cn := rr * n_cc + cc in
  mkGridCell bl (bl + 1) (bl + n_cols) (bl + n_cols + 1) 0 cc rr
    None None
    (if decide (rr <> n_rc - 1) then Some (cn + n_cc) else None)
    (if decide (cc <> n_cc - 1) then Some (cn + 1) else None)
    (if decide (rr <> 0) then Some (cn - n_cc) else None)
    (if decide (cc <> 0) then Some (cn - 1) else None).

Lemma grid_index_inj rr cc rr' cc' :
  cc < n_cc -> cc' < n_cc -> rr * n_cc + cc = rr' * n_cc + cc' ->
  rr = rr' /\ cc = cc'.
Proof. intros. assert (rr = rr') by nia. subst. lia. Qed.

Definition J_cells (m0 : MultiGrid) (k : nat) (m : MultiGrid) : Prop :=
  length (heap m) = k /\ cells m = seq 0 k /\ same_frame m0 m /\
  forall rr cc, cc < n_cc -> rr * n_cc + cc < k ->
    cell m (rr * n_cc + cc) = bare_cell rr cc.

Lemma init_cell_step rr cc m :
  rr * n_cols + cc + n_cols + 1 < length (windows m) ->
  (gc <- new_GridCell (rr * n_cols + cc) (rr * n_cols + cc + 1)
           (rr * n_cols + cc + n_cols) (rr * n_cols + cc + n_cols + 1) ;;
   modify (upd_cell gc (set_tier 0)) ;;;
   modify (upd_cell gc (set_ixy cc rr)) ;;;
   modify (fun m => with_cells (cells m ++ [gc]) m)) m =
  (Ok tt, with_cells (cells m ++ [length (heap m)])
            (with_heap (heap m ++ [bare_cell rr cc]) m)).
Proof.
  intros Hw.
  assert (H1 : rr * n_cols + cc < length (windows m)) by lia.
  assert (H2 : rr * n_cols + cc + 1 < length (windows m)) by lia.
  assert (H3 : rr * n_cols + cc + n_cols < length (windows m)) by lia.
  rewrite (bind_ok _ _ _ _ _ (new_GridCell_ok _ _ _ _ m H1 H2 H3 Hw)).
  rewrite !bind_modify. unfold modify.
  rewrite upd_cell_with_heap, alter_app_r_len0 by done.
  rewrite upd_cell_with_heap, alter_app_r_len0 by done.
  done.
Qed.

Lemma init_cells_ok m0 :
  heap m0 = [] -> cells m0 = [] ->
  (forall rr cc, rr < n_rc -> cc < n_cc ->
     rr * n_cols + cc + n_cols + 1 < length (windows m0)) ->
  exists m1, init_cells n_rc n_cc n_cols m0 = (Ok tt, m1) /\
             J_cells m0 (n_rc * n_cc) m1.
Proof.
  intros Hh Hc Hw. unfold init_cells.
  apply (nested_range_ok (J_cells m0) n_rc n_cc (fun rr cc =>
    gc <- new_GridCell (rr * n_cols + cc) (rr * n_cols + cc + 1)
            (rr * n_cols + cc + n_cols) (rr * n_cols + cc + n_cols + 1) ;;
    modify (upd_cell gc (set_tier 0)) ;;;
    modify (upd_cell gc (set_ixy cc rr)) ;;;
    modify (fun m => with_cells (cells m ++ [gc]) m))).
  - split_and!; [by rewrite Hh|by rewrite Hc|apply same_frame_refl|].
    intros. lia.
  - intros rr cc m Hrr Hcc (Hl&Hcs&Hf&Hcell).
    eexists. split.
    { apply init_cell_step. destruct Hf as (_&_&->&_). by apply Hw. }
    split_and!.
    + simpl. rewrite length_app. simpl. lia.
    + change (cells m ++ [length (heap m)] = seq 0 (S (rr * n_cc + cc))).
      by rewrite seq_S, Hcs, Hl.
    + destruct Hf as (?&?&?&?&?&?). by repeat split.
    + intros rr' cc' Hcc' Hlt. unfold cell. simpl.
      destruct (decide (rr' * n_cc + cc' = rr * n_cc + cc)) as [Heq|Hne].
      * destruct (grid_index_inj _ _ _ _ Hcc' Hcc Heq) as [-> ->].
        rewrite lookup_total_app_r by lia.
        by replace (rr * n_cc + cc - length (heap m)) with 0 by lia.
      * rewrite lookup_total_app_l by lia. apply Hcell; [done|lia].
Qed.
End top_tier.

(** A conditional assignment to a field of a cell. *)
Definition upd_if (P : Prop) `{Decision P} (c : nat)
    (f : GridCell -> GridCell) (m : MultiGrid) : MultiGrid :=
  if decide P then upd_cell c f m else m.

Lemma upd_if_frame P `{Decision P} c f m :
  cells (upd_if P c f m) = cells m /\ same_frame m (upd_if P c f m) /\
  length (heap (upd_if P c f m)) = length (heap m).
Proof.
  unfold upd_if. case_decide; [|by repeat split].
  split_and!; [done|by repeat split|apply heap_upd_cell_length].
Qed.

Lemma cell_upd_if_ne P `{Decision P} c f m j :
  c <> j -> cell (upd_if P c f m) j = cell m j.
Proof. intros. unfold upd_if. case_decide; [by apply cell_upd_cell_ne|done]. Qed.

Lemma cell_upd_if_eq P `{Decision P} c f m :
  c < length (heap m) ->
  cell (upd_if P c f m) c = if decide P then f (cell m c) else cell m c.
Proof. intros. unfold upd_if. case_decide; [by apply cell_upd_cell_eq|done]. Qed.

Lemma nb_set_ok (P : Prop) `{Decision P} cn n (setter : option nat -> GridCell -> GridCell) m :
  (P -> cells m !! cn = Some cn /\ cells m !! n = Some n) ->
  (if decide P then
     c <- cells_at cn ;; n0 <- cells_at n ;;
     modify (upd_cell c (setter (Some n0)))
   else ret tt) m = (Ok tt, upd_if P cn (setter (Some n)) m).
Proof.
  intros Hc. unfold upd_if. case_decide as HP; [|done].
  destruct (Hc HP) as [H1 H2]. unfold bind, cells_at. by rewrite H1, H2.
Qed.

Section top_tier_neighbours.
Variables (n_cols n_rc n_cc : nat).

Definition nb_state (rr cc : nat) (m : MultiGrid) : MultiGrid :=
  let cn := rr * n_cc + cc in
  upd_if (cc <> 0) cn (set_west (Some (cn - 1)))
    (upd_if (rr <> 0) cn (set_south (Some (cn - n_cc)))
       (upd_if (cc <> n_cc - 1) cn (set_east (Some (cn + 1)))
          (upd_if (rr <> n_rc - 1) cn (set_north (Some (cn + n_cc))) m))).

Lemma init_nb_step rr cc m :
  cells m = seq 0 (n_rc * n_cc) -> rr < n_rc -> cc < n_cc ->
  ((if decide (rr <> n_rc - 1) then
      c <- cells_at (rr * n_cc + cc) ;; n <- cells_at (rr * n_cc + cc + n_cc) ;;
      modify (upd_cell c (set_north (Some n)))
    else ret tt) ;;;
   (if decide (cc <> n_cc - 1) then
      c <- cells_at (rr * n_cc + cc) ;; n <- cells_at (rr * n_cc + cc + 1) ;;
      modify (upd_cell c (set_east (Some n)))
    else ret tt) ;;;
   (if decide (rr <> 0) then
      c <- cells_at (rr * n_cc + cc) ;; n <- cells_at (rr * n_cc + cc - n_cc) ;;
      modify (upd_cell c (set_south (Some n)))
    else ret tt) ;;;
   (if decide (cc <> 0) then
      c <- cells_at (rr * n_cc + cc) ;; n <- cells_at (rr * n_cc + cc - 1) ;;
      modify (upd_cell c (set_west (Some n)))
    else ret tt)) m = (Ok tt, nb_state rr cc m).
Proof.
  intros Hcs Hrr Hcc. unfold nb_state.
  assert (Hcn : rr * n_cc + cc < (n_rc * n_cc)) by nia.
  set (cn := rr * n_cc + cc) in *.
  assert (Hn1 : rr <> n_rc - 1 ->
    cells m !! cn = Some cn /\ cells m !! (cn + n_cc) = Some (cn + n_cc)).
  { intros Hne. rewrite Hcs, !lookup_seq_lt; [done| |done]. unfold cn. nia. }
  rewrite (bind_ok _ _ _ _ _ (nb_set_ok (rr <> n_rc - 1) cn (cn + n_cc) set_north m Hn1)).
  set (m1 := upd_if (rr <> n_rc - 1) cn _ m).
  assert (Hc1 : cells m1 = seq 0 (n_rc * n_cc)).
  { unfold m1. by rewrite (proj1 (upd_if_frame _ _ _ _)). }
  assert (Hn2 : cc <> n_cc - 1 ->
    cells m1 !! cn = Some cn /\ cells m1 !! (cn + 1) = Some (cn + 1)).
  { intros Hne. rewrite Hc1, !lookup_seq_lt; [done| |done]. unfold cn. nia. }
  rewrite (bind_ok _ _ _ _ _ (nb_set_ok (cc <> n_cc - 1) cn (cn + 1) set_east m1 Hn2)).
  set (m2 := upd_if (cc <> n_cc - 1) cn _ m1).
  assert (Hc2 : cells m2 = seq 0 (n_rc * n_cc)).
  { unfold m2. by rewrite (proj1 (upd_if_frame _ _ _ _)). }
  assert (Hn3 : rr <> 0 ->
    cells m2 !! cn = Some cn /\ cells m2 !! (cn - n_cc) = Some (cn - n_cc)).
  { intros Hne. rewrite Hc2, !lookup_seq_lt; [done|lia|done]. }
  rewrite (bind_ok _ _ _ _ _ (nb_set_ok (rr <> 0) cn (cn - n_cc) set_south m2 Hn3)).
  set (m3 := upd_if (rr <> 0) cn _ m2).
  assert (Hc3 : cells m3 = seq 0 (n_rc * n_cc)).
  { unfold m3. by rewrite (proj1 (upd_if_frame _ _ _ _)). }
  apply nb_set_ok.
  intros Hne. rewrite Hc3, !lookup_seq_lt; [done|lia|done].
Qed.

Definition J_nb (m0 : MultiGrid) (k : nat) (m : MultiGrid) : Prop :=
  length (heap m) = (n_rc * n_cc) /\ cells m = seq 0 (n_rc * n_cc) /\ same_frame m0 m /\
  forall rr cc, rr < n_rc -> cc < n_cc ->
    cell m (rr * n_cc + cc) =
      if decide (rr * n_cc + cc < k) then top_cell n_cols n_rc n_cc rr cc
      else bare_cell n_cols rr cc.

Lemma J_nb_step m0 rr cc m :
  rr < n_rc -> cc < n_cc ->
  J_nb m0 (rr * n_cc + cc) m -> J_nb m0 (S (rr * n_cc + cc)) (nb_state rr cc m).
Proof.
  intros Hrr Hcc (Hl&Hcs&Hf&Hcell). unfold nb_state.
  assert (Hcn : rr * n_cc + cc < (n_rc * n_cc)) by nia.
  set (cn := rr * n_cc + cc) in *.
  set (m1 := upd_if (rr <> n_rc - 1) cn (set_north (Some (cn + n_cc))) m).
  set (m2 := upd_if (cc <> n_cc - 1) cn (set_east (Some (cn + 1))) m1).
  set (m3 := upd_if (rr <> 0) cn (set_south (Some (cn - n_cc))) m2).
  set (m4 := upd_if (cc <> 0) cn (set_west (Some (cn - 1))) m3).
  destruct (upd_if_frame (rr <> n_rc - 1) cn (set_north (Some (cn + n_cc))) m)
    as (Ha1&Hb1&Hc1).
  destruct (upd_if_frame (cc <> n_cc - 1) cn (set_east (Some (cn + 1))) m1)
    as (Ha2&Hb2&Hc2).
  destruct (upd_if_frame (rr <> 0) cn (set_south (Some (cn - n_cc))) m2)
    as (Ha3&Hb3&Hc3).
  destruct (upd_if_frame (cc <> 0) cn (set_west (Some (cn - 1))) m3)
    as (Ha4&Hb4&Hc4).
  fold m1 in Ha1, Hb1, Hc1. fold m2 in Ha2, Hb2, Hc2.
  fold m3 in Ha3, Hb3, Hc3. fold m4 in Ha4, Hb4, Hc4.
  split_and!.
  - congruence.
  - congruence.
  - eauto using same_frame_trans.
  - intros rr' cc' Hrr' Hcc'.
    destruct (decide (rr' * n_cc + cc' = cn)) as [Heq|Hne].
    + destruct (grid_index_inj n_cc _ _ _ _ Hcc' Hcc Heq) as [-> ->].
      fold cn. rewrite decide_True by lia.
      unfold m4. rewrite cell_upd_if_eq by lia.
      unfold m3. rewrite cell_upd_if_eq by lia.
      unfold m2. rewrite cell_upd_if_eq by lia.
      unfold m1. rewrite cell_upd_if_eq by lia.
      assert (Hbare : cell m cn = bare_cell n_cols rr cc).
      { unfold cn. rewrite (Hcell rr cc Hrr Hcc). fold cn.
        destruct (decide (cn < cn)) as [?|_]; [lia|done]. }
      rewrite Hbare. unfold top_cell, bare_cell. fold cn.
      repeat case_decide; done.
    + unfold m4, m3, m2, m1. rewrite !cell_upd_if_ne by done.
      rewrite (Hcell rr' cc' Hrr' Hcc').
      destruct (decide (rr' * n_cc + cc' < cn));
        [rewrite decide_True by lia|rewrite decide_False by lia]; done.
Qed.

Lemma init_neighbours_ok m0 :
  J_nb m0 0 m0 ->
  exists m1, init_neighbours n_rc n_cc m0 = (Ok tt, m1) /\ J_nb m0 (n_rc * n_cc) m1.
Proof.
  intros H0. unfold init_neighbours.
  apply (nested_range_ok (J_nb m0) n_rc n_cc (fun rr cc =>
    (if decide (rr <> n_rc - 1) then
       c <- cells_at (rr * n_cc + cc) ;; n <- cells_at (rr * n_cc + cc + n_cc) ;;
       modify (upd_cell c (set_north (Some n)))
     else ret tt) ;;;
    (if decide (cc <> n_cc - 1) then
       c <- cells_at (rr * n_cc + cc) ;; n <- cells_at (rr * n_cc + cc + 1) ;;
       modify (upd_cell c (set_east (Some n)))
     else ret tt) ;;;
    (if decide (rr <> 0) then
       c <- cells_at (rr * n_cc + cc) ;; n <- cells_at (rr * n_cc + cc - n_cc) ;;
       modify (upd_cell c (set_south (Some n)))
     else ret tt) ;;;
    (if decide (cc <> 0) then
       c <- cells_at (rr * n_cc + cc) ;; n <- cells_at (rr * n_cc + cc - 1) ;;
       modify (upd_cell c (set_west (Some n)))
     else ret tt))); [done|].
  intros rr cc m Hrr Hcc HJ. exists (nb_state rr cc m). split.
  - apply init_nb_step; [apply HJ|done..].
  - by apply J_nb_step.
Qed.
End top_tier_neighbours.


(** ** The mesh [MultiGrid(img_dim, spacing, WS)] builds *)

(** The grid points along one axis: [np.arange(0, stop, step)]. *)
Definition axis (stop step : Z) : list Z :=
  map (fun i => (Z.of_nat i * step)%Z) (seq 0 (arange_len stop step)).

Definition n_rows_of (dim : Z * Z) (sp : Z) : nat := arange_len (fst dim) sp.
Definition n_cols_of (dim : Z * Z) (sp : Z) : nat := arange_len (snd dim) sp.

Lemma axis_length stop step : length (axis stop step) = arange_len stop step.
Proof. unfold axis. by rewrite length_map, length_seq. Qed.

Record init_shape (dim : Z * Z) (sp WS : Z) (m : MultiGrid) : Prop := {
  is_dim : img_dim m = dim;
  is_spacing : spacing m = sp;
  is_windows : windows m = init_windows (axis (snd dim) sp) (axis (fst dim) sp) WS;
  is_max_tier : max_tier m = 0;
  is_grids : exists g, grids m = [g] /\
               grid_shape (n_rows_of dim sp) (n_cols_of dim sp) g;
  is_cells : cells m = seq 0 ((n_rows_of dim sp - 1) * (n_cols_of dim sp - 1));
  is_top : cells_in_top_tier m = (n_rows_of dim sp - 1) * (n_cols_of dim sp - 1);
  is_heap : length (heap m) = (n_rows_of dim sp - 1) * (n_cols_of dim sp - 1);
  is_cell : forall rr cc,
    rr < n_rows_of dim sp - 1 -> cc < n_cols_of dim sp - 1 ->
    cell m (rr * (n_cols_of dim sp - 1) + cc) =
      top_cell (n_cols_of dim sp) (n_rows_of dim sp - 1) (n_cols_of dim sp - 1) rr cc
}.

Lemma Grid_init_ok dim sp :
  sp <> 0%Z ->
  exists g, Grid_init dim sp = Ok g /\
            grid_shape (n_rows_of dim sp) (n_cols_of dim sp) g.
Proof.
  intros Hsp. unfold Grid_init. rewrite !arange_ok by done.
  eexists. split; [done|]. split; simpl.
  - by rewrite length_replicate, length_map, length_seq.
  - apply Forall_replicate. by rewrite length_replicate, length_map, length_seq.
Qed.

Lemma MultiGrid_init_ok dim sp WS :
  sp <> 0%Z ->
  exists m, MultiGrid_init dim sp WS = Ok m /\ init_shape dim sp WS m.
Proof.
  intros Hsp. unfold MultiGrid_init. rewrite !arange_ok by done.
  destruct (Grid_init_ok dim sp Hsp) as (g0&->&Hg0).
  fold (axis (snd dim) sp). fold (axis (fst dim) sp).
  cbv zeta. rewrite !axis_length.
  fold (n_rows_of dim sp). fold (n_cols_of dim sp).
  set (n_rows := n_rows_of dim sp) in *. set (n_cols := n_cols_of dim sp) in *.
  set (m0 := mkMultiGrid dim sp _ [g0] [] 0 0 []).
  assert (Hw0 : length (windows m0) = n_rows * n_cols).
  { unfold m0. simpl. by rewrite init_windows_length, !axis_length. }
  destruct (init_fill_grid_ok m0 g0 n_rows n_cols eq_refl Hg0 Hw0)
    as (m1&E1&Ho1&Hmt1&g1&Hg1&Hs1).
  destruct Ho1 as (Hh1&Hw1&Hc1&Ht1&Hsp1&Hd1).
  destruct (init_cells_ok n_cols (n_rows - 1) (n_cols - 1) m1)
    as (m2&E2&Hl2&Hc2&Hf2&Hcell2).
  { by rewrite Hh1. }
  { by rewrite Hc1. }
  { intros rr cc Hrr Hcc. rewrite Hw1, Hw0. nia. }
  destruct (init_neighbours_ok n_cols (n_rows - 1) (n_cols - 1) m2)
    as (m3&E3&Hl3&Hc3&Hf3&Hcell3).
  { split_and!; [done|done|apply same_frame_refl|].
    intros rr cc Hrr Hcc.
    destruct (decide (rr * (n_cols - 1) + cc < 0)) as [Hlt|_];
      [by apply Nat.nlt_0_r in Hlt|].
    apply Hcell2; [done|nia]. }
  rewrite (bind_ok _ _ _ _ _ E1), (bind_ok _ _ _ _ _ E2), (bind_ok _ _ _ _ _ E3).
  unfold modify. eexists. split; [done|].
  destruct Hf2 as (Ha2&Hb2&Hw2&Hgr2&Hm2&Htt2).
  destruct Hf3 as (Ha3&Hb3&Hw3&Hgr3&Hm3&Htt3).
  assert (img_dim m0 = dim /\ spacing m0 = sp /\ max_tier m0 = 0) as (?&?&?)
    by done.
  split; simpl.
  - congruence.
  - congruence.
  - rewrite Hw3, Hw2, Hw1. done.
  - congruence.
  - exists g1. split; [congruence|done].
  - done.
  - by rewrite Hc3, length_seq.
  - done.
  - intros rr cc Hrr Hcc.
    change (cell m3 (rr * (n_cols - 1) + cc) =
            top_cell n_cols (n_rows - 1) (n_cols - 1) rr cc).
    rewrite (Hcell3 rr cc Hrr Hcc).
    destruct (decide (rr * (n_cols - 1) + cc < (n_rows - 1) * (n_cols - 1)));
      [done|nia].
Qed.

Lemma MultiGrid_init_zero dim WS :
  MultiGrid_init dim 0 WS = Raise ZeroDivisionError.
Proof. done. Qed.

(** ** The constructed mesh is well formed *)

Lemma top_decomp n_rc n_cc a :
  a < n_rc * n_cc -> exists rr cc, a = rr * n_cc + cc /\ rr < n_rc /\ cc < n_cc.
Proof.
  intros Ha. assert (n_cc <> 0) by nia.
  exists (a / n_cc), (a mod n_cc). split_and!.
  - rewrite (Nat.div_mod_eq a n_cc) at 1. lia.
  - apply Nat.Div0.div_lt_upper_bound. nia.
  - by apply Nat.mod_upper_bound.
Qed.

Section top_tier_wf.
Variables (n_cols n_rc n_cc : nat) (m : MultiGrid).
Hypothesis Hcols : n_cc = n_cols - 1.
Hypothesis Hheap : length (heap m) = n_rc * n_cc.
Hypothesis Hcells : cells m = seq 0 (n_rc * n_cc).
Hypothesis Htop : cells_in_top_tier m = n_rc * n_cc.
Hypothesis Hwin : forall rr cc, rr < n_rc -> cc < n_cc ->
  rr * n_cols + cc + n_cols + 1 < length (windows m).
Hypothesis Hcell : forall rr cc, rr < n_rc -> cc < n_cc ->
  cell m (rr * n_cc + cc) = top_cell n_cols n_rc n_cc rr cc.

Lemma top_cell_cases a :
  (length (heap m) <= a /\ cell m a = inhabitant) \/
  (exists rr cc, a = rr * n_cc + cc /\ rr < n_rc /\ cc < n_cc /\
                 cell m a = top_cell n_cols n_rc n_cc rr cc).
Proof.
  destruct (decide (a < n_rc * n_cc)) as [Ha|Ha].
  - right. destruct (top_decomp _ _ _ Ha) as (rr&cc&->&Hrr&Hcc).
    exists rr, cc. split_and!; try done. by apply Hcell.
  - left. split; [lia|]. apply cell_default. lia.
Qed.

Lemma top_no_children a : children (cell m a) = None.
Proof. destruct (top_cell_cases a) as [[_ ->]|(rr&cc&_&_&_&->)]; done. Qed.

Lemma top_tier_zero a : tier (cell m a) = 0.
Proof. destruct (top_cell_cases a) as [[_ ->]|(rr&cc&_&_&_&->)]; done. Qed.

Lemma top_no_parent a : parent (cell m a) = None.
Proof. destruct (top_cell_cases a) as [[_ ->]|(rr&cc&_&_&_&->)]; done. Qed.

(** The neighbour to the north or east, by grid position. *)
Definition out_pos (d : dir) (rr cc : nat) : option (nat * nat) :=
  match d with
  | NS => if decide (S rr < n_rc) then Some (S rr, cc) else None
  | EW => if decide (S cc < n_cc) then Some (rr, S cc) else None
  end.

Lemma top_out d rr cc :
  rr < n_rc -> cc < n_cc ->
  out_of d (cell m (rr * n_cc + cc)) =
    (fun p => p.1 * n_cc + p.2) <$> out_pos d rr cc.
Proof.
  intros Hrr Hcc. rewrite Hcell by done. destruct d; simpl.
  - destruct (decide (S rr < n_rc)); [rewrite decide_True by lia|
      rewrite decide_False by lia]; simpl; [f_equal; lia|done].
  - destruct (decide (S cc < n_cc)); [rewrite decide_True by lia|
      rewrite decide_False by lia]; simpl; [f_equal; lia|done].
Qed.

Lemma top_back d rr cc rr' cc' :
  rr' < n_rc -> cc' < n_cc ->
  back_of d (cell m (rr' * n_cc + cc')) = Some (rr * n_cc + cc) ->
  cc < n_cc -> out_pos d rr cc = Some (rr', cc').
Proof.
  intros Hrr' Hcc'. rewrite Hcell by done. destruct d; simpl.
  - case_decide as Hz; [|done]. intros [= Heq] Hcc.
    assert (rr' * n_cc + cc' = S rr * n_cc + cc) as Heq' by nia.
    destruct (grid_index_inj n_cc _ _ _ _ Hcc' Hcc Heq') as [-> ->].
    by rewrite decide_True by lia.
  - case_decide as Hz; [|done]. intros [= Heq] Hcc.
    assert (cc' = S cc /\ rr' = rr) as [-> ->].
    { assert (rr' * n_cc + (cc' - 1) = rr * n_cc + cc) as Heq' by lia.
      assert (cc' - 1 < n_cc) as Hlt by lia.
      destruct (grid_index_inj n_cc _ _ _ _ Hlt Hcc Heq'). lia. }
    by rewrite decide_True by lia.
Qed.

Lemma top_back_intro d rr cc p :
  rr < n_rc -> cc < n_cc -> out_pos d rr cc = Some p ->
  p.1 < n_rc /\ p.2 < n_cc /\
  back_of d (cell m (p.1 * n_cc + p.2)) = Some (rr * n_cc + cc).
Proof.
  intros Hrr Hcc. destruct d; unfold out_pos; case_decide as Hs; try done;
    intros [= <-]; cbn [fst snd]; (split; [lia|]); (split; [lia|]);
    rewrite Hcell by lia; unfold top_cell; cbn [back_of south west].
  - rewrite decide_True by lia. f_equal. lia.
  - rewrite decide_True by lia. f_equal. lia.
Qed.

Lemma top_Sym : Sym m.
Proof.
  intros d a b. split.
  - intros Hab. pose proof (out_valid _ _ _ _ Hab) as Ha. rewrite Hheap in Ha.
    destruct (top_decomp _ _ _ Ha) as (rr&cc&->&Hrr&Hcc).
    rewrite top_out in Hab by done.
    destruct (out_pos d rr cc) as [p|] eqn:Hp; [|done].
    injection Hab as <-. by apply top_back_intro.
  - intros Hba. pose proof (back_valid _ _ _ _ Hba) as Hb. rewrite Hheap in Hb.
    destruct (top_decomp _ _ _ Hb) as (rr'&cc'&->&Hrr'&Hcc').
    assert (Ha : a < n_rc * n_cc).
    { rewrite Hcell in Hba by done. destruct d; simpl in Hba;
        case_decide; try done; injection Hba as <-; nia. }
    destruct (top_decomp _ _ _ Ha) as (rr&cc&->&Hrr&Hcc).
    rewrite top_out by done.
    by rewrite (top_back d rr cc rr' cc' Hrr' Hcc' Hba Hcc).
Qed.

Lemma top_NbIds : NbIds m.
Proof.
  intros d a b Hab. pose proof (out_valid _ _ _ _ Hab) as Ha. rewrite Hheap in Ha.
  destruct (top_decomp _ _ _ Ha) as (rr&cc&->&Hrr&Hcc).
  rewrite top_out in Hab by done.
  destruct (out_pos d rr cc) as [[rr' cc']|] eqn:Hp; [|done].
  injection Hab as <-. simpl.
  destruct (top_back_intro d rr cc _ Hrr Hcc Hp) as (Hrr'&Hcc'&_). simpl in *.
  rewrite !Hcell by done.
  destruct d; simpl in *; case_decide; try done; injection Hp as <- <-;
    simpl; f_equal; lia.
Qed.

Lemma top_NoLoop : NoLoop m.
Proof.
  intros d a Haa. pose proof (out_valid _ _ _ _ Haa) as Ha. rewrite Hheap in Ha.
  destruct (top_decomp _ _ _ Ha) as (rr&cc&->&Hrr&Hcc).
  rewrite top_out in Haa by done.
  destruct d; simpl in *; case_decide; try done; simpl in *;
    injection Haa as Heq; lia.
Qed.

Lemma top_HeapWF : HeapWF m.
Proof.
  split.
  - apply top_Sym.
  - intros d p ch x Hch. by rewrite top_no_children in Hch.
  - intros d a b _. by rewrite !top_tier_zero.
  - apply top_NbIds.
  - apply top_NoLoop.
  - intros d a b cha chb _ Hch. by rewrite top_no_children in Hch.
  - intros p ch Hch. by rewrite top_no_children in Hch.
  - intros c Hc. rewrite Hheap in Hc.
    destruct (top_decomp _ _ _ Hc) as (rr&cc&->&Hrr&Hcc).
    rewrite Hcell by done. simpl.
    pose proof (Hwin rr cc Hrr Hcc). lia.
  - intros c Hc. rewrite top_no_parent, top_tier_zero. rewrite Htop. lia.
  - split_and!.
    + lia.
    + rewrite Hcells, Htop. apply take_ge. by rewrite length_seq.
    + intros c. rewrite Hcells, Hheap. intros [_ ?]%elem_of_seq. lia.
    + intros c _. apply top_no_parent.
Qed.
End top_tier_wf.

Lemma init_shape_windows dim sp WS m :
  init_shape dim sp WS m ->
  length (windows m) = n_rows_of dim sp * n_cols_of dim sp.
Proof.
  intros H. rewrite (is_windows _ _ _ _ H), init_windows_length, !axis_length.
  done.
Qed.

Lemma init_shape_HeapWF dim sp WS m : init_shape dim sp WS m -> HeapWF m.
Proof.
  intros H. pose proof (init_shape_windows _ _ _ _ H) as Hw. destruct H.
  apply (top_HeapWF (n_cols_of dim sp) (n_rows_of dim sp - 1)
           (n_cols_of dim sp - 1)); try done.
  intros rr cc Hrr Hcc. rewrite Hw. nia.
Qed.


(** * Tiers *)

(** The spacing of the deepest tier is a whole number: the base spacing
    is not zero and [2 ^ max_tier] divides it. *)
Definition tier_inv (m : MultiGrid) : Prop :=
  spacing m <> 0%Z /\ (2 ^ Z.of_nat (max_tier m) | spacing m)%Z.

(** What a call may do to the tiers: nothing, or one more tier, when the
    current spacing is even. *)
Definition tier_step (m m' : MultiGrid) : Prop :=
  spacing m' = spacing m /\
  (max_tier m' = max_tier m \/
   (max_tier m' = max_tier m + 1 /\ Z.even (h_curr m) = true)).

Lemma tier_step_refl m : tier_step m m.
Proof. split; auto. Qed.

Lemma h_curr_exact m :
  tier_inv m ->
  (h_curr m * 2 ^ Z.of_nat (max_tier m) = spacing m)%Z /\ h_curr m <> 0%Z.
Proof.
  intros [Hsp [z Hz]]. unfold h_curr. rewrite Hz.
  assert (2 ^ Z.of_nat (max_tier m) <> 0)%Z by (apply Z.pow_nonzero; lia).
  rewrite Z.quot_mul by done. split; [done|]. intros ->. lia.
Qed.

Lemma tier_inv_step m m' : tier_inv m -> tier_step m m' -> tier_inv m'.
Proof.
  intros Hinv [Hsp Hmt]. destruct (h_curr_exact m Hinv) as [Hex Hnz].
  destruct Hinv as [Hs0 _]. split; [congruence|]. rewrite Hsp.
  destruct Hmt as [->|[-> Hev]].
  - exists (h_curr m). lia.
  - apply Z.even_spec in Hev as [k Hk]. exists k.
    rewrite Nat2Z.inj_add, Z.pow_add_r by lia. rewrite <- Hex, Hk.
    change (Z.of_nat 1) with 1%Z. lia.
Qed.

Lemma new_tier_tier_step m r m' : new_tier m = (r, m') -> tier_step m m'.
Proof.
  unfold new_tier. destruct (Z.even (h_curr m)) eqn:Hev.
  - destruct (Grid_init _ _); intros [= _ <-]; split; simpl; auto.
  - intros [= _ <-]. apply tier_step_refl.
Qed.

Lemma tier_stage_tier_step ch m r m' : tier_stage ch m = (r, m') -> tier_step m m'.
Proof.
  unfold tier_stage. case_decide.
  - apply new_tier_tier_step.
  - intros [= _ <-]. apply tier_step_refl.
Qed.

Lemma split_body_tier_step m self r m' :
  HeapWF m -> self < length (heap m) ->
  split_body self m = (r, m') -> tier_step m m'.
Proof.
  intros Hwf Hself.
  destruct (ids_after m self) as [[[[lm cb] cm] ct] rm] eqn:Hids.
  rewrite (split_body_eq m self lm cb cm ct rm Hwf Hself Hids).
  rewrite <- (state_B_eq m self lm cb cm ct rm Hids).
  destruct (state_B_params m self) as (_&HBs&_&_&HBm&_).
  assert (HBh : h_curr (state_B m self) = h_curr m).
  { unfold h_curr. by rewrite HBs, HBm. }
  destruct (tier_stage (fresh_children m) (state_B m self)) as [rC mC] eqn:EC.
  apply tier_stage_tier_step in EC. destruct EC as [HCs HCm].
  rewrite HBs in HCs. rewrite HBm, HBh in HCm.
  destruct rC as [[]| |]; [|by intros [= _ <-]..].
  destruct (register_windows self (fresh_children m) lm cb cm ct rm mC)
    as [rD mD] eqn:ED.
  destruct (register_windows_same_objects _ _ _ _ _ _ _ _ _ _ ED)
    as [(_&_&_&_&HDs&_) HDm].
  assert (tier_step m mD) as HstepD.
  { split; [congruence|]. by rewrite HDm. }
  destruct rD as [[]| |]; [|by intros [= _ <-]..].
  intros [= _ <-]. unfold wired.
  pose proof (same_skeleton_apply_links
                (split_links mD self (fresh_children m)) mD)
    as (_&_&_&_&Hm&Hs&_).
  destruct HstepD as [HsD HmD].
  split; cbn [with_cells spacing max_tier]; [congruence|]. by rewrite Hm.
Qed.

(** * Reachable meshes *)

(** The meshes a program can hold: one the constructor returned, and the
    store left by a call of [split] on any cell object or of [new_tier],
    whether the call returned or raised. *)
Inductive reachable : MultiGrid -> Prop :=
| reach_init dim sp WS m :
    MultiGrid_init dim sp WS = Ok m -> reachable m
| reach_split m c r m' :
    reachable m -> c < length (heap m) -> split c m = (r, m') -> reachable m'
| reach_new_tier m r m' :
    reachable m -> new_tier m = (r, m') -> reachable m'.

Lemma MultiGrid_init_shape dim sp WS m :
  MultiGrid_init dim sp WS = Ok m -> sp <> 0%Z /\ init_shape dim sp WS m.
Proof.
  intros E. assert (Hsp : sp <> 0%Z).
  { intros ->. by rewrite MultiGrid_init_zero in E. }
  destruct (MultiGrid_init_ok dim sp WS Hsp) as (m1&E1&Hs).
  rewrite E in E1. by injection E1 as ->.
Qed.

Lemma init_shape_tier_inv dim sp WS m :
  sp <> 0%Z -> init_shape dim sp WS m -> tier_inv m.
Proof.
  intros Hsp H. split.
  - by rewrite (is_spacing _ _ _ _ H).
  - rewrite (is_max_tier _ _ _ _ H). simpl. apply Z.divide_1_l.
Qed.

Lemma new_tier_HeapWF m r m' : HeapWF m -> new_tier m = (r, m') -> HeapWF m'.
Proof.
  intros Hwf E. apply new_tier_same_objects in E.
  rewrite (same_objects_eq _ _ E).
  by apply HeapWF_with_grids, HeapWF_with_max_tier.
Qed.

(** The first invariant: the objects are well formed and so are the
    tiers. *)
Definition Inv1 (m : MultiGrid) : Prop := HeapWF m /\ tier_inv m.

Lemma Inv1_body m self r m' :
  Inv1 m -> self < length (heap m) -> children (cell m self) = None ->
  split_body self m = (r, m') -> Inv1 m'.
Proof.
  intros [Hwf Ht] Hself Hleaf E. split.
  - exact (bp_wf _ _ _ _ (split_body_post m self Hwf Hself Hleaf r m' E)).
  - eapply tier_inv_step; [done|]. by eapply split_body_tier_step.
Qed.

Lemma reachable_Inv1 m : reachable m -> Inv1 m.
Proof.
  induction 1 as [dim sp WS m E|m c r m' _ IH Hc E|m r m' _ IH E].
  - destruct (MultiGrid_init_shape _ _ _ _ E) as [Hsp Hs]. split.
    + by eapply init_shape_HeapWF.
    + by eapply init_shape_tier_inv.
  - exact (sp_inv _ _ _ _ _
             (split_post_inv Inv1 (fun m H => proj1 H) Inv1_body m c r m' IH Hc E)).
  - destruct IH as [Hwf Ht]. split.
    + by eapply new_tier_HeapWF.
    + eapply tier_inv_step; [done|]. by eapply new_tier_tier_step.
Qed.

Lemma reachable_HeapWF m : reachable m -> HeapWF m.
Proof. intros H. apply reachable_Inv1 in H. apply H. Qed.


(** * Leaves *)

(** The leaves below a cell, in the order [add_children] appends them. *)
Fixpoint leaves_under (fuel : nat) (m : MultiGrid) (c : nat) : option (list nat) :=
  match fuel with
  | 0 => None
  | S fuel' =>
      match children (cell m c) with
      | None => Some [c]
      | Some ch =>
          l1 ← leaves_under fuel' m (ch_bl ch);
          l2 ← leaves_under fuel' m (ch_br ch);
          l3 ← leaves_under fuel' m (ch_tl ch);
          l4 ← leaves_under fuel' m (ch_tr ch);
          Some (l1 ++ l2 ++ l3 ++ l4)
      end
  end.

Fixpoint leaves_all (fuel : nat) (m : MultiGrid) (cs : list nat) : option (list nat) :=
  match cs with
  | [] => Some []
  | c :: cs' =>
      l1 ← leaves_under fuel m c;
      l2 ← leaves_all fuel m cs';
      Some (l1 ++ l2)
  end.

Lemma add_children_eq fuel m c out :
  add_children fuel m c out = (fun l => out ++ l) <$> leaves_under fuel m c.
Proof.
  revert c out. induction fuel as [|fuel IH]; intros c out; [done|].
  simpl. destruct (children (cell m c)) as [ch|]; [|done].
  rewrite IH. destruct (leaves_under fuel m (ch_bl ch)) as [l1|]; [|done]. simpl.
  rewrite IH. destruct (leaves_under fuel m (ch_br ch)) as [l2|]; [|done]. simpl.
  rewrite IH. destruct (leaves_under fuel m (ch_tl ch)) as [l3|]; [|done]. simpl.
  rewrite IH. destruct (leaves_under fuel m (ch_tr ch)) as [l4|]; [|done]. simpl.
  by rewrite <- !app_assoc.
Qed.

Lemma add_children_all_eq fuel m cs out :
  add_children_all fuel m cs out = (fun l => out ++ l) <$> leaves_all fuel m cs.
Proof.
  revert out. induction cs as [|c cs IH]; intros out; simpl.
  - by rewrite app_nil_r.
  - rewrite add_children_eq.
    destruct (leaves_under fuel m c) as [l1|]; [|done]. simpl.
    rewrite IH. destruct (leaves_all fuel m cs) as [l2|]; [|done]. simpl.
    by rewrite app_assoc.
Qed.

Lemma get_all_leaf_cells_eq m :
  get_all_leaf_cells m =
    leaves_all (S (length (heap m))) m (take (cells_in_top_tier m) (cells m)).
Proof.
  unfold get_all_leaf_cells. rewrite add_children_all_eq.
  by destruct (leaves_all _ _ _).
Qed.

Lemma leaves_under_mono fuel fuel' m c l :
  leaves_under fuel m c = Some l -> fuel <= fuel' ->
  leaves_under fuel' m c = Some l.
Proof.
  revert fuel' c l. induction fuel as [|fuel IH]; intros fuel' c l; [done|].
  intros H Hle. destruct fuel' as [|fuel']; [lia|]. simpl in *.
  destruct (children (cell m c)) as [ch|]; [|done].
  destruct (leaves_under fuel m (ch_bl ch)) as [l1|] eqn:E1; [|done].
  destruct (leaves_under fuel m (ch_br ch)) as [l2|] eqn:E2; [|done].
  destruct (leaves_under fuel m (ch_tl ch)) as [l3|] eqn:E3; [|done].
  destruct (leaves_under fuel m (ch_tr ch)) as [l4|] eqn:E4; [|done].
  rewrite (IH fuel' _ _ E1), (IH fuel' _ _ E2), (IH fuel' _ _ E3),
    (IH fuel' _ _ E4) by lia.
  done.
Qed.

Lemma leaves_all_mono fuel fuel' m cs l :
  leaves_all fuel m cs = Some l -> fuel <= fuel' ->
  leaves_all fuel' m cs = Some l.
Proof.
  revert l. induction cs as [|c cs IH]; intros l; [done|]. simpl.
  destruct (leaves_under fuel m c) as [l1|] eqn:E1; [|done].
  destruct (leaves_all fuel m cs) as [l2|] eqn:E2; [|done].
  intros H Hle. rewrite (leaves_under_mono _ fuel' _ _ _ E1 Hle).
  by rewrite (IH _ eq_refl Hle).
Qed.

Lemma leaves_under_ext fuel m m' c :
  (forall x, children (cell m' x) = children (cell m x)) ->
  leaves_under fuel m' c = leaves_under fuel m c.
Proof.
  intros Hch. revert c. induction fuel as [|fuel IH]; intros c; [done|].
  simpl. rewrite Hch. destruct (children (cell m c)) as [ch|]; [|done].
  by rewrite !IH.
Qed.

Lemma leaves_all_ext fuel m m' cs :
  (forall x, children (cell m' x) = children (cell m x)) ->
  leaves_all fuel m' cs = leaves_all fuel m cs.
Proof.
  intros Hch. induction cs as [|c cs IH]; [done|]. simpl.
  by rewrite (leaves_under_ext fuel m m' c Hch), IH.
Qed.

(** ** The leaves after a cell got children *)

(** [self] replaced by the four new objects. *)
Definition replace_leaf (self k : nat) (l : list nat) : list nat :=
  flat_map (fun x => if decide (x = self) then [k; k + 1; k + 2; k + 3] else [x]) l.

Lemma replace_leaf_app self k l1 l2 :
  replace_leaf self k (l1 ++ l2) = replace_leaf self k l1 ++ replace_leaf self k l2.
Proof. apply flat_map_app. Qed.

Lemma replace_leaf_notin self k l : self ∉ l -> replace_leaf self k l = l.
Proof.
  induction l as [|x l IH]; [done|]. intros Hn.
  apply not_elem_of_cons in Hn as [Hne Hn]. unfold replace_leaf in *. simpl.
  rewrite decide_False by done. simpl. by rewrite IH.
Qed.

Section grow.
Variables (m m' : MultiGrid) (self : nat).
Hypothesis Hself : self < length (heap m).
Hypothesis Hleaf : children (cell m self) = None.
Hypothesis Hother : forall c, c <> self -> c < length (heap m) ->
children (cell m' c) = children (cell m c).
Hypothesis Hnew : children (cell m' self) = Some (fresh_children m).
Hypothesis Hfresh : forall c, length (heap m) <= c -> children (cell m' c) = None.

Lemma leaves_under_grow fuel c l :
leaves_under fuel m c = Some l ->
leaves_under (S fuel) m' c = Some (replace_leaf self (length (heap m)) l).
Proof.
revert c l. induction fuel as [|fuel IH]; intros c l; [done|].
intros H. simpl in H. change (leaves_under (S (S fuel)) m' c) with
  (match children (cell m' c) with
   | None => Some [c]
   | Some ch =>
       l1 ← leaves_under (S fuel) m' (ch_bl ch);
       l2 ← leaves_under (S fuel) m' (ch_br ch);
       l3 ← leaves_under (S fuel) m' (ch_tl ch);
       l4 ← leaves_under (S fuel) m' (ch_tr ch);
       Some (l1 ++ l2 ++ l3 ++ l4)
   end).
destruct (decide (c = self)) as [->|Hne].
- rewrite Hleaf in H. injection H as <-. rewrite Hnew.
  unfold fresh_children. cbn [ch_bl ch_br ch_tl ch_tr].
  simpl. rewrite !Hfresh by lia. simpl.
  unfold replace_leaf. simpl. by rewrite decide_True.
- assert (Hc : children (cell m' c) = children (cell m c)).
  { destruct (decide (c < length (heap m))); [by apply Hother|].
    rewrite Hfresh by lia. rewrite cell_default by lia. done. }
  rewrite Hc. destruct (children (cell m c)) as [ch|].
  + destruct (leaves_under fuel m (ch_bl ch)) as [l1|] eqn:E1; [|done].
    destruct (leaves_under fuel m (ch_br ch)) as [l2|] eqn:E2; [|done].
    destruct (leaves_under fuel m (ch_tl ch)) as [l3|] eqn:E3; [|done].
    destruct (leaves_under fuel m (ch_tr ch)) as [l4|] eqn:E4; [|done].
    simpl in H. injection H as <-.
    rewrite (IH _ _ E1), (IH _ _ E2), (IH _ _ E3), (IH _ _ E4). simpl.
    by rewrite !replace_leaf_app.
  + injection H as <-. unfold replace_leaf. simpl. by rewrite decide_False.
Qed.

Lemma leaves_all_grow fuel cs l :
leaves_all fuel m cs = Some l ->
leaves_all (S fuel) m' cs = Some (replace_leaf self (length (heap m)) l).
Proof.
revert l. induction cs as [|c cs IH]; intros l.
- by intros [= <-].
- cbn [leaves_all].
  destruct (leaves_under fuel m c) as [l1|] eqn:E1; [|done].
  destruct (leaves_all fuel m cs) as [l2|] eqn:E2; [|done].
  intros [= <-]. rewrite (leaves_under_grow _ _ _ E1), (IH _ eq_refl).
  simpl. by rewrite replace_leaf_app.
Qed.
End grow.

(** ** The list of leaves as an invariant *)

Definition is_leaf (m : MultiGrid) (x : nat) : Prop :=
  x < length (heap m) /\ children (cell m x) = None.

(** [get_all_leaf_cells] returns every object without children, once. *)
Definition LeavesOK (m : MultiGrid) : Prop :=
  exists l, get_all_leaf_cells m = Some l /\ NoDup l /\
            forall x, x ∈ l <-> is_leaf m x.

(** One leaf gave way to its four children. *)
Definition leaf_step (m : MultiGrid) (self : nat) (m' : MultiGrid) : Prop :=
  exists l1 l2,
    get_all_leaf_cells m = Some (l1 ++ self :: l2) /\
    get_all_leaf_cells m' =
      Some (l1 ++ [length (heap m); length (heap m) + 1;
                   length (heap m) + 2; length (heap m) + 3] ++ l2).

Lemma roots_eq m m' :
  HeapWF m -> HeapWF m' -> cells_in_top_tier m' = cells_in_top_tier m ->
  take (cells_in_top_tier m') (cells m') = take (cells_in_top_tier m) (cells m).
Proof.
  intros Hwf Hwf' Ht.
  destruct (wf_roots _ Hwf) as (_&->&_). destruct (wf_roots _ Hwf') as (_&->&_).
  by rewrite Ht.
Qed.

Lemma LeavesOK_ext m m' :
  HeapWF m -> HeapWF m' -> cells_in_top_tier m' = cells_in_top_tier m ->
  length (heap m') = length (heap m) ->
  (forall x, children (cell m' x) = children (cell m x)) ->
  get_all_leaf_cells m' = get_all_leaf_cells m /\ (LeavesOK m -> LeavesOK m').
Proof.
  intros Hwf Hwf' Ht Hl Hch.
  assert (Heq : get_all_leaf_cells m' = get_all_leaf_cells m).
  { rewrite !get_all_leaf_cells_eq, (roots_eq m m'), Hl by done.
    by apply leaves_all_ext. }
  split; [done|]. intros (l&E&Hnd&Hin). exists l. rewrite Heq.
  split_and!; [done|done|]. intros x. rewrite Hin. unfold is_leaf.
  by rewrite Hl, Hch.
Qed.

Lemma leaves_grow m m' self :
  HeapWF m -> HeapWF m' -> cells_in_top_tier m' = cells_in_top_tier m ->
  length (heap m') = length (heap m) + 4 ->
  self < length (heap m) -> children (cell m self) = None ->
  (forall c, c <> self -> c < length (heap m) ->
     children (cell m' c) = children (cell m c)) ->
  children (cell m' self) = Some (fresh_children m) ->
  (forall c, length (heap m) <= c -> children (cell m' c) = None) ->
  LeavesOK m -> leaf_step m self m' /\ LeavesOK m'.
Proof.
  intros Hwf Hwf' Ht Hl Hself Hleaf Hother Hnew Hfresh (l&E&Hnd&Hin).
  set (k := length (heap m)) in *.
  assert (Hsl : self ∈ l) by (by apply Hin).
  apply list_elem_of_split in Hsl as (l1&l2&->).
  apply list.NoDup_app in Hnd as (Hnd1&Hn1&Hnd2).
  apply list.NoDup_cons in Hnd2 as (Hn2&Hnd2).
  assert (Hn1' : self ∉ l1).
  { intros Hx. apply (Hn1 _ Hx). by left. }
  assert (E' : get_all_leaf_cells m' =
               Some (l1 ++ [k; k + 1; k + 2; k + 3] ++ l2)).
  { rewrite get_all_leaf_cells_eq, (roots_eq m m'), Hl by done.
    rewrite get_all_leaf_cells_eq in E. fold k in E.
    pose proof (leaves_all_grow m m' self Hself Hleaf Hother Hnew Hfresh _ _ _ E)
      as E2.
    apply (leaves_all_mono _ (S (k + 4))) in E2; [|lia].
    fold k in E2. rewrite E2. f_equal.
    rewrite replace_leaf_app. change (self :: l2) with ([self] ++ l2).
    rewrite replace_leaf_app.
    rewrite (replace_leaf_notin self k l1), (replace_leaf_notin self k l2) by done.
    unfold replace_leaf. simpl. by rewrite decide_True. }
  split; [by exists l1, l2|].
  eexists. split; [exact E'|]. split.
  - apply list.NoDup_app. split_and!; [done| |].
    + intros x Hx1 Hx2. apply elem_of_app in Hx2 as [Hx2|Hx2].
      * assert (is_leaf m x) as [Hlt _].
        { apply Hin. apply elem_of_app. by left. }
        fold k in Hlt. rewrite !elem_of_cons, elem_of_nil in Hx2. lia.
      * apply (Hn1 _ Hx1). by right.
    + apply list.NoDup_app. split_and!; [|  |done].
      * repeat (apply NoDup_cons_2; [rewrite ?elem_of_cons, ?elem_of_nil; lia|]).
        apply NoDup_nil_2.
      * intros x Hx1 Hx2.
        assert (is_leaf m x) as [Hlt _].
        { apply Hin. apply elem_of_app. right. by right. }
        fold k in Hlt. rewrite !elem_of_cons, elem_of_nil in Hx1. lia.
  - intros x. unfold is_leaf. rewrite Hl.
    rewrite !elem_of_app, !elem_of_cons, elem_of_nil.
    pose proof (Hin x) as Hx. unfold is_leaf in Hx. fold k in Hx.
    rewrite elem_of_app, elem_of_cons in Hx.
    destruct (decide (x = self)) as [->|Hne].
    + rewrite Hnew. split; [|intros [_ [=]]].
      intros [H1|[H2|H2]]; [done|lia|done].
    + destruct (decide (x < k)) as [Hlt|Hge].
      * rewrite (Hother x Hne Hlt). split.
        -- intros [H1|[H2|H2]]; [|lia|].
           ++ split; [lia|]. apply Hx. by left.
           ++ split; [lia|]. apply Hx. by right; right.
        -- intros [_ Hc]. destruct (proj2 Hx (conj Hlt Hc)) as [?|[?|?]]; auto.
           done.
      * rewrite (Hfresh x) by lia. split.
        -- intros [H1|[H2|H2]]; [|split; [lia|done]|].
           ++ assert (x < k) by (apply Hx; by left). lia.
           ++ assert (x < k) by (apply Hx; by right; right). lia.
        -- intros [Hlt _]. right. left. lia.
Qed.

Lemma split_body_leaves m self r m' :
  HeapWF m -> self < length (heap m) -> children (cell m self) = None ->
  split_body self m = (r, m') -> LeavesOK m ->
  leaf_step m self m' /\ LeavesOK m'.
Proof.
  intros Hwf Hself Hleaf E Hl.
  pose proof (split_body_post m self Hwf Hself Hleaf r m' E) as Hp.
  destruct (body_post_extends m self r m' Hself Hleaf Hp)
    as (He&Hother&Hnew&Hlen&_&Hfresh).
  apply leaves_grow; try done.
  - apply Hp.
  - apply He.
Qed.

Lemma new_tier_leaves m r m' :
  HeapWF m -> new_tier m = (r, m') ->
  get_all_leaf_cells m' = get_all_leaf_cells m /\ (LeavesOK m -> LeavesOK m').
Proof.
  intros Hwf E. pose proof (new_tier_HeapWF m r m' Hwf E) as Hwf'.
  apply new_tier_same_objects in E. destruct E as (Hh&_&_&Ht&_).
  apply LeavesOK_ext; try done.
  - by rewrite Hh.
  - intros x. unfold cell. by rewrite Hh.
Qed.

Lemma leaves_all_leaves fuel m cs :
  (forall c, c ∈ cs -> children (cell m c) = None) ->
  leaves_all (S fuel) m cs = Some cs.
Proof.
  induction cs as [|c cs IH]; intros H; [done|].
  cbn [leaves_all leaves_under]. rewrite (H c) by (by left). simpl.
  rewrite IH; [done|]. intros x Hx. apply H. by right.
Qed.

Lemma init_shape_leaves dim sp WS m :
  init_shape dim sp WS m ->
  get_all_leaf_cells m =
    Some (seq 0 ((n_rows_of dim sp - 1) * (n_cols_of dim sp - 1))) /\
  LeavesOK m.
Proof.
  intros H.
  assert (Hch : forall a, children (cell m a) = None).
  { destruct H. by apply (top_no_children (n_cols_of dim sp)
      (n_rows_of dim sp - 1) (n_cols_of dim sp - 1)). }
  assert (E : get_all_leaf_cells m =
    Some (seq 0 ((n_rows_of dim sp - 1) * (n_cols_of dim sp - 1)))).
  { rewrite get_all_leaf_cells_eq, (is_cells _ _ _ _ H), (is_top _ _ _ _ H).
    rewrite take_ge by (by rewrite length_seq).
    apply leaves_all_leaves. auto. }
  split; [done|]. eexists. split; [exact E|]. split; [apply NoDup_seq|].
  intros x. unfold is_leaf. rewrite elem_of_seq, (is_heap _ _ _ _ H), Hch.
  split; [intros [_ ?]; split; [lia|done]|intros [? _]; lia].
Qed.

(** The second invariant adds the leaves to the first. *)
Definition Inv2 (m : MultiGrid) : Prop := Inv1 m /\ LeavesOK m.

Lemma Inv2_wf m : Inv2 m -> HeapWF m.
Proof. intros [[? _] _]. done. Qed.

Lemma Inv2_body m self r m' :
  Inv2 m -> self < length (heap m) -> children (cell m self) = None ->
  split_body self m = (r, m') -> Inv2 m'.
Proof.
  intros [H1 Hl] Hself Hleaf E. split; [by eapply Inv1_body|].
  by apply (split_body_leaves m self r m' (proj1 H1) Hself Hleaf E).
Qed.

Lemma reachable_Inv2 m : reachable m -> Inv2 m.
Proof.
  induction 1 as [dim sp WS m E|m c r m' Hr IH Hc E|m r m' Hr IH E].
  - split; [by apply reachable_Inv1, (reach_init dim sp WS)|].
    destruct (MultiGrid_init_shape _ _ _ _ E) as [_ Hs].
    by apply (init_shape_leaves dim sp WS).
  - exact (sp_inv _ _ _ _ _ (split_post_inv Inv2 Inv2_wf Inv2_body m c r m' IH Hc E)).
  - split; [by apply reachable_Inv1, (reach_new_tier m r m')|].
    destruct IH as [[Hwf _] Hl]. by apply (new_tier_leaves m r m' Hwf E).
Qed.

Lemma reachable_leaves m : reachable m -> LeavesOK m.
Proof. intros H. apply reachable_Inv2 in H. apply H. Qed.


(** ** The two stages of [split] *)

(** "if self.tier > 0: self.split_neighbs_if_needed()" *)
Definition cascade (self : nat) : M unit := fun m =>
  (if decide (0 < tier (cell m self))
   then split_neighbs_if_needed (split_fuel (tier (cell m self))) self
   else ret tt) m.

Lemma split_eq self m :
  split self m =
    if has_children (cell m self) then (Raise AlreadySplit, m)
    else match cascade self m with
         | (Ok _, m1) => split_body self m1
         | (Raise e, m1) => (Raise e, m1)
         | (OutOfFuel, m1) => (OutOfFuel, m1)
         end.
Proof.
  unfold split, cascade. cbn [split_fuel]. unfold bind at 1, get.
  destruct (has_children (cell m self)); [done|]. unfold bind at 1.
  by destruct (decide (0 < tier (cell m self))).
Qed.

Section split_stages.
Variable Inv : MultiGrid -> Prop.
Hypothesis Inv_wf : forall m, Inv m -> HeapWF m.
Hypothesis Inv_body : forall m self r m',
Inv m -> self < length (heap m) -> children (cell m self) = None ->
split_body self m = (r, m') -> Inv m'.

(** The cascade leaves the cell a leaf, in a store that satisfies the
  invariant. *)
Lemma cascade_post self m r m1 :
Inv m -> self < length (heap m) -> children (cell m self) = None ->
cascade self m = (r, m1) ->
split_post Inv m (tier (cell m self)) r m1 /\
self < length (heap m1) /\ children (cell m1 self) = None /\
tier (cell m1 self) = tier (cell m self).
Proof.
intros Hinv Hself Hleaf. unfold cascade. case_decide as Hpos.
- intros E.
  assert (Hts : tier (cell m self) = S (pred (tier (cell m self)))) by lia.
  pose proof (split_neighbs_post Inv Inv_wf (tier (cell m self))
                (split_fuel (tier (cell m self))) self _ m r m1
                (split_fuel_post Inv Inv_wf Inv_body _)
                Hinv Hself Hts ltac:(lia) E) as H1.
  destruct H1 as [Hf Ha Hi He Hd]. split_and!.
  + split; try done. eapply deeper_kept_mono; [|exact Hd]. lia.
  + pose proof (ext_heap _ _ He). lia.
  + rewrite (Hd self Hself); [done|lia].
  + by destruct (ext_old _ _ He self Hself) as (_&_&_&_&->&_).
- intros [= <- <-]. split_and!; try done.
Qed.

End split_stages.

(** ** A run of [split] calls *)

Lemma reachable_valid_cells m c : reachable m -> c ∈ cells m -> c < length (heap m).
Proof.
  intros Hr Hc. destruct (wf_roots _ (reachable_HeapWF m Hr)) as (_&_&H&_). auto.
Qed.


(** [split_all_cells] runs over the cells that were registered when it
    was called. *)
Lemma split_all_cells_eq m :
  reachable m -> split_all_cells m = for_each (cells m) split m.
Proof.
  intros Hr. unfold split_all_cells, bind at 1, get, n_cells, for_range.
  assert (Hgen : forall k rest m1,
    reachable m1 -> drop k (cells m) = rest -> cells m `prefix_of` cells m1 ->
    for_each (seq k (length rest)) (fun i => c <- cells_at i ;; split c) m1 =
      for_each rest split m1).
  { intros k rest. revert k. induction rest as [|c rest IH]; intros k m1 Hr1 Hd Hp.
    - done.
    - cbn [length seq for_each]. unfold bind at 1 3.
      assert (Hk : cells m !! k = Some c).
      { rewrite <- (Nat.add_0_r k), <- lookup_drop, Hd. done. }
      assert (Hk1 : cells m1 !! k = Some c) by (by eapply prefix_lookup_Some).
      unfold bind, cells_at. rewrite Hk1.
      destruct (split c m1) as [r2 m2] eqn:E2.
      assert (Hc : c < length (heap m1)).
      { apply reachable_valid_cells; [done|]. by eapply list_elem_of_lookup_2. }
      destruct (split_post_inv Inv1 (fun m H => proj1 H) Inv1_body m1 c r2 m2
                  (reachable_Inv1 m1 Hr1) Hc E2) as [_ _ _ He _].
      destruct r2 as [[]| |]; [|done..].
      apply IH.
      + by eapply reach_split.
      + replace (S k) with (k + 1) by lia.
        rewrite <- (drop_drop (cells m) 1 k). by rewrite Hd.
      + etrans; [exact Hp|apply He]. }
  rewrite <- (Hgen 0 (cells m) m Hr eq_refl ltac:(done)). done.
Qed.


(** * Growth *)

Definition some_count {A} (o : option A) : nat :=
  match o with Some _ => 1 | None => 0 end.

(** The number of sides of a cell on which the neighbour has children. *)
Definition shared_sides (m : MultiGrid) (self : nat) : nat :=
  some_count (nchildren m west self) +
  some_count (nchildren m south self) +
  some_count (nchildren m north self) +
  some_count (nchildren m east self).

Lemma reuse_nchildren side pick corner m self :
  some_count (reuse side pick corner m self) =
  some_count (nchildren m side self).
Proof.
  unfold reuse, nchildren. destruct (side (cell m self)); [|done].
  by destruct (children (cell m _)).
Qed.

Lemma step_windows_count r x y WS ws :
  length (step_windows r x y WS ws) + some_count r = length ws + 1.
Proof. destruct r; simpl; rewrite ?length_app; simpl; lia. Qed.

Lemma windows_after_count m self :
  length (windows_after m self) + shared_sides m self = length (windows m) + 5.
Proof.
  unfold windows_after, shared_sides. cbv zeta.
  rewrite <- (reuse_nchildren west ch_br id_tr), <- (reuse_nchildren south ch_tl id_tr),
    <- (reuse_nchildren north ch_br id_bl), <- (reuse_nchildren east ch_bl id_tl).
  set (c := cell m self).
  set (w1 := step_windows (reuse west ch_br id_tr m self) _ _ _ (windows m)).
  set (w2 := step_windows (reuse south ch_tl id_tr m self) _ _ _ w1).
  set (w3 := step_windows None _ _ _ w2).
  set (w4 := step_windows (reuse north ch_br id_bl m self) _ _ _ w3).
  pose proof (step_windows_count (reuse west ch_br id_tr m self)
    (cw_x (bl_win m c)) (ctr_y m c) (cw_WS (bl_win m c)) (windows m)) as H1.
  pose proof (step_windows_count (reuse south ch_tl id_tr m self)
    (ctr_x m c) (cw_y (bl_win m c)) (cw_WS (bl_win m c)) w1) as H2.
  pose proof (step_windows_count None
    (ctr_x m c) (ctr_y m c) (cw_WS (bl_win m c)) w2) as H3.
  pose proof (step_windows_count (reuse north ch_br id_bl m self)
    (ctr_x m c) (cw_y (tl_win m c)) (cw_WS (bl_win m c)) w3) as H4.
  pose proof (step_windows_count (reuse east ch_bl id_tl m self)
    (cw_x (br_win m c)) (ctr_y m c) (cw_WS (bl_win m c)) w4) as H5.
  fold w1 in H1. fold w2 in H2. fold w3 in H3. fold w4 in H4.
  unfold some_count in *. simpl in H3. lia.
Qed.

Lemma nchildren_reuse side pick corner m self ch :
  nchildren m side self = Some ch ->
  reuse side pick corner m self = Some (corner (cell m (pick ch))).
Proof.
  unfold reuse, nchildren. destruct (side (cell m self)); [|done].
  by intros ->.
Qed.


Lemma shared_sides_le m self : shared_sides m self <= 4.
Proof.
  unfold shared_sides, some_count.
  destruct (nchildren m west self), (nchildren m south self),
    (nchildren m north self), (nchildren m east self); lia.
Qed.

(** [len(get_all_leaf_cells())] *)
Definition n_leaves (m : MultiGrid) : nat :=
  match get_all_leaf_cells m with Some l => length l | None => 0 end.

(** From [m0] to [m], [k] cells were split: three more leaves and one to
    five more windows for each. *)
Record grown (m0 m : MultiGrid) (k : nat) : Prop := {
  gr_leaves : n_leaves m = n_leaves m0 + 3 * k;
  gr_windows_lo : length (windows m0) + k <= length (windows m);
  gr_windows_hi : length (windows m) <= length (windows m0) + 5 * k
}.

Lemma grown_refl m : grown m m 0.
Proof. split; lia. Qed.

Lemma leaf_step_count m self m' : leaf_step m self m' -> n_leaves m' = n_leaves m + 3.
Proof.
  intros (l1&l2&E&E'). unfold n_leaves. rewrite E, E'.
  rewrite !length_app. simpl. lia.
Qed.

Lemma split_body_growth m self r m' :
  HeapWF m -> LeavesOK m -> self < length (heap m) ->
  children (cell m self) = None -> split_body self m = (r, m') ->
  leaf_step m self m' /\
  length (windows m') + shared_sides m self = length (windows m) + 5.
Proof.
  intros Hwf Hl Hself Hleaf E. split.
  - by apply (split_body_leaves m self r m' Hwf Hself Hleaf E Hl).
  - pose proof (split_body_post m self Hwf Hself Hleaf r m' E) as Hp.
    destruct (body_post_extends m self r m' Hself Hleaf Hp) as (_&_&_&_&->&_).
    apply windows_after_count.
Qed.

Lemma grown_body m0 m k self r m' :
  HeapWF m -> LeavesOK m -> self < length (heap m) ->
  children (cell m self) = None -> split_body self m = (r, m') ->
  grown m0 m k -> grown m0 m' (S k).
Proof.
  intros Hwf Hl Hself Hleaf E [H1 H2 H3].
  destruct (split_body_growth m self r m' Hwf Hl Hself Hleaf E) as [Hs Hw].
  apply leaf_step_count in Hs. pose proof (shared_sides_le m self).
  split; lia.
Qed.

(** The invariant of a call that started in [m0]. *)
Definition InvG (m0 m : MultiGrid) : Prop := Inv2 m /\ exists k, grown m0 m k.

Lemma InvG_wf m0 m : InvG m0 m -> HeapWF m.
Proof. intros [H _]. by apply Inv2_wf. Qed.

Lemma InvG_body m0 m self r m' :
  InvG m0 m -> self < length (heap m) -> children (cell m self) = None ->
  split_body self m = (r, m') -> InvG m0 m'.
Proof.
  intros [H2 [k Hk]] Hself Hleaf E. split; [by eapply Inv2_body|].
  exists (S k). eapply grown_body; try done; [by apply Inv2_wf|apply H2].
Qed.

(** No neighbour has to be split before the cell. *)
Definition side_quiet (m : MultiGrid) (side : GridCell -> option nat)
    (self : nat) : Prop :=
  is_Some (side (cell m self)) \/
  exists p, parent (cell m self) = Some p /\ side (cell m p) = None.

Definition no_cascade (m : MultiGrid) (self : nat) : Prop :=
  tier (cell m self) = 0 \/
  (side_quiet m north self /\ side_quiet m east self /\
   side_quiet m south self /\ side_quiet m west self).

Lemma split_side_quiet rec side self m :
  side_quiet m side self -> split_side rec side self m = (Ok tt, m).
Proof.
  unfold split_side, bind, get. intros [[n ->]|(p&->&Hp)]; [done|].
  destruct (side (cell m self)); [done|]. by rewrite Hp.
Qed.

Lemma cascade_quiet m self : no_cascade m self -> cascade self m = (Ok tt, m).
Proof.
  unfold cascade. intros [Ht|(Hn&He&Hs&Hw)].
  - by rewrite decide_False by lia.
  - case_decide; [|done]. unfold split_neighbs_if_needed.
    rewrite (bind_ok _ _ _ _ _ (split_side_quiet _ north self m Hn)).
    rewrite (bind_ok _ _ _ _ _ (split_side_quiet _ east self m He)).
    rewrite (bind_ok _ _ _ _ _ (split_side_quiet _ south self m Hs)).
    by apply split_side_quiet.
Qed.

Lemma split_growth_general m self r m' :
  reachable m -> self < length (heap m) -> children (cell m self) = None ->
  split self m = (r, m') ->
  exists k, grown m m' k /\ (r = Ok tt -> 1 <= k).
Proof.
  intros Hr Hself Hleaf. rewrite split_eq. unfold has_children. rewrite Hleaf.
  destruct (cascade self m) as [r1 m1] eqn:E1.
  assert (Hinv : InvG m m).
  { split; [by apply reachable_Inv2|]. exists 0. apply grown_refl. }
  destruct (cascade_post (InvG m) (InvG_wf m) (InvG_body m) self m r1 m1
              Hinv Hself Hleaf E1) as ([_ _ [H2 [k1 Hk1]] _ _]&Hs1&Hl1&_).
  destruct r1 as [[]| |].
  - intros E2. exists (S k1). split; [|lia].
    eapply grown_body; try done; [by apply Inv2_wf|apply H2].
  - intros [= <- <-]. by exists k1.
  - intros [= <- <-]. by exists k1.
Qed.

Lemma split_growth_quiet m self r m' :
  reachable m -> self < length (heap m) -> children (cell m self) = None ->
  no_cascade m self -> split self m = (r, m') ->
  leaf_step m self m' /\
  length (windows m') + shared_sides m self = length (windows m) + 5.
Proof.
  intros Hr Hself Hleaf Hq. rewrite split_eq. unfold has_children. rewrite Hleaf.
  rewrite (cascade_quiet m self Hq). intros E.
  destruct (reachable_Inv2 m Hr) as [[Hwf _] Hl].
  by apply (split_body_growth m self r m').
Qed.


(** * Geometry *)

(** The sides of the rectangle of a cell, read off its corner windows. *)
Definition cell_x0 (m : MultiGrid) (c : GridCell) : Q := cw_x (bl_win m c).
Definition cell_x1 (m : MultiGrid) (c : GridCell) : Q := cw_x (br_win m c).
Definition cell_y0 (m : MultiGrid) (c : GridCell) : Q := cw_y (bl_win m c).
Definition cell_y1 (m : MultiGrid) (c : GridCell) : Q := cw_y (tl_win m c).
Definition cell_xm (m : MultiGrid) (c : GridCell) : Q :=
  (cell_x0 m c + cell_x1 m c) * (1 # 2).
Definition cell_ym (m : MultiGrid) (c : GridCell) : Q :=
  (cell_y0 m c + cell_y1 m c) * (1 # 2).

(** Window [i] lies at [(x, y)]. *)
Definition win_at (m : MultiGrid) (i : nat) (x y : Q) : Prop :=
  cw_x (windows m !!! i) == x /\ cw_y (windows m !!! i) == y.

(** The four corner windows of a cell are the corners of a rectangle. *)
Definition Rect (m : MultiGrid) (c : GridCell) : Prop :=
  win_at m (id_br c) (cell_x1 m c) (cell_y0 m c) /\
  win_at m (id_tl c) (cell_x0 m c) (cell_y1 m c) /\
  win_at m (id_tr c) (cell_x1 m c) (cell_y1 m c).

(** The five windows the children of a cell add to its corners lie in
    the middle of its edges and at its centre. *)
Definition Mid (m : MultiGrid) (c : GridCell) (ch : Children) : Prop :=
  win_at m (id_tl (cell m (ch_bl ch))) (cell_x0 m c) (cell_ym m c) /\
  win_at m (id_br (cell m (ch_bl ch))) (cell_xm m c) (cell_y0 m c) /\
  win_at m (id_tr (cell m (ch_bl ch))) (cell_xm m c) (cell_ym m c) /\
  win_at m (id_tr (cell m (ch_tl ch))) (cell_xm m c) (cell_y1 m c) /\
  win_at m (id_tr (cell m (ch_br ch))) (cell_x1 m c) (cell_ym m c).

Definition Geo (m : MultiGrid) : Prop :=
  (forall c, c < length (heap m) -> Rect m (cell m c)) /\
  (forall c ch, children (cell m c) = Some ch -> Mid m (cell m c) ch).

Lemma win_at_proper m i x y x' y' :
  x == x' -> y == y' -> win_at m i x y -> win_at m i x' y'.
Proof. unfold win_at. intros Hx Hy [H1 H2]. split; lra. Qed.

(** ** The windows of the points of a split *)

Lemma step_windows_lookup_old r x y WS ws i :
  i < length ws -> step_windows r x y WS ws !!! i = ws !!! i.
Proof.
  intros Hi. destruct r; simpl; [done|]. by rewrite lookup_total_app_l.
Qed.

Lemma step_windows_lookup_new x y WS ws :
  step_windows None x y WS ws !!! length ws = mkCorrWindow x y WS.
Proof. simpl. by apply list_lookup_total_middle. Qed.

(** Where the window behind an id of [split] lies: where it was, for a
    point taken over from a neighbour, and at the coordinates given to
    the constructor for a new one. *)
Definition step_at (m : MultiGrid) (self : nat) (r : option nat) (i : nat)
    (x y : Q) : Prop :=
  match r with
  | Some j => i = j /\ j < length (windows m)
  | None => length (windows m) <= i /\
            windows_after m self !!! i =
              mkCorrWindow x y (cw_WS (bl_win m (cell m self)))
  end.

Lemma ids_after_at m self lm cb cm ct rm :
  HeapWF m -> ids_after m self = (lm, cb, cm, ct, rm) ->
  let c := cell m self in
  step_at m self (reuse west ch_br id_tr m self) lm (cw_x (bl_win m c)) (ctr_y m c) /\
  step_at m self (reuse south ch_tl id_tr m self) cb (ctr_x m c) (cw_y (bl_win m c)) /\
  step_at m self None cm (ctr_x m c) (ctr_y m c) /\
  step_at m self (reuse north ch_br id_bl m self) ct (ctr_x m c) (cw_y (tl_win m c)) /\
  step_at m self (reuse east ch_bl id_tl m self) rm (cw_x (br_win m c)) (ctr_y m c).
Proof.
  intros Hwf. unfold ids_after, step_at, windows_after. cbv zeta.
  assert (Hw := reuse_valid m west ch_br id_tr self).
  assert (Hs := reuse_valid m south ch_tl id_tr self).
  assert (Hn := reuse_valid m north ch_br id_bl self).
  assert (He := reuse_valid m east ch_bl id_tl self).
  destruct (reuse west ch_br id_tr m self) as [i1|];
  destruct (reuse south ch_tl id_tr m self) as [i2|];
  destruct (reuse north ch_br id_bl m self) as [i4|];
  destruct (reuse east ch_bl id_tl m self) as [i5|];
  intros [= <- <- <- <- <-]; cbn [step_windows step_id];
  repeat match goal with
  | H : forall i, HeapWF m -> _ -> _ -> Some ?j = Some i -> _ |- _ =>
      let H' := fresh in
      assert (H' : j < length (windows m));
      [ apply H; [done| intros; unfold is_child; auto | intros; auto | done] |];
      clear H
  | H : forall i, HeapWF m -> _ -> _ -> None = Some i -> _ |- _ => clear H
  end;
  repeat split; rewrite ?length_app; cbn [length]; try lia; try done;
  repeat first
    [ apply list_lookup_total_middle; rewrite ?length_app; cbn [length]; lia
    | rewrite lookup_total_app_l by (rewrite ?length_app; cbn [length]; lia) ].
Qed.

(** ** The points a neighbour with children holds *)

Ltac geo_unfold :=
  unfold Rect, Mid, win_at, cell_xm, cell_ym, cell_x0, cell_x1, cell_y0,
    cell_y1, bl_win, br_win, tl_win, tr_win in *.

Lemma nchildren_inv m side self ch :
  nchildren m side self = Some ch ->
  exists n, side (cell m self) = Some n /\ children (cell m n) = Some ch.
Proof.
  unfold nchildren. destruct (side (cell m self)) as [n|]; [|done].
  intros H. by exists n.
Qed.

Lemma west_point m self wc :
  HeapWF m -> Geo m -> nchildren m west self = Some wc ->
  win_at m (id_tr (cell m (ch_br wc)))
    (cell_x0 m (cell m self)) (cell_ym m (cell m self)).
Proof.
  intros Hwf [Hrect Hmid] (W&HW&Hch)%nchildren_inv.
  pose proof (proj2 (wf_sym _ Hwf EW W self) HW) as Hout.
  pose proof (wf_nb_ids _ Hwf EW W self Hout) as Hids. simpl in Hids.
  injection Hids as Hbl Htl.
  pose proof (Hrect W (children_valid _ _ _ Hch)) as HR.
  pose proof (Hmid W wc Hch) as HM.
  geo_unfold. rewrite Hbl, Htl.
  destruct HR as ([_ ?]&[_ ?]&[_ ?]). destruct HM as (_&_&_&_&[? ?]).
  split; lra.
Qed.

Lemma south_point m self sc :
  HeapWF m -> Geo m -> nchildren m south self = Some sc ->
  win_at m (id_tr (cell m (ch_tl sc)))
    (cell_xm m (cell m self)) (cell_y0 m (cell m self)).
Proof.
  intros Hwf [Hrect Hmid] (S&HS&Hch)%nchildren_inv.
  pose proof (proj2 (wf_sym _ Hwf NS S self) HS) as Hout.
  pose proof (wf_nb_ids _ Hwf NS S self Hout) as Hids. simpl in Hids.
  injection Hids as Hbl Hbr.
  pose proof (Hrect S (children_valid _ _ _ Hch)) as HR.
  pose proof (Hmid S sc Hch) as HM.
  geo_unfold. rewrite Hbl, Hbr.
  destruct HR as ([? ?]&[? ?]&[? ?]). destruct HM as (_&_&_&[? ?]&_).
  split; lra.
Qed.

Lemma north_point m self nc :
  HeapWF m -> Geo m -> self < length (heap m) ->
  nchildren m north self = Some nc ->
  win_at m (id_bl (cell m (ch_br nc)))
    (cell_xm m (cell m self)) (cell_y1 m (cell m self)).
Proof.
  intros Hwf [Hrect Hmid] Hself (N&HN&Hch)%nchildren_inv.
  pose proof (wf_nb_ids _ Hwf NS self N HN) as Hids. simpl in Hids.
  injection Hids as Hbl Hbr.
  pose proof (Hrect self Hself) as HR.
  pose proof (Hmid N nc Hch) as HM.
  rewrite <- (cs_cb _ _ _ (wf_children _ Hwf N nc Hch)).
  geo_unfold. rewrite Hbl, Hbr in HM.
  destruct HR as ([? ?]&[? ?]&[? ?]). destruct HM as (_&[? ?]&_).
  split; lra.
Qed.

Lemma east_point m self ec :
  HeapWF m -> Geo m -> self < length (heap m) ->
  nchildren m east self = Some ec ->
  win_at m (id_tl (cell m (ch_bl ec)))
    (cell_x1 m (cell m self)) (cell_ym m (cell m self)).
Proof.
  intros Hwf [Hrect Hmid] Hself (E&HE&Hch)%nchildren_inv.
  pose proof (wf_nb_ids _ Hwf EW self E HE) as Hids. simpl in Hids.
  injection Hids as Hbl Htl.
  pose proof (Hrect self Hself) as HR.
  pose proof (Hmid E ec Hch) as HM.
  geo_unfold. rewrite Hbl, Htl in HM.
  destruct HR as ([? ?]&[? ?]&[? ?]). destruct HM as ([? ?]&_).
  split; lra.
Qed.

Lemma reuse_inv side pick corner m self j :
  reuse side pick corner m self = Some j ->
  exists ch, nchildren m side self = Some ch /\ j = corner (cell m (pick ch)).
Proof.
  unfold reuse, nchildren. destruct (side (cell m self)) as [n|]; [|done].
  destruct (children (cell m n)) as [ch|]; [|done]. intros [= <-]. by exists ch.
Qed.

Lemma midpoint_eq a b : midpoint a b == (a + b) * (1 # 2).
Proof. unfold midpoint. rewrite Qred_correct. reflexivity. Qed.

(** ** Geometry carried over to a later store *)

Definition ids_eq (c c' : GridCell) : Prop :=
  id_bl c' = id_bl c /\ id_br c' = id_br c /\ id_tl c' = id_tl c /\
  id_tr c' = id_tr c.

Definition ids_lt (n : nat) (c : GridCell) : Prop :=
  id_bl c < n /\ id_br c < n /\ id_tl c < n /\ id_tr c < n.

Definition windows_kept (m m' : MultiGrid) : Prop :=
  forall i, i < length (windows m) -> windows m' !!! i = windows m !!! i.

Lemma tree_eq_ids c c' : tree_eq c c' -> ids_eq c c'.
Proof. intros (?&?&?&?&_). by repeat split. Qed.

Lemma same_fixed_ids c c' : same_fixed c c' -> ids_eq c c'.
Proof. intros (?&?&?&?&_). by repeat split. Qed.

Lemma Rect_transfer m m' c c' :
  ids_eq c c' -> ids_lt (length (windows m)) c -> windows_kept m m' ->
  Rect m c -> Rect m' c'.
Proof.
  intros (E1&E2&E3&E4) (L1&L2&L3&L4) Hk. geo_unfold.
  rewrite E1, E2, E3, E4, !Hk by done. done.
Qed.

Lemma Mid_transfer m m' c c' ch :
  ids_eq c c' -> ids_lt (length (windows m)) c ->
  ids_eq (cell m (ch_bl ch)) (cell m' (ch_bl ch)) ->
  ids_eq (cell m (ch_br ch)) (cell m' (ch_br ch)) ->
  ids_eq (cell m (ch_tl ch)) (cell m' (ch_tl ch)) ->
  ids_lt (length (windows m)) (cell m (ch_bl ch)) ->
  ids_lt (length (windows m)) (cell m (ch_br ch)) ->
  ids_lt (length (windows m)) (cell m (ch_tl ch)) ->
  windows_kept m m' ->
  Mid m c ch -> Mid m' c' ch.
Proof.
  intros (E1&E2&E3&E4) (L1&L2&L3&L4) (A1&A2&A3&A4) (B1&B2&B3&B4)
    (C1&C2&C3&C4) (LA1&LA2&LA3&LA4) (LB1&LB2&LB3&LB4) (LC1&LC2&LC3&LC4) Hk.
  geo_unfold.
  rewrite E1, E2, E3, A2, A3, A4, B4, C4, !Hk by done. done.
Qed.

Lemma ids_lt_valid m c :
  HeapWF m -> c < length (heap m) -> ids_lt (length (windows m)) (cell m c).
Proof. intros Hwf Hc. exact (wf_ids _ Hwf c Hc). Qed.

Lemma Geo_transfer m m' :
  HeapWF m -> length (heap m') = length (heap m) ->
  (forall c, tree_eq (cell m c) (cell m' c)) -> windows_kept m m' ->
  Geo m -> Geo m'.
Proof.
  intros Hwf Hl Hc Hk [Hrect Hmid]. split.
  - intros c Hlt. rewrite Hl in Hlt.
    apply (Rect_transfer m m' (cell m c)); auto using tree_eq_ids, ids_lt_valid.
  - intros c ch Hch.
    assert (Hch0 : children (cell m c) = Some ch).
    { destruct (Hc c) as (_&_&_&_&_&_&_&<-&_). done. }
    pose proof (children_valid _ _ _ Hch0) as Hlt.
    destruct (wf_children _ Hwf c ch Hch0) as [Ho Hbr Htl Htr Hv _ _].
    apply (Mid_transfer m m' (cell m c)); auto using tree_eq_ids;
      apply ids_lt_valid; try done; lia.
Qed.

(** ** The geometry of the children *)

Section geo_split.
Variables (m : MultiGrid) (self : nat).
Hypothesis Hwf : HeapWF m.
Hypothesis Hgeo : Geo m.
Hypothesis Hself : self < length (heap m).

Lemma windows_kept_B : windows_kept m (state_B m self).
Proof.
intros i Hi. rewrite state_B_windows by done. by apply lookup_windows_after.
Qed.

Lemma step_at_win r i x y x' y' :
step_at m self r i x y ->
(forall j, r = Some j -> win_at m j x' y') ->
x == x' -> y == y' ->
win_at (state_B m self) i x' y'.
Proof.
unfold step_at, win_at. intros Hs Hr Hx Hy. destruct r as [j|].
- destruct Hs as [-> Hj]. rewrite windows_kept_B by done. by apply Hr.
- destruct Hs as [_ Hw]. rewrite state_B_windows by done. rewrite Hw.
  simpl. done.
Qed.

Lemma split_points lm cb cm ct rm :
ids_after m self = (lm, cb, cm, ct, rm) ->
let c := cell m self in
win_at (state_B m self) lm (cell_x0 m c) (cell_ym m c) /\
win_at (state_B m self) cb (cell_xm m c) (cell_y0 m c) /\
win_at (state_B m self) cm (cell_xm m c) (cell_ym m c) /\
win_at (state_B m self) ct (cell_xm m c) (cell_y1 m c) /\
win_at (state_B m self) rm (cell_x1 m c) (cell_ym m c).
Proof.
intros Hids. destruct (ids_after_at m self lm cb cm ct rm Hwf Hids)
  as (H1&H2&H3&H4&H5).
assert (Hx : ctr_x m (cell m self) == cell_xm m (cell m self)).
{ unfold ctr_x. apply midpoint_eq. }
assert (Hy : ctr_y m (cell m self) == cell_ym m (cell m self)).
{ unfold ctr_y. apply midpoint_eq. }
cbv zeta. split_and!.
- eapply step_at_win; [exact H1| |reflexivity|exact Hy].
  intros j (wc&Hc&->)%reuse_inv. by apply west_point.
- eapply step_at_win; [exact H2| |exact Hx|reflexivity].
  intros j (sc&Hc&->)%reuse_inv. by apply south_point.
- eapply step_at_win; [exact H3|done|exact Hx|exact Hy].
- eapply step_at_win; [exact H4| |exact Hx|reflexivity].
  intros j (nc&Hc&->)%reuse_inv. by apply north_point.
- eapply step_at_win; [exact H5| |reflexivity|exact Hy].
  intros j (ec&Hc&->)%reuse_inv. by apply east_point.
Qed.

Lemma corner_kept i :
i < length (windows m) -> windows (state_B m self) !!! i = windows m !!! i.
Proof. apply windows_kept_B. Qed.

Lemma Geo_state_B : Geo (state_B m self).
Proof.
destruct (ids_after m self) as [[[[lm cb] cm] ct] rm] eqn:Hids.
pose proof (split_points lm cb cm ct rm Hids) as (Plm&Pcb&Pcm&Pct&Prm).
cbv zeta in *.
pose proof (wf_ids _ Hwf self Hself) as (Lbl&Lbr&Ltl&Ltr).
pose proof (proj1 Hgeo self Hself) as HR.
pose proof (corner_kept _ Lbl) as Kbl. pose proof (corner_kept _ Lbr) as Kbr.
pose proof (corner_kept _ Ltl) as Ktl. pose proof (corner_kept _ Ltr) as Ktr.
assert (Hold : forall j, j < length (heap m) ->
          ids_eq (cell m j) (cell (state_B m self) j)).
{ intros j Hj. apply same_fixed_ids. by apply state_B_old. }
split.
- intros j Hj. rewrite state_B_length in Hj by done.
  destruct (decide (j < length (heap m))) as [Hlt|Hge].
  { apply (Rect_transfer m _ (cell m j)); auto using ids_lt_valid, windows_kept_B.
    by apply Hgeo. }
  rewrite state_B_cell, Hids by done.
  rewrite decide_False by lia.
  geo_unfold.
  destruct HR as ([? ?]&[? ?]&[? ?]).
  destruct Plm as [? ?], Pcb as [? ?], Pcm as [? ?], Pct as [? ?], Prm as [? ?].
  repeat case_decide; try lia;
    cbn [id_bl id_br id_tl id_tr child_bl child_br child_tl child_tr];
    rewrite ?Kbl, ?Kbr, ?Ktl, ?Ktr; repeat split; lra.
- intros p ch Hch.
  pose proof (children_valid _ _ _ Hch) as Hp.
  rewrite state_B_length in Hp by done.
  destruct (decide (p = self)) as [->|Hne].
  + destruct (state_B_old m self Hself self Hself) as [_ Hc].
    rewrite decide_True in Hc by done. rewrite Hc in Hch. injection Hch as <-.
    assert (Hs : ids_eq (cell m self) (cell (state_B m self) self)) by auto.
    destruct Hs as (S1&S2&S3&S4).
    unfold Mid, cell_xm, cell_ym, cell_x0, cell_x1, cell_y0, cell_y1,
      bl_win, br_win, tl_win, tr_win.
    rewrite S1, S2, S3, Kbl, Kbr, Ktl.
    unfold fresh_children. cbn [ch_bl ch_br ch_tl ch_tr].
    assert (C0 : cell (state_B m self) (length (heap m)) =
                 child_bl self (cell m self) lm cb cm ct rm).
    { rewrite state_B_cell, Hids by done. repeat case_decide; try lia; done. }
    assert (C1 : cell (state_B m self) (length (heap m) + 1) =
                 child_br self (cell m self) lm cb cm ct rm).
    { rewrite state_B_cell, Hids by done. repeat case_decide; try lia; done. }
    assert (C2 : cell (state_B m self) (length (heap m) + 2) =
                 child_tl self (cell m self) lm cb cm ct rm).
    { rewrite state_B_cell, Hids by done. repeat case_decide; try lia; done. }
    rewrite C0, C1, C2.
    cbn [id_bl id_br id_tl id_tr child_bl child_br child_tl child_tr].
    split_and!; done.
  + destruct (decide (p < length (heap m))) as [Hlt|Hge].
    2:{ rewrite state_B_new in Hch by (done || lia). done. }
    destruct (state_B_old m self Hself p Hlt) as [_ Hc].
    rewrite decide_False in Hc by done. rewrite Hc in Hch.
    destruct (wf_children _ Hwf p ch Hch) as [Ho Hbr Htl Htr Hv _ _].
    apply (Mid_transfer m _ (cell m p)); auto using windows_kept_B;
      try (apply Hold; lia); try (by apply Hgeo);
      apply ids_lt_valid; try done; lia.
Qed.
End geo_split.


Lemma split_body_Geo m self r m' :
  HeapWF m -> Geo m -> self < length (heap m) ->
  children (cell m self) = None ->
  split_body self m = (r, m') -> Geo m'.
Proof.
  intros Hwf Hgeo Hself Hleaf E.
  pose proof (split_body_post m self Hwf Hself Hleaf r m' E) as Hp.
  destruct (bp_tree _ _ _ _ Hp) as (Hl&Hw&_&_&_&_&Hc).
  apply (Geo_transfer (state_B m self)); try done.
  - destruct (ids_after m self) as [[[[lm cb] cm] ct] rm] eqn:Hids.
    rewrite (state_B_eq m self lm cb cm ct rm Hids).
    by apply HeapWF_state_B.
  - intros i _. by rewrite Hw.
  - by apply Geo_state_B.
Qed.

Lemma same_objects_Geo m m' : HeapWF m -> same_objects m m' -> Geo m -> Geo m'.
Proof.
  intros Hwf (Hh&Hw&_) Hgeo. apply (Geo_transfer m); try done.
  - by rewrite Hh.
  - intros c. unfold cell. rewrite Hh. apply tree_eq_refl.
  - intros i _. by rewrite Hw.
Qed.

(** ** The geometry of the constructed mesh *)

Section init_geo.
Variables (dim : Z * Z) (sp WS : Z) (m : MultiGrid).
Hypothesis Hshape : init_shape dim sp WS m.

Lemma init_window r c :
r < n_rows_of dim sp -> c < n_cols_of dim sp ->
windows m !!! (r * n_cols_of dim sp + c) =
  mkCorrWindow (inject_Z (Z.of_nat c * sp)) (inject_Z (Z.of_nat r * sp)) WS.
Proof.
intros Hr Hc. apply list_lookup_total_correct.
rewrite (is_windows _ _ _ _ Hshape).
rewrite <- (axis_length (snd dim) sp) at 1.
apply init_windows_lookup; by apply arange_lookup.
Qed.

Lemma init_cell_box rr cc :
rr < n_rows_of dim sp - 1 -> cc < n_cols_of dim sp - 1 ->
let c := cell m (rr * (n_cols_of dim sp - 1) + cc) in
bl_win m c = mkCorrWindow (inject_Z (Z.of_nat cc * sp))
               (inject_Z (Z.of_nat rr * sp)) WS /\
br_win m c = mkCorrWindow (inject_Z (Z.of_nat (cc + 1) * sp))
               (inject_Z (Z.of_nat rr * sp)) WS /\
tl_win m c = mkCorrWindow (inject_Z (Z.of_nat cc * sp))
               (inject_Z (Z.of_nat (rr + 1) * sp)) WS /\
tr_win m c = mkCorrWindow (inject_Z (Z.of_nat (cc + 1) * sp))
               (inject_Z (Z.of_nat (rr + 1) * sp)) WS.
Proof.
intros Hrr Hcc. cbv zeta. rewrite (is_cell _ _ _ _ Hshape) by done.
unfold bl_win, br_win, tl_win, tr_win, top_cell.
cbn [id_bl id_br id_tl id_tr].
set (n := n_cols_of dim sp) in *.
replace (rr * n + cc + 1) with (rr * n + (cc + 1)) by lia.
replace (rr * n + cc + n + 1) with ((rr + 1) * n + (cc + 1)) by lia.
replace (rr * n + cc + n) with ((rr + 1) * n + cc) by lia.
unfold n. rewrite !init_window by lia. done.
Qed.

Lemma init_Geo : Geo m.
Proof.
split.
- intros c Hc. rewrite (is_heap _ _ _ _ Hshape) in Hc.
  destruct (top_decomp _ _ _ Hc) as (rr&cc&->&Hrr&Hcc).
  destruct (init_cell_box rr cc Hrr Hcc) as (Hbl&Hbr&Htl&Htr).
  unfold Rect, win_at, cell_x0, cell_x1, cell_y0, cell_y1.
  fold (br_win m (cell m (rr * (n_cols_of dim sp - 1) + cc))).
  fold (tl_win m (cell m (rr * (n_cols_of dim sp - 1) + cc))).
  fold (tr_win m (cell m (rr * (n_cols_of dim sp - 1) + cc))).
  rewrite Hbl, Hbr, Htl, Htr. simpl. repeat split; reflexivity.
- intros c ch Hch. destruct Hshape.
  by rewrite (top_no_children (n_cols_of dim sp) (n_rows_of dim sp - 1)
                (n_cols_of dim sp - 1) m) in Hch.
Qed.
End init_geo.


(** * The leaves tile the grid *)

(** A point of the half-open rectangle [x0, x1) x [y0, y1). *)
Definition in_box (x0 x1 y0 y1 : Q) (p : Q * Q) : Prop :=
  (x0 <= fst p /\ fst p < x1 /\ y0 <= snd p /\ snd p < y1)%Q.

(** The rectangle of cell [c] holds the point [p]. *)
Definition covers (m : MultiGrid) (c : nat) (p : Q * Q) : Prop :=
  in_box (cell_x0 m (cell m c)) (cell_x1 m (cell m c))
         (cell_y0 m (cell m c)) (cell_y1 m (cell m c)) p.

(** The rectangle the grid points of the top tier span: from the origin
    to the last grid point on each axis. *)
Definition grid_width (m : MultiGrid) : Q :=
  inject_Z (Z.of_nat (n_cols_of (img_dim m) (spacing m) - 1) * spacing m).
Definition grid_height (m : MultiGrid) : Q :=
  inject_Z (Z.of_nat (n_rows_of (img_dim m) (spacing m) - 1) * spacing m).
Definition in_grid (m : MultiGrid) (p : Q * Q) : Prop :=
  in_box 0 (grid_width m) 0 (grid_height m) p.

(** Every point of that rectangle lies in the rectangle of exactly one
    leaf. *)
Definition Tiling (m : MultiGrid) : Prop :=
  forall p, in_grid m p ->
    exists c, is_leaf m c /\ covers m c p /\
              forall c', is_leaf m c' -> covers m c' p -> c' = c.

(** The rectangles of the children are the four quarters of the
    rectangle of their parent. *)
Lemma child_boxes m p ch :
  HeapWF m -> Geo m -> children (cell m p) = Some ch ->
  let c := cell m p in
  (cell_x0 m (cell m (ch_bl ch)) == cell_x0 m c /\
   cell_x1 m (cell m (ch_bl ch)) == cell_xm m c /\
   cell_y0 m (cell m (ch_bl ch)) == cell_y0 m c /\
   cell_y1 m (cell m (ch_bl ch)) == cell_ym m c) /\
  (cell_x0 m (cell m (ch_br ch)) == cell_xm m c /\
   cell_x1 m (cell m (ch_br ch)) == cell_x1 m c /\
   cell_y0 m (cell m (ch_br ch)) == cell_y0 m c /\
   cell_y1 m (cell m (ch_br ch)) == cell_ym m c) /\
  (cell_x0 m (cell m (ch_tl ch)) == cell_x0 m c /\
   cell_x1 m (cell m (ch_tl ch)) == cell_xm m c /\
   cell_y0 m (cell m (ch_tl ch)) == cell_ym m c /\
   cell_y1 m (cell m (ch_tl ch)) == cell_y1 m c) /\
  (cell_x0 m (cell m (ch_tr ch)) == cell_xm m c /\
   cell_x1 m (cell m (ch_tr ch)) == cell_x1 m c /\
   cell_y0 m (cell m (ch_tr ch)) == cell_ym m c /\
   cell_y1 m (cell m (ch_tr ch)) == cell_y1 m c).
Proof.
  intros Hwf [Hrect Hmid] Hch. cbv zeta.
  pose proof (Hmid p ch Hch) as HM.
  destruct (wf_children _ Hwf p ch Hch)
    as [_ _ _ _ _ _ _ Ebl Ebr Etl Etr Ecb Elm Ecm1 Ecm2 Ecm3 Erm Ect].
  geo_unfold.
  rewrite <- Ecb, <- Elm, <- Ecm3, <- Ect, <- Erm in *.
  rewrite Ecm2, <- Ecm1 in *.
  rewrite Ebl, Ebr, Etl in *.
  destruct HM as ([? ?]&[? ?]&[? ?]&[? ?]&[? ?]).
  repeat split; try reflexivity; lra.
Qed.

Lemma child_covers m p ch pt :
  HeapWF m -> Geo m -> children (cell m p) = Some ch ->
  (forall x, is_child ch x -> covers m x pt -> covers m p pt) /\
  (covers m p pt -> exists x, is_child ch x /\ covers m x pt) /\
  (forall x y, is_child ch x -> is_child ch y ->
     covers m x pt -> covers m y pt -> x = y).
Proof.
  intros Hwf Hgeo Hch.
  destruct (child_boxes m p ch Hwf Hgeo Hch)
    as ((A1&A2&A3&A4)&(B1&B2&B3&B4)&(C1&C2&C3&C4)&(D1&D2&D3&D4)).
  unfold covers, in_box, cell_xm, cell_ym in *.
  set (X0 := cell_x0 m (cell m p)) in *. set (X1 := cell_x1 m (cell m p)) in *.
  set (Y0 := cell_y0 m (cell m p)) in *. set (Y1 := cell_y1 m (cell m p)) in *.
  split_and!.
  - intros x [-> | [-> | [-> | ->]]] (?&?&?&?); repeat split; lra.
  - intros (?&?&?&?).
    destruct (Qlt_le_dec (fst pt) ((X0 + X1) * (1 # 2))),
             (Qlt_le_dec (snd pt) ((Y0 + Y1) * (1 # 2))).
    + exists (ch_bl ch). split; [unfold is_child; auto|]. repeat split; lra.
    + exists (ch_tl ch). split; [unfold is_child; auto|]. repeat split; lra.
    + exists (ch_br ch). split; [unfold is_child; auto|]. repeat split; lra.
    + exists (ch_tr ch). split; [unfold is_child; auto|]. repeat split; lra.
  - intros x y [-> | [-> | [-> | ->]]] [-> | [-> | [-> | ->]]]
      (?&?&?&?) (?&?&?&?); try reflexivity; exfalso; lra.
Qed.

(** ** The tiling after a cell got children *)

Lemma covers_ext m m' c pt :
  ids_eq (cell m c) (cell m' c) -> ids_lt (length (windows m)) (cell m c) ->
  windows_kept m m' -> (covers m' c pt <-> covers m c pt).
Proof.
  intros (E1&E2&E3&E4) (L1&L2&L3&L4) Hk.
  unfold covers, cell_x0, cell_x1, cell_y0, cell_y1, bl_win, br_win, tl_win.
  by rewrite E1, E2, E3, !Hk by done.
Qed.

Lemma Tiling_grow m m' self :
  HeapWF m -> HeapWF m' -> Geo m' ->
  length (heap m') = length (heap m) + 4 ->
  self < length (heap m) -> children (cell m self) = None ->
  (forall c, c <> self -> c < length (heap m) ->
     children (cell m' c) = children (cell m c)) ->
  children (cell m' self) = Some (fresh_children m) ->
  (forall c, length (heap m) <= c -> children (cell m' c) = None) ->
  (forall c pt, c < length (heap m) -> covers m' c pt <-> covers m c pt) ->
  (forall pt, in_grid m' pt -> in_grid m pt) ->
  Tiling m -> Tiling m'.
Proof.
  intros Hwf Hwf' Hgeo' Hl Hself Hleaf Hother Hnew Hfresh Hcov Hgrid Ht pt Hpt.
  destruct (Ht pt (Hgrid pt Hpt)) as (c&[Hc Hcl]&Hcc&Huniq).
  destruct (child_covers m' self (fresh_children m) pt Hwf' Hgeo' Hnew)
    as (Hup&Hdown&Hone).
  assert (Hkid : forall x, is_child (fresh_children m) x <->
                   length (heap m) <= x < length (heap m) + 4).
  { intros x. unfold is_child, fresh_children. cbn [ch_bl ch_br ch_tl ch_tr]. lia. }
  assert (Hleaf' : forall x, is_leaf m' x ->
            (is_leaf m x /\ x <> self) \/ is_child (fresh_children m) x).
  { intros x [Hx Hxc]. destruct (decide (x < length (heap m))) as [Hlt|Hge].
    - left. assert (x <> self) by (intros ->; congruence).
      split; [|done]. split; [done|]. by rewrite <- Hother.
    - right. apply Hkid. lia. }
  destruct (decide (c = self)) as [->|Hne].
  - destruct (Hdown (proj2 (Hcov self pt Hself) Hcc)) as (x&Hx&Hxc).
    exists x. split_and!; [|done|].
    + split; [apply Hkid in Hx; lia|]. apply Hfresh. apply Hkid in Hx. lia.
    + intros c' Hc' Hc'c. destruct (Hleaf' c' Hc') as [[Hl' Hn']|Hk'].
      * exfalso. apply Hn'. apply Huniq; [done|].
        apply Hcov; [apply Hl'|done].
      * by apply Hone.
  - exists c. split_and!.
    + split; [lia|]. by rewrite Hother.
    + by apply Hcov.
    + intros c' Hc' Hc'c. destruct (Hleaf' c' Hc') as [[Hl' Hn']|Hk'].
      * apply Huniq; [done|]. apply Hcov; [apply Hl'|done].
      * exfalso. apply Hne. symmetry. apply Huniq; [by split|].
        apply Hcov; [done|]. by apply (Hup c').
Qed.

Lemma prefix_windows_kept m m' :
  windows m `prefix_of` windows m' -> windows_kept m m'.
Proof. intros [k Hk] i Hi. rewrite Hk. by rewrite lookup_total_app_l. Qed.

Lemma in_grid_ext m m' pt :
  img_dim m' = img_dim m -> spacing m' = spacing m ->
  in_grid m' pt -> in_grid m pt.
Proof. unfold in_grid, grid_width, grid_height. by intros -> ->. Qed.

Lemma split_body_Tiling m self r m' :
  HeapWF m -> Geo m -> self < length (heap m) ->
  children (cell m self) = None ->
  split_body self m = (r, m') -> Tiling m -> Tiling m'.
Proof.
  intros Hwf Hgeo Hself Hleaf E.
  pose proof (split_body_post m self Hwf Hself Hleaf r m' E) as Hp.
  destruct (body_post_extends m self r m' Hself Hleaf Hp)
    as (He&Hother&Hnew&Hlen&_&Hfresh).
  apply (Tiling_grow m m' self); try done.
  - apply Hp.
  - by eapply split_body_Geo.
  - intros c pt Hc. apply covers_ext.
    + apply same_fixed_ids. by apply (ext_old _ _ He).
    + by apply ids_lt_valid.
    + apply prefix_windows_kept, He.
  - intros pt. apply in_grid_ext; apply He.
Qed.

Lemma same_objects_Tiling m m' : same_objects m m' -> Tiling m -> Tiling m'.
Proof.
  intros (Hh&Hw&_&_&Hs&Hd) Ht pt Hpt.
  assert (Hc : forall c, cell m' c = cell m c).
  { intros c. unfold cell. by rewrite Hh. }
  assert (Hcov : forall c, covers m' c pt <-> covers m c pt).
  { intros c. unfold covers, cell_x0, cell_x1, cell_y0, cell_y1, bl_win,
      br_win, tl_win. by rewrite Hc, Hw. }
  assert (Hlf : forall c, is_leaf m' c <-> is_leaf m c).
  { intros c. unfold is_leaf. by rewrite Hc, Hh. }
  destruct (Ht pt (in_grid_ext m m' pt Hd Hs Hpt)) as (c&Hl&Hcc&Hu).
  exists c. split_and!; [by apply Hlf|by apply Hcov|].
  intros c' Hl' Hc'. apply Hu; [by apply Hlf|by apply Hcov].
Qed.

(** ** The tiling of the constructed mesh *)

Lemma find_grid_index (s : Z) (n : nat) (x : Q) :
  (0 <= x)%Q -> (x < inject_Z (Z.of_nat n * s))%Q ->
  exists i, i < n /\ (inject_Z (Z.of_nat i * s) <= x)%Q /\
            (x < inject_Z (Z.of_nat (i + 1) * s))%Q.
Proof.
  intros H0. induction n as [|n IH]; intros Hx.
  - exfalso. change (inject_Z (Z.of_nat 0 * s)) with 0%Q in Hx. lra.
  - destruct (Qlt_le_dec x (inject_Z (Z.of_nat n * s))) as [Hlt|Hge].
    + destruct (IH Hlt) as (i&Hi&H1&H2). exists i. split; [lia|done].
    + exists n. split; [lia|]. split; [done|].
      by replace (n + 1) with (S n) by lia.
Qed.

Lemma grid_index_unique (s : Z) (i j : nat) (x : Q) :
  (inject_Z (Z.of_nat i * s) <= x)%Q -> (x < inject_Z (Z.of_nat (i + 1) * s))%Q ->
  (inject_Z (Z.of_nat j * s) <= x)%Q -> (x < inject_Z (Z.of_nat (j + 1) * s))%Q ->
  i = j.
Proof.
  intros A1 A2 B1 B2.
  pose proof (Qle_lt_trans _ _ _ A1 A2) as Hi. rewrite <- Zlt_Qlt in Hi.
  pose proof (Qle_lt_trans _ _ _ A1 B2) as Hij. rewrite <- Zlt_Qlt in Hij.
  pose proof (Qle_lt_trans _ _ _ B1 A2) as Hji. rewrite <- Zlt_Qlt in Hji.
  nia.
Qed.

Lemma init_Tiling dim sp WS m : init_shape dim sp WS m -> Tiling m.
Proof.
  intros Hs (px, py) (Hx0&Hx1&Hy0&Hy1). simpl in *.
  unfold grid_width, grid_height in *.
  rewrite (is_dim _ _ _ _ Hs), (is_spacing _ _ _ _ Hs) in *.
  set (n_rc := n_rows_of dim sp - 1) in *.
  set (n_cc := n_cols_of dim sp - 1) in *.
  destruct (find_grid_index sp n_cc px Hx0 Hx1) as (cc&Hcc&Hc1&Hc2).
  destruct (find_grid_index sp n_rc py Hy0 Hy1) as (rr&Hrr&Hr1&Hr2).
  assert (Hbox : forall rr cc, rr < n_rc -> cc < n_cc ->
    covers m (rr * n_cc + cc) (px, py) <->
    (inject_Z (Z.of_nat cc * sp) <= px /\ px < inject_Z (Z.of_nat (cc + 1) * sp) /\
     inject_Z (Z.of_nat rr * sp) <= py /\ py < inject_Z (Z.of_nat (rr + 1) * sp))%Q).
  { intros r c Hr Hc.
    destruct (init_cell_box dim sp WS m Hs r c Hr Hc) as (Hbl&Hbr&Htl&_).
    unfold covers, in_box, cell_x0, cell_x1, cell_y0, cell_y1.
    fold n_cc in Hbl, Hbr, Htl. rewrite Hbl, Hbr, Htl. simpl. done. }
  assert (Hch : forall a, children (cell m a) = None).
  { destruct Hs. by apply (top_no_children (n_cols_of dim sp) n_rc n_cc). }
  exists (rr * n_cc + cc). split_and!.
  - split; [|apply Hch]. rewrite (is_heap _ _ _ _ Hs). fold n_rc n_cc. nia.
  - by apply Hbox.
  - intros c' [Hc' _] Hcov. rewrite (is_heap _ _ _ _ Hs) in Hc'.
    destruct (top_decomp _ _ _ Hc') as (rr'&cc'&->&Hrr'&Hcc').
    apply Hbox in Hcov as (D1&D2&D3&D4); [|done..].
    rewrite (grid_index_unique sp cc' cc px), (grid_index_unique sp rr' rr py);
      done.
Qed.

(** The third invariant: objects, tiers, leaves, geometry and tiling. *)
Definition Inv3 (m : MultiGrid) : Prop := Inv2 m /\ Geo m /\ Tiling m.

Lemma Inv3_wf m : Inv3 m -> HeapWF m.
Proof. intros [H _]. by apply Inv2_wf. Qed.

Lemma Inv3_body m self r m' :
  Inv3 m -> self < length (heap m) -> children (cell m self) = None ->
  split_body self m = (r, m') -> Inv3 m'.
Proof.
  intros (H2&Hg&Ht) Hself Hleaf E. pose proof (Inv2_wf _ H2) as Hwf.
  split_and!.
  - by eapply Inv2_body.
  - by eapply split_body_Geo.
  - by eapply split_body_Tiling.
Qed.

Lemma reachable_Inv3 m : reachable m -> Inv3 m.
Proof.
  induction 1 as [dim sp WS m E|m c r m' Hr IH Hc E|m r m' Hr IH E].
  - destruct (MultiGrid_init_shape _ _ _ _ E) as [_ Hs]. split_and!.
    + by apply reachable_Inv2, (reach_init dim sp WS).
    + by eapply init_Geo.
    + by eapply init_Tiling.
  - exact (sp_inv _ _ _ _ _ (split_post_inv Inv3 Inv3_wf Inv3_body m c r m' IH Hc E)).
  - destruct IH as (H2&Hg&Ht). pose proof (Inv2_wf _ H2) as Hwf.
    pose proof (new_tier_same_objects m r m' E) as Ho. split_and!.
    + by apply reachable_Inv2, (reach_new_tier m r m').
    + by eapply same_objects_Geo.
    + by eapply same_objects_Tiling.
Qed.


(** * The grids of the tiers *)

(** Grid point [k] of tier [t] lies before the end [W] of its axis: the
    points of tier [t] are [spacing / 2 ^ t] apart, and [np.arange] stops
    before [W], in the direction of the spacing. *)
Definition before_end (W s : Z) (t k : nat) : Prop :=
  ((0 < s -> Z.of_nat k * s < W * 2 ^ Z.of_nat t) /\
   (s < 0 -> W * 2 ^ Z.of_nat t < Z.of_nat k * s))%Z.

Lemma arange_len_spec W h k :
  h <> 0%Z -> k < arange_len W h <-> before_end W h 0 k.
Proof.
  intros Hh. unfold arange_len, before_end.
  change (2 ^ Z.of_nat 0)%Z with 1%Z. rewrite Z.mul_1_r.
  pose proof (Z.div_mod (- W) h Hh) as Hdm.
  set (q := (- W / h)%Z) in *. set (r := (- W mod h)%Z) in *.
  destruct (Z_lt_le_dec 0 h) as [Hpos|Hneg].
  - pose proof (Z.mod_pos_bound (- W) h Hpos) as Hr. fold r in Hr.
    split.
    + intros Hk. split; [intros _|lia]. nia.
    + intros [Hk _]. specialize (Hk Hpos). nia.
  - assert (Hlt : (h < 0)%Z) by lia.
    pose proof (Z.mod_neg_bound (- W) h Hlt) as Hr. fold r in Hr.
    split.
    + intros Hk. split; [lia|intros _]. nia.
    + intros [_ Hk]. specialize (Hk Hlt). nia.
Qed.

Lemma before_end_le W s t k k' :
  k' <= k -> before_end W s t k -> before_end W s t k'.
Proof. intros Hle [H1 H2]. split; intros Hs; [specialize (H1 Hs)|specialize (H2 Hs)]; nia. Qed.

Lemma before_end_child W s t k :
  before_end W s t (k + 1) -> before_end W s (S t) (k * 2 + 2).
Proof.
  intros [H1 H2]. unfold before_end. rewrite Nat2Z.inj_succ, Z.pow_succ_r by lia.
  split; intros Hs; [specialize (H1 Hs)|specialize (H2 Hs)]; lia.
Qed.

(** The spacing of tier [t]. *)
Definition h_tier (m : MultiGrid) (t : nat) : Z :=
  (spacing m ÷ 2 ^ Z.of_nat t)%Z.

Lemma h_tier_exact m t :
  tier_inv m -> t <= max_tier m ->
  (h_tier m t * 2 ^ Z.of_nat t = spacing m)%Z /\ h_tier m t <> 0%Z.
Proof.
  intros [Hsp [z Hz]] Ht. unfold h_tier.
  assert (Hp : (2 ^ Z.of_nat t <> 0)%Z) by (apply Z.pow_nonzero; lia).
  assert (Hd : (2 ^ Z.of_nat t | spacing m)%Z).
  { exists (z * 2 ^ Z.of_nat (max_tier m - t))%Z.
    rewrite Hz, <- Z.mul_assoc, <- Z.pow_add_r by lia.
    do 2 f_equal. lia. }
  destruct Hd as [y Hy]. rewrite Hy, Z.quot_mul by done.
  split; [done|]. intros ->. lia.
Qed.

Lemma before_end_tier m W t k :
  tier_inv m -> t <= max_tier m ->
  before_end W (spacing m) t k -> k < arange_len W (h_tier m t).
Proof.
  intros Hinv Ht [H1 H2]. destruct (h_tier_exact m t Hinv Ht) as [Hex Hnz].
  apply arange_len_spec; [done|]. unfold before_end.
  change (2 ^ Z.of_nat 0)%Z with 1%Z. rewrite Z.mul_1_r.
  assert (Hp : (0 < 2 ^ Z.of_nat t)%Z) by (apply Z.pow_pos_nonneg; lia).
  rewrite <- Hex in H1, H2.
  split; intros Hs.
  - assert (Hs' : (0 < h_tier m t * 2 ^ Z.of_nat t)%Z) by nia.
    specialize (H1 Hs'). nia.
  - assert (Hs' : (h_tier m t * 2 ^ Z.of_nat t < 0)%Z) by nia.
    specialize (H2 Hs'). nia.
Qed.

(** Every cell lies between grid points of its tier. *)
Definition PosOK (m : MultiGrid) : Prop :=
  forall c, c < length (heap m) ->
    before_end (snd (img_dim m)) (spacing m) (tier (cell m c)) (ix (cell m c) + 1) /\
    before_end (fst (img_dim m)) (spacing m) (tier (cell m c)) (iy (cell m c) + 1).

(** One grid for each tier, of the size [Grid.__init__] gives it. *)
Definition GridsOK (m : MultiGrid) : Prop :=
  length (grids m) = max_tier m + 1 /\
  forall t g, grids m !! t = Some g ->
    grid_shape (n_rows_of (img_dim m) (h_tier m t))
               (n_cols_of (img_dim m) (h_tier m t)) g.

(** While the spacing can be halved no cell is deeper than the deepest
    tier. *)
Definition TierBound (m : MultiGrid) : Prop :=
  Z.even (h_curr m) = true ->
  forall c, c < length (heap m) -> tier (cell m c) <= max_tier m.

Definition Inv4 (m : MultiGrid) : Prop :=
  Inv1 m /\ PosOK m /\ GridsOK m /\ TierBound m.

Lemma Inv4_wf m : Inv4 m -> HeapWF m.
Proof. by intros [[? _] _]. Qed.

Lemma set_grid_entry_GridsOK t r c w m :
  GridsOK m -> t <= max_tier m ->
  r < n_rows_of (img_dim m) (h_tier m t) ->
  c < n_cols_of (img_dim m) (h_tier m t) ->
  w < length (windows m) ->
  exists m', set_grid_entry t r c w m = (Ok tt, m') /\ GridsOK m' /\
             same_objects m m' /\ max_tier m' = max_tier m.
Proof.
  intros [Hl Hg] Ht Hr Hc Hw.
  destruct (lookup_lt_is_Some_2 (grids m) t ltac:(lia)) as [g Hgt].
  destruct (set_grid_entry_ok t r c w m _ _ g Hgt (Hg t g Hgt) Hr Hc Hw)
    as (g'&E&Hs').
  eexists. split; [exact E|]. split_and!; try done.
  split.
  - cbn [grids with_grids max_tier]. by rewrite length_insert.
  - intros t' g0. cbn [grids with_grids img_dim].
    destruct (decide (t = t')) as [<-|Hne].
    + rewrite list_lookup_insert_eq by (by eapply lookup_lt_Some).
      by intros [= <-].
    + rewrite list_lookup_insert_ne by done. apply Hg.
Qed.

Lemma register_windows_ok self ch lm cb cm ct rm m :
  GridsOK m -> tier (cell m (ch_bl ch)) <= max_tier m ->
  iy (cell m self) * 2 + 2 <
    n_rows_of (img_dim m) (h_tier m (tier (cell m (ch_bl ch)))) ->
  ix (cell m self) * 2 + 2 <
    n_cols_of (img_dim m) (h_tier m (tier (cell m (ch_bl ch)))) ->
  lm < length (windows m) -> cb < length (windows m) ->
  cm < length (windows m) -> ct < length (windows m) ->
  rm < length (windows m) ->
  exists m', register_windows self ch lm cb cm ct rm m = (Ok tt, m') /\
             GridsOK m' /\ same_objects m m' /\ max_tier m' = max_tier m.
Proof.
  intros HG Ht Hy Hx Hlm Hcb Hcm Hct Hrm.
  unfold register_windows. unfold bind at 1, get. cbv beta iota zeta.
  set (t := tier (cell m (ch_bl ch))) in *.
  set (i := ix (cell m self)) in *. set (j := iy (cell m self)) in *.
  assert (Hstep : forall r c w (k : M unit) m1,
    r <= j * 2 + 2 -> c <= i * 2 + 2 -> w < length (windows m) ->
    GridsOK m1 /\ same_objects m m1 /\ max_tier m1 = max_tier m ->
    (forall m2, GridsOK m2 /\ same_objects m m2 /\ max_tier m2 = max_tier m ->
       exists m', k m2 = (Ok tt, m') /\ GridsOK m' /\ same_objects m m' /\
                  max_tier m' = max_tier m) ->
    exists m', (set_grid_entry t r c w ;;; k) m1 = (Ok tt, m') /\ GridsOK m' /\
               same_objects m m' /\ max_tier m' = max_tier m).
  { intros r c w k m1 Hr Hc Hw (G1&O1&M1) Hk.
    pose proof O1 as (_&Hw1&_&_&Hs1&Hd1).
    assert (Hh1 : h_tier m1 t = h_tier m t) by (unfold h_tier; by rewrite Hs1).
    destruct (set_grid_entry_GridsOK t r c w m1 G1) as (m2&E2&G2&O2&M2).
    - lia.
    - rewrite Hd1, Hh1. lia.
    - rewrite Hd1, Hh1. lia.
    - by rewrite Hw1.
    - rewrite (bind_ok _ _ _ _ _ E2). apply Hk. split_and!; [done| |congruence].
      by eapply same_objects_trans. }
  apply Hstep; [lia|lia|done|by split_and!; [|apply same_objects_refl|]|].
  intros m1 H1. apply Hstep; [lia|lia|done|done|].
  intros m2 H2. apply Hstep; [lia|lia|done|done|].
  intros m3 H3. apply Hstep; [lia|lia|done|done|].
  intros m4 (G4&O4&M4).
  pose proof O4 as (_&Hw4&_&_&Hs4&Hd4).
  assert (Hh4 : h_tier m4 t = h_tier m t) by (unfold h_tier; by rewrite Hs4).
  destruct (set_grid_entry_GridsOK t (j * 2 + 1) (i * 2 + 2) rm m4 G4)
    as (m5&E5&G5&O5&M5).
  - lia.
  - rewrite Hd4, Hh4. lia.
  - rewrite Hd4, Hh4. lia.
  - by rewrite Hw4.
  - exists m5. split_and!; [done|done| |congruence].
    by eapply same_objects_trans.
Qed.

(** [new_tier] where the tiers are well formed: it returns, with one more
    grid, when the current spacing is even, and raises otherwise. *)
Lemma new_tier_outcome m r m' :
  tier_inv m -> GridsOK m -> new_tier m = (r, m') ->
  GridsOK m' /\
  ((Z.even (h_curr m) = true /\ r = Ok tt /\ max_tier m' = max_tier m + 1) \/
   (Z.even (h_curr m) = false /\ r = Raise RefinementNotPossible /\ m' = m)).
Proof.
  intros Hinv [Hl Hg]. destruct (h_curr_exact m Hinv) as [Hex Hnz].
  unfold new_tier. destruct (Z.even (h_curr m)) eqn:Hev.
  2:{ intros [= <- <-]. split; [by split|]. by right. }
  pose proof Hev as Hev'. apply Z.even_spec in Hev' as [k Hk].
  assert (Hq : (h_curr m ÷ 2 = k)%Z).
  { rewrite Hk, Z.mul_comm, Z.quot_mul by done. done. }
  assert (Hk0 : k <> 0%Z) by lia.
  cbn [img_dim with_max_tier].
  destruct (Grid_init_ok (img_dim m) (h_curr m ÷ 2)%Z) as (g&->&Hs).
  { by rewrite Hq. }
  intros [= <- <-]. split; [|left; by split_and!].
  split.
  - cbn [grids with_grids max_tier with_max_tier]. rewrite length_app. simpl. lia.
  - intros t g0. cbn [grids with_grids img_dim with_max_tier].
    assert (Hht : forall t, h_tier (with_grids (grids m ++ [g])
                     (with_max_tier (max_tier m + 1) m)) t = h_tier m t) by done.
    rewrite Hht.
    destruct (decide (t < length (grids m))) as [Hlt|Hge].
    + rewrite lookup_app_l by done. apply Hg.
    + rewrite lookup_app_r by lia.
      destruct (t - length (grids m)) as [|n] eqn:Hn; [|by destruct n].
      intros [= <-]. assert (t = max_tier m + 1) as -> by lia.
      assert (h_tier m (max_tier m + 1) = (h_curr m ÷ 2)%Z) as ->; [|done].
      unfold h_tier. rewrite Hq, <- Hex, Hk.
      rewrite Nat2Z.inj_add, Z.pow_add_r by lia.
      change (2 ^ Z.of_nat 1)%Z with 2%Z.
      replace (2 * k * 2 ^ Z.of_nat (max_tier m))%Z
        with (k * (2 ^ Z.of_nat (max_tier m) * 2))%Z by lia.
      apply Z.quot_mul.
      assert (2 ^ Z.of_nat (max_tier m) <> 0)%Z by (apply Z.pow_nonzero; lia).
      lia.
Qed.

Lemma PosOK_tree m m' : same_tree m m' -> PosOK m -> PosOK m'.
Proof.
  intros (Hl&_&_&_&Hs&Hd&Hc) H c Hlt. rewrite Hl in Hlt.
  destruct (Hc c) as (_&_&_&_&->&->&->&_). rewrite Hs, Hd. by apply H.
Qed.

Lemma PosOK_state_B m self :
  self < length (heap m) -> PosOK m -> PosOK (state_B m self).
Proof.
  intros Hself H c Hc. rewrite state_B_length in Hc by done.
  destruct (state_B_params m self) as (_&->&->&_).
  destruct (H self Hself) as [Hx Hy].
  pose proof (before_end_child _ _ _ _ Hx) as Hx2.
  pose proof (before_end_child _ _ _ _ Hy) as Hy2.
  replace (S (tier (cell m self))) with (tier (cell m self) + 1) in Hx2, Hy2 by lia.
  rewrite state_B_cell by done.
  destruct (ids_after m self) as [[[[lm cb] cm] ct] rm].
  repeat case_decide; subst;
    cbn [tier ix iy child_bl child_br child_tl child_tr set_children].
  - by apply H.
  - split; (eapply before_end_le; [|done]); lia.
  - split; (eapply before_end_le; [|done]); lia.
  - split; (eapply before_end_le; [|done]); lia.
  - split; (eapply before_end_le; [|done]); lia.
  - apply H. lia.
Qed.

Lemma state_B_tier m self j :
  self < length (heap m) -> j < length (heap m) + 4 ->
  (j < length (heap m) /\ tier (cell (state_B m self) j) = tier (cell m j)) \/
  tier (cell (state_B m self) j) = tier (cell m self) + 1.
Proof.
  intros Hself Hj. rewrite state_B_cell by done.
  destruct (ids_after m self) as [[[[lm cb] cm] ct] rm].
  repeat case_decide; subst; cbn [tier child_bl child_br child_tl child_tr];
    auto.
  left. split; [lia|done].
Qed.

Lemma GridsOK_ext m m' :
  grids m' = grids m -> max_tier m' = max_tier m -> spacing m' = spacing m ->
  img_dim m' = img_dim m -> GridsOK m -> GridsOK m'.
Proof.
  intros Hg Hm Hs Hd [Hl H]. unfold GridsOK, h_tier. rewrite Hg, Hm, Hs, Hd.
  by split.
Qed.

Lemma wired_params self ch m :
  grids (wired self ch m) = grids m /\ max_tier (wired self ch m) = max_tier m /\
  spacing (wired self ch m) = spacing m /\ img_dim (wired self ch m) = img_dim m.
Proof.
  unfold wired.
  pose proof (same_skeleton_apply_links (split_links m self ch) m)
    as (_&_&Hg&_&Hm&Hs&Hd&_).
  cbn [with_cells grids max_tier spacing img_dim]. by split_and!.
Qed.

(** The spacing allows the children of the cell: their tier is there, or
    it can be made. *)
Definition can_refine (m : MultiGrid) (self : nat) : Prop :=
  tier (cell m self) < max_tier m \/ Z.even (h_curr m) = true.

Section split_body_outcome.
Variables (m : MultiGrid) (self : nat).
Hypothesis Hinv : Inv4 m.
Hypothesis Hself : self < length (heap m).
Hypothesis Hleaf : children (cell m self) = None.

Lemma split_body_outcome r m' :
split_body self m = (r, m') ->
Inv4 m' /\
(can_refine m self ->
   r = Ok tt /\ max_tier m' = Nat.max (max_tier m) (S (tier (cell m self)))) /\
(~ can_refine m self ->
   r = Raise RefinementNotPossible /\ m' = state_B m self).
Proof.
destruct Hinv as ([Hwf Hti]&HP&HG&HT). intros E.
pose proof (split_body_post m self Hwf Hself Hleaf r m' E) as Hp.
pose proof (Inv1_body m self r m' (conj Hwf Hti) Hself Hleaf E) as H1'.
assert (HP' : PosOK m').
{ eapply PosOK_tree; [exact (bp_tree _ _ _ _ Hp)|]. by apply PosOK_state_B. }
assert (Hlen' : length (heap m') = length (heap m) + 4).
{ destruct (bp_tree _ _ _ _ Hp) as (->&_). by apply state_B_length. }
assert (Htier' : forall c, c < length (heap m') ->
          (c < length (heap m) /\ tier (cell m' c) = tier (cell m c)) \/
          tier (cell m' c) = tier (cell m self) + 1).
{ intros c Hc. destruct (bp_tree _ _ _ _ Hp) as (_&_&_&_&_&_&Hc').
  destruct (Hc' c) as (_&_&_&_&->&_). apply state_B_tier; [done|lia]. }
clear Hp. revert E.
destruct (ids_after m self) as [[[[lm cb] cm] ct] rm] eqn:Hids.
rewrite (split_body_eq m self lm cb cm ct rm Hwf Hself Hids).
rewrite <- (state_B_eq m self lm cb cm ct rm Hids).
destruct (ids_after_valid m self lm cb cm ct rm Hwf Hids) as (Vlm&Vcb&Vcm&Vct&Vrm).
rewrite <- (state_B_windows m self) in Vlm, Vcb, Vcm, Vct, Vrm.
destruct (state_B_params m self) as (_&HBs&HBd&_&HBm&HBg).
destruct (state_B_old m self Hself self Hself) as [(_&_&_&_&_&HBix&HBiy&_) _].
destruct (HP self Hself) as [Hx Hy].
apply before_end_child in Hx, Hy.
set (mB := state_B m self) in *. set (ch := fresh_children m) in *.
assert (HBt : tier (cell mB (ch_bl ch)) = S (tier (cell m self))).
{ unfold mB. rewrite state_B_cell by done. rewrite Hids.
  unfold ch, fresh_children. cbn [ch_bl].
  rewrite decide_False by lia. rewrite decide_True by done.
  cbn [tier child_bl]. lia. }
assert (HBh : h_curr mB = h_curr m) by (unfold h_curr; by rewrite HBs, HBm).
assert (HGB : GridsOK mB) by (by apply (GridsOK_ext m)).
assert (HtiB : tier_inv mB) by (unfold tier_inv; by rewrite HBs, HBm).
assert (Hfin : forall mC rr mm,
  same_objects mB mC -> tier_inv mC -> GridsOK mC ->
  S (tier (cell m self)) <= max_tier mC ->
  match register_windows self ch lm cb cm ct rm mC with
  | (Ok _, mD) => (Ok tt, wired self ch mD)
  | (Raise e, mD) => (Raise e, mD)
  | (OutOfFuel, mD) => (OutOfFuel, mD)
  end = (rr, mm) ->
  rr = Ok tt /\ GridsOK mm /\ max_tier mm = max_tier mC /\
  spacing mm = spacing m).
{ intros mC rr mm HO HtiC HGC HtC.
  pose proof HO as (Hh&Hw&_&_&Hs&Hd).
  assert (HcC : forall c, cell mC c = cell mB c) by (intros c; unfold cell; by rewrite Hh).
  destruct (register_windows_ok self ch lm cb cm ct rm mC HGC)
    as (mD&->&HGD&HOD&HMD).
  - rewrite HcC, HBt. done.
  - rewrite !HcC, HBt, HBiy, Hd, HBd. unfold n_rows_of.
    apply before_end_tier; [done|done|]. by rewrite Hs, HBs.
  - rewrite !HcC, HBt, HBix, Hd, HBd. unfold n_cols_of.
    apply before_end_tier; [done|done|]. by rewrite Hs, HBs.
  - by rewrite Hw.
  - by rewrite Hw.
  - by rewrite Hw.
  - by rewrite Hw.
  - by rewrite Hw.
  - intros [= <- <-]. destruct (wired_params self ch mD) as (Wg&Wm&Ws&Wd).
    destruct HOD as (_&_&_&_&HsD&HdD).
    split_and!; [done| |congruence|congruence].
    apply (GridsOK_ext mD); done. }
unfold tier_stage. rewrite HBt, HBm. case_decide as Hd.
- destruct (new_tier mB) as [rC mC] eqn:EC.
  pose proof (new_tier_same_objects _ _ _ EC) as HO.
  pose proof (tier_inv_step _ _ HtiB (new_tier_tier_step _ _ _ EC)) as HtiC.
  destruct (new_tier_outcome mB rC mC HtiB HGB EC)
    as [HGC [(Hev&->&HmC)|(Hev&->&->)]].
  + rewrite HBh in Hev. pose proof (HT Hev self Hself) as Hle.
    rewrite HBm in HmC. intros E.
    destruct (Hfin mC r m' HO HtiC HGC ltac:(lia) E) as (->&HG'&Hm'&Hs').
    split_and!.
    * split_and!; try done. intros _ c Hc.
      destruct (Htier' c Hc) as [[Hc0 ->]| ->]; [|lia].
      pose proof (HT Hev c Hc0). lia.
    * intros _. split; [done|lia].
    * intros Hn. exfalso. apply Hn. by right.
  + intros [= <- <-]. rewrite HBh in Hev. split_and!.
    * split_and!; try done. intros Hev'. rewrite HBh in Hev'. congruence.
    * intros [Hlt|Hev']; [lia|congruence].
    * done.
- intros E.
  destruct (Hfin mB r m' (same_objects_refl mB) HtiB HGB ltac:(lia) E)
    as (->&HG'&Hm'&Hs').
  rewrite HBm in Hm'. split_and!.
  + split_and!; try done. intros Hev c Hc.
    assert (Hh' : h_curr m' = h_curr m) by (unfold h_curr; by rewrite Hs', Hm').
    rewrite Hh' in Hev.
    destruct (Htier' c Hc) as [[Hc0 ->]| ->]; [|lia].
    pose proof (HT Hev c Hc0). lia.
  + intros _. split; [done|lia].
  + intros Hn. exfalso. apply Hn. left. lia.
Qed.
End split_body_outcome.

Lemma Inv4_body m self r m' :
  Inv4 m -> self < length (heap m) -> children (cell m self) = None ->
  split_body self m = (r, m') -> Inv4 m'.
Proof.
  intros Hinv Hself Hleaf E.
  by destruct (split_body_outcome m self Hinv Hself Hleaf r m' E).
Qed.

Lemma init_shape_Inv4 dim sp WS m :
  sp <> 0%Z -> init_shape dim sp WS m -> Inv4 m.
Proof.
  intros Hsp Hs.
  assert (Hcell : forall c, c < length (heap m) ->
    exists rr cc, rr < n_rows_of dim sp - 1 /\ cc < n_cols_of dim sp - 1 /\
      cell m c = top_cell (n_cols_of dim sp) (n_rows_of dim sp - 1)
                   (n_cols_of dim sp - 1) rr cc).
  { intros c Hc. rewrite (is_heap _ _ _ _ Hs) in Hc.
    destruct (top_decomp _ _ _ Hc) as (rr&cc&->&Hrr&Hcc).
    exists rr, cc. split_and!; [done|done|]. by apply (is_cell _ _ _ _ Hs). }
  split_and!.
  - split; [by eapply init_shape_HeapWF|by eapply init_shape_tier_inv].
  - intros c Hc. destruct (Hcell c Hc) as (rr&cc&Hrr&Hcc&->).
    rewrite (is_dim _ _ _ _ Hs), (is_spacing _ _ _ _ Hs).
    cbn [tier ix iy top_cell].
    split; apply arange_len_spec; try done.
    + unfold n_cols_of in Hcc. lia.
    + unfold n_rows_of in Hrr. lia.
  - destruct (is_grids _ _ _ _ Hs) as (g&Hg&Hshape). split.
    + by rewrite Hg, (is_max_tier _ _ _ _ Hs).
    + intros t g0. rewrite Hg. destruct t as [|t]; [|done]. intros [= <-].
      unfold h_tier. rewrite (is_dim _ _ _ _ Hs), (is_spacing _ _ _ _ Hs).
      change (2 ^ Z.of_nat 0)%Z with 1%Z. by rewrite Z.quot_1_r.
  - intros _ c Hc. destruct (Hcell c Hc) as (rr&cc&_&_&->). cbn [tier top_cell]. lia.
Qed.

Lemma new_tier_Inv4 m r m' : Inv4 m -> new_tier m = (r, m') -> Inv4 m'.
Proof.
  intros ([Hwf Hti]&HP&HG&HT) E.
  pose proof (new_tier_same_objects _ _ _ E) as HO.
  pose proof HO as (Hh&_&_&_&Hs&Hd).
  destruct (new_tier_outcome m r m' Hti HG E) as [HG' Hcase].
  split_and!.
  - split; [by eapply new_tier_HeapWF|].
    eapply tier_inv_step; [done|]. by eapply new_tier_tier_step.
  - eapply PosOK_tree; [|done]. by apply same_objects_tree.
  - done.
  - destruct Hcase as [(Hev&_&Hm)|(_&_&->)]; [|done].
    intros _ c Hc. unfold cell. rewrite Hh in *. fold (cell m c).
    pose proof (HT Hev c Hc). lia.
Qed.

Lemma reachable_Inv4 m : reachable m -> Inv4 m.
Proof.
  induction 1 as [dim sp WS m E|m c r m' _ IH Hc E|m r m' _ IH E].
  - destruct (MultiGrid_init_shape _ _ _ _ E) as [Hsp Hs].
    by eapply init_shape_Inv4.
  - exact (sp_inv _ _ _ _ _
             (split_post_inv Inv4 Inv4_wf Inv4_body m c r m' IH Hc E)).
  - by eapply new_tier_Inv4.
Qed.

(** ** What [split] raises *)

(** The two errors of [split]: "This cell has already been split" and
    "Grid refinement not possible". *)
Definition split_exn (e : exn) : Prop :=
  e = AlreadySplit \/ e = RefinementNotPossible.

Definition raises_split_exn (r : result unit) : Prop :=
  forall e, r = Raise e -> split_exn e.

Definition rec_exn (fuel : nat) (rec : nat -> M unit) : Prop :=
  forall c m r m', Inv4 m -> c < length (heap m) -> tier (cell m c) < fuel ->
    rec c m = (r, m') -> raises_split_exn r.

Lemma split_side_exn fuel rec side self t m r m' :
  rec_exn fuel rec -> is_side side -> Inv4 m -> self < length (heap m) ->
  tier (cell m self) = S t -> t < fuel ->
  split_side rec side self m = (r, m') -> raises_split_exn r.
Proof.
  intros Hrec Hside Hinv Hself Ht Hfuel. pose proof (Inv4_wf _ Hinv) as Hwf.
  unfold split_side, bind, get.
  destruct (side (cell m self)) as [n|].
  { by intros [= <- <-]. }
  destruct (parent_of_deep m self Hwf Hself ltac:(lia)) as (p&->&Hp&Htp).
  destruct (side (cell m p)) as [pn|] eqn:Hpn.
  2:{ by intros [= <- <-]. }
  destruct (side_valid m side p pn Hwf Hside Hpn) as [Hv Htn].
  intros Hr. apply (Hrec pn m r m'); try done. lia.
Qed.

Lemma split_neighbs_exn fuel self t m r m' :
  rec_exn fuel (split_fuel fuel) -> Inv4 m -> self < length (heap m) ->
  tier (cell m self) = S t -> t < fuel ->
  split_neighbs_if_needed (split_fuel fuel) self m = (r, m') ->
  raises_split_exn r.
Proof.
  intros Hrec Hinv Hself Ht Hfuel. unfold split_neighbs_if_needed.
  pose proof (split_fuel_post Inv4 Inv4_wf Inv4_body fuel) as Hpost.
  assert (Hstep : forall side (k : M unit) m0 r0 m0',
    is_side side -> Inv4 m0 -> self < length (heap m0) ->
    tier (cell m0 self) = S t ->
    (forall m1, Inv4 m1 -> self < length (heap m1) ->
       tier (cell m1 self) = S t -> k m1 = (r0, m0') -> raises_split_exn r0) ->
    (split_side (split_fuel fuel) side self ;;; k) m0 = (r0, m0') ->
    raises_split_exn r0).
  { intros side k m0 r0 m0' Hs Hi0 Hs0 Ht0 Hk. unfold bind at 1.
    destruct (split_side (split_fuel fuel) side self m0) as [r1 m1] eqn:E1.
    pose proof (split_side_post Inv4 Inv4_wf fuel _ side self t m0 r1 m1
                  Hpost Hs Hi0 Hs0 Ht0 Hfuel E1) as H1.
    pose proof (split_side_exn fuel _ side self t m0 r1 m1
                  Hrec Hs Hi0 Hs0 Ht0 Hfuel E1) as H1e.
    destruct r1 as [[]| |].
    - destruct H1 as [_ _ Hi1 He1 _]. apply Hk; try done.
      + pose proof (ext_heap _ _ He1). lia.
      + destruct (ext_old _ _ He1 self Hs0) as (_&_&_&_&->&_). done.
    - by intros [= <- <-].
    - by intros [= <- <-]. }
  apply (Hstep north); [by exists NS; left|done..|].
  intros m1 Hi1 Hs1 Ht1.
  apply (Hstep east); [by exists EW; left|done..|].
  intros m2 Hi2 Hs2 Ht2.
  apply (Hstep south); [by exists NS; right|done..|].
  intros m3 Hi3 Hs3 Ht3.
  apply (split_side_exn fuel _ west self t m3 r m'); try done.
  by exists EW; right.
Qed.

Lemma split_body_exn m self r m' :
  Inv4 m -> self < length (heap m) -> children (cell m self) = None ->
  split_body self m = (r, m') -> raises_split_exn r.
Proof.
  intros Hinv Hself Hleaf E e ->.
  destruct (split_body_outcome m self Hinv Hself Hleaf _ m' E) as (_&Hok&Hno).
  destruct (decide (tier (cell m self) < max_tier m)) as [Hlt|Hge].
  { by destruct (Hok (or_introl Hlt)). }
  destruct (Z.even (h_curr m)) eqn:Hev.
  { by destruct (Hok (or_intror Hev)). }
  destruct Hno as [[= ->] _]; [|by right].
  intros [?|?]; [lia|congruence].
Qed.

Lemma split_fuel_exn fuel : rec_exn fuel (split_fuel fuel).
Proof.
  induction fuel as [|fuel IH]; intros self m r m' Hinv Hself Ht; [lia|].
  simpl. unfold bind at 1, get. unfold has_children.
  destruct (children (cell m self)) as [ch|] eqn:Hch.
  { intros [= <- <-] e [= <-]. by left. }
  unfold bind at 1. case_decide as Hpos.
  - destruct (split_neighbs_if_needed (split_fuel fuel) self m) as [r1 m1] eqn:E1.
    assert (Hts : tier (cell m self) = S (pred (tier (cell m self)))) by lia.
    pose proof (split_neighbs_exn fuel self _ m r1 m1
                  IH Hinv Hself Hts ltac:(lia) E1) as H1e.
    pose proof (split_neighbs_post Inv4 Inv4_wf fuel (split_fuel fuel) self _ m r1 m1
                  (split_fuel_post Inv4 Inv4_wf Inv4_body fuel)
                  Hinv Hself Hts ltac:(lia) E1) as [_ _ Hi1 He1 Hd1].
    destruct r1 as [[]| |]; [|by intros [= <- <-]..].
    assert (Hs1 : self < length (heap m1)).
    { pose proof (ext_heap _ _ He1). lia. }
    intros E2. apply (split_body_exn m1 self r m'); try done.
    rewrite (Hd1 self Hself); [done|lia].
  - intros E. by apply (split_body_exn m self r m').
Qed.

Lemma split_raises m self e m' :
  reachable m -> self < length (heap m) -> split self m = (Raise e, m') ->
  split_exn e.
Proof.
  intros Hr Hself E.
  apply (split_fuel_exn (S (tier (cell m self))) self m (Raise e) m');
    try done; [by apply reachable_Inv4|lia].
Qed.


(** * The links of the children *)

(** ** The neighbour fields after a list of links *)

Lemma apply_links_cons l ls m :
  apply_links (l :: ls) m = apply_links ls (link l.1.1 l.1.2 l.2 m).
Proof. done. Qed.

Lemma link_length d a b m : length (heap (link d a b m)) = length (heap m).
Proof. apply skel_length, same_skeleton_link. Qed.

Lemma out_of_apply_links_other ls : forall m d x,
  Forall (fun l => l.1.2 < length (heap m)) ls ->
  (forall l, l ∈ ls -> link_src l <> (d, x)) ->
  out_of d (cell (apply_links ls m) x) = out_of d (cell m x).
Proof.
  induction ls as [|[[d' a] b] ls IH]; intros m d x Hv Hne; [done|].
  apply list.Forall_cons in Hv as [Ha Hv]. rewrite apply_links_cons.
  rewrite IH.
  - cbn [fst snd] in *. rewrite out_of_link by done.
    rewrite decide_False; [done|]. intros [-> ->].
    apply (Hne (d', a, b)); [by left|done].
  - eapply list.Forall_impl; [exact Hv|]. intros l Hl. cbv beta in *.
    by rewrite link_length.
  - intros l Hl. apply Hne. by right.
Qed.

Lemma out_of_apply_links_in ls : forall m d a b,
  Forall (fun l => l.1.2 < length (heap m)) ls ->
  NoDup (link_src <$> ls) -> (d, a, b) ∈ ls ->
  out_of d (cell (apply_links ls m) a) = Some b.
Proof.
  induction ls as [|l ls IH]; intros m d a b Hv Hnd Hin.
  { by apply elem_of_nil in Hin. }
  apply list.Forall_cons in Hv as [Ha Hv]. rewrite fmap_cons in Hnd.
  apply list.NoDup_cons in Hnd as [Hn1 Hn2]. rewrite apply_links_cons.
  assert (Hv' : Forall (fun l0 => l0.1.2 < length (heap (link l.1.1 l.1.2 l.2 m))) ls).
  { eapply list.Forall_impl; [exact Hv|]. intros l0 Hl. cbv beta in *.
    by rewrite link_length. }
  apply elem_of_cons in Hin as [<-|Hin].
  - rewrite out_of_apply_links_other; [|done|].
    + cbn [fst snd] in *. rewrite out_of_link by done. by rewrite decide_True.
    + intros l Hl Heq. apply Hn1. apply list_elem_of_fmap. by exists l.
  - by apply IH.
Qed.

Lemma out_of_apply_links_inv ls : forall m d x y,
  Forall (fun l => l.1.2 < length (heap m)) ls ->
  out_of d (cell (apply_links ls m) x) = Some y ->
  out_of d (cell m x) = Some y \/ (d, x, y) ∈ ls.
Proof.
  induction ls as [|[[d' a] b] ls IH]; intros m d x y Hv H; [by left|].
  apply list.Forall_cons in Hv as [Ha Hv]. rewrite apply_links_cons in H.
  cbn [fst snd] in *.
  apply IH in H.
  - destruct H as [H|H]; [|right; by right].
    rewrite out_of_link in H by done. case_decide as Hd; [|by left].
    destruct Hd as [-> ->]. injection H as ->. right. by left.
  - eapply list.Forall_impl; [exact Hv|]. intros l Hl. cbv beta in *.
    by rewrite link_length.
Qed.

(** ** Children that are linked to all the cells around them *)

(** The four links between the children of a cell. *)
Definition inner_linked (m : MultiGrid) (ch : Children) : Prop :=
  out_of NS (cell m (ch_bl ch)) = Some (ch_tl ch) /\
  out_of EW (cell m (ch_bl ch)) = Some (ch_br ch) /\
  out_of NS (cell m (ch_br ch)) = Some (ch_tr ch) /\
  out_of EW (cell m (ch_tl ch)) = Some (ch_tr ch).

(** The two links across an edge, to the children [nc] of the neighbour
    to the north or to the east. *)
Definition outer_linked (m : MultiGrid) (d : dir) (ch nc : Children) : Prop :=
  match d with
  | NS => out_of NS (cell m (ch_tl ch)) = Some (ch_bl nc) /\
          out_of NS (cell m (ch_tr ch)) = Some (ch_br nc)
  | EW => out_of EW (cell m (ch_br ch)) = Some (ch_bl nc) /\
          out_of EW (cell m (ch_tr ch)) = Some (ch_tl nc)
  end.

(** The children of the cells above tier [t] are linked to each other
    and to the children of the neighbours of their parent. *)
Definition Complete_at (t : nat) (m : MultiGrid) : Prop :=
  forall p ch, children (cell m p) = Some ch -> tier (cell m p) < t ->
    inner_linked m ch /\
    forall d n nc, out_of d (cell m p) = Some n ->
      children (cell m n) = Some nc -> outer_linked m d ch nc.

Definition Complete (m : MultiGrid) : Prop := Complete_at (max_tier m) m.

Lemma Complete_at_heap t m m' :
  heap m' = heap m -> Complete_at t m -> Complete_at t m'.
Proof.
  intros Hh H. unfold Complete_at, inner_linked, outer_linked, cell in *.
  by rewrite Hh.
Qed.

Lemma Complete_at_up t m :
  HeapWF m -> (forall c, c < length (heap m) -> tier (cell m c) <= t) ->
  Complete_at t m -> Complete_at (S t) m.
Proof.
  intros Hwf Hb H p ch Hch Ht. apply H; [done|].
  pose proof (wf_children _ Hwf p ch Hch) as Hs.
  pose proof (cs_tier _ _ _ Hs (ch_tr ch)) as Ht1.
  pose proof (Hb (ch_tr ch) (cs_valid _ _ _ Hs)) as Ht2.
  rewrite Ht1 in Ht2; [lia|]. unfold is_child. auto.
Qed.

Section complete_wired.
Variables (m : MultiGrid) (self lm cb cm ct rm : nat) (t : nat).
Hypothesis Hwf : HeapWF m.
Hypothesis Hself : self < length (heap m).
Hypothesis Hleaf : children (cell m self) = None.
Hypothesis Hlm_reused : forall wc,
nchildren m west self = Some wc -> lm = id_tr (cell m (ch_br wc)).
Hypothesis Hcb_reused : forall sc,
nchildren m south self = Some sc -> cb = id_tr (cell m (ch_tl sc)).
Hypothesis Hct_reused : forall nc,
nchildren m north self = Some nc -> ct = id_bl (cell m (ch_br nc)).
Hypothesis Hrm_reused : forall ec,
nchildren m east self = Some ec -> rm = id_tl (cell m (ch_bl ec)).
Hypothesis Hcomplete : Complete_at t m.

Let ch := fresh_children m.
Let mB := with_heap (heap_with_children self lm cb cm ct rm m) m.
Let ls := split_links mB self ch.
Let mW := apply_links ls mB.

Lemma W_pre : Forall (fun l => link_pre mB l.1.1 l.1.2 l.2) ls.
Proof. by apply pre_split_links. Qed.

Lemma W_valid : Forall (fun l => l.1.2 < length (heap mB)) ls.
Proof.
eapply list.Forall_impl; [exact W_pre|]. intros l Hl. simpl in *. apply Hl.
Qed.

Lemma W_skel : same_skeleton mB mW.
Proof. apply same_skeleton_apply_links. Qed.

Lemma W_keep d x y :
out_of d (cell m x) = Some y -> out_of d (cell mW x) = Some y.
Proof.
intros H. unfold mW. rewrite out_of_apply_links_other.
- unfold mB. by rewrite B_out.
- exact W_valid.
- intros l Hl Heq. pose proof W_pre as Hp.
  rewrite list.Forall_forall in Hp. pose proof (lp_out _ _ _ _ (Hp l Hl)) as Ho.
  injection Heq as Hd Hx. rewrite Hd, Hx in Ho.
  unfold mB in Ho. rewrite B_out in Ho by done. congruence.
Qed.

Lemma W_new d a b : (d, a, b) ∈ ls -> out_of d (cell mW a) = Some b.
Proof.
intros Hin. apply out_of_apply_links_in; [exact W_valid| |done].
by apply split_links_src_NoDup.
Qed.

Lemma W_inv d x y :
out_of d (cell mW x) = Some y -> out_of d (cell m x) = Some y \/ (d, x, y) ∈ ls.
Proof.
intros H. apply out_of_apply_links_inv in H; [|exact W_valid].
destruct H as [H|H]; [left|by right]. unfold mB in H. by rewrite B_out in H.
Qed.

Lemma W_fresh d a b :
(d, a, b) ∈ ls -> length (heap m) <= a \/ length (heap m) <= b.
Proof.
unfold ls, mB, ch, split_links, side_links, known_links.
destruct (north_links_shape m self lm cb cm ct rm Hwf Hself) as [->|(bn&?&?&?&->)];
destruct (east_links_shape m self lm cb cm ct rm Hwf Hself) as [->|(be&?&?&?&->)];
destruct (south_links_shape m self lm cb cm ct rm Hwf Hself) as [->|(bs&?&?&?&->)];
destruct (west_links_shape m self lm cb cm ct rm Hwf Hself) as [->|(bw&?&?&?&->)];
unfold fresh_children; cbn [ch_bl ch_br ch_tl ch_tr app];
rewrite ?elem_of_cons, ?elem_of_nil; intros Hx;
repeat (destruct Hx as [Hx|Hx]); try done; injection Hx as -> -> ->; lia.
Qed.

Lemma W_children p ch' :
children (cell mW p) = Some ch' ->
(p = self /\ ch' = ch) \/ (p <> self /\ children (cell m p) = Some ch').
Proof.
rewrite (skel_children mB mW _ W_skel). apply B_children. done.
Qed.

Lemma W_north nc :
nchildren mB (out_of NS) self = Some nc ->
(NS, ch_tl ch, ch_bl nc) ∈ ls /\ (NS, ch_tr ch, ch_br nc) ∈ ls.
Proof.
intros H. unfold ls, split_links, side_links, north_links.
change (nchildren mB north self) with (nchildren mB (out_of NS) self).
rewrite H. rewrite !elem_of_app, !elem_of_cons. auto 10.
Qed.

Lemma W_east nc :
nchildren mB (out_of EW) self = Some nc ->
(EW, ch_br ch, ch_bl nc) ∈ ls /\ (EW, ch_tr ch, ch_tl nc) ∈ ls.
Proof.
intros H. unfold ls, split_links, side_links, east_links.
change (nchildren mB east self) with (nchildren mB (out_of EW) self).
rewrite H. rewrite !elem_of_app, !elem_of_cons. auto 10.
Qed.

Lemma W_south nc :
nchildren mB (back_of NS) self = Some nc ->
(NS, ch_tl nc, ch_bl ch) ∈ ls /\ (NS, ch_tr nc, ch_br ch) ∈ ls.
Proof.
intros H. unfold ls, split_links, side_links, south_links.
change (nchildren mB south self) with (nchildren mB (back_of NS) self).
rewrite H. rewrite !elem_of_app, !elem_of_cons. auto 10.
Qed.

Lemma W_west nc :
nchildren mB (back_of EW) self = Some nc ->
(EW, ch_br nc, ch_bl ch) ∈ ls /\ (EW, ch_tr nc, ch_tl ch) ∈ ls.
Proof.
intros H. unfold ls, split_links, side_links, west_links.
change (nchildren mB west self) with (nchildren mB (back_of EW) self).
rewrite H. rewrite !elem_of_app, !elem_of_cons. auto 10.
Qed.

Lemma W_known : inner_linked mW ch.
Proof.
unfold inner_linked.
split_and!; apply W_new; unfold ls, split_links, known_links;
  rewrite elem_of_app, !elem_of_cons; auto 10.
Qed.

Lemma Complete_wired : Complete_at t mW.
Proof.
intros p ch' Hch' Htp.
rewrite (skel_tier mB mW _ W_skel) in Htp.
destruct (W_children p ch' Hch') as [[-> ->]|[Hne Hold]].
- split; [exact W_known|]. intros d n nc Hn Hnc.
  assert (Hn' : out_of d (cell mB self) = Some n).
  { unfold mW in Hn. rewrite cell_apply_links_other in Hn; [done|].
    by apply split_links_not_self. }
  rewrite (skel_children mB mW _ W_skel) in Hnc.
  assert (HN : nchildren mB (out_of d) self = Some nc).
  { unfold nchildren. by rewrite Hn'. }
  destruct d; unfold outer_linked.
  + destruct (W_north nc HN). split; by apply W_new.
  + destruct (W_east nc HN). split; by apply W_new.
- assert (Hp : p < length (heap m)) by by eapply children_valid.
  assert (Htp' : tier (cell m p) < t).
  { destruct (B_old m self lm cb cm ct rm Hself p Hp) as (_&_&_&_&<-&_). done. }
  destruct (Hcomplete p ch' Hold Htp') as [(I1&I2&I3&I4) Hout].
  split; [by split_and!; apply W_keep|].
  intros d n nc Hn Hnc.
  destruct (W_inv d p n Hn) as [Hn0|Hin].
  + destruct (W_children n nc Hnc) as [[-> ->]|[Hnn Hnc0]].
    * assert (Hb : back_of d (cell mB self) = Some p).
      { unfold mB. rewrite B_back by done. by apply (wf_sym _ Hwf). }
      assert (HN : nchildren mB (back_of d) self = Some ch').
      { unfold nchildren. rewrite Hb. by apply B_children_old. }
      destruct d; unfold outer_linked.
      -- destruct (W_south ch' HN). split; by apply W_new.
      -- destruct (W_west ch' HN). split; by apply W_new.
    * pose proof (Hout d n nc Hn0 Hnc0) as Ho.
      destruct d; unfold outer_linked in *; destruct Ho; split; by apply W_keep.
  + exfalso. destruct (W_fresh d p n Hin) as [Hge|Hge]; [lia|].
    rewrite (skel_children mB mW _ W_skel) in Hnc.
    unfold mB in Hnc. rewrite B_new_children in Hnc by done. done.
Qed.
End complete_wired.

(** The objects [split] leaves when it returns: the children made, then
    linked. *)
Lemma split_body_ok_heap m self lm cb cm ct rm m' :
  HeapWF m -> self < length (heap m) ->
  ids_after m self = (lm, cb, cm, ct, rm) ->
  split_body self m = (Ok tt, m') ->
  let mB := with_heap (heap_with_children self lm cb cm ct rm (state_A m self))
              (state_A m self) in
  heap m' = heap (apply_links (split_links mB self (fresh_children m)) mB).
Proof.
  intros Hwf Hself Hids. cbv zeta.
  rewrite (split_body_eq m self lm cb cm ct rm Hwf Hself Hids).
  set (mB := with_heap _ _).
  destruct (tier_stage (fresh_children m) mB) as [rC mC] eqn:EC.
  destruct (tier_stage_spec _ _ _ _ EC) as (HC&_).
  destruct rC as [[]| |]; [|done..].
  destruct (register_windows self (fresh_children m) lm cb cm ct rm mC)
    as [rD mD] eqn:ED.
  destruct (register_windows_same_objects _ _ _ _ _ _ _ _ _ _ ED) as [HD _].
  destruct rD as [[]| |]; [|done..]. intros [= <-].
  pose proof (same_objects_trans _ _ _ HC HD) as HBD.
  unfold wired. cbn [heap with_cells].
  rewrite (split_links_same_heap mB mD) by apply HBD.
  rewrite (same_objects_eq _ _ HBD).
  by rewrite apply_links_with_grids, apply_links_with_max_tier.
Qed.

Lemma Complete_state_B t m self :
  HeapWF m -> self < length (heap m) -> t <= tier (cell m self) ->
  Complete_at t m -> Complete_at t (state_B m self).
Proof.
  intros Hwf Hself Ht H p ch Hch Htp.
  destruct (ids_after m self) as [[[[lm cb] cm] ct] rm] eqn:Hids.
  assert (Hout : forall d x, out_of d (cell (state_B m self) x) = out_of d (cell m x)).
  { intros d x. rewrite (state_B_eq m self lm cb cm ct rm Hids).
    rewrite B_out by done. done. }
  assert (Hp : p < length (heap m)).
  { destruct (decide (p < length (heap m))); [done|].
    rewrite state_B_new in Hch by (done || lia). done. }
  destruct (state_B_old m self Hself p Hp) as [(_&_&_&_&Htier&_) Hc].
  rewrite Htier in Htp. assert (p <> self) by (intros ->; lia).
  rewrite Hc, decide_False in Hch by done.
  destruct (H p ch Hch Htp) as [Hin Hot]. split.
  - unfold inner_linked. by rewrite !Hout.
  - intros d n nc Hn Hnc. rewrite Hout in Hn.
    pose proof (Sym_out_valid m d p n (wf_sym _ Hwf) Hn) as Hv.
    destruct (state_B_old m self Hself n Hv) as [_ Hcn].
    assert (n <> self).
    { intros ->. pose proof (wf_nb_tier _ Hwf d p self Hn). lia. }
    rewrite Hcn, decide_False in Hnc by done.
    pose proof (Hot d n nc Hn Hnc) as Ho.
    destruct d; unfold outer_linked in *; by rewrite !Hout.
Qed.

(** The registered cells are not deeper than the deepest tier. *)
Definition RegTier (m : MultiGrid) : Prop :=
  forall c, c ∈ cells m -> tier (cell m c) <= max_tier m.

Definition Inv5 (m : MultiGrid) : Prop := Inv4 m /\ Complete m /\ RegTier m.

Lemma Inv5_wf m : Inv5 m -> HeapWF m.
Proof. intros [H _]. by apply Inv4_wf. Qed.

Lemma Inv5_body m self r m' :
  Inv5 m -> self < length (heap m) -> children (cell m self) = None ->
  split_body self m = (r, m') -> Inv5 m'.
Proof.
  intros (H4&HC&HR) Hself Hleaf E. pose proof (Inv4_wf _ H4) as Hwf.
  destruct (split_body_outcome m self H4 Hself Hleaf r m' E) as (H4'&Hok&Hno).
  pose proof (split_body_post m self Hwf Hself Hleaf r m' E) as Hp.
  destruct (body_post_extends m self r m' Hself Hleaf Hp) as (He&_&Hch'&_).
  pose proof (Inv4_wf _ H4') as Hwf'.
  assert (Hold : forall c, c ∈ cells m -> tier (cell m' c) <= max_tier m').
  { intros c Hc. pose proof (wf_roots _ Hwf) as (_&_&Hv&_).
    destruct (ext_old _ _ He c (Hv c Hc)) as (_&_&_&_&->&_).
    pose proof (HR c Hc). pose proof (ext_max_tier _ _ He). lia. }
  destruct (decide (can_refine m self)) as [Hcan|Hcan].
  - destruct (Hok Hcan) as [-> Hmt]. split; [done|]. split.
    + destruct (ids_after m self) as [[[[lm cb] cm] ct] rm] eqn:Hids.
      pose proof (split_body_ok_heap m self lm cb cm ct rm m' Hwf Hself Hids E)
        as Hheap. cbv zeta in Hheap.
      eapply Complete_at_heap; [exact Hheap|].
      refine (Complete_wired (state_A m self) self lm cb cm ct rm _ _ _ _ _ _ _ _ _).
      * by apply HeapWF_state_A.
      * done.
      * done.
      * intros x Hx. exact (lm_reused m self x lm cb cm ct rm Hids Hx).
      * intros x Hx. exact (cb_reused m self x lm cb cm ct rm Hids Hx).
      * intros x Hx. exact (ct_reused m self x lm cb cm ct rm Hids Hx).
      * intros x Hx. exact (rm_reused m self x lm cb cm ct rm Hids Hx).
      * apply (Complete_at_heap _ m); [done|]. rewrite Hmt.
        destruct (decide (tier (cell m self) < max_tier m)) as [Hlt|Hge].
        { by replace (max_tier m `max` S (tier (cell m self))) with (max_tier m)
            by lia. }
        destruct Hcan as [?|Hev]; [lia|].
        destruct H4 as (_&_&_&HT). pose proof (HT Hev) as Hb.
        pose proof (Hb self Hself).
        replace (max_tier m `max` S (tier (cell m self))) with (S (max_tier m))
          by lia.
        by apply Complete_at_up.
    + intros c. rewrite (bp_cells _ _ _ _ Hp). cbn [is_ok].
      rewrite elem_of_app. intros [Hc|Hc]; [by apply Hold|].
      pose proof (wf_children _ Hwf' self _ Hch') as Hs.
      rewrite (cs_tier _ _ _ Hs c).
      * destruct (ext_old _ _ He self Hself) as (_&_&_&_&->&_). lia.
      * unfold is_child. rewrite !elem_of_cons, elem_of_nil in Hc. tauto.
  - destruct (Hno Hcan) as [-> ->]. split; [done|].
    destruct (state_B_params m self) as (_&_&_&HBc&HBm&_). split.
    + unfold Complete. rewrite HBm. apply Complete_state_B; try done.
      unfold can_refine in Hcan. lia.
    + intros c. rewrite HBc. intros Hc. by apply Hold.
Qed.

Lemma init_shape_Inv5 dim sp WS m :
  sp <> 0%Z -> init_shape dim sp WS m -> Inv5 m.
Proof.
  intros Hsp Hs. pose proof (init_shape_Inv4 dim sp WS m Hsp Hs) as H4.
  assert (Hcell : forall c, c < length (heap m) ->
    children (cell m c) = None /\ tier (cell m c) = 0).
  { intros c Hc. rewrite (is_heap _ _ _ _ Hs) in Hc.
    destruct (top_decomp _ _ _ Hc) as (rr&cc&->&Hrr&Hcc).
    by rewrite (is_cell _ _ _ _ Hs). }
  split; [done|]. split.
  - intros p ch Hch. pose proof (children_valid _ _ _ Hch) as Hp.
    destruct (Hcell p Hp). congruence.
  - intros c Hc. pose proof (wf_roots _ (Inv4_wf _ H4)) as (_&_&Hv&_).
    destruct (Hcell c (Hv c Hc)). lia.
Qed.

Lemma new_tier_Inv5 m r m' : Inv5 m -> new_tier m = (r, m') -> Inv5 m'.
Proof.
  intros (H4&HC&HR) E. pose proof (new_tier_Inv4 m r m' H4 E) as H4'.
  pose proof (new_tier_same_objects _ _ _ E) as (Hh&_&Hc&_).
  destruct H4 as ([Hwf Hti]&_&HG&HT).
  destruct (new_tier_outcome m r m' Hti HG E) as [_ Hcase].
  split; [done|].
  destruct Hcase as [(Hev&_&Hm)|(_&_&->)]; [|done]. split.
  - unfold Complete. rewrite Hm. apply (Complete_at_heap _ m); [done|].
    replace (max_tier m + 1) with (S (max_tier m)) by lia.
    apply Complete_at_up; by auto.
  - intros c. rewrite Hc. intros Hin. unfold cell. rewrite Hh.
    pose proof (HR c Hin). unfold cell in *. lia.
Qed.

Lemma reachable_Inv5 m : reachable m -> Inv5 m.
Proof.
  induction 1 as [dim sp WS m E|m c r m' _ IH Hc E|m r m' _ IH E].
  - destruct (MultiGrid_init_shape _ _ _ _ E) as [Hsp Hs].
    by eapply init_shape_Inv5.
  - exact (sp_inv _ _ _ _ _
             (split_post_inv Inv5 Inv5_wf Inv5_body m c r m' IH Hc E)).
  - by eapply new_tier_Inv5.
Qed.

(** ** The cascade finds leaves *)

(** In a cell that is not deeper than the deepest tier a missing
    neighbour means that the neighbour of the parent has no children. *)
Lemma wired_side m side self p pn :
  HeapWF m -> Complete m -> self < length (heap m) ->
  tier (cell m self) <= max_tier m -> is_side side ->
  side (cell m self) = None -> parent (cell m self) = Some p ->
  side (cell m p) = Some pn -> children (cell m pn) = None.
Proof.
  intros Hwf HC Hself Ht [d Hd] Hnone Hpar Hpn.
  pose proof (wf_parent _ Hwf self Hself) as HP. rewrite Hpar in HP.
  destruct HP as (ch&Hch&Hin).
  pose proof (wf_children _ Hwf p ch Hch) as Hs.
  pose proof (cs_tier _ _ _ Hs self Hin) as Hts.
  destruct (children (cell m pn)) as [nc|] eqn:Hnc; [exfalso|done].
  destruct (HC p ch Hch ltac:(lia)) as [(I1&I2&I3&I4) Hout].
  destruct Hd as [-> | ->].
  - pose proof (Hout d pn nc Hpn Hnc) as Ho.
    destruct d; unfold outer_linked in Ho; destruct Ho as [O1 O2];
      destruct Hin as [-> | [-> | [-> | ->]]]; congruence.
  - pose proof (proj2 (wf_sym _ Hwf d pn p) Hpn) as Hsym.
    pose proof (wf_nb_tier _ Hwf d pn p Hsym) as Htn.
    destruct (HC pn nc Hnc ltac:(lia)) as [_ Hout'].
    pose proof (Hout' d p ch Hsym Hch) as Ho.
    pose proof (fun a b => proj1 (wf_sym _ Hwf NS a b)) as SN.
    pose proof (fun a b => proj1 (wf_sym _ Hwf EW a b)) as SE.
    destruct d; unfold outer_linked in Ho; destruct Ho as [O1 O2].
    + apply SN in I1, I3, O1, O2.
      destruct Hin as [-> | [-> | [-> | ->]]]; congruence.
    + apply SE in I2, I4, O1, O2.
      destruct Hin as [-> | [-> | [-> | ->]]]; congruence.
Qed.

Definition rec_succ (fuel : nat) (rec : nat -> M unit) : Prop :=
  forall c m r m', Inv5 m -> c < length (heap m) -> tier (cell m c) < fuel ->
    children (cell m c) = None -> tier (cell m c) < max_tier m ->
    rec c m = (r, m') -> r = Ok tt.

Lemma split_side_succ fuel rec side self t m r m' :
  rec_succ fuel rec -> is_side side -> Inv5 m -> self < length (heap m) ->
  tier (cell m self) = S t -> t < fuel -> S t <= max_tier m ->
  split_side rec side self m = (r, m') -> r = Ok tt.
Proof.
  intros Hrec Hside Hinv Hself Ht Hfuel Hmax. pose proof (Inv5_wf _ Hinv) as Hwf.
  unfold split_side, bind, get.
  destruct (side (cell m self)) as [n|] eqn:Hn.
  { by intros [= <- <-]. }
  destruct (parent_of_deep m self Hwf Hself ltac:(lia)) as (p&Hpar&Hp&Htp).
  rewrite Hpar.
  destruct (side (cell m p)) as [pn|] eqn:Hpn.
  2:{ by intros [= <- <-]. }
  destruct (side_valid m side p pn Hwf Hside Hpn) as [Hv Htn].
  intros Hr. apply (Hrec pn m r m'); try done; try lia.
  apply (wired_side m side self p pn); try done; [apply Hinv|lia].
Qed.

Lemma split_neighbs_succ fuel self t m r m' :
  rec_succ fuel (split_fuel fuel) -> Inv5 m -> self < length (heap m) ->
  tier (cell m self) = S t -> t < fuel -> S t <= max_tier m ->
  split_neighbs_if_needed (split_fuel fuel) self m = (r, m') -> r = Ok tt.
Proof.
  intros Hrec Hinv Hself Ht Hfuel Hmax. unfold split_neighbs_if_needed.
  pose proof (split_fuel_post Inv5 Inv5_wf Inv5_body fuel) as Hpost.
  assert (Hstep : forall side (k : M unit) m0 r0 m0',
    is_side side -> Inv5 m0 -> self < length (heap m0) ->
    tier (cell m0 self) = S t -> S t <= max_tier m0 ->
    (forall m1, Inv5 m1 -> self < length (heap m1) ->
       tier (cell m1 self) = S t -> S t <= max_tier m1 ->
       k m1 = (r0, m0') -> r0 = Ok tt) ->
    (split_side (split_fuel fuel) side self ;;; k) m0 = (r0, m0') ->
    r0 = Ok tt).
  { intros side k m0 r0 m0' Hs Hi0 Hs0 Ht0 Hm0 Hk. unfold bind at 1.
    destruct (split_side (split_fuel fuel) side self m0) as [r1 m1] eqn:E1.
    pose proof (split_side_post Inv5 Inv5_wf fuel _ side self t m0 r1 m1
                  Hpost Hs Hi0 Hs0 Ht0 Hfuel E1) as H1.
    pose proof (split_side_succ fuel _ side self t m0 r1 m1
                  Hrec Hs Hi0 Hs0 Ht0 Hfuel Hm0 E1) as ->.
    destruct H1 as [_ _ Hi1 He1 _]. apply Hk; try done.
    - pose proof (ext_heap _ _ He1). lia.
    - destruct (ext_old _ _ He1 self Hs0) as (_&_&_&_&->&_). done.
    - pose proof (ext_max_tier _ _ He1). lia. }
  apply (Hstep north); [by exists NS; left|done..|].
  intros m1 Hi1 Hs1 Ht1 Hm1.
  apply (Hstep east); [by exists EW; left|done..|].
  intros m2 Hi2 Hs2 Ht2 Hm2.
  apply (Hstep south); [by exists NS; right|done..|].
  intros m3 Hi3 Hs3 Ht3 Hm3.
  apply (split_side_succ fuel _ west self t m3 r m'); try done.
  by exists EW; right.
Qed.

Lemma split_fuel_succ fuel : rec_succ fuel (split_fuel fuel).
Proof.
  induction fuel as [|fuel IH]; intros self m r m' Hinv Hself Ht Hleaf Hmax; [lia|].
  simpl. unfold bind at 1, get. unfold has_children. rewrite Hleaf.
  unfold bind at 1. case_decide as Hpos.
  - destruct (split_neighbs_if_needed (split_fuel fuel) self m) as [r1 m1] eqn:E1.
    assert (Hts : tier (cell m self) = S (pred (tier (cell m self)))) by lia.
    pose proof (split_neighbs_succ fuel self _ m r1 m1
                  IH Hinv Hself Hts ltac:(lia) ltac:(lia) E1) as ->.
    pose proof (split_neighbs_post Inv5 Inv5_wf fuel (split_fuel fuel) self _ m _ m1
                  (split_fuel_post Inv5 Inv5_wf Inv5_body fuel)
                  Hinv Hself Hts ltac:(lia) E1) as [_ _ Hi1 He1 Hd1].
    assert (Hs1 : self < length (heap m1)).
    { pose proof (ext_heap _ _ He1). lia. }
    assert (Hl1 : children (cell m1 self) = None).
    { rewrite (Hd1 self Hself); [done|lia]. }
    intros E2.
    destruct (split_body_outcome m1 self (proj1 Hi1) Hs1 Hl1 r m' E2) as (_&Hok&_).
    apply Hok. left.
    destruct (ext_old _ _ He1 self Hself) as (_&_&_&_&->&_).
    pose proof (ext_max_tier _ _ He1). lia.
  - intros E.
    destruct (split_body_outcome m self (proj1 Hinv) Hself Hleaf r m' E) as (_&Hok&_).
    apply Hok. by left.
Qed.

(** ** The tiers during a call *)

(** The deepest tier stays as it is unless the spacing could be
    halved. *)
Definition tiers_kept (m0 m : MultiGrid) : Prop :=
  spacing m = spacing m0 /\
  (max_tier m = max_tier m0 \/ Z.even (h_curr m0) = true).

Lemma tiers_kept_step m0 m m' :
  tiers_kept m0 m -> tier_step m m' -> tiers_kept m0 m'.
Proof.
  intros [Hs Hm] [Hs' Hm']. split; [congruence|].
  destruct Hm as [Hm|Hm]; [|by right].
  destruct Hm' as [Hm'|[_ Hev]]; [left; congruence|right].
  unfold h_curr in *. by rewrite <- Hs, <- Hm.
Qed.

Definition InvT (m0 m : MultiGrid) : Prop := Inv5 m /\ tiers_kept m0 m.

Lemma InvT_wf m0 m : InvT m0 m -> HeapWF m.
Proof. intros [H _]. by apply Inv5_wf. Qed.

Lemma InvT_body m0 m self r m' :
  InvT m0 m -> self < length (heap m) -> children (cell m self) = None ->
  split_body self m = (r, m') -> InvT m0 m'.
Proof.
  intros [H5 Hk] Hself Hleaf E. split; [by eapply Inv5_body|].
  eapply tiers_kept_step; [done|].
  eapply split_body_tier_step; [by apply Inv5_wf|done|done].
Qed.

(** ** The outcome of [split] on a leaf that is not deeper than the
    deepest tier *)

Lemma split_shallow_outcome m self r m' :
  Inv5 m -> self < length (heap m) -> children (cell m self) = None ->
  tier (cell m self) <= max_tier m -> split self m = (r, m') ->
  (can_refine m self -> r = Ok tt) /\
  (~ can_refine m self -> r = Raise RefinementNotPossible) /\
  is_Some (children (cell m' self)).
Proof.
  intros Hinv Hself Hleaf Ht. rewrite split_eq. unfold has_children.
  rewrite Hleaf. destruct (cascade self m) as [r1 m1] eqn:E1.
  assert (HT : InvT m m) by (split; [done|split; auto]).
  destruct (cascade_post (InvT m) (InvT_wf m) (InvT_body m) self m r1 m1
              HT Hself Hleaf E1) as ([_ _ [Hi1 [Hsp Hk]] He1 _]&Hs1&Hl1&Ht1).
  assert (r1 = Ok tt) as ->.
  { revert E1. unfold cascade. case_decide as Hpos; [|by intros [= <- _]].
    assert (Hts : tier (cell m self) = S (pred (tier (cell m self)))) by lia.
    intros E1.
    apply (split_neighbs_succ (tier (cell m self)) self
             (pred (tier (cell m self))) m r1 m1); try done; try lia.
    apply split_fuel_succ. }
  intros E2.
  destruct (split_body_outcome m1 self (proj1 Hi1) Hs1 Hl1 r m' E2) as (_&Hok&Hno).
  pose proof (split_body_post m1 self (Inv5_wf _ Hi1) Hs1 Hl1 r m' E2) as Hp.
  destruct (body_post_extends m1 self r m' Hs1 Hl1 Hp) as (_&_&Hch&_).
  pose proof (ext_max_tier _ _ He1) as Hmt.
  split_and!.
  - intros Hcan. apply Hok. unfold can_refine in *. rewrite Ht1.
    destruct Hcan as [Hlt|Hev]; [left; lia|].
    destruct (decide (max_tier m1 = max_tier m)) as [Heq|Hne]; [right|left; lia].
    unfold h_curr in *. by rewrite Hsp, Heq.
  - intros Hcan. apply Hno. unfold can_refine in *. rewrite Ht1.
    destruct Hk as [Heq|Hev]; [|tauto].
    intros [Hlt|Hev]; apply Hcan; [left; lia|right].
    unfold h_curr in *. by rewrite <- Hsp, <- Heq.
  - by rewrite Hch.
Qed.


(** * Grid positions and coordinates *)

Definition two_pow (t : nat) : Q := inject_Z (2 ^ Z.of_nat t).

Definition pos_x (m : MultiGrid) (k : nat) : Q :=
  (inject_Z (Z.of_nat k) * inject_Z (spacing m))%Q.

(** The corners of the cell lie at the grid points of its tier that its
    position names: point [k] of tier [t] lies at [k * spacing / 2 ^ t]. *)
Definition at_pos (m : MultiGrid) (c : GridCell) : Prop :=
  (cell_x0 m c * two_pow (tier c) == pos_x m (ix c))%Q /\
  (cell_x1 m c * two_pow (tier c) == pos_x m (ix c + 1))%Q /\
  (cell_y0 m c * two_pow (tier c) == pos_x m (iy c))%Q /\
  (cell_y1 m c * two_pow (tier c) == pos_x m (iy c + 1))%Q.

Definition PosGeo (m : MultiGrid) : Prop :=
  forall c, c < length (heap m) -> at_pos m (cell m c).

Lemma two_pow_S t : (two_pow (t + 1) == 2 * two_pow t)%Q.
Proof.
  unfold two_pow. rewrite Nat2Z.inj_add, Z.pow_add_r by lia.
  change (2 ^ Z.of_nat 1)%Z with 2%Z. rewrite inject_Z_mult. ring.
Qed.

Lemma two_pow_pos t : (0 < two_pow t)%Q.
Proof.
  unfold two_pow. change 0%Q with (inject_Z 0). rewrite <- Zlt_Qlt.
  apply Z.pow_pos_nonneg; lia.
Qed.

Lemma pos_x_succ m k : (pos_x m (k + 1) == pos_x m k + inject_Z (spacing m))%Q.
Proof.
  unfold pos_x. rewrite Nat2Z.inj_add, inject_Z_plus.
  change (inject_Z (Z.of_nat 1)) with 1%Q. ring.
Qed.

Lemma pos_x_double m k : (pos_x m (k * 2) == 2 * pos_x m k)%Q.
Proof.
  unfold pos_x. rewrite Nat2Z.inj_mul, inject_Z_mult.
  change (inject_Z (Z.of_nat 2)) with 2%Q. ring.
Qed.

Lemma at_pos_transfer m m' c c' :
  same_fixed c c' -> ids_lt (length (windows m)) c -> windows_kept m m' ->
  spacing m' = spacing m -> at_pos m c -> at_pos m' c'.
Proof.
  intros (E1&E2&E3&E4&Et&Ex&Ey&_) (L1&L2&L3&L4) Hk Hs.
  unfold at_pos, pos_x, cell_x0, cell_x1, cell_y0, cell_y1, bl_win, br_win, tl_win.
  by rewrite E1, E2, E3, Et, Ex, Ey, Hs, !Hk by done.
Qed.

Section pos_children.
Variables (m : MultiGrid) (p : nat) (ch : Children).
Hypothesis Hwf : HeapWF m.
Hypothesis Hgeo : Geo m.
Hypothesis Hch : children (cell m p) = Some ch.
Hypothesis Hp : at_pos m (cell m p).

Lemma at_pos_child c i j :
tier (cell m c) = tier (cell m p) + 1 ->
ix (cell m c) = ix (cell m p) * 2 + i ->
iy (cell m c) = iy (cell m p) * 2 + j ->
(c = ch_bl ch /\ i = 0 /\ j = 0) \/ (c = ch_br ch /\ i = 1 /\ j = 0) \/
(c = ch_tl ch /\ i = 0 /\ j = 1) \/ (c = ch_tr ch /\ i = 1 /\ j = 1) ->
at_pos m (cell m c).
Proof.
intros Ht Hx Hy Hc.
destruct (child_boxes m p ch Hwf Hgeo Hch) as (Bbl&Bbr&Btl&Btr).
destruct Hp as (P0&P1&P2&P3).
rewrite pos_x_succ in P1, P3.
unfold at_pos. rewrite Ht, Hx, Hy, !two_pow_S.
pose proof (pos_x_double m (ix (cell m p))) as Dx.
pose proof (pos_x_double m (iy (cell m p))) as Dy.
unfold cell_xm, cell_ym in *.
destruct Hc as [(->&->&->)|[(->&->&->)|[(->&->&->)|(->&->&->)]]].
- destruct Bbl as (->&->&->&->). rewrite !Nat.add_0_r.
  rewrite !pos_x_succ, Dx, Dy. repeat split; lra.
- destruct Bbr as (->&->&->&->). rewrite !Nat.add_0_r.
  rewrite !pos_x_succ, Dx, Dy. repeat split; lra.
- destruct Btl as (->&->&->&->). rewrite !Nat.add_0_r.
  rewrite !pos_x_succ, Dx, Dy. repeat split; lra.
- destruct Btr as (->&->&->&->).
  rewrite !pos_x_succ, Dx, Dy. repeat split; lra.
Qed.
End pos_children.

Definition InvP (m : MultiGrid) : Prop := HeapWF m /\ Geo m /\ PosGeo m.

Lemma InvP_wf m : InvP m -> HeapWF m.
Proof. by intros [? _]. Qed.

Lemma InvP_body m self r m' :
  InvP m -> self < length (heap m) -> children (cell m self) = None ->
  split_body self m = (r, m') -> InvP m'.
Proof.
  intros (Hwf&Hgeo&Hpos) Hself Hleaf E.
  pose proof (split_body_post m self Hwf Hself Hleaf r m' E) as Hp.
  pose proof (bp_wf _ _ _ _ Hp) as Hwf'.
  pose proof (split_body_Geo m self r m' Hwf Hgeo Hself Hleaf E) as Hgeo'.
  destruct (body_post_extends m self r m' Hself Hleaf Hp)
    as (He&_&Hch&Hlen&_&_).
  split_and!; [done|done|].
  assert (Hold : forall c, c < length (heap m) -> at_pos m' (cell m' c)).
  { intros c Hc. apply (at_pos_transfer m m' (cell m c)).
    - by apply (ext_old _ _ He).
    - by apply ids_lt_valid.
    - apply prefix_windows_kept, He.
    - apply He.
    - by apply Hpos. }
  intros c Hc. destruct (decide (c < length (heap m))) as [Hlt|Hge]; [by apply Hold|].
  destruct (bp_tree _ _ _ _ Hp) as (_&_&_&_&_&_&Htree).
  destruct (Htree c) as (_&_&_&_&Htc&Hxc&Hyc&_).
  destruct (Htree self) as (_&_&_&_&Hts&Hxs&Hys&_).
  destruct (state_B_old m self Hself self Hself) as [(_&_&_&_&HBt&HBx&HBy&_) _].
  rewrite HBt in Hts. rewrite HBx in Hxs. rewrite HBy in Hys.
  rewrite state_B_cell in Htc, Hxc, Hyc by done.
  destruct (ids_after m self) as [[[[lm cb] cm] ct] rm].
  rewrite decide_False in Htc, Hxc, Hyc by lia.
  set (k := length (heap m)) in *.
  assert (Hcase : c = k \/ c = k + 1 \/ c = k + 2 \/ c = k + 3) by lia.
  assert (Hfr : fresh_children m = mkChildren k (k + 1) (k + 2) (k + 3)) by done.
  destruct Hcase as [-> | [-> | [-> | ->]]].
  - rewrite decide_True in Htc, Hxc, Hyc by done.
    cbn [tier ix iy child_bl] in Htc, Hxc, Hyc.
    apply (at_pos_child m' self _ Hwf' Hgeo' Hch (Hold self Hself) k 0 0);
      rewrite ?Hts, ?Hxs, ?Hys; try lia. rewrite Hfr. simpl. lia.
  - rewrite decide_False, decide_True in Htc, Hxc, Hyc by (done || lia).
    cbn [tier ix iy child_br] in Htc, Hxc, Hyc.
    apply (at_pos_child m' self _ Hwf' Hgeo' Hch (Hold self Hself) (k + 1) 1 0);
      rewrite ?Hts, ?Hxs, ?Hys; try lia. rewrite Hfr. simpl. lia.
  - rewrite !(decide_False (P := k + 2 = k)), !(decide_False (P := k + 2 = k + 1)),
      decide_True in Htc, Hxc, Hyc by (done || lia).
    cbn [tier ix iy child_tl] in Htc, Hxc, Hyc.
    apply (at_pos_child m' self _ Hwf' Hgeo' Hch (Hold self Hself) (k + 2) 0 1);
      rewrite ?Hts, ?Hxs, ?Hys; try lia. rewrite Hfr. simpl. lia.
  - rewrite !(decide_False (P := k + 3 = k)), !(decide_False (P := k + 3 = k + 1)),
      !(decide_False (P := k + 3 = k + 2)), decide_True in Htc, Hxc, Hyc
      by (done || lia).
    cbn [tier ix iy child_tr] in Htc, Hxc, Hyc.
    apply (at_pos_child m' self _ Hwf' Hgeo' Hch (Hold self Hself) (k + 3) 1 1);
      rewrite ?Hts, ?Hxs, ?Hys; try lia. rewrite Hfr. simpl. lia.
Qed.

Lemma init_PosGeo dim sp WS m : init_shape dim sp WS m -> PosGeo m.
Proof.
  intros Hs c Hc. rewrite (is_heap _ _ _ _ Hs) in Hc.
  destruct (top_decomp _ _ _ Hc) as (rr&cc&->&Hrr&Hcc).
  destruct (init_cell_box dim sp WS m Hs rr cc Hrr Hcc) as (Hbl&Hbr&Htl&Htr).
  unfold at_pos, cell_x0, cell_x1, cell_y0, cell_y1.
  rewrite Hbl, Hbr, Htl. rewrite (is_cell _ _ _ _ Hs) by done.
  cbn [tier ix iy top_cell cw_x cw_y]. unfold pos_x, two_pow.
  rewrite (is_spacing _ _ _ _ Hs). change (inject_Z (2 ^ Z.of_nat 0)) with 1%Q.
  rewrite !inject_Z_mult. repeat split; ring.
Qed.

Lemma same_objects_PosGeo m m' : same_objects m m' -> PosGeo m -> PosGeo m'.
Proof.
  intros (Hh&Hw&_&_&Hs&_) H c Hc. rewrite Hh in Hc.
  unfold at_pos, pos_x, cell_x0, cell_x1, cell_y0, cell_y1, bl_win, br_win,
    tl_win, cell. rewrite Hh, Hw, Hs. by apply H.
Qed.

Lemma reachable_InvP m : reachable m -> InvP m.
Proof.
  induction 1 as [dim sp WS m E|m c r m' Hr IH Hc E|m r m' Hr IH E].
  - destruct (MultiGrid_init_shape _ _ _ _ E) as [_ Hs]. split_and!.
    + by eapply init_shape_HeapWF.
    + by eapply init_Geo.
    + by eapply init_PosGeo.
  - exact (sp_inv _ _ _ _ _ (split_post_inv InvP InvP_wf InvP_body m c r m' IH Hc E)).
  - destruct IH as (Hwf&Hg&Hp).
    pose proof (new_tier_same_objects m r m' E) as Ho. split_and!.
    + by eapply new_tier_HeapWF.
    + by eapply same_objects_Geo.
    + by eapply same_objects_PosGeo.
Qed.

(** For a cell that is not deeper than the deepest tier the spacing of
    its tier is a whole number [h], and the corner at the bottom left is
    the point [(ix * h, iy * h)]. *)
Lemma at_pos_h_tier m c :
  tier_inv m -> tier c <= max_tier m -> at_pos m c ->
  (cell_x0 m c == inject_Z (Z.of_nat (ix c) * h_tier m (tier c)) /\
   cell_x1 m c == inject_Z (Z.of_nat (ix c + 1) * h_tier m (tier c)) /\
   cell_y0 m c == inject_Z (Z.of_nat (iy c) * h_tier m (tier c)) /\
   cell_y1 m c == inject_Z (Z.of_nat (iy c + 1) * h_tier m (tier c)))%Q.
Proof.
  intros Hti Ht (P0&P1&P2&P3).
  destruct (h_tier_exact m (tier c) Hti Ht) as [Hex _].
  pose proof (two_pow_pos (tier c)) as Hpos.
  assert (Hs : (inject_Z (spacing m) ==
                inject_Z (h_tier m (tier c)) * two_pow (tier c))%Q).
  { unfold two_pow. by rewrite <- inject_Z_mult, Hex. }
  unfold pos_x in *. rewrite Hs in P0, P1, P2, P3.
  rewrite !inject_Z_mult.
  assert (Hcancel : forall a b : Q,
    (a * two_pow (tier c) == b * (inject_Z (h_tier m (tier c)) * two_pow (tier c)) ->
     a == b * inject_Z (h_tier m (tier c)))%Q).
  { intros a b H. apply (Qmult_inj_r _ _ (two_pow (tier c))); [lra|].
    rewrite H. ring. }
  split_and!; by apply Hcancel.
Qed.


(** * What the grids hold *)

(** [_array[r][c]] of a grid, and of the grid of tier [t]; [None] where
    nothing was set, as in the source, and out of range. *)
Definition grid_get (g : Grid) (r c : nat) : option nat :=
  match g_array g !! r with
  | Some row => match row !! c with Some e => e | None => None end
  | None => None
  end.

Definition grid_entry (m : MultiGrid) (t r c : nat) : option nat :=
  match grids m !! t with
  | Some g => grid_get g r c
  | None => None
  end.

Lemma grid_set_get r c w g g' :
  grid_set r c w g = Ok g' ->
  forall r' c', grid_get g' r' c' =
    if decide (r' = r /\ c' = c) then Some w else grid_get g r' c'.
Proof.
  unfold grid_set. destruct (g_array g !! r) as [row|] eqn:Hrow; [|done].
  case_decide as Hc; [|done]. intros [= <-] r' c'. unfold grid_get.
  cbn [g_array]. pose proof (lookup_lt_Some _ _ _ Hrow) as Hr.
  destruct (decide (r' = r)) as [->|Hne].
  - rewrite list_lookup_insert_eq by done. rewrite Hrow.
    destruct (decide (c' = c)) as [->|Hnc].
    + rewrite list_lookup_insert_eq by done. by rewrite decide_True.
    + rewrite list_lookup_insert_ne by done.
      rewrite decide_False by (intros [_ ?]; done). done.
  - rewrite list_lookup_insert_ne by done.
    rewrite decide_False by (intros [? _]; done). done.
Qed.

Lemma set_grid_entry_entry t r c w m rr m' :
  set_grid_entry t r c w m = (rr, m') ->
  windows m' = windows m /\ spacing m' = spacing m /\
  forall t' r' c' w', grid_entry m' t' r' c' = Some w' ->
    grid_entry m t' r' c' = Some w' \/
    (t' = t /\ r' = r /\ c' = c /\ w' = w /\ w < length (windows m)).
Proof.
  unfold set_grid_entry. destruct (grids m !! t) as [g|] eqn:Hg.
  2:{ intros [= <- <-]. auto. }
  case_decide as Hw. 2:{ intros [= <- <-]. auto. }
  destruct (grid_set r c w g) as [g'| |] eqn:Hs; intros [= <- <-]; auto.
  split_and!; [done|done|]. intros t' r' c' w'. unfold grid_entry.
  cbn [grids with_grids]. pose proof (lookup_lt_Some _ _ _ Hg) as Ht.
  destruct (decide (t' = t)) as [->|Hne].
  - rewrite list_lookup_insert_eq by done. rewrite Hg.
    rewrite (grid_set_get _ _ _ _ _ Hs). case_decide as Hd; [|by left].
    destruct Hd as [-> ->]. intros [= <-]. right. done.
  - rewrite list_lookup_insert_ne by done. by left.
Qed.

(** The window behind an entry lies at the grid point of the entry; and
    below the top tier no entry is set where both indices are even, the
    grid points of the tier above. *)
Definition entry_ok (m : MultiGrid) (t r c w : nat) : Prop :=
  w < length (windows m) /\
  (cw_x (windows m !!! w) * two_pow t == pos_x m c)%Q /\
  (cw_y (windows m !!! w) * two_pow t == pos_x m r)%Q /\
  (0 < t -> Nat.even r && Nat.even c = false).

Definition GridContent (m : MultiGrid) : Prop :=
  forall t r c w, grid_entry m t r c = Some w -> entry_ok m t r c w.

Lemma entry_ok_ext m m' t r c w :
  windows_kept m m' -> length (windows m) <= length (windows m') ->
  spacing m' = spacing m -> entry_ok m t r c w -> entry_ok m' t r c w.
Proof.
  intros Hk Hl Hs (Hw&Hx&Hy&He). unfold entry_ok, pos_x.
  rewrite Hs, Hk by done. split_and!; try done. lia.
Qed.

Lemma GridContent_ext m m' :
  grids m' = grids m -> windows_kept m m' ->
  length (windows m) <= length (windows m') -> spacing m' = spacing m ->
  GridContent m -> GridContent m'.
Proof.
  intros Hg Hk Hl Hs H t r c w. unfold grid_entry. rewrite Hg. intros He.
  apply (entry_ok_ext m); try done. by apply H.
Qed.

Lemma Grid_init_get dim sp g r c : Grid_init dim sp = Ok g -> grid_get g r c = None.
Proof.
  unfold Grid_init. destruct (arange (snd dim) sp) as [xv| |];
    destruct (arange (fst dim) sp) as [yv| |]; try done.
  intros [= <-]. unfold grid_get. cbn [g_array].
  destruct (replicate (length yv) (replicate (length xv) None) !! r)
    as [row|] eqn:Hrow; [|done].
  apply lookup_replicate in Hrow as [-> _].
  destruct (replicate (length xv) None !! c) as [e|] eqn:He; [|done].
  by apply lookup_replicate in He as [-> _].
Qed.

Lemma new_tier_GridContent m r m' :
  new_tier m = (r, m') -> GridContent m -> GridContent m'.
Proof.
  unfold new_tier. destruct (Z.even (h_curr m)); [|by intros [= _ <-]].
  cbn [img_dim with_max_tier].
  destruct (Grid_init (img_dim m) (h_curr m ÷ 2)) as [g|e|] eqn:Hg;
    intros [= _ <-] H; try exact H.
  intros t r0 c w. unfold grid_entry. cbn [grids with_grids with_max_tier].
  destruct (decide (t < length (grids m))) as [Hlt|Hge].
  - rewrite lookup_app_l by done. apply H.
  - rewrite lookup_app_r by lia.
    destruct (t - length (grids m)) as [|n]; [|by destruct n].
    cbn [lookup list_lookup]. by rewrite (Grid_init_get _ _ _ _ _ Hg).
Qed.

Lemma even_double1 n : Nat.even (n * 2 + 1) = false.
Proof.
  destruct (Nat.even (n * 2 + 1)) eqn:E; [|done].
  apply Nat.even_spec in E as [k Hk]. lia.
Qed.

(** The entries [split] sets. *)
Lemma register_windows_entries self ch lm cb cm ct rm m rr m' :
  register_windows self ch lm cb cm ct rm m = (rr, m') ->
  let i := ix (cell m self) * 2 in
  let j := iy (cell m self) * 2 in
  windows m' = windows m /\ spacing m' = spacing m /\
  forall t' r' c' w', grid_entry m' t' r' c' = Some w' ->
    grid_entry m t' r' c' = Some w' \/
    (t' = tier (cell m (ch_bl ch)) /\ w' < length (windows m) /\
     ((r' = j + 1 /\ c' = i /\ w' = lm) \/
      (r' = j + 0 /\ c' = i + 1 /\ w' = cb) \/
      (r' = j + 1 /\ c' = i + 1 /\ w' = cm) \/
      (r' = j + 2 /\ c' = i + 1 /\ w' = ct) \/
      (r' = j + 1 /\ c' = i + 2 /\ w' = rm))).
Proof.
  unfold register_windows. unfold bind at 1, get. cbv beta iota zeta.
  set (t := tier (cell m (ch_bl ch))).
  set (i := ix (cell m self) * 2). set (j := iy (cell m self) * 2).
  set (P := fun (m1 : MultiGrid) =>
    windows m1 = windows m /\ spacing m1 = spacing m /\
    forall t' r' c' w', grid_entry m1 t' r' c' = Some w' ->
      grid_entry m t' r' c' = Some w' \/
      (t' = t /\ w' < length (windows m) /\
       ((r' = j + 1 /\ c' = i /\ w' = lm) \/
        (r' = j + 0 /\ c' = i + 1 /\ w' = cb) \/
        (r' = j + 1 /\ c' = i + 1 /\ w' = cm) \/
        (r' = j + 2 /\ c' = i + 1 /\ w' = ct) \/
        (r' = j + 1 /\ c' = i + 2 /\ w' = rm)))).
  assert (Hset : forall r c w m1 r1 m2,
    (r = j + 1 /\ c = i /\ w = lm) \/ (r = j + 0 /\ c = i + 1 /\ w = cb) \/
    (r = j + 1 /\ c = i + 1 /\ w = cm) \/ (r = j + 2 /\ c = i + 1 /\ w = ct) \/
    (r = j + 1 /\ c = i + 2 /\ w = rm) ->
    P m1 -> set_grid_entry t r c w m1 = (r1, m2) -> P m2).
  { intros r c w m1 r1 m2 Hpos (Hw1&Hs1&H1) E.
    destruct (set_grid_entry_entry _ _ _ _ _ _ _ E) as (Hw2&Hs2&H2).
    split_and!; [congruence|congruence|].
    intros t' r' c' w' He. destruct (H2 _ _ _ _ He) as [Hold|(->&->&->&->&Hlt)].
    - by apply H1.
    - right. rewrite Hw1 in Hlt. done. }
  assert (Hstep : forall r c w (k : M unit) m1 r0 m0,
    (r = j + 1 /\ c = i /\ w = lm) \/ (r = j + 0 /\ c = i + 1 /\ w = cb) \/
    (r = j + 1 /\ c = i + 1 /\ w = cm) \/ (r = j + 2 /\ c = i + 1 /\ w = ct) \/
    (r = j + 1 /\ c = i + 2 /\ w = rm) ->
    P m1 -> (forall m2, P m2 -> k m2 = (r0, m0) -> P m0) ->
    (set_grid_entry t r c w ;;; k) m1 = (r0, m0) -> P m0).
  { intros r c w k m1 r0 m0 Hpos H1 Hk. unfold bind at 1.
    destruct (set_grid_entry t r c w m1) as [r1 m2] eqn:E.
    pose proof (Hset _ _ _ _ _ _ Hpos H1 E) as H2.
    destruct r1 as [[]| |]; [by apply Hk|by intros [= _ <-]..]. }
  assert (H0 : P m) by (split_and!; auto).
  intros E. change (P m'). revert E.
  apply Hstep; [tauto|done|]. intros m2 H2.
  apply Hstep; [tauto|done|]. intros m3 H3.
  apply Hstep; [tauto|done|]. intros m4 H4.
  apply Hstep; [tauto|done|]. intros m5 H5.
  apply Hset; [tauto|done].
Qed.

Lemma entry_ok_eq m m' t r c w :
  windows m' = windows m -> spacing m' = spacing m ->
  entry_ok m t r c w -> entry_ok m' t r c w.
Proof.
  intros Hw Hs. unfold entry_ok, pos_x. by rewrite Hw, Hs.
Qed.

Lemma wired_windows self ch m : windows (wired self ch m) = windows m.
Proof.
  unfold wired.
  pose proof (same_skeleton_apply_links (split_links m self ch) m) as (_&Hw&_).
  done.
Qed.

Section split_body_grid.
Variables (m : MultiGrid) (self : nat).
Hypothesis Hinv : InvP m.
Hypothesis Hgrid : GridContent m.
Hypothesis Hself : self < length (heap m).
Hypothesis Hleaf : children (cell m self) = None.

(** The five points of a split, as entries of the grid of the children. *)
Lemma state_B_entries lm cb cm ct rm :
ids_after m self = (lm, cb, cm, ct, rm) ->
let mB := state_B m self in
let t := tier (cell m self) + 1 in
let i := ix (cell m self) * 2 in
let j := iy (cell m self) * 2 in
entry_ok mB t (j + 1) i lm /\ entry_ok mB t (j + 0) (i + 1) cb /\
entry_ok mB t (j + 1) (i + 1) cm /\ entry_ok mB t (j + 2) (i + 1) ct /\
entry_ok mB t (j + 1) (i + 2) rm.
Proof.
intros Hids. cbv zeta. destruct Hinv as (Hwf&Hgeo&Hpos).
destruct (ids_after_valid m self lm cb cm ct rm Hwf Hids) as (Vlm&Vcb&Vcm&Vct&Vrm).
rewrite <- (state_B_windows m self) in Vlm, Vcb, Vcm, Vct, Vrm.
destruct (state_B_params m self) as (_&HBs&_).
destruct (state_B_old m self Hself self Hself) as [Hfix Hch].
rewrite decide_True in Hch by done.
pose proof (Geo_state_B m self Hwf Hgeo Hself) as [_ HmidB].
pose proof (HmidB self _ Hch) as HM.
assert (HP : at_pos (state_B m self) (cell (state_B m self) self)).
{ apply (at_pos_transfer m _ (cell m self)); try done.
  - by apply ids_lt_valid.
  - apply prefix_windows_kept. rewrite state_B_windows.
    destruct (windows_after_spec m self) as (new&->&_). by apply prefix_app_r.
  - by apply Hpos. }
destruct Hfix as (_&_&_&_&Ht&Hx&Hy&_).
destruct HP as (P0&P1&P2&P3). rewrite Ht, Hx in P0, P1. rewrite Ht, Hy in P2, P3.
assert (Hbl : cell (state_B m self) (ch_bl (fresh_children m)) =
              child_bl self (cell m self) lm cb cm ct rm).
{ rewrite state_B_cell by done. rewrite Hids. cbn [fresh_children ch_bl].
  rewrite decide_False by lia. by rewrite decide_True. }
assert (Hbr : cell (state_B m self) (ch_br (fresh_children m)) =
              child_br self (cell m self) lm cb cm ct rm).
{ rewrite state_B_cell by done. rewrite Hids. cbn [fresh_children ch_br].
  rewrite !decide_False by lia. by rewrite decide_True. }
assert (Htl : cell (state_B m self) (ch_tl (fresh_children m)) =
              child_tl self (cell m self) lm cb cm ct rm).
{ rewrite state_B_cell by done. rewrite Hids. cbn [fresh_children ch_tl].
  rewrite !decide_False by lia. by rewrite decide_True. }
unfold Mid, win_at in HM. rewrite Hbl, Hbr, Htl in HM.
cbn [id_tl id_br id_tr child_bl child_br child_tl] in HM.
destruct HM as ([X1 Y1]&[X2 Y2]&[X3 Y3]&[X4 Y4]&[X5 Y5]).
unfold cell_xm, cell_ym in *.
set (mB := state_B m self) in *.
set (x0 := cell_x0 mB (cell mB self)) in *.
set (x1 := cell_x1 mB (cell mB self)) in *.
set (y0 := cell_y0 mB (cell mB self)) in *.
set (y1 := cell_y1 mB (cell mB self)) in *.
pose proof (two_pow_S (tier (cell m self))) as HT.
pose proof (pos_x_double mB (ix (cell m self))) as Dx.
pose proof (pos_x_double mB (iy (cell m self))) as Dy.
rewrite pos_x_succ in P1, P3.
unfold entry_ok.
rewrite X1, Y1, X2, Y2, X3, Y3, X4, Y4, X5, Y5, HT.
replace (iy (cell m self) * 2 + 2) with (iy (cell m self) * 2 + 1 + 1) by lia.
replace (ix (cell m self) * 2 + 2) with (ix (cell m self) * 2 + 1 + 1) by lia.
rewrite !Nat.add_0_r, !pos_x_succ, Dx, Dy.
assert (E1 : forall a b, Nat.even (a * 2 + 1) && Nat.even b = false).
{ intros a b. by rewrite even_double1. }
assert (E2 : forall a b, Nat.even a && Nat.even (b * 2 + 1) = false).
{ intros a b. rewrite even_double1. by destruct (Nat.even a). }
split_and!; try done; try (intros _; apply E1); try (intros _; apply E2);
  try lra.
Qed.

Lemma split_body_GridContent r m' :
split_body self m = (r, m') -> GridContent m'.
Proof.
destruct Hinv as (Hwf&Hgeo&Hpos).
destruct (ids_after m self) as [[[[lm cb] cm] ct] rm] eqn:Hids.
pose proof (state_B_entries lm cb cm ct rm Hids) as HE. cbv zeta in HE.
rewrite (split_body_eq m self lm cb cm ct rm Hwf Hself Hids).
rewrite <- (state_B_eq m self lm cb cm ct rm Hids).
destruct (state_B_params m self) as (_&HBs&_&_&_&HBg).
destruct (state_B_old m self Hself self Hself) as [(_&_&_&_&_&HBx&HBy&_) _].
set (mB := state_B m self) in *. set (ch := fresh_children m) in *.
assert (HBt : tier (cell mB (ch_bl ch)) = tier (cell m self) + 1).
{ unfold mB. rewrite state_B_cell by done. rewrite Hids.
  unfold ch, fresh_children. cbn [ch_bl].
  rewrite decide_False by lia. by rewrite decide_True. }
assert (GB : GridContent mB).
{ apply (GridContent_ext m); try done.
  - apply prefix_windows_kept. unfold mB. rewrite state_B_windows.
    destruct (windows_after_spec m self) as (new&->&_). by apply prefix_app_r.
  - unfold mB. rewrite state_B_windows.
    pose proof (windows_after_length m self). lia. }
destruct (tier_stage ch mB) as [rC mC] eqn:EC.
assert (GC : GridContent mC).
{ revert EC. unfold tier_stage. case_decide.
  - intros EC. by eapply new_tier_GridContent.
  - by intros [= _ <-]. }
destruct (tier_stage_spec _ _ _ _ EC) as ((Hh&Hw&_&_&Hs&_)&_).
destruct rC as [[]| |]; [|by intros [= _ <-]..].
destruct (register_windows self ch lm cb cm ct rm mC) as [rD mD] eqn:ED.
destruct (register_windows_entries _ _ _ _ _ _ _ _ _ _ ED) as (HwD&HsD&HeD).
assert (GD : GridContent mD).
{ intros t r0 c w He. destruct (HeD _ _ _ _ He) as [Hold|(->&_&Hfive)].
  - apply (entry_ok_eq mC); [done|done|]. by apply GC.
  - apply (entry_ok_eq mB); [congruence|congruence|].
    assert (HcC : forall x, cell mC x = cell mB x).
    { intros x. unfold cell. by rewrite Hh. }
    rewrite !HcC, ?HBt, ?HBx, ?HBy in Hfive |- *.
    destruct HE as (E1&E2&E3&E4&E5).
    destruct Hfive as [(->&->&->)|[(->&->&->)|[(->&->&->)|[(->&->&->)|(->&->&->)]]]];
      rewrite ?HcC, ?HBt, ?HBx, ?HBy; done. }
destruct rD as [[]| |]; [|by intros [= _ <-]..].
intros [= _ <-]. destruct (wired_params self ch mD) as (Wg&_&Ws&_).
apply (GridContent_ext mD); try done.
- intros i _. by rewrite wired_windows.
- by rewrite wired_windows.
Qed.
End split_body_grid.

(** ** The grid of the top tier *)

(** Actions that leave the grids, the windows and the spacing alone. *)
Definition grid_frame (m m' : MultiGrid) : Prop :=
  grids m' = grids m /\ windows m' = windows m /\ spacing m' = spacing m.

Definition frames {A} (c : M A) : Prop :=
  forall m r m', c m = (r, m') -> grid_frame m m'.

Lemma grid_frame_refl m : grid_frame m m.
Proof. by repeat split. Qed.

Lemma grid_frame_trans m1 m2 m3 :
  grid_frame m1 m2 -> grid_frame m2 m3 -> grid_frame m1 m3.
Proof. intros (?&?&?) (?&?&?). repeat split; congruence. Qed.

Lemma frames_bind {A B} (c : M A) (k : A -> M B) :
  frames c -> (forall a, frames (k a)) -> frames (bind c k).
Proof.
  intros Hc Hk m r m'. unfold bind. destruct (c m) as [[a| |] m1] eqn:E.
  - intros Hr. eapply grid_frame_trans; [by eapply Hc|by eapply Hk].
  - intros [= <- <-]. by eapply Hc.
  - intros [= <- <-]. by eapply Hc.
Qed.

Lemma frames_ret {A} (a : A) : frames (ret a).
Proof. intros m r m' [= <- <-]. apply grid_frame_refl. Qed.

Lemma frames_modify f : (forall m, grid_frame m (f m)) -> frames (modify f).
Proof. intros H m r m' [= <- <-]. apply H. Qed.

Lemma frames_for_each {A} (l : list A) (body : A -> M unit) :
  (forall a, frames (body a)) -> frames (for_each l body).
Proof.
  intros Hb. induction l as [|a l IH]; [apply frames_ret|].
  cbn [for_each]. apply frames_bind; [apply Hb|]. intros _. apply IH.
Qed.

Lemma frames_cells_at i : frames (cells_at i).
Proof.
  intros m r m'. unfold cells_at.
  destruct (cells m !! i); intros [= <- <-]; apply grid_frame_refl.
Qed.

Lemma frames_new_GridCell bl br tl tr : frames (new_GridCell bl br tl tr).
Proof.
  intros m r m'. unfold new_GridCell.
  case_decide; intros [= <- <-]; by repeat split.
Qed.

Lemma frames_upd c f : frames (modify (upd_cell c f)).
Proof. apply frames_modify. intros m. by repeat split. Qed.

Lemma frames_init_cells n_rc n_cc n_cols : frames (init_cells n_rc n_cc n_cols).
Proof.
  unfold init_cells, for_range. apply frames_for_each. intros rr.
  apply frames_for_each. intros cc. cbv zeta.
  apply frames_bind; [apply frames_new_GridCell|]. intros gc.
  apply frames_bind; [apply frames_upd|]. intros _.
  apply frames_bind; [apply frames_upd|]. intros _.
  apply frames_modify. intros m. by repeat split.
Qed.

Lemma frames_init_neighbours n_rc n_cc : frames (init_neighbours n_rc n_cc).
Proof.
  unfold init_neighbours, for_range. apply frames_for_each. intros rr.
  apply frames_for_each. intros cc. cbv zeta.
  assert (Hset : forall i j (f : nat -> GridCell -> GridCell),
    frames (c <- cells_at i ;; n <- cells_at j ;; modify (upd_cell c (f n)))).
  { intros i j f. apply frames_bind; [apply frames_cells_at|]. intros c.
    apply frames_bind; [apply frames_cells_at|]. intros n. apply frames_upd. }
  repeat (apply frames_bind; [case_decide;
    [apply (Hset _ _ (fun n => _ (Some n)))|apply frames_ret]|intros _]).
  case_decide; [apply (Hset _ _ (fun n => _ (Some n)))|apply frames_ret].
Qed.

(** The entries the first loop of the constructor sets. *)
Definition top_entries (ny nx : nat) (m : MultiGrid) : Prop :=
  forall t r c w, grid_entry m t r c = Some w ->
    t = 0 /\ r < ny /\ c < nx /\ w = c + r * nx.

Lemma for_each_mem {A} (P : MultiGrid -> Prop) (l : list A) (body : A -> M unit) :
  (forall a m r m', a ∈ l -> P m -> body a m = (r, m') -> P m') ->
  forall m r m', P m -> for_each l body m = (r, m') -> P m'.
Proof.
  induction l as [|a l IH]; intros Hb m r m' HP.
  - by intros [= _ <-].
  - cbn [for_each]. unfold bind. destruct (body a m) as [r1 m1] eqn:E.
    assert (P m1) by (eapply Hb; [by left|done|done]).
    destruct r1 as [[]| |]; [|by intros [= _ <-]..].
    apply IH; [|done]. intros a' m0 r0 m0' Ha. apply Hb. by right.
Qed.

Lemma init_fill_grid_entries ny nx m r m' :
  top_entries ny nx m -> init_fill_grid ny nx m = (r, m') ->
  top_entries ny nx m' /\ windows m' = windows m /\ spacing m' = spacing m.
Proof.
  intros H0. unfold init_fill_grid, for_range.
  apply (for_each_mem (fun m1 => top_entries ny nx m1 /\
           windows m1 = windows m /\ spacing m1 = spacing m)); [|by split_and!].
  intros ii m1 r1 m1' Hii%elem_of_seq.
  apply (for_each_mem (fun m1 => top_entries ny nx m1 /\
           windows m1 = windows m /\ spacing m1 = spacing m)).
  intros jj m2 r2 m2' Hjj%elem_of_seq (H2&Hw2&Hs2) E.
  destruct (set_grid_entry_entry _ _ _ _ _ _ _ E) as (Hw&Hs&He).
  split_and!; [|congruence|congruence].
  intros t r0 c w Hg. destruct (He _ _ _ _ Hg) as [Hold|(->&->&->&->&_)].
  - by apply H2.
  - split_and!; [done|lia|lia|done].
Qed.

Lemma MultiGrid_init_entries dim sp WS m :
  MultiGrid_init dim sp WS = Ok m ->
  top_entries (n_rows_of dim sp) (n_cols_of dim sp) m.
Proof.
  intros E. assert (Hsp : sp <> 0%Z).
  { intros ->. by rewrite MultiGrid_init_zero in E. }
  revert E. unfold MultiGrid_init. rewrite !arange_ok by done.
  destruct (Grid_init dim sp) as [g0| |] eqn:Hg0; [|done..].
  fold (axis (snd dim) sp). fold (axis (fst dim) sp).
  cbv zeta. rewrite !axis_length.
  fold (n_rows_of dim sp). fold (n_cols_of dim sp).
  set (m0 := mkMultiGrid dim sp _ [g0] [] 0 0 []).
  assert (H0 : top_entries (n_rows_of dim sp) (n_cols_of dim sp) m0).
  { intros t r c w. unfold grid_entry, m0. cbn [grids].
    destruct t as [|t]; [|done]. cbn [lookup list_lookup].
    by rewrite (Grid_init_get _ _ _ _ _ Hg0). }
  unfold bind at 1.
  destruct (init_fill_grid (n_rows_of dim sp) (n_cols_of dim sp) m0)
    as [r1 m1] eqn:E1.
  destruct (init_fill_grid_entries _ _ _ _ _ H0 E1) as (H1&_).
  destruct r1 as [[]| |]; [|done..].
  set (rest := (init_cells _ _ _ ;;; _)).
  assert (Hf : frames rest).
  { unfold rest. apply frames_bind; [apply frames_init_cells|]. intros _.
    apply frames_bind; [apply frames_init_neighbours|]. intros _.
    apply frames_modify. intros m2. by repeat split. }
  destruct (rest m1) as [r2 m2] eqn:E2.
  destruct (Hf _ _ _ E2) as (Hg&_).
  destruct r2 as [[]| |]; [|done..]. intros [= <-].
  intros t r c w. unfold grid_entry. rewrite Hg. apply H1.
Qed.

Lemma init_GridContent dim sp WS m :
  MultiGrid_init dim sp WS = Ok m -> GridContent m.
Proof.
  intros E. pose proof (MultiGrid_init_entries dim sp WS m E) as Ht.
  destruct (MultiGrid_init_shape dim sp WS m E) as [Hsp Hs].
  intros t r c w He. destruct (Ht _ _ _ _ He) as (->&Hr&Hc&->).
  unfold entry_ok. replace (c + r * n_cols_of dim sp) with (r * n_cols_of dim sp + c) by lia.
  rewrite (init_window dim sp WS m Hs r c Hr Hc). cbn [cw_x cw_y].
  unfold pos_x, two_pow. rewrite (is_spacing _ _ _ _ Hs).
  change (inject_Z (2 ^ Z.of_nat 0)) with 1%Q. rewrite !inject_Z_mult.
  split_and!; [|ring|ring|lia].
  rewrite (is_windows _ _ _ _ Hs), init_windows_length, !axis_length.
  unfold n_rows_of, n_cols_of in *. nia.
Qed.

Definition InvC (m : MultiGrid) : Prop := InvP m /\ GridContent m.

Lemma InvC_wf m : InvC m -> HeapWF m.
Proof. intros [H _]. by apply InvP_wf. Qed.

Lemma InvC_body m self r m' :
  InvC m -> self < length (heap m) -> children (cell m self) = None ->
  split_body self m = (r, m') -> InvC m'.
Proof.
  intros [HP HG] Hself Hleaf E. split; [by eapply InvP_body|].
  by eapply split_body_GridContent.
Qed.

Lemma reachable_GridContent m : reachable m -> GridContent m.
Proof.
  intros Hr. cut (InvC m); [by intros [_ ?]|].
  induction Hr as [dim sp WS m E|m c r m' Hr IH Hc E|m r m' Hr IH E].
  - split; [by apply reachable_InvP, (reach_init dim sp WS)|].
    by eapply init_GridContent.
  - exact (sp_inv _ _ _ _ _ (split_post_inv InvC InvC_wf InvC_body m c r m' IH Hc E)).
  - split; [by apply reachable_InvP, (reach_new_tier m r m')|].
    eapply new_tier_GridContent; [done|apply IH].
Qed.


(** * The axes of the grids *)

(** What [Grid.__init__] sets beside the array. *)
Definition grid_fields (g : Grid) : (Z * Z) * Z * list Z * list Z * nat * nat :=
  (g_img_dim g, g_spacing g, g_x_vec g, g_y_vec g, g_ny g, g_nx g).

(** The fields of a grid made for image [dim] and spacing [h]. *)
Definition fields_for (dim : Z * Z) (h : Z)
  : (Z * Z) * Z * list Z * list Z * nat * nat :=
  (dim, h, axis (snd dim) h, axis (fst dim) h, n_rows_of dim h, n_cols_of dim h).

Definition FieldsOK (m : MultiGrid) : Prop :=
  forall t g, grids m !! t = Some g ->
    grid_fields g = fields_for (img_dim m) (h_tier m t).

(** The grids of [m'] are those of [m], up to their arrays. *)
Definition fields_kept (m m' : MultiGrid) : Prop :=
  forall t g', grids m' !! t = Some g' ->
    exists g, grids m !! t = Some g /\ grid_fields g' = grid_fields g.

Lemma fields_kept_refl m : fields_kept m m.
Proof. intros t g Hg. by exists g. Qed.

Lemma fields_kept_trans m1 m2 m3 :
  fields_kept m1 m2 -> fields_kept m2 m3 -> fields_kept m1 m3.
Proof.
  intros H12 H23 t g3 H3. destruct (H23 t g3 H3) as (g2&H2&E2).
  destruct (H12 t g2 H2) as (g1&H1&E1). exists g1. split; [done|congruence].
Qed.

Lemma Grid_init_fields dim sp g :
  sp <> 0%Z -> Grid_init dim sp = Ok g -> grid_fields g = fields_for dim sp.
Proof.
  intros Hsp. unfold Grid_init. rewrite !arange_ok by done. intros [= <-].
  unfold grid_fields, fields_for, axis, n_rows_of, n_cols_of. cbn.
  by rewrite !length_map, !length_seq.
Qed.

Lemma set_grid_entry_fields t r c w m rr m' :
  set_grid_entry t r c w m = (rr, m') -> fields_kept m m'.
Proof.
  unfold set_grid_entry. destruct (grids m !! t) as [g|] eqn:Hg.
  2:{ intros [= _ <-]. apply fields_kept_refl. }
  case_decide; [|intros [= _ <-]; apply fields_kept_refl].
  unfold grid_set. destruct (g_array g !! r) as [row|];
    [|intros [= _ <-]; apply fields_kept_refl].
  case_decide; [|intros [= _ <-]; apply fields_kept_refl].
  intros [= _ <-] t' g'. cbn [grids with_grids].
  pose proof (lookup_lt_Some _ _ _ Hg) as Ht.
  destruct (decide (t' = t)) as [->|Hne].
  - rewrite list_lookup_insert_eq by done. intros [= <-]. by exists g.
  - rewrite list_lookup_insert_ne by done. intros Hg'. by exists g'.
Qed.

Lemma register_windows_fields self ch lm cb cm ct rm m rr m' :
  register_windows self ch lm cb cm ct rm m = (rr, m') -> fields_kept m m'.
Proof.
  unfold register_windows. unfold bind at 1, get. cbv beta iota zeta.
  assert (Hstep : forall t r c w (k : M unit) m1 r0 m0,
    fields_kept m m1 ->
    (forall m2, fields_kept m m2 -> k m2 = (r0, m0) -> fields_kept m m0) ->
    (set_grid_entry t r c w ;;; k) m1 = (r0, m0) -> fields_kept m m0).
  { intros t r c w k m1 r0 m0 H1 Hk. unfold bind at 1.
    destruct (set_grid_entry t r c w m1) as [r1 m2] eqn:E.
    pose proof (fields_kept_trans _ _ _ H1 (set_grid_entry_fields _ _ _ _ _ _ _ E)) as H2.
    destruct r1 as [[]| |]; [by apply Hk|by intros [= _ <-]..]. }
  apply Hstep; [apply fields_kept_refl|]. intros m2 H2.
  apply Hstep; [done|]. intros m3 H3.
  apply Hstep; [done|]. intros m4 H4.
  apply Hstep; [done|]. intros m5 H5 E.
  exact (fields_kept_trans _ _ _ H5 (set_grid_entry_fields _ _ _ _ _ _ _ E)).
Qed.

Lemma FieldsOK_kept m m' :
  fields_kept m m' -> img_dim m' = img_dim m -> spacing m' = spacing m ->
  FieldsOK m -> FieldsOK m'.
Proof.
  intros Hk Hd Hs H t g' Hg'. destruct (Hk t g' Hg') as (g&Hg&->).
  unfold h_tier. rewrite Hd, Hs. by apply H.
Qed.

Lemma FieldsOK_ext m m' :
  grids m' = grids m -> img_dim m' = img_dim m -> spacing m' = spacing m ->
  FieldsOK m -> FieldsOK m'.
Proof.
  intros Hg Hd Hs H t g. unfold h_tier. rewrite Hg, Hd, Hs. apply H.
Qed.

Lemma new_tier_FieldsOK m r m' :
  tier_inv m -> GridsOK m -> new_tier m = (r, m') -> FieldsOK m -> FieldsOK m'.
Proof.
  intros Hinv [Hl _] E H. destruct (h_curr_exact m Hinv) as [Hex Hnz].
  revert E. unfold new_tier. destruct (Z.even (h_curr m)) eqn:Hev.
  2:{ by intros [= _ <-]. }
  pose proof Hev as Hev'. apply Z.even_spec in Hev' as [k Hk].
  assert (Hq : (h_curr m ÷ 2 = k)%Z).
  { rewrite Hk, Z.mul_comm, Z.quot_mul by done. done. }
  assert (Hk0 : k <> 0%Z) by lia.
  cbn [img_dim with_max_tier].
  destruct (Grid_init (img_dim m) (h_curr m ÷ 2)%Z) as [g|e|] eqn:Hg;
    intros [= _ <-]; try exact H.
  intros t g0. cbn [grids with_grids img_dim with_max_tier].
  assert (Hht : forall t, h_tier (with_grids (grids m ++ [g])
                   (with_max_tier (max_tier m + 1) m)) t = h_tier m t) by done.
  rewrite Hht.
  destruct (decide (t < length (grids m))) as [Hlt|Hge].
  - rewrite lookup_app_l by done. apply H.
  - rewrite lookup_app_r by lia.
    destruct (t - length (grids m)) as [|n] eqn:Hn; [|by destruct n].
    intros [= <-]. assert (t = max_tier m + 1) as -> by lia.
    assert (h_tier m (max_tier m + 1) = (h_curr m ÷ 2)%Z) as ->.
    { unfold h_tier. rewrite Hq, <- Hex, Hk.
      rewrite Nat2Z.inj_add, Z.pow_add_r by lia.
      change (2 ^ Z.of_nat 1)%Z with 2%Z.
      replace (2 * k * 2 ^ Z.of_nat (max_tier m))%Z
        with (k * (2 ^ Z.of_nat (max_tier m) * 2))%Z by lia.
      apply Z.quot_mul.
      assert (2 ^ Z.of_nat (max_tier m) <> 0)%Z by (apply Z.pow_nonzero; lia).
      lia. }
    apply Grid_init_fields; [by rewrite Hq|done].
Qed.

Lemma split_body_FieldsOK m self r m' :
  Inv4 m -> FieldsOK m -> self < length (heap m) ->
  children (cell m self) = None ->
  split_body self m = (r, m') -> FieldsOK m'.
Proof.
  intros ([Hwf Hti]&_&HG&_) HF Hself Hleaf.
  destruct (ids_after m self) as [[[[lm cb] cm] ct] rm] eqn:Hids.
  rewrite (split_body_eq m self lm cb cm ct rm Hwf Hself Hids).
  rewrite <- (state_B_eq m self lm cb cm ct rm Hids).
  destruct (state_B_params m self) as (_&HBs&HBd&_&HBm&HBg).
  set (mB := state_B m self) in *. set (ch := fresh_children m) in *.
  assert (FB : FieldsOK mB) by (by apply (FieldsOK_ext m)).
  assert (HGB : GridsOK mB) by (by apply (GridsOK_ext m)).
  assert (HtiB : tier_inv mB) by (unfold tier_inv; by rewrite HBs, HBm).
  destruct (tier_stage ch mB) as [rC mC] eqn:EC.
  assert (FC : FieldsOK mC).
  { revert EC. unfold tier_stage. case_decide.
    - intros EC. by eapply new_tier_FieldsOK.
    - by intros [= _ <-]. }
  destruct rC as [[]| |]; [|by intros [= _ <-]..].
  destruct (register_windows self ch lm cb cm ct rm mC) as [rD mD] eqn:ED.
  destruct (register_windows_same_objects _ _ _ _ _ _ _ _ _ _ ED)
    as [(_&_&_&_&HsD&HdD) _].
  assert (FD : FieldsOK mD).
  { apply (FieldsOK_kept mC); try done. by eapply register_windows_fields. }
  destruct rD as [[]| |]; [|by intros [= _ <-]..].
  intros [= _ <-]. destruct (wired_params self ch mD) as (Wg&_&Ws&Wd).
  by apply (FieldsOK_ext mD).
Qed.

Lemma init_FieldsOK dim sp WS m :
  MultiGrid_init dim sp WS = Ok m -> FieldsOK m.
Proof.
  intros E. destruct (MultiGrid_init_shape dim sp WS m E) as [Hsp Hs].
  revert E. unfold MultiGrid_init. rewrite !arange_ok by done.
  destruct (Grid_init dim sp) as [g0| |] eqn:Hg0; [|done..].
  cbv zeta. set (m0 := mkMultiGrid dim sp _ [g0] [] 0 0 []).
  unfold bind at 1.
  destruct (init_fill_grid _ _ m0) as [r1 m1] eqn:E1.
  assert (H1 : fields_kept m0 m1).
  { revert E1. unfold init_fill_grid, for_range.
    apply (for_each_mem (fun m1 => fields_kept m0 m1)); [|apply fields_kept_refl].
    intros ii m2 r2 m2' _.
    apply (for_each_mem (fun m1 => fields_kept m0 m1)).
    intros jj m3 r3 m3' _ H3 E3.
    exact (fields_kept_trans _ _ _ H3 (set_grid_entry_fields _ _ _ _ _ _ _ E3)). }
  destruct r1 as [[]| |]; [|done..].
  set (rest := (init_cells _ _ _ ;;; _)).
  assert (Hf : frames rest).
  { unfold rest. apply frames_bind; [apply frames_init_cells|]. intros _.
    apply frames_bind; [apply frames_init_neighbours|]. intros _.
    apply frames_modify. intros m2. by repeat split. }
  destruct (rest m1) as [r2 m2] eqn:E2.
  destruct (Hf _ _ _ E2) as (Hg&_).
  destruct r2 as [[]| |]; [|done..]. intros [= <-].
  intros t g. rewrite Hg. intros Hgt.
  destruct (H1 t g Hgt) as (g1&Hg1&->).
  unfold m0 in Hg1. cbn [grids] in Hg1.
  destruct t as [|t]; [|done]. injection Hg1 as <-.
  rewrite (is_dim _ _ _ _ Hs). unfold h_tier. rewrite (is_spacing _ _ _ _ Hs).
  change (2 ^ Z.of_nat 0)%Z with 1%Z. rewrite Z.quot_1_r.
  by apply Grid_init_fields.
Qed.

Definition InvF (m : MultiGrid) : Prop := Inv4 m /\ FieldsOK m.

Lemma InvF_wf m : InvF m -> HeapWF m.
Proof. intros [H _]. by apply Inv4_wf. Qed.

Lemma InvF_body m self r m' :
  InvF m -> self < length (heap m) -> children (cell m self) = None ->
  split_body self m = (r, m') -> InvF m'.
Proof.
  intros [H4 HF] Hself Hleaf E. split; [by eapply Inv4_body|].
  by eapply split_body_FieldsOK.
Qed.

Lemma reachable_FieldsOK m : reachable m -> FieldsOK m.
Proof.
  intros Hr. cut (InvF m); [by intros [_ ?]|].
  induction Hr as [dim sp WS m E|m c r m' Hr IH Hc E|m r m' Hr IH E].
  - split; [by apply reachable_Inv4, (reach_init dim sp WS)|].
    by eapply init_FieldsOK.
  - exact (sp_inv _ _ _ _ _ (split_post_inv InvF InvF_wf InvF_body m c r m' IH Hc E)).
  - split; [by apply reachable_Inv4, (reach_new_tier m r m')|].
    destruct IH as [H4 HF]. destruct H4 as ([_ Hti]&_&HG&_).
    by eapply new_tier_FieldsOK.
Qed.


(** * The grid of the top tier *)

Lemma set_grid_entry_keeps t r c w m rr m' :
  set_grid_entry t r c w m = (rr, m') ->
  (forall t' r' c', (t', r', c') <> (t, r, c) ->
     grid_entry m' t' r' c' = grid_entry m t' r' c') /\
  (rr = Ok tt -> grid_entry m' t r c = Some w).
Proof.
  unfold set_grid_entry. destruct (grids m !! t) as [g|] eqn:Hg.
  2:{ by intros [= <- <-]. }
  case_decide as Hw. 2:{ by intros [= <- <-]. }
  destruct (grid_set r c w g) as [g'| |] eqn:Hs; intros [= <- <-]; try done.
  pose proof (lookup_lt_Some _ _ _ Hg) as Ht. split.
  - intros t' r' c' Hne. unfold grid_entry. cbn [grids with_grids].
    destruct (decide (t' = t)) as [->|Hnt].
    + rewrite list_lookup_insert_eq by done. rewrite Hg.
      rewrite (grid_set_get _ _ _ _ _ Hs). rewrite decide_False; [done|].
      intros [-> ->]. done.
    + by rewrite list_lookup_insert_ne by done.
  - intros _. unfold grid_entry. cbn [grids with_grids].
    rewrite list_lookup_insert_eq by done.
    rewrite (grid_set_get _ _ _ _ _ Hs). by rewrite decide_True.
Qed.

(** The entries of tier 0 are those of [m]. *)
Definition top_kept (m m' : MultiGrid) : Prop :=
  forall r c, grid_entry m' 0 r c = grid_entry m 0 r c.

Lemma top_kept_refl m : top_kept m m.
Proof. done. Qed.

Lemma top_kept_trans m1 m2 m3 : top_kept m1 m2 -> top_kept m2 m3 -> top_kept m1 m3.
Proof. intros H12 H23 r c. by rewrite H23. Qed.

Lemma register_windows_top self ch lm cb cm ct rm m rr m' :
  0 < tier (cell m (ch_bl ch)) ->
  register_windows self ch lm cb cm ct rm m = (rr, m') -> top_kept m m'.
Proof.
  intros Ht. unfold register_windows. unfold bind at 1, get. cbv beta iota zeta.
  set (t := tier (cell m (ch_bl ch))) in *.
  assert (Hone : forall r c w m1 r1 m2,
    set_grid_entry t r c w m1 = (r1, m2) -> top_kept m1 m2).
  { intros r c w m1 r1 m2 E r' c'.
    apply (proj1 (set_grid_entry_keeps _ _ _ _ _ _ _ E)). intros [= <- _ _]. lia. }
  assert (Hstep : forall r c w (k : M unit) m1 r0 m0,
    top_kept m m1 ->
    (forall m2, top_kept m m2 -> k m2 = (r0, m0) -> top_kept m m0) ->
    (set_grid_entry t r c w ;;; k) m1 = (r0, m0) -> top_kept m m0).
  { intros r c w k m1 r0 m0 H1 Hk. unfold bind at 1.
    destruct (set_grid_entry t r c w m1) as [r1 m2] eqn:E.
    pose proof (top_kept_trans _ _ _ H1 (Hone _ _ _ _ _ _ E)) as H2.
    destruct r1 as [[]| |]; [by apply Hk|by intros [= _ <-]..]. }
  apply Hstep; [apply top_kept_refl|]. intros m2 H2.
  apply Hstep; [done|]. intros m3 H3.
  apply Hstep; [done|]. intros m4 H4.
  apply Hstep; [done|]. intros m5 H5 E.
  exact (top_kept_trans _ _ _ H5 (Hone _ _ _ _ _ _ E)).
Qed.

Lemma new_tier_top m r m' : new_tier m = (r, m') -> top_kept m m'.
Proof.
  unfold new_tier. destruct (Z.even (h_curr m)); [|by intros [= _ <-]].
  cbn [img_dim with_max_tier].
  destruct (Grid_init (img_dim m) (h_curr m ÷ 2)) as [g|e|] eqn:Hg;
    intros [= _ <-]; try done.
  intros r0 c. unfold grid_entry. cbn [grids with_grids with_max_tier].
  destruct (grids m) as [|g0 gs]; [|done].
  cbn. by rewrite (Grid_init_get _ _ _ _ _ Hg).
Qed.

Lemma split_body_top m self r m' :
  HeapWF m -> self < length (heap m) ->
  split_body self m = (r, m') -> top_kept m m'.
Proof.
  intros Hwf Hself.
  destruct (ids_after m self) as [[[[lm cb] cm] ct] rm] eqn:Hids.
  rewrite (split_body_eq m self lm cb cm ct rm Hwf Hself Hids).
  rewrite <- (state_B_eq m self lm cb cm ct rm Hids).
  destruct (state_B_params m self) as (_&_&_&_&_&HBg).
  set (mB := state_B m self) in *. set (ch := fresh_children m) in *.
  assert (HBt : tier (cell mB (ch_bl ch)) = tier (cell m self) + 1).
  { unfold mB. rewrite state_B_cell by done. rewrite Hids.
    unfold ch, fresh_children. cbn [ch_bl].
    rewrite decide_False by lia. by rewrite decide_True. }
  assert (TB : top_kept m mB).
  { intros r0 c. unfold grid_entry. by rewrite HBg. }
  destruct (tier_stage ch mB) as [rC mC] eqn:EC.
  assert (TC : top_kept m mC).
  { eapply top_kept_trans; [exact TB|]. revert EC. unfold tier_stage.
    case_decide; [apply new_tier_top|by intros [= _ <-]]. }
  destruct (tier_stage_spec _ _ _ _ EC) as ((Hh&_)&_).
  destruct rC as [[]| |]; [|by intros [= _ <-]..].
  destruct (register_windows self ch lm cb cm ct rm mC) as [rD mD] eqn:ED.
  assert (TD : top_kept m mD).
  { eapply top_kept_trans; [exact TC|].
    eapply register_windows_top; [|exact ED].
    unfold cell. rewrite Hh. fold (cell mB (ch_bl ch)). lia. }
  destruct rD as [[]| |]; [|by intros [= _ <-]..].
  intros [= _ <-]. destruct (wired_params self ch mD) as (Wg&_).
  intros r0 c. unfold grid_entry. rewrite Wg. apply TD.
Qed.

(** Every entry of the grid of the top tier is set, to the window of its
    grid point. *)
Definition TopFull (m : MultiGrid) : Prop :=
  forall r c, r < n_rows_of (img_dim m) (spacing m) ->
    c < n_cols_of (img_dim m) (spacing m) ->
    grid_entry m 0 r c = Some (c + r * n_cols_of (img_dim m) (spacing m)).

Lemma TopFull_kept m m' :
  top_kept m m' -> img_dim m' = img_dim m -> spacing m' = spacing m ->
  TopFull m -> TopFull m'.
Proof.
  intros Hk Hd Hs H r c. rewrite Hd, Hs, Hk. apply H.
Qed.

Lemma init_fill_grid_full m0 g0 ny nx :
  grids m0 = [g0] -> grid_shape ny nx g0 -> length (windows m0) = ny * nx ->
  exists m1, init_fill_grid ny nx m0 = (Ok tt, m1) /\
    forall r c, r < ny -> c < nx -> grid_entry m1 0 r c = Some (c + r * nx).
Proof.
  intros Hg0 Hs0 Hw. unfold init_fill_grid.
  destruct (nested_range_ok (fun k m => same_objects m0 m /\
      (exists g, grids m = [g] /\ grid_shape ny nx g) /\
      forall r c, c < nx -> r * nx + c < k -> grid_entry m 0 r c = Some (c + r * nx))
    ny nx (fun ii jj => set_grid_entry 0 ii jj (jj + ii * nx)) m0) as (m1&E&H).
  - split_and!; [apply same_objects_refl|by exists g0|]. intros r c _ Hlt. lia.
  - intros ii jj m Hii Hjj (Ho&(g&Hg&Hs)&Hfull).
    destruct (set_grid_entry_ok 0 ii jj (jj + ii * nx) m ny nx g) as (g'&E&Hs');
      try done.
    { by rewrite Hg. }
    { destruct Ho as (_&->&_). rewrite Hw. nia. }
    destruct (set_grid_entry_keeps _ _ _ _ _ _ _ E) as [Hkeep Hnew].
    eexists; split; [exact E|]. split_and!.
    + eapply same_objects_trans; [exact Ho|]. by repeat split.
    + exists g'. split; [|done]. simpl. by rewrite Hg.
    + intros r c Hc Hlt.
      destruct (decide (r = ii /\ c = jj)) as [[-> ->]|Hne].
      * by apply Hnew.
      * rewrite Hkeep by (intros [= -> ->]; by apply Hne).
        apply Hfull; [done|].
        assert (r * nx + c <> ii * nx + jj); [|lia].
        intros Heq. apply Hne. by apply (grid_index_inj nx r c ii jj).
  - exists m1. split; [done|]. intros r c Hr Hc. apply H; [done|nia].
Qed.

Lemma init_TopFull dim sp WS m : MultiGrid_init dim sp WS = Ok m -> TopFull m.
Proof.
  intros E. destruct (MultiGrid_init_shape dim sp WS m E) as [Hsp Hs].
  revert E. unfold MultiGrid_init. rewrite !arange_ok by done.
  destruct (Grid_init_ok dim sp Hsp) as (g0&->&Hg0).
  fold (axis (snd dim) sp). fold (axis (fst dim) sp).
  cbv zeta. rewrite !axis_length.
  fold (n_rows_of dim sp). fold (n_cols_of dim sp).
  set (m0 := mkMultiGrid dim sp _ [g0] [] 0 0 []).
  assert (Hw0 : length (windows m0) = n_rows_of dim sp * n_cols_of dim sp).
  { unfold m0. simpl. by rewrite init_windows_length, !axis_length. }
  destruct (init_fill_grid_full m0 g0 _ _ eq_refl Hg0 Hw0) as (m1&E1&H1).
  rewrite (bind_ok _ _ _ _ _ E1).
  set (rest := (init_cells _ _ _ ;;; _)).
  assert (Hf : frames rest).
  { unfold rest. apply frames_bind; [apply frames_init_cells|]. intros _.
    apply frames_bind; [apply frames_init_neighbours|]. intros _.
    apply frames_modify. intros m2. by repeat split. }
  destruct (rest m1) as [r2 m2] eqn:E2.
  destruct (Hf _ _ _ E2) as (Hg&_).
  destruct r2 as [[]| |]; [|done..]. intros [= <-].
  intros r c. rewrite (is_dim _ _ _ _ Hs), (is_spacing _ _ _ _ Hs).
  intros Hr Hc. unfold grid_entry. rewrite Hg. by apply H1.
Qed.

Definition InvFull (m : MultiGrid) : Prop := HeapWF m /\ TopFull m.

Lemma InvFull_body m self r m' :
  InvFull m -> self < length (heap m) -> children (cell m self) = None ->
  split_body self m = (r, m') -> InvFull m'.
Proof.
  intros [Hwf HT] Hself Hleaf E.
  pose proof (split_body_post m self Hwf Hself Hleaf r m' E) as Hp.
  destruct (body_post_extends m self r m' Hself Hleaf Hp) as (He&_).
  split; [apply Hp|].
  apply (TopFull_kept m); [by eapply split_body_top|apply He..|done].
Qed.

Lemma reachable_TopFull m : reachable m -> TopFull m.
Proof.
  intros Hr. cut (InvFull m); [by intros [_ ?]|].
  induction Hr as [dim sp WS m E|m c r m' Hr IH Hc E|m r m' Hr IH E].
  - split; [by apply reachable_HeapWF, (reach_init dim sp WS)|].
    by eapply init_TopFull.
  - exact (sp_inv _ _ _ _ _
      (split_post_inv InvFull (fun m H => proj1 H) InvFull_body m c r m' IH Hc E)).
  - split; [by apply reachable_HeapWF, (reach_new_tier m r m')|].
    destruct (new_tier_same_objects _ _ _ E) as (_&_&_&_&Hs&Hd).
    apply (TopFull_kept m); [by eapply new_tier_top|done|done|apply IH].
Qed.

(** An entry of a tier up to the deepest, in the spacing of the tier. *)
Lemma entry_ok_h_tier m t r c w :
  tier_inv m -> t <= max_tier m -> entry_ok m t r c w ->
  (cw_x (windows m !!! w) == inject_Z (Z.of_nat c * h_tier m t) /\
   cw_y (windows m !!! w) == inject_Z (Z.of_nat r * h_tier m t))%Q.
Proof.
  intros Hti Ht (_&Hx&Hy&_).
  destruct (h_tier_exact m t Hti Ht) as [Hex _].
  pose proof (two_pow_pos t) as Hpos.
  assert (Hs : (inject_Z (spacing m) == inject_Z (h_tier m t) * two_pow t)%Q).
  { unfold two_pow. by rewrite <- inject_Z_mult, Hex. }
  unfold pos_x in *. rewrite Hs in Hx, Hy. rewrite !inject_Z_mult.
  assert (Hcancel : forall a b : Q,
    (a * two_pow t == b * (inject_Z (h_tier m t) * two_pow t) ->
     a == b * inject_Z (h_tier m t))%Q).
  { intros a b H. apply (Qmult_inj_r _ _ (two_pow t)); [lra|].
    rewrite H. ring. }
  split; by apply Hcancel.
Qed.


(** * Example meshes *)

(** A 4 x 4 image with spacing 2 has one cell; [ex_mesh1] is that mesh
    after its cell was split. *)
Definition ex_mesh0 : MultiGrid :=
  Eval vm_compute in
    match MultiGrid_init (4, 4)%Z 2 5 with
    | Ok m => m
    | _ => mkMultiGrid (0, 0)%Z 0 [] [] [] 0 0 []
    end.

Definition ex_mesh1 : MultiGrid := Eval vm_compute in (split 0 ex_mesh0).2.

Lemma ex_mesh0_init : MultiGrid_init (4, 4)%Z 2 5 = Ok ex_mesh0.
Proof. vm_compute. reflexivity. Qed.

Lemma ex_mesh1_split : split 0 ex_mesh0 = (Ok tt, ex_mesh1).
Proof. vm_compute. reflexivity. Qed.

Lemma ex_mesh0_reachable : reachable ex_mesh0.
Proof. exact (reach_init _ _ _ _ ex_mesh0_init). Qed.

Lemma ex_mesh1_reachable : reachable ex_mesh1.
Proof.
  refine (reach_split ex_mesh0 0 _ _ ex_mesh0_reachable _ ex_mesh1_split).
  vm_compute. lia.
Qed.

(** * The claims *)

(** C1 (neighbour symmetry).  In every reachable mesh, that is after
    construction and after every call of [split] whatever its outcome, for
    all cells [a] and [b] of any tier: [a.north] is [b] exactly when
    [b.south] is [a], and [a.east] is [b] exactly when [b.west] is [a]. *)
Theorem neighbor_symmetry m :
  reachable m ->
  forall a b,
    (north (cell m a) = Some b <-> south (cell m b) = Some a) /\
    (east (cell m a) = Some b <-> west (cell m b) = Some a).
Proof.
  intros Hr a b. pose proof (wf_sym _ (reachable_HeapWF m Hr)) as Hsym.
  split; [exact (Hsym NS a b)|exact (Hsym EW a b)].
Qed.

Lemma neighbor_symmetry_witness :
  reachable ex_mesh1 /\
  forall a b,
    (north (cell ex_mesh1 a) = Some b <-> south (cell ex_mesh1 b) = Some a) /\
    (east (cell ex_mesh1 a) = Some b <-> west (cell ex_mesh1 b) = Some a).
Proof.
  split; [exact ex_mesh1_reachable|].
  exact (neighbor_symmetry ex_mesh1 ex_mesh1_reachable).
Defined.

(** C9 (parents).  In every reachable mesh a cell whose tier is above 0
    has a parent, and so neither [split] nor a direct call of
    [split_neighbs_if_needed] on such a cell ever fails on the
    dereference of [self.parent]; with the fuel the tier gives, the calls
    also come to an end. *)
Theorem deep_cells_have_parent m :
  reachable m ->
  (forall c, c < length (heap m) -> 0 < tier (cell m c) ->
     exists p, parent (cell m c) = Some p /\ p < length (heap m)) /\
  (forall c r m', c < length (heap m) -> split c m = (r, m') ->
     r <> Raise AttributeError /\ r <> OutOfFuel) /\
  (forall c fuel r m', c < length (heap m) -> 0 < tier (cell m c) ->
     tier (cell m c) <= fuel ->
     split_neighbs_if_needed (split_fuel fuel) c m = (r, m') ->
     r <> Raise AttributeError /\ r <> OutOfFuel).
Proof.
  intros Hr. pose proof (reachable_Inv1 m Hr) as Hinv.
  pose proof (proj1 Hinv) as Hwf. split_and!.
  - intros c Hc Ht. destruct (parent_of_deep m c Hwf Hc Ht) as (p&Hp&Hlt&_).
    by exists p.
  - intros c r m' Hc E.
    destruct (split_post_inv Inv1 (fun m H => proj1 H) Inv1_body m c r m' Hinv Hc E).
    done.
  - intros c fuel r m' Hc Ht Hfuel E.
    assert (Hts : tier (cell m c) = S (pred (tier (cell m c)))) by lia.
    destruct (split_neighbs_post Inv1 (fun m H => proj1 H) fuel (split_fuel fuel)
                c _ m r m'
                (split_fuel_post Inv1 (fun m H => proj1 H) Inv1_body fuel)
                Hinv Hc Hts ltac:(lia) E).
    done.
Qed.

Lemma deep_cells_have_parent_witness :
  reachable ex_mesh1 /\
  (exists p, parent (cell ex_mesh1 1) = Some p /\ p < length (heap ex_mesh1)).
Proof.
  split; [exact ex_mesh1_reachable|].
  apply (proj1 (deep_cells_have_parent ex_mesh1 ex_mesh1_reachable) 1);
    vm_compute; lia.
Defined.

(** C10 (window size of new points).  [create_new_corrWindows] appends
    between one and five windows, and every one of them has the window
    size of the bottom-left corner of the cell being split, whatever the
    window sizes of the other corners. *)
Theorem new_points_inherit_bl_WS m self :
  exists new,
    create_new_corrWindows self m =
      (Ok (ids_after m self), with_windows (windows m ++ new) m) /\
    1 <= length new <= 5 /\
    Forall (fun w => cw_WS w = cw_WS (bl_win m (cell m self))) new.
Proof.
  destruct (windows_after_spec m self) as (new&Hw&Hl&Hall).
  exists new. rewrite create_new_corrWindows_eq, Hw. done.
Qed.


(** ** [new_tier] *)

(** A grid with no entry set. *)
Definition empty_grid (g : Grid) : Prop :=
  Forall (Forall (fun e => e = None)) (g_array g).

Lemma Grid_init_empty dim sp g :
  Grid_init dim sp = Ok g -> g_spacing g = sp /\ g_img_dim g = dim /\ empty_grid g.
Proof.
  unfold Grid_init. destruct (arange (snd dim) sp); try done.
  - destruct (arange (fst dim) sp); try done. intros [= <-]. split_and!; try done.
    unfold empty_grid. simpl. apply Forall_replicate, Forall_replicate. done.
  - by destruct (arange (fst dim) sp).
Qed.

Lemma even_half_nonzero h : h <> 0%Z -> Z.even h = true -> (h ÷ 2)%Z <> 0%Z.
Proof.
  intros Hnz Hev. apply Z.even_spec in Hev as [k ->].
  rewrite Z.mul_comm, Z.quot_mul by done. lia.
Qed.

Lemma new_tier_ok m :
  h_curr m <> 0%Z -> Z.even (h_curr m) = true ->
  exists g, new_tier m =
      (Ok tt, with_grids (grids m ++ [g]) (with_max_tier (max_tier m + 1) m)) /\
    g_spacing g = (h_curr m ÷ 2)%Z /\ empty_grid g.
Proof.
  intros Hnz Hev. unfold new_tier. rewrite Hev.
  destruct (Grid_init_ok (img_dim (with_max_tier (max_tier m + 1) m))
              (h_curr m ÷ 2)%Z (even_half_nonzero _ Hnz Hev)) as (g&Hg&_).
  rewrite Hg. exists g. split; [done|].
  destruct (Grid_init_empty _ _ _ Hg) as (?&?&?). done.
Qed.

Lemma new_tier_fail m :
  Z.even (h_curr m) = false -> new_tier m = (Raise RefinementNotPossible, m).
Proof. intros Hev. unfold new_tier. by rewrite Hev. Qed.

Lemma h_curr_next m gs :
  h_curr (with_grids gs (with_max_tier (max_tier m + 1) m)) =
    (spacing m ÷ 2 ^ Z.of_nat (max_tier m + 1))%Z.
Proof. done. Qed.

(** One successful [new_tier] from a mesh whose current spacing is the
    even number [2 * h]. *)
Lemma new_tier_halves m h :
  h <> 0%Z -> (spacing m = 2 * h * 2 ^ Z.of_nat (max_tier m))%Z ->
  exists m1, new_tier m = (Ok tt, m1) /\
    (spacing m1 = h * 2 ^ Z.of_nat (max_tier m1))%Z /\ h_curr m1 = h /\
    max_tier m1 = max_tier m + 1 /\ length (grids m1) = length (grids m) + 1.
Proof.
  intros Hh Hsp.
  assert (Hp : (2 ^ Z.of_nat (max_tier m) <> 0)%Z) by (apply Z.pow_nonzero; lia).
  assert (Hc : h_curr m = (2 * h)%Z).
  { unfold h_curr. rewrite Hsp. by rewrite Z.quot_mul. }
  destruct (new_tier_ok m) as (g&E&_).
  { rewrite Hc. lia. }
  { rewrite Hc. by rewrite Z.even_mul. }
  eexists. split; [exact E|].
  assert (Hs1 : (spacing m = h * 2 ^ Z.of_nat (max_tier m + 1))%Z).
  { rewrite Nat2Z.inj_add, Z.pow_add_r by lia. rewrite Hsp.
    change (Z.of_nat 1) with 1%Z. lia. }
  split_and!.
  - exact Hs1.
  - rewrite h_curr_next, Hs1. apply Z.quot_mul. apply Z.pow_nonzero; lia.
  - done.
  - simpl. rewrite length_app. simpl. lia.
Qed.

Lemma new_tier_odd m h :
  Z.odd h = true -> (spacing m = h * 2 ^ Z.of_nat (max_tier m))%Z ->
  new_tier m = (Raise RefinementNotPossible, m).
Proof.
  intros Hodd Hsp. apply new_tier_fail.
  assert (Hp : (2 ^ Z.of_nat (max_tier m) <> 0)%Z) by (apply Z.pow_nonzero; lia).
  unfold h_curr. rewrite Hsp, Z.quot_mul by done.
  rewrite <- Z.negb_odd. by rewrite Hodd.
Qed.

(** C7 ([new_tier]).  In a reachable mesh the spacing of the deepest tier,
    [h_curr], is exactly [spacing / 2 ^ max_tier].  When it is even,
    [new_tier] returns, with [max_tier] one more and one new grid, of
    spacing [h_curr / 2] and with no entry set, appended to [grids], and
    nothing else changed; when it is odd, [new_tier] raises "Grid
    refinement not possible" and the mesh is as it was.  From a mesh
    constructed with spacing 6 the first call succeeds, to spacing 3, and
    the second fails; with spacing 8 three calls succeed, to 4, 2 and 1,
    and the fourth fails. *)
Theorem new_tier_spec :
  (forall m, reachable m ->
     (h_curr m * 2 ^ Z.of_nat (max_tier m) = spacing m)%Z /\
     (Z.even (h_curr m) = true ->
      exists g, new_tier m =
          (Ok tt, with_grids (grids m ++ [g])
                    (with_max_tier (max_tier m + 1) m)) /\
        g_spacing g = (h_curr m ÷ 2)%Z /\ (2 * g_spacing g = h_curr m)%Z /\
        empty_grid g) /\
     (Z.even (h_curr m) = false ->
      new_tier m = (Raise RefinementNotPossible, m))) /\
  (forall dim WS m0, MultiGrid_init dim 6 WS = Ok m0 ->
     exists m1, new_tier m0 = (Ok tt, m1) /\ h_curr m1 = 3%Z /\
       max_tier m1 = 1 /\ length (grids m1) = 2 /\
       new_tier m1 = (Raise RefinementNotPossible, m1)) /\
  (forall dim WS m0, MultiGrid_init dim 8 WS = Ok m0 ->
     exists m1 m2 m3,
       new_tier m0 = (Ok tt, m1) /\ h_curr m1 = 4%Z /\
       new_tier m1 = (Ok tt, m2) /\ h_curr m2 = 2%Z /\
       new_tier m2 = (Ok tt, m3) /\ h_curr m3 = 1%Z /\
       max_tier m3 = 3 /\ length (grids m3) = 4 /\
       new_tier m3 = (Raise RefinementNotPossible, m3)).
Proof.
  split_and!.
  - intros m Hr. destruct (reachable_Inv1 m Hr) as [_ Ht].
    destruct (h_curr_exact m Ht) as [Hex Hnz]. split_and!; [done| |].
    + intros Hev. destruct (new_tier_ok m Hnz Hev) as (g&E&Hg&He).
      exists g. split_and!; try done. rewrite Hg.
      apply Z.even_spec in Hev as [k ->].
      rewrite (Z.mul_comm 2 k), Z.quot_mul by done. lia.
    + apply new_tier_fail.
  - intros dim WS m0 E. destruct (MultiGrid_init_shape _ _ _ _ E) as [_ Hs].
    pose proof (is_spacing _ _ _ _ Hs) as Hsp.
    pose proof (is_max_tier _ _ _ _ Hs) as Hmt.
    destruct (is_grids _ _ _ _ Hs) as (g&Hg&_).
    destruct (new_tier_halves m0 3) as (m1&E1&Hs1&Hc1&Hm1&Hg1); [done| |].
    { by rewrite Hsp, Hmt. }
    exists m1. split_and!; try done.
    + lia.
    + rewrite Hg1, Hg. done.
    + by apply (new_tier_odd m1 3).
  - intros dim WS m0 E. destruct (MultiGrid_init_shape _ _ _ _ E) as [_ Hs].
    pose proof (is_spacing _ _ _ _ Hs) as Hsp.
    pose proof (is_max_tier _ _ _ _ Hs) as Hmt.
    destruct (is_grids _ _ _ _ Hs) as (g&Hg&_).
    destruct (new_tier_halves m0 4) as (m1&E1&Hs1&Hc1&Hm1&Hg1); [done| |].
    { by rewrite Hsp, Hmt. }
    destruct (new_tier_halves m1 2) as (m2&E2&Hs2&Hc2&Hm2&Hg2); [done| |].
    { rewrite Hs1. lia. }
    destruct (new_tier_halves m2 1) as (m3&E3&Hs3&Hc3&Hm3&Hg3); [done| |].
    { rewrite Hs2. lia. }
    exists m1, m2, m3. split_and!; try done.
    + lia.
    + rewrite Hg3, Hg2, Hg1, Hg. done.
    + by apply (new_tier_odd m3 1).
Qed.

Lemma new_tier_spec_witness :
  reachable ex_mesh0 /\
  (h_curr ex_mesh0 * 2 ^ Z.of_nat (max_tier ex_mesh0) = spacing ex_mesh0)%Z /\
  (exists m0, MultiGrid_init (12, 12)%Z 6 5 = Ok m0 /\
     exists m1, new_tier m0 = (Ok tt, m1) /\ h_curr m1 = 3%Z /\
       max_tier m1 = 1 /\ length (grids m1) = 2 /\
       new_tier m1 = (Raise RefinementNotPossible, m1)).
Proof.
  split; [exact ex_mesh0_reachable|]. split.
  - exact (proj1 (proj1 new_tier_spec ex_mesh0 ex_mesh0_reachable)).
  - destruct (MultiGrid_init_ok (12, 12)%Z 6 5 ltac:(done)) as (m0&E&_).
    exists m0. split; [exact E|].
    exact (proj1 (proj2 new_tier_spec) (12, 12)%Z 5%Z m0 E).
Defined.

(** ** Construction *)

(** C8, as stated, fails: a 4 x 4 image with spacing 8 has one grid point on
    each axis, and the constructor returns a mesh without cells. *)
Lemma construction_accepts_degenerate_input :
  n_rows_of (4, 4)%Z 8 < 2 /\ n_cols_of (4, 4)%Z 8 < 2 /\
  exists m, MultiGrid_init (4, 4)%Z 8 5 = Ok m /\ cells m = [] /\
            length (windows m) = 1.
Proof.
  split; [vm_compute; lia|]. split; [vm_compute; lia|].
  eexists. split; [vm_compute; reflexivity|]. done.
Qed.

(** C8, amended.  The constructor raises only for spacing 0, the
    [ZeroDivisionError] of [np.arange]; for every other spacing it
    returns a mesh, with [(n_rows - 1) * (n_cols - 1)] cells, which is no
    cell at all when an axis has fewer than two grid points. *)
Theorem construction_total dim sp WS :
  (sp = 0%Z -> MultiGrid_init dim sp WS = Raise ZeroDivisionError) /\
  (sp <> 0%Z ->
   exists m, MultiGrid_init dim sp WS = Ok m /\
     length (cells m) = (n_rows_of dim sp - 1) * (n_cols_of dim sp - 1) /\
     length (windows m) = n_rows_of dim sp * n_cols_of dim sp).
Proof.
  split.
  - intros ->. apply MultiGrid_init_zero.
  - intros Hsp. destruct (MultiGrid_init_ok dim sp WS Hsp) as (m&E&Hs).
    exists m. split_and!; [done| |].
    + by rewrite (is_cells _ _ _ _ Hs), length_seq.
    + by eapply init_shape_windows.
Qed.

Lemma construction_total_witness :
  exists m, MultiGrid_init (4, 4)%Z 2 5 = Ok m /\
    length (cells m) = (n_rows_of (4, 4)%Z 2 - 1) * (n_cols_of (4, 4)%Z 2 - 1) /\
    length (windows m) = n_rows_of (4, 4)%Z 2 * n_cols_of (4, 4)%Z 2.
Proof.
  apply (proj2 (construction_total (4, 4)%Z 2 5)). lia.
Defined.


(** ** Shared points *)

(** A 2 x 2 image with spacing 1: one cell, and no tier below the first.
    [split] of the cell raises, but leaves the four children behind, not
    linked to each other; [ex_phantom] is the store after the two bottom
    children were split in turn, which raises too. *)
Definition ex_odd : MultiGrid :=
  Eval vm_compute in
    match MultiGrid_init (2, 2)%Z 1 5 with
    | Ok m => m
    | _ => mkMultiGrid (0, 0)%Z 0 [] [] [] 0 0 []
    end.

Definition ex_phantom : MultiGrid :=
  Eval vm_compute in (split 2 (split 1 (split 0 ex_odd).2).2).2.

Lemma ex_phantom_reachable : reachable ex_phantom.
Proof.
  assert (H0 : reachable ex_odd).
  { apply (reach_init (2, 2)%Z 1 5). vm_compute. reflexivity. }
  assert (H1 : reachable (split 0 ex_odd).2).
  { apply (reach_split ex_odd 0 (split 0 ex_odd).1 _ H0); [vm_compute; lia|].
    by destruct (split 0 ex_odd). }
  assert (H2 : reachable (split 1 (split 0 ex_odd).2).2).
  { apply (reach_split _ 1 (split 1 (split 0 ex_odd).2).1 _ H1); [vm_compute; lia|].
    by destruct (split 1 _). }
  apply (reach_split _ 2 (split 2 (split 1 (split 0 ex_odd).2).2).1 _ H2).
  - vm_compute. lia.
  - vm_compute. reflexivity.
Qed.



(** ** [split_all_cells] *)









(** ** The growth of the mesh *)

(** A 5 x 9 image with spacing 4 has two cells side by side; [ex_wide1] is
    the mesh after the left one was split. *)
Definition ex_wide : MultiGrid :=
  Eval vm_compute in
    match MultiGrid_init (5, 9)%Z 4 5 with
    | Ok m => m
    | _ => mkMultiGrid (0, 0)%Z 0 [] [] [] 0 0 []
    end.

Definition ex_wide1 : MultiGrid := Eval vm_compute in (split 0 ex_wide).2.

Lemma ex_wide1_reachable : reachable ex_wide1.
Proof.
  assert (H0 : reachable ex_wide).
  { apply (reach_init (5, 9)%Z 4 5). vm_compute. reflexivity. }
  apply (reach_split ex_wide 0 (Ok tt) _ H0); [vm_compute; lia|].
  vm_compute. reflexivity.
Qed.

(** C4, as stated, fails.  Cell 3 of [ex_wide1], the bottom-right child of
    the left cell, is a leaf; its [split] first splits the right cell, the
    neighbour of its parent, and the one call takes the mesh from 5 leaves
    to 11 and from 11 windows to 20. *)
Lemma split_with_cascade_grows_more :
  children (cell ex_wide1 3) = None /\
  n_leaves ex_wide1 = 5 /\ length (windows ex_wide1) = 11 /\
  exists m2, split 3 ex_wide1 = (Ok tt, m2) /\
             n_leaves m2 = 11 /\ length (windows m2) = 20.
Proof.
  split; [vm_compute; reflexivity|]. split; [vm_compute; reflexivity|].
  split; [vm_compute; reflexivity|].
  eexists. split; [vm_compute; reflexivity|]. split; vm_compute; reflexivity.
Qed.

(** C4, amended.  A call of [split] on a leaf of a reachable mesh splits
    that cell and, before it, the neighbours of its parent that the cell
    lacks.  Each cell that is split adds three leaves and one to five
    windows: with [k] cells split the mesh has [3 k] more leaves and
    between [k] and [5 k] more windows, and [k] is at least 1 when the
    call returns.  When no neighbour has to be split first, as for every
    cell of tier 0, the call, whether it returns or raises after the
    children were made, replaces the cell by its four children in the list
    of leaves and appends five windows less one for each side on which
    the neighbour has children already. *)
Theorem split_growth m self r m' :
  reachable m -> self < length (heap m) -> children (cell m self) = None ->
  split self m = (r, m') ->
  (exists k,
     n_leaves m' = n_leaves m + 3 * k /\
     length (windows m) + k <= length (windows m') <= length (windows m) + 5 * k /\
     (r = Ok tt -> 1 <= k)) /\
  (no_cascade m self ->
     n_leaves m' = n_leaves m + 3 /\ leaf_step m self m' /\
     length (windows m') + shared_sides m self = length (windows m) + 5 /\
     length (windows m) + 1 <= length (windows m') <= length (windows m) + 5).
Proof.
  intros Hr Hself Hleaf E. split.
  - destruct (split_growth_general m self r m' Hr Hself Hleaf E) as (k&[H1 H2 H3]&Hk).
    exists k. split_and!; done.
  - intros Hq.
    destruct (split_growth_quiet m self r m' Hr Hself Hleaf Hq E) as [Hs Hw].
    pose proof (shared_sides_le m self).
    split_and!; [by apply (leaf_step_count m self)|done|done|lia|lia].
Qed.

Lemma split_growth_witness :
  n_leaves ex_mesh1 = n_leaves ex_mesh0 + 3 /\
  leaf_step ex_mesh0 0 ex_mesh1 /\
  length (windows ex_mesh1) + shared_sides ex_mesh0 0 =
    length (windows ex_mesh0) + 5 /\
  length (windows ex_mesh0) + 1 <= length (windows ex_mesh1)
    <= length (windows ex_mesh0) + 5.
Proof.
  refine (proj2 (split_growth ex_mesh0 0 (Ok tt) ex_mesh1
                   ex_mesh0_reachable _ _ ex_mesh1_split) _).
  - vm_compute. lia.
  - vm_compute. reflexivity.
  - left. vm_compute. reflexivity.
Defined.


(** * Further properties of the mesh *)

(** X1 ([get_all_leaf_cells]).  On a reachable mesh the recursion over
    the children comes to an end, and the list it returns holds every cell
    object without children, each exactly once, whether the cell is
    registered in [cells] or not. *)
Theorem leaf_list_complete m :
  reachable m ->
  exists l, get_all_leaf_cells m = Some l /\ NoDup l /\
    forall x, x ∈ l <-> (x < length (heap m) /\ children (cell m x) = None).
Proof. intros Hr. exact (reachable_leaves m Hr). Qed.

Lemma leaf_list_complete_witness :
  reachable ex_mesh1 /\
  exists l, get_all_leaf_cells ex_mesh1 = Some l /\ NoDup l /\
    forall x, x ∈ l <->
      (x < length (heap ex_mesh1) /\ children (cell ex_mesh1 x) = None).
Proof.
  split; [exact ex_mesh1_reachable|].
  exact (leaf_list_complete ex_mesh1 ex_mesh1_reachable).
Defined.

(** X2 (tiling).  On a reachable mesh every point of the rectangle that
    the grid points of the top tier span, from the origin to the last
    grid point on each axis, lies in the half-open rectangle of exactly
    one of the cells [get_all_leaf_cells] returns. *)
Theorem leaves_tile_grid m p :
  reachable m -> in_grid m p ->
  exists l c, get_all_leaf_cells m = Some l /\ c ∈ l /\ covers m c p /\
    forall c', c' ∈ l -> covers m c' p -> c' = c.
Proof.
  intros Hr Hp. destruct (reachable_Inv3 m Hr) as ([_ (l&E&_&Hin)]&_&Ht).
  destruct (Ht p Hp) as (c&Hl&Hc&Hu).
  exists l, c. split_and!; [done|by apply Hin|done|].
  intros c' Hc' Hcov. apply Hu; [by apply Hin|done].
Qed.

Lemma leaves_tile_grid_witness :
  reachable ex_mesh1 /\ in_grid ex_mesh1 (1, 1 # 2)%Q /\
  exists l c, get_all_leaf_cells ex_mesh1 = Some l /\ c ∈ l /\
    covers ex_mesh1 c (1, 1 # 2)%Q /\
    forall c', c' ∈ l -> covers ex_mesh1 c' (1, 1 # 2)%Q -> c' = c.
Proof.
  assert (Hg : in_grid ex_mesh1 (1, 1 # 2)%Q).
  { vm_compute. repeat split; discriminate. }
  split; [exact ex_mesh1_reachable|]. split; [exact Hg|].
  exact (leaves_tile_grid ex_mesh1 (1, 1 # 2)%Q ex_mesh1_reachable Hg).
Defined.

(** Two points with equal coordinates. *)
Definition same_point (p q : Q * Q) : Prop := fst p == fst q /\ snd p == snd q.

(** X3 ([coordinates]).  On a reachable mesh the four corners a cell
    reports, anticlockwise from the bottom left, are the corners of a
    rectangle with sides parallel to the axes. *)
Theorem cells_are_rectangles m c :
  reachable m -> c < length (heap m) ->
  exists x0 x1 y0 y1,
    Forall2 same_point (coordinates m (cell m c))
      [(x0, y0); (x1, y0); (x1, y1); (x0, y1)].
Proof.
  intros Hr Hc. destruct (reachable_Inv3 m Hr) as (_&[Hrect _]&_).
  destruct (Hrect c Hc) as ([_ H1]&[H2 _]&[H3 H4]).
  exists (cell_x0 m (cell m c)), (cell_x1 m (cell m c)),
         (cell_y0 m (cell m c)), (cell_y1 m (cell m c)).
  unfold coordinates.
  repeat (apply Forall2_cons; [split; simpl; try done; reflexivity|]).
  apply Forall2_nil.
Qed.

Lemma cells_are_rectangles_witness :
  reachable ex_mesh1 /\ 3 < length (heap ex_mesh1) /\
  exists x0 x1 y0 y1,
    Forall2 same_point (coordinates ex_mesh1 (cell ex_mesh1 3))
      [(x0, y0); (x1, y0); (x1, y1); (x0, y1)].
Proof.
  assert (Hc : 3 < length (heap ex_mesh1)) by (vm_compute; lia).
  split; [exact ex_mesh1_reachable|]. split; [exact Hc|].
  exact (cells_are_rectangles ex_mesh1 3 ex_mesh1_reachable Hc).
Defined.

(** X4 (children).  On a reachable mesh the rectangles of the four
    children of a cell are the quarters of its rectangle, cut at the
    middle of its sides: bottom left, bottom right, top left and top
    right. *)
Theorem children_are_quarters m p ch :
  reachable m -> children (cell m p) = Some ch ->
  let c := cell m p in
  (cell_x0 m (cell m (ch_bl ch)) == cell_x0 m c /\
   cell_x1 m (cell m (ch_bl ch)) == cell_xm m c /\
   cell_y0 m (cell m (ch_bl ch)) == cell_y0 m c /\
   cell_y1 m (cell m (ch_bl ch)) == cell_ym m c) /\
  (cell_x0 m (cell m (ch_br ch)) == cell_xm m c /\
   cell_x1 m (cell m (ch_br ch)) == cell_x1 m c /\
   cell_y0 m (cell m (ch_br ch)) == cell_y0 m c /\
   cell_y1 m (cell m (ch_br ch)) == cell_ym m c) /\
  (cell_x0 m (cell m (ch_tl ch)) == cell_x0 m c /\
   cell_x1 m (cell m (ch_tl ch)) == cell_xm m c /\
   cell_y0 m (cell m (ch_tl ch)) == cell_ym m c /\
   cell_y1 m (cell m (ch_tl ch)) == cell_y1 m c) /\
  (cell_x0 m (cell m (ch_tr ch)) == cell_xm m c /\
   cell_x1 m (cell m (ch_tr ch)) == cell_x1 m c /\
   cell_y0 m (cell m (ch_tr ch)) == cell_ym m c /\
   cell_y1 m (cell m (ch_tr ch)) == cell_y1 m c).
Proof.
  intros Hr Hch. destruct (reachable_Inv3 m Hr) as (H2&Hg&_).
  exact (child_boxes m p ch (Inv2_wf _ H2) Hg Hch).
Qed.

Lemma children_are_quarters_witness :
  reachable ex_mesh1 /\
  exists ch, children (cell ex_mesh1 0) = Some ch /\
    cell_x1 ex_mesh1 (cell ex_mesh1 (ch_bl ch)) ==
      cell_xm ex_mesh1 (cell ex_mesh1 0).
Proof.
  split; [exact ex_mesh1_reachable|].
  assert (Hch : children (cell ex_mesh1 0) = Some (mkChildren 1 2 3 4)).
  { vm_compute. reflexivity. }
  exists (mkChildren 1 2 3 4). split; [exact Hch|].
  exact (proj1 (proj2 (proj1
    (children_are_quarters ex_mesh1 0 _ ex_mesh1_reachable Hch)))).
Defined.

(** X5 ([split] only adds).  Whatever its outcome, a call of [split] on
    a reachable mesh keeps the windows, the registered cells and the
    objects that were there, in their places: the old lists are prefixes
    of the new ones, an object keeps its four windows, its tier, its grid
    position and its parent, a cell that had children keeps them, and
    [max_tier] does not go down. *)
Theorem split_only_adds m c r m' :
  reachable m -> c < length (heap m) -> split c m = (r, m') -> extends m m'.
Proof.
  intros Hr Hc E.
  exact (sp_ext _ _ _ _ _
    (split_post_inv Inv1 (fun m H => proj1 H) Inv1_body m c r m'
       (reachable_Inv1 m Hr) Hc E)).
Qed.

Lemma split_only_adds_witness : extends ex_mesh0 ex_mesh1.
Proof.
  refine (split_only_adds ex_mesh0 0 (Ok tt) ex_mesh1 ex_mesh0_reachable _
            ex_mesh1_split).
  vm_compute. lia.
Defined.

(** X6 (neighbours).  On a reachable mesh a neighbour link leads to
    another cell object of the same tier, and the two cells have the two
    windows at the ends of their common edge in common. *)
Theorem neighbours_share_edge m a b :
  reachable m ->
  (north (cell m a) = Some b ->
   a <> b /\ b < length (heap m) /\ tier (cell m b) = tier (cell m a) /\
   id_bl (cell m b) = id_tl (cell m a) /\ id_br (cell m b) = id_tr (cell m a)) /\
  (east (cell m a) = Some b ->
   a <> b /\ b < length (heap m) /\ tier (cell m b) = tier (cell m a) /\
   id_bl (cell m b) = id_br (cell m a) /\ id_tl (cell m b) = id_tr (cell m a)).
Proof.
  intros Hr. pose proof (reachable_HeapWF m Hr) as Hwf. split; intros Hab.
  - pose proof (wf_nb_ids _ Hwf NS a b Hab) as [= H1 H2]. split_and!; try done.
    + intros ->. exact (wf_noloop _ Hwf NS b Hab).
    + exact (Sym_out_valid m NS a b (wf_sym _ Hwf) Hab).
    + exact (wf_nb_tier _ Hwf NS a b Hab).
  - pose proof (wf_nb_ids _ Hwf EW a b Hab) as [= H1 H2]. split_and!; try done.
    + intros ->. exact (wf_noloop _ Hwf EW b Hab).
    + exact (Sym_out_valid m EW a b (wf_sym _ Hwf) Hab).
    + exact (wf_nb_tier _ Hwf EW a b Hab).
Qed.

Lemma neighbours_share_edge_witness :
  reachable ex_mesh1 /\
  (1 <> 3 /\ 3 < length (heap ex_mesh1) /\
   tier (cell ex_mesh1 3) = tier (cell ex_mesh1 1) /\
   id_bl (cell ex_mesh1 3) = id_tl (cell ex_mesh1 1) /\
   id_br (cell ex_mesh1 3) = id_tr (cell ex_mesh1 1)).
Proof.
  split; [exact ex_mesh1_reachable|].
  apply (proj1 (neighbours_share_edge ex_mesh1 1 3 ex_mesh1_reachable)).
  vm_compute. reflexivity.
Defined.

(** X7 (parents and children).  On a reachable mesh the children of a
    cell are four objects made one after the other, after the cell; they
    are one tier below it, point back to it, and share its corner windows
    and five more as [split] lays them out.  Every object is a cell of
    the top tier, of tier 0 and without parent, or a child of the cell
    its [parent] names; and the four windows of every object are entries
    of the window list. *)
Theorem family_structure m :
  reachable m ->
  (forall p ch, children (cell m p) = Some ch -> child_shape m p ch) /\
  (forall c, c < length (heap m) ->
     match parent (cell m c) with
     | None => tier (cell m c) = 0 /\ c < cells_in_top_tier m
     | Some p => exists ch, children (cell m p) = Some ch /\ is_child ch c
     end) /\
  (forall c, c < length (heap m) ->
     id_bl (cell m c) < length (windows m) /\
     id_br (cell m c) < length (windows m) /\
     id_tl (cell m c) < length (windows m) /\
     id_tr (cell m c) < length (windows m)).
Proof.
  intros Hr. pose proof (reachable_HeapWF m Hr) as Hwf. split_and!.
  - exact (wf_children _ Hwf).
  - exact (wf_parent _ Hwf).
  - exact (wf_ids _ Hwf).
Qed.

Lemma family_structure_witness :
  reachable ex_mesh1 /\
  (forall p ch, children (cell ex_mesh1 p) = Some ch -> child_shape ex_mesh1 p ch).
Proof.
  split; [exact ex_mesh1_reachable|].
  exact (proj1 (family_structure ex_mesh1 ex_mesh1_reachable)).
Defined.


(** X8 (the constructor's layout).  When [MultiGrid(img_dim, spacing, WS)]
    returns, the windows are the grid points row by row, the point of
    row [r] and column [c] at [(c * spacing, r * spacing)] with window
    size [WS]; the cells are numbered row by row too, one per square of
    four grid points, each with its four corner windows, tier 0, its grid
    position, no children, no parent, and the cells next to it in the row
    and in the column as neighbours, none at the border; all of them are
    registered, and they are the top tier. *)
Theorem constructor_layout dim sp WS m :
  MultiGrid_init dim sp WS = Ok m ->
  let nr := n_rows_of dim sp in
  let nc := n_cols_of dim sp in
  length (windows m) = nr * nc /\
  (forall r c, r < nr -> c < nc ->
     windows m !!! (r * nc + c) =
       mkCorrWindow (inject_Z (Z.of_nat c * sp)) (inject_Z (Z.of_nat r * sp)) WS) /\
  length (heap m) = (nr - 1) * (nc - 1) /\
  cells m = seq 0 ((nr - 1) * (nc - 1)) /\
  cells_in_top_tier m = (nr - 1) * (nc - 1) /\
  max_tier m = 0 /\
  (forall rr cc, rr < nr - 1 -> cc < nc - 1 ->
     cell m (rr * (nc - 1) + cc) = top_cell nc (nr - 1) (nc - 1) rr cc).
Proof.
  intros E. destruct (MultiGrid_init_shape dim sp WS m E) as [Hsp Hs].
  cbv zeta. split_and!.
  - rewrite (is_windows _ _ _ _ Hs), init_windows_length, !axis_length. done.
  - intros r c Hr Hc. by apply (init_window dim sp WS m Hs).
  - exact (is_heap _ _ _ _ Hs).
  - exact (is_cells _ _ _ _ Hs).
  - exact (is_top _ _ _ _ Hs).
  - exact (is_max_tier _ _ _ _ Hs).
  - exact (is_cell _ _ _ _ Hs).
Qed.

Lemma constructor_layout_witness :
  length (windows ex_mesh0) = 2 * 2 /\ cells ex_mesh0 = [0] /\
  cell ex_mesh0 0 = top_cell 2 1 1 0 0.
Proof.
  assert (E : MultiGrid_init (4, 4)%Z 2 5 = Ok ex_mesh0).
  { vm_compute. reflexivity. }
  pose proof (constructor_layout (4, 4)%Z 2 5 ex_mesh0 E) as H.
  cbv zeta in H.
  change (n_rows_of (4, 4)%Z 2) with 2 in H.
  change (n_cols_of (4, 4)%Z 2) with 2 in H.
  destruct H as (H1&_&_&H4&_&_&H7).
  split; [exact H1|]. split; [exact H4|]. apply (H7 0 0); lia.
Defined.

(** X9 (the loop of [adaptive_split_peak_value_cells]).  The loop over
    the ranked cells never lets an exception of [split] out and always
    comes to an end: started on a reachable mesh with cells of that mesh,
    it returns, in a reachable mesh in which everything that was there
    is kept.  The counter it returns went up by the number of cells at
    most, and a counter that starts below the quota does not pass it. *)
Theorem adaptive_loop_catches lc : forall m k mx,
  reachable m -> Forall (fun c => c < length (heap m)) lc ->
  exists n m', adaptive_loop lc k mx m = (Ok n, m') /\
    reachable m' /\ extends m m' /\
    k <= n <= k + length lc /\ (k < mx -> n <= mx).
Proof.
  induction lc as [|c lc IH]; intros m k mx Hr Hlc.
  - exists k, m. simpl. split_and!; try done; lia.
  - apply list.Forall_cons in Hlc as [Hc Hlc]. cbn [adaptive_loop].
    destruct (split c m) as [r m1] eqn:E.
    pose proof (reach_split m c r m1 Hr Hc E) as Hr1.
    pose proof (split_post_inv Inv1 (fun m H => proj1 H) Inv1_body m c r m1
                  (reachable_Inv1 m Hr) Hc E) as [Hf _ _ He _].
    assert (Hlc1 : Forall (fun c => c < length (heap m1)) lc).
    { eapply list.Forall_impl; [exact Hlc|]. intros x Hx. simpl in Hx.
      pose proof (ext_heap _ _ He). lia. }
    destruct r as [[]|e|]; [| |done].
    + case_decide as Hd.
      * exists (k + 1), m1. simpl. split_and!; try done; lia.
      * destruct (IH m1 (k + 1) mx Hr1 Hlc1) as (n&m'&->&Hr'&He'&Hn&Hq).
        exists n, m'. simpl. split_and!; try done; try lia.
        by eapply extends_trans.
    + destruct (IH m1 k mx Hr1 Hlc1) as (n&m'&->&Hr'&He'&Hn&Hq).
      exists n, m'. simpl. split_and!; try done; try lia.
      by eapply extends_trans.
Qed.

Lemma adaptive_loop_catches_witness :
  exists n m', adaptive_loop [0; 0] 0 1 ex_mesh0 = (Ok n, m') /\
    reachable m' /\ extends ex_mesh0 m' /\ 0 <= n <= 0 + 2 /\ (0 < 1 -> n <= 1).
Proof.
  apply (adaptive_loop_catches [0; 0] ex_mesh0 0 1 ex_mesh0_reachable).
  repeat constructor.
Defined.


(** X10 (the errors of [split]).  On a reachable mesh a call of [split],
    on any cell object, comes to an end, and it either returns or raises
    one of its own two errors, "This cell has already been split" or
    "Grid refinement not possible": no index is out of range in the grids
    or in the window list, no [None] is dereferenced, and no grid is made
    with spacing 0. *)
Theorem split_raises_only_its_errors m c r m' :
  reachable m -> c < length (heap m) -> split c m = (r, m') ->
  r = Ok tt \/ r = Raise AlreadySplit \/ r = Raise RefinementNotPossible.
Proof.
  intros Hr Hc E.
  pose proof (split_post_inv Inv1 (fun m H => proj1 H) Inv1_body m c r m'
                (reachable_Inv1 m Hr) Hc E) as [Hf _ _ _ _].
  destruct r as [[]|e|]; [by left| |done].
  destruct (split_raises m c e m' Hr Hc E) as [-> | ->]; auto.
Qed.

Lemma split_raises_only_its_errors_witness :
  split 0 ex_odd = (Raise RefinementNotPossible, (split 0 ex_odd).2) /\
  ((split 0 ex_odd).1 = Ok tt \/ (split 0 ex_odd).1 = Raise AlreadySplit \/
   (split 0 ex_odd).1 = Raise RefinementNotPossible).
Proof.
  split; [vm_compute; reflexivity|].
  apply (split_raises_only_its_errors ex_odd 0 _ (split 0 ex_odd).2).
  - apply (reach_init (2, 2)%Z 1 5). vm_compute. reflexivity.
  - vm_compute. lia.
  - by destruct (split 0 ex_odd).
Defined.

(** X11 (when [split] returns).  On a reachable mesh, [split] on a
    registered cell that has children raises "already split" and changes
    nothing.  On a registered leaf it returns when the tier of the cell is
    less than [max_tier] or the spacing of the deepest tier is even, and
    raises "Grid refinement not possible" otherwise, whatever neighbours
    are split first; in both cases the cell has children afterwards: a
    split that raises there is not undone. *)
Theorem split_outcome m c r m' :
  reachable m -> c ∈ cells m -> split c m = (r, m') ->
  (is_Some (children (cell m c)) -> r = Raise AlreadySplit /\ m' = m) /\
  (children (cell m c) = None ->
     (can_refine m c -> r = Ok tt) /\
     (~ can_refine m c -> r = Raise RefinementNotPossible) /\
     is_Some (children (cell m' c))).
Proof.
  intros Hr Hc E. pose proof (reachable_Inv5 m Hr) as Hinv.
  pose proof (reachable_valid_cells m c Hr Hc) as Hv. split.
  - intros [ch Hch]. revert E. rewrite split_eq. unfold has_children.
    rewrite Hch. by intros [= <- <-].
  - intros Hleaf. destruct Hinv as (H4&HC&HR).
    apply (split_shallow_outcome m c r m'); try done. by apply HR.
Qed.

Lemma split_outcome_witness :
  can_refine ex_mesh0 0 /\ ~ can_refine ex_odd 0 /\
  (split 0 ex_mesh0).1 = Ok tt /\
  (split 0 ex_odd).1 = Raise RefinementNotPossible /\
  is_Some (children (cell (split 0 ex_odd).2 0)).
Proof.
  assert (C0 : can_refine ex_mesh0 0) by (right; vm_compute; reflexivity).
  assert (C1 : ~ can_refine ex_odd 0).
  { intros [H|H]; vm_compute in H; [lia|discriminate]. }
  assert (R1 : reachable ex_odd).
  { apply (reach_init (2, 2)%Z 1 5). vm_compute. reflexivity. }
  assert (I0 : 0 ∈ cells ex_mesh0) by (vm_compute; left).
  assert (I1 : 0 ∈ cells ex_odd) by (vm_compute; left).
  assert (L0 : children (cell ex_mesh0 0) = None) by (vm_compute; reflexivity).
  assert (L1 : children (cell ex_odd 0) = None) by (vm_compute; reflexivity).
  assert (E0 : split 0 ex_mesh0 = ((split 0 ex_mesh0).1, (split 0 ex_mesh0).2))
    by (by destruct (split 0 ex_mesh0)).
  assert (E1 : split 0 ex_odd = ((split 0 ex_odd).1, (split 0 ex_odd).2))
    by (by destruct (split 0 ex_odd)).
  pose proof (proj2 (split_outcome ex_mesh0 0 _ _ ex_mesh0_reachable I0 E0) L0)
    as (A0&_&_).
  pose proof (proj2 (split_outcome ex_odd 0 _ _ R1 I1 E1) L1) as (_&B1&B2).
  split; [exact C0|]. split; [exact C1|]. split; [exact (A0 C0)|].
  split; [exact (B1 C1)|exact B2].
Defined.

(** X12 (the grids).  On a reachable mesh there is one grid for each
    tier up to the deepest; the spacing of tier [t] is the base spacing
    divided by [2 ^ t], without remainder, and the grid of the tier has
    the rows and columns [Grid.__init__] makes for that spacing.  The
    grid position of every registered cell, and the position one further
    in each direction, are entries of the grid of its tier. *)
Theorem grids_match_tiers m :
  reachable m ->
  length (grids m) = max_tier m + 1 /\
  (forall t g, grids m !! t = Some g ->
     (h_tier m t * 2 ^ Z.of_nat t = spacing m)%Z /\
     grid_shape (n_rows_of (img_dim m) (h_tier m t))
                (n_cols_of (img_dim m) (h_tier m t)) g) /\
  (forall c, c ∈ cells m ->
     tier (cell m c) <= max_tier m /\
     ix (cell m c) + 1 < n_cols_of (img_dim m) (h_tier m (tier (cell m c))) /\
     iy (cell m c) + 1 < n_rows_of (img_dim m) (h_tier m (tier (cell m c)))).
Proof.
  intros Hr. destruct (reachable_Inv5 m Hr) as (([Hwf Hti]&HP&[Hl HG]&_)&_&HR).
  split_and!; [done| |].
  - intros t g Hg. split; [|by apply HG].
    apply h_tier_exact; [done|]. apply lookup_lt_Some in Hg. lia.
  - intros c Hc. pose proof (HR c Hc) as Ht.
    destruct (HP c (reachable_valid_cells m c Hr Hc)) as [Hx Hy].
    split_and!; [done|by apply before_end_tier..].
Qed.

Lemma grids_match_tiers_witness :
  length (grids ex_mesh1) = max_tier ex_mesh1 + 1 /\
  forall c, c ∈ cells ex_mesh1 ->
    tier (cell ex_mesh1 c) <= max_tier ex_mesh1 /\
    ix (cell ex_mesh1 c) + 1 <
      n_cols_of (img_dim ex_mesh1) (h_tier ex_mesh1 (tier (cell ex_mesh1 c))) /\
    iy (cell ex_mesh1 c) + 1 <
      n_rows_of (img_dim ex_mesh1) (h_tier ex_mesh1 (tier (cell ex_mesh1 c))).
Proof.
  pose proof (grids_match_tiers ex_mesh1 ex_mesh1_reachable) as (H1&_&H3).
  split; [exact H1|exact H3].
Defined.


(** ** Uniform refinement of a new mesh *)

(** [split] on a leaf of the top tier. *)
Lemma split_top_leaf m c r m' :
  reachable m -> c < length (heap m) -> children (cell m c) = None ->
  tier (cell m c) = 0 -> split c m = (r, m') ->
  (can_refine m c ->
     r = Ok tt /\ 0 < max_tier m' /\ length (cells m') = length (cells m) + 4) /\
  (~ can_refine m c ->
     r = Raise RefinementNotPossible /\ cells m' = cells m) /\
  extends m m' /\ is_Some (children (cell m' c)) /\
  (forall x, x <> c -> x < length (heap m) ->
     children (cell m' x) = children (cell m x)).
Proof.
  intros Hr Hc Hleaf Ht. rewrite split_eq. unfold has_children. rewrite Hleaf.
  rewrite (cascade_quiet m c (or_introl Ht)). intros E.
  destruct (reachable_Inv5 m Hr) as (H4&_). pose proof (Inv4_wf _ H4) as Hwf.
  destruct (split_body_outcome m c H4 Hc Hleaf r m' E) as (_&Hok&Hno).
  pose proof (split_body_post m c Hwf Hc Hleaf r m' E) as Hp.
  destruct (body_post_extends m c r m' Hc Hleaf Hp) as (He&Hother&Hch&_).
  pose proof (bp_cells _ _ _ _ Hp) as Hcs.
  split_and!; try done.
  - intros Hcan. destruct (Hok Hcan) as [-> Hm]. split_and!; [done|lia|].
    rewrite Hcs. cbn [is_ok]. rewrite length_app. simpl. lia.
  - intros Hcan. destruct (Hno Hcan) as [-> _]. done.
Qed.

Lemma for_each_split_top l : forall m,
  reachable m -> NoDup l ->
  (forall c, c ∈ l -> c < length (heap m) /\ children (cell m c) = None /\
                       tier (cell m c) = 0) ->
  0 < max_tier m \/ Z.even (h_curr m) = true ->
  exists m', for_each l split m = (Ok tt, m') /\ reachable m' /\
    extends m m' /\
    length (cells m') = length (cells m) + 4 * length l /\
    (l <> [] -> 0 < max_tier m') /\
    forall c, c ∈ l -> is_Some (children (cell m' c)).
Proof.
  induction l as [|c l IH]; intros m Hr Hnd Hl Hcan.
  - exists m. split_and!; try done; try (simpl; lia).
    intros c Hc. by apply elem_of_nil in Hc.
  - apply list.NoDup_cons in Hnd as [Hnin Hnd].
    destruct (Hl c ltac:(by left)) as (Hc&Hleaf&Ht).
    cbn [for_each]. unfold bind. destruct (split c m) as [r m1] eqn:E.
    pose proof (reach_split m c r m1 Hr Hc E) as Hr1.
    destruct (split_top_leaf m c r m1 Hr Hc Hleaf Ht E) as (Hok&_&He&Hch&Hother).
    destruct Hok as (->&Hm1&Hc1).
    { unfold can_refine. rewrite Ht. tauto. }
    destruct (IH m1 Hr1 Hnd) as (m'&->&Hr'&He'&Hlen&_&Hall).
    + intros x Hx. destruct (Hl x ltac:(by right)) as (Hx1&Hx2&Hx3).
      assert (x <> c) by (by intros ->).
      split_and!.
      * pose proof (ext_heap _ _ He). lia.
      * by rewrite Hother.
      * by destruct (ext_old _ _ He x Hx1) as (_&_&_&_&->&_).
    + by left.
    + exists m'. split_and!; try done.
      * by eapply extends_trans.
      * rewrite Hlen, Hc1. simpl. lia.
      * intros _. pose proof (ext_max_tier _ _ He'). lia.
      * intros x [->|Hx]%elem_of_cons; [|by apply Hall].
        destruct Hch as [ch Hch]. exists ch.
        exact (ext_children _ _ He' c ch Hch).
Qed.

(** X13 (refining a new mesh).  On the mesh the constructor returned,
    [split_all_cells] returns when the spacing is even: every cell of the
    top tier then has children, four more cells are registered for each,
    and, when there is a cell at all, [max_tier] is above 0.  When the
    spacing is odd and the mesh has a cell, it raises "Grid refinement
    not possible" at the first cell, with no cell registered. *)
Theorem split_all_cells_new_mesh dim sp WS m :
  MultiGrid_init dim sp WS = Ok m ->
  (Z.even sp = true ->
   exists m', split_all_cells m = (Ok tt, m') /\
     n_cells m' = 5 * n_cells m /\
     (cells m <> [] -> 0 < max_tier m') /\
     forall c, c ∈ cells m -> is_Some (children (cell m' c))) /\
  (Z.even sp = false -> cells m <> [] ->
   exists m', split_all_cells m = (Raise RefinementNotPossible, m') /\
     n_cells m' = n_cells m).
Proof.
  intros E. pose proof (reach_init dim sp WS m E) as Hr.
  destruct (MultiGrid_init_shape dim sp WS m E) as [Hsp Hs].
  rewrite (split_all_cells_eq m Hr).
  assert (Hh : h_curr m = sp).
  { unfold h_curr. rewrite (is_spacing _ _ _ _ Hs), (is_max_tier _ _ _ _ Hs).
    change (2 ^ Z.of_nat 0)%Z with 1%Z. apply Z.quot_1_r. }
  assert (Hcell : forall c, c ∈ cells m ->
    c < length (heap m) /\ children (cell m c) = None /\ tier (cell m c) = 0).
  { intros c Hc. pose proof (reachable_valid_cells m c Hr Hc) as Hv.
    split; [done|]. rewrite (is_heap _ _ _ _ Hs) in Hv.
    destruct (top_decomp _ _ _ Hv) as (rr&cc&->&Hrr&Hcc).
    by rewrite (is_cell _ _ _ _ Hs). }
  split.
  - intros Hev.
    destruct (for_each_split_top (cells m) m Hr) as (m'&->&_&_&Hlen&Hmt&Hall).
    + rewrite (is_cells _ _ _ _ Hs). apply NoDup_seq.
    + done.
    + right. by rewrite Hh.
    + exists m'. split_and!; try done; unfold n_cells; lia.
  - intros Hev Hne. destruct (cells m) as [|c l] eqn:Hcs; [done|].
    destruct (Hcell c ltac:(by left)) as (Hc&Hleaf&Ht).
    cbn [for_each]. unfold bind. destruct (split c m) as [r m1] eqn:E1.
    destruct (split_top_leaf m c r m1 Hr Hc Hleaf Ht E1) as (_&Hno&_).
    destruct Hno as [-> Hc1].
    { unfold can_refine. rewrite Ht, (is_max_tier _ _ _ _ Hs), Hh, Hev.
      intros [?|?]; [lia|done]. }
    exists m1. split; [done|]. unfold n_cells. by rewrite Hc1, Hcs.
Qed.

Lemma split_all_cells_new_mesh_witness :
  exists m', split_all_cells ex_mesh0 = (Ok tt, m') /\
    n_cells m' = 5 * n_cells ex_mesh0 /\
    (cells ex_mesh0 <> [] -> 0 < max_tier m') /\
    forall c, c ∈ cells ex_mesh0 -> is_Some (children (cell m' c)).
Proof.
  assert (E : MultiGrid_init (4, 4)%Z 2 5 = Ok ex_mesh0).
  { vm_compute. reflexivity. }
  apply (proj1 (split_all_cells_new_mesh (4, 4)%Z 2 5 ex_mesh0 E)).
  reflexivity.
Defined.


(** X14 (the links of the children).  On a reachable mesh, the children
    of a cell above the deepest tier are linked to each other, and, on
    every side on which the neighbour of the cell has children too, to
    those children across the common edge: the top-left child to the
    bottom-left child of the neighbour to the north, and so on.  The
    links to the south and to the west are the same links, seen from the
    other cell. *)
Theorem children_fully_linked m p ch :
  reachable m -> children (cell m p) = Some ch ->
  tier (cell m p) < max_tier m ->
  (north (cell m (ch_bl ch)) = Some (ch_tl ch) /\
   east (cell m (ch_bl ch)) = Some (ch_br ch) /\
   north (cell m (ch_br ch)) = Some (ch_tr ch) /\
   east (cell m (ch_tl ch)) = Some (ch_tr ch)) /\
  (forall n nc, north (cell m p) = Some n -> children (cell m n) = Some nc ->
     north (cell m (ch_tl ch)) = Some (ch_bl nc) /\
     north (cell m (ch_tr ch)) = Some (ch_br nc)) /\
  (forall n nc, east (cell m p) = Some n -> children (cell m n) = Some nc ->
     east (cell m (ch_br ch)) = Some (ch_bl nc) /\
     east (cell m (ch_tr ch)) = Some (ch_tl nc)).
Proof.
  intros Hr Hch Ht. destruct (reachable_Inv5 m Hr) as (_&HC&_).
  destruct (HC p ch Hch Ht) as [Hin Hout]. split; [|split].
  - exact Hin.
  - intros n nc Hn Hnc. exact (Hout NS n nc Hn Hnc).
  - intros n nc Hn Hnc. exact (Hout EW n nc Hn Hnc).
Qed.

Lemma children_fully_linked_witness :
  north (cell ex_mesh1 1) = Some 3 /\ east (cell ex_mesh1 1) = Some 2 /\
  north (cell ex_mesh1 2) = Some 4 /\ east (cell ex_mesh1 3) = Some 4.
Proof.
  assert (Hch : children (cell ex_mesh1 0) = Some (mkChildren 1 2 3 4)).
  { vm_compute. reflexivity. }
  assert (Ht : tier (cell ex_mesh1 0) < max_tier ex_mesh1) by (vm_compute; lia).
  exact (proj1 (children_fully_linked ex_mesh1 0 _ ex_mesh1_reachable Hch Ht)).
Defined.

(** X15 (the cell [split_neighbs_if_needed] splits).  On a reachable mesh,
    when a registered cell has no neighbour on a side and its parent has
    one there, that neighbour of the parent is a leaf, one tier above the
    cell: the call of [split] on it does not raise "already split". *)
Theorem cascade_splits_a_leaf m c side p pn :
  reachable m -> c ∈ cells m ->
  side = north \/ side = east \/ side = south \/ side = west ->
  side (cell m c) = None -> parent (cell m c) = Some p ->
  side (cell m p) = Some pn ->
  children (cell m pn) = None /\ tier (cell m c) = S (tier (cell m pn)).
Proof.
  intros Hr Hc Hside Hnone Hpar Hpn.
  destruct (reachable_Inv5 m Hr) as (H4&HC&HR).
  pose proof (Inv4_wf _ H4) as Hwf.
  pose proof (reachable_valid_cells m c Hr Hc) as Hv.
  assert (Hs : is_side side).
  { destruct Hside as [-> | [-> | [-> | ->]]];
      [exists NS; by left|exists EW; by left|exists NS; by right|exists EW; by right]. }
  split.
  - apply (wired_side m side c p pn); try done. by apply HR.
  - pose proof (wf_parent _ Hwf c Hv) as HP. rewrite Hpar in HP.
    destruct HP as (ch&Hch&Hin).
    rewrite (cs_tier _ _ _ (wf_children _ Hwf p ch Hch) c Hin).
    pose proof (children_valid _ _ _ Hch) as Hp.
    by destruct (side_valid m side p pn Hwf Hs Hpn) as [_ ->].
Qed.

Lemma cascade_splits_a_leaf_witness :
  children (cell ex_wide1 1) = None /\
  tier (cell ex_wide1 3) = S (tier (cell ex_wide1 1)).
Proof.
  apply (cascade_splits_a_leaf ex_wide1 3 east 0 1 ex_wide1_reachable).
  - vm_compute. do 3 right. left.
  - right. by left.
  - vm_compute. reflexivity.
  - vm_compute. reflexivity.
  - vm_compute. reflexivity.
Defined.

(** X16 (position and coordinates).  On a reachable mesh the spacing [h]
    of the tier of a registered cell is the base spacing divided by
    [2 ^ tier], without remainder, and the corners [coordinates] gives
    for the cell are the grid points of that tier at its position:
    [(ix * h, iy * h)], [((ix + 1) * h, iy * h)],
    [((ix + 1) * h, (iy + 1) * h)] and [(ix * h, (iy + 1) * h)]. *)
Theorem cell_corners_from_position m c :
  reachable m -> c ∈ cells m ->
  let h := h_tier m (tier (cell m c)) in
  let x0 := inject_Z (Z.of_nat (ix (cell m c)) * h) in
  let x1 := inject_Z (Z.of_nat (ix (cell m c) + 1) * h) in
  let y0 := inject_Z (Z.of_nat (iy (cell m c)) * h) in
  let y1 := inject_Z (Z.of_nat (iy (cell m c) + 1) * h) in
  (h * 2 ^ Z.of_nat (tier (cell m c)) = spacing m)%Z /\
  Forall2 (fun p q => fst p == fst q /\ snd p == snd q)
    (coordinates m (cell m c)) [(x0, y0); (x1, y0); (x1, y1); (x0, y1)].
Proof.
  intros Hr Hc. cbv zeta.
  destruct (reachable_Inv5 m Hr) as (([Hwf Hti]&_)&_&HR).
  destruct (reachable_InvP m Hr) as (_&[Hrect _]&Hpos).
  pose proof (reachable_valid_cells m c Hr Hc) as Hv.
  pose proof (HR c Hc) as Ht.
  destruct (h_tier_exact m _ Hti Ht) as [Hex _].
  destruct (at_pos_h_tier m (cell m c) Hti Ht (Hpos c Hv)) as (P0&P1&P2&P3).
  destruct (Hrect c Hv) as ([R1 R2]&[R3 R4]&[R5 R6]).
  unfold cell_x0, cell_x1, cell_y0, cell_y1 in *.
  split; [done|]. unfold coordinates.
  repeat (apply Forall2_cons; [split; cbn [fst snd]|]); try apply Forall2_nil.
  - exact P0.
  - exact P2.
  - exact P1.
  - by rewrite R2.
  - by rewrite R5.
  - by rewrite R6.
  - by rewrite R3.
  - exact P3.
Qed.

Lemma cell_corners_from_position_witness :
  (h_tier ex_mesh1 (tier (cell ex_mesh1 4)) * 2 ^ Z.of_nat (tier (cell ex_mesh1 4)) =
     spacing ex_mesh1)%Z /\
  Forall2 (fun p q => fst p == fst q /\ snd p == snd q)
    (coordinates ex_mesh1 (cell ex_mesh1 4))
    [(inject_Z (Z.of_nat (ix (cell ex_mesh1 4)) * h_tier ex_mesh1 (tier (cell ex_mesh1 4))),
      inject_Z (Z.of_nat (iy (cell ex_mesh1 4)) * h_tier ex_mesh1 (tier (cell ex_mesh1 4))));
     (inject_Z (Z.of_nat (ix (cell ex_mesh1 4) + 1) * h_tier ex_mesh1 (tier (cell ex_mesh1 4))),
      inject_Z (Z.of_nat (iy (cell ex_mesh1 4)) * h_tier ex_mesh1 (tier (cell ex_mesh1 4))));
     (inject_Z (Z.of_nat (ix (cell ex_mesh1 4) + 1) * h_tier ex_mesh1 (tier (cell ex_mesh1 4))),
      inject_Z (Z.of_nat (iy (cell ex_mesh1 4) + 1) * h_tier ex_mesh1 (tier (cell ex_mesh1 4))));
     (inject_Z (Z.of_nat (ix (cell ex_mesh1 4)) * h_tier ex_mesh1 (tier (cell ex_mesh1 4))),
      inject_Z (Z.of_nat (iy (cell ex_mesh1 4) + 1) * h_tier ex_mesh1 (tier (cell ex_mesh1 4))))].
Proof.
  apply (cell_corners_from_position ex_mesh1 4 ex_mesh1_reachable).
  vm_compute. do 4 right. left.
Defined.

(** X17 (what the grids hold).  On a reachable mesh the grid of tier [t]
    has the spacing of the tier, [spacing / 2 ^ t], and an entry of its
    array that is set, in row [r] and column [c], refers to a window of
    the window list that lies at [(x_vec[c], y_vec[r])] of that grid.
    Below the top tier no entry is set where both indices are even. *)
Theorem grid_entries_point_to_windows m t r c w :
  reachable m -> grid_entry m t r c = Some w ->
  exists g win x y,
    grids m !! t = Some g /\ grid_get g r c = Some w /\
    g_spacing g = h_tier m t /\
    g_x_vec g !! c = Some x /\ g_y_vec g !! r = Some y /\
    windows m !! w = Some win /\
    (cw_x win == inject_Z x)%Q /\ (cw_y win == inject_Z y)%Q /\
    (0 < t -> Nat.even r && Nat.even c = false).
Proof.
  intros Hr He.
  destruct (reachable_Inv4 m Hr) as ([Hwf Hti]&_&[Hl HG]&_).
  pose proof (reachable_FieldsOK m Hr) as HF.
  pose proof (reachable_GridContent m Hr t r c w He) as Hok.
  unfold grid_entry in He.
  destruct (grids m !! t) as [g|] eqn:Hg; [|done].
  pose proof (lookup_lt_Some _ _ _ Hg) as Ht.
  destruct (HG t g Hg) as [Hny Hrows].
  pose proof (HF t g Hg) as Hf. unfold grid_fields, fields_for in Hf.
  injection Hf as Hd Hs Hx Hy _ _.
  assert (Hrc : r < n_rows_of (img_dim m) (h_tier m t) /\
                c < n_cols_of (img_dim m) (h_tier m t)).
  { unfold grid_get in He.
    destruct (g_array g !! r) as [row|] eqn:Hrow; [|done].
    destruct (row !! c) as [e|] eqn:Hc; [|done].
    rewrite list.Forall_forall in Hrows.
    pose proof (Hrows row (list_elem_of_lookup_2 _ _ _ Hrow)) as Hlen.
    apply lookup_lt_Some in Hrow, Hc. lia. }
  destruct Hrc as [Hr1 Hc1].
  destruct (entry_ok_h_tier m t r c w Hti ltac:(lia) Hok) as [Ex Ey].
  destruct Hok as (Hw&_&_&Hev).
  exists g, (windows m !!! w), (Z.of_nat c * h_tier m t)%Z,
    (Z.of_nat r * h_tier m t)%Z.
  split_and!; try done.
  - rewrite Hx. unfold axis. by apply arange_lookup.
  - rewrite Hy. unfold axis. by apply arange_lookup.
  - by apply list_lookup_lookup_total_lt.
Qed.

Lemma grid_entries_point_to_windows_witness :
  exists g win x y,
    grids ex_mesh1 !! 1 = Some g /\ grid_get g 1 1 = Some 6 /\
    g_spacing g = h_tier ex_mesh1 1 /\
    g_x_vec g !! 1 = Some x /\ g_y_vec g !! 1 = Some y /\
    windows ex_mesh1 !! 6 = Some win /\
    (cw_x win == inject_Z x)%Q /\ (cw_y win == inject_Z y)%Q /\
    (0 < 1 -> Nat.even 1 && Nat.even 1 = false).
Proof.
  apply (grid_entries_point_to_windows ex_mesh1 1 1 1 6 ex_mesh1_reachable).
  vm_compute. reflexivity.
Defined.


(** X18 (the grid of the top tier).  On a reachable mesh every entry of
    the grid of tier 0 is set, as the constructor set it: the entry in row
    [r] and column [c] is window [r * n_cols + c], which lies at
    [(c * spacing, r * spacing)]; no call of [split] or [new_tier]
    changes it. *)
Theorem top_grid_complete m r c :
  reachable m ->
  r < n_rows_of (img_dim m) (spacing m) ->
  c < n_cols_of (img_dim m) (spacing m) ->
  grid_entry m 0 r c = Some (c + r * n_cols_of (img_dim m) (spacing m)) /\
  exists win,
    windows m !! (c + r * n_cols_of (img_dim m) (spacing m)) = Some win /\
    (cw_x win == inject_Z (Z.of_nat c * spacing m))%Q /\
    (cw_y win == inject_Z (Z.of_nat r * spacing m))%Q.
Proof.
  intros Hr Hrow Hcol.
  pose proof (reachable_TopFull m Hr r c Hrow Hcol) as He. split; [done|].
  pose proof (reachable_GridContent m Hr _ _ _ _ He) as Hok.
  destruct (reachable_Inv1 m Hr) as [_ Hti].
  destruct (entry_ok_h_tier m 0 r c _ Hti ltac:(lia) Hok) as [Hx Hy].
  assert (Hh : h_tier m 0 = spacing m).
  { unfold h_tier. change (2 ^ Z.of_nat 0)%Z with 1%Z. apply Z.quot_1_r. }
  rewrite Hh in Hx, Hy. destruct Hok as (Hw&_).
  exists (windows m !!! (c + r * n_cols_of (img_dim m) (spacing m))).
  split_and!; [by apply list_lookup_lookup_total_lt|done|done].
Qed.

Lemma top_grid_complete_witness :
  grid_entry ex_mesh1 0 1 1 =
    Some (1 + 1 * n_cols_of (img_dim ex_mesh1) (spacing ex_mesh1)) /\
  exists win,
    windows ex_mesh1 !! (1 + 1 * n_cols_of (img_dim ex_mesh1) (spacing ex_mesh1)) =
      Some win /\
    (cw_x win == inject_Z (Z.of_nat 1 * spacing ex_mesh1))%Q /\
    (cw_y win == inject_Z (Z.of_nat 1 * spacing ex_mesh1))%Q.
Proof.
  apply (top_grid_complete ex_mesh1 1 1 ex_mesh1_reachable); vm_compute; lia.
Defined.

(** X19 ([Grid.__init__]).  [Grid(img_dim, spacing)] raises the
    [ZeroDivisionError] of [np.arange] for spacing 0.  For any other
    spacing it returns a grid that keeps the image size and the spacing,
    whose axes hold the multiples of the spacing from 0 on that lie
    before the image width, and height: below it for a spacing above 0,
    above it for a spacing below 0, so none at all when the two have
    different signs; [nx] and [ny] are the lengths of the axes, and the
    array has [ny] rows of [nx] entries, none of them set. *)
Theorem Grid_init_spec dim sp :
  (sp = 0%Z -> Grid_init dim sp = Raise ZeroDivisionError) /\
  (sp <> 0%Z ->
   exists g, Grid_init dim sp = Ok g /\
     g_img_dim g = dim /\ g_spacing g = sp /\
     g_nx g = length (g_x_vec g) /\ g_ny g = length (g_y_vec g) /\
     grid_shape (g_ny g) (g_nx g) g /\
     (forall r c, grid_get g r c = None) /\
     (forall k, k < g_nx g -> g_x_vec g !! k = Some (Z.of_nat k * sp)%Z) /\
     (forall k, k < g_ny g -> g_y_vec g !! k = Some (Z.of_nat k * sp)%Z) /\
     (forall k, k < g_nx g <->
        ((0 < sp -> Z.of_nat k * sp < snd dim) /\
         (sp < 0 -> snd dim < Z.of_nat k * sp))%Z) /\
     (forall k, k < g_ny g <->
        ((0 < sp -> Z.of_nat k * sp < fst dim) /\
         (sp < 0 -> fst dim < Z.of_nat k * sp))%Z)).
Proof.
  split.
  - intros ->. done.
  - intros Hsp. destruct (Grid_init_ok dim sp Hsp) as (g&E&Hs).
    exists g. split; [done|].
    pose proof (Grid_init_fields dim sp g Hsp E) as Hf.
    unfold grid_fields, fields_for in Hf. injection Hf as Hd Hsg Hx Hy Hny Hnx.
    assert (Hspec : forall W k, k < arange_len W sp <->
      ((0 < sp -> Z.of_nat k * sp < W) /\ (sp < 0 -> W < Z.of_nat k * sp))%Z).
    { intros W k. rewrite (arange_len_spec W sp k Hsp). unfold before_end.
      change (2 ^ Z.of_nat 0)%Z with 1%Z. by rewrite Z.mul_1_r. }
    split_and!; try done.
    + by rewrite Hnx, Hx, axis_length.
    + by rewrite Hny, Hy, axis_length.
    + by rewrite Hny, Hnx.
    + intros r c. by apply (Grid_init_get dim sp).
    + intros k. rewrite Hnx, Hx. unfold n_cols_of, axis. apply arange_lookup.
    + intros k. rewrite Hny, Hy. unfold n_rows_of, axis. apply arange_lookup.
    + intros k. rewrite Hnx. apply Hspec.
    + intros k. rewrite Hny. apply Hspec.
Qed.

Lemma Grid_init_spec_witness :
  exists g, Grid_init (5, 9)%Z 4 = Ok g /\
    g_img_dim g = (5, 9)%Z /\ g_spacing g = 4%Z /\
    g_nx g = length (g_x_vec g) /\ g_ny g = length (g_y_vec g) /\
    grid_shape (g_ny g) (g_nx g) g /\
    (forall r c, grid_get g r c = None) /\
    (forall k, k < g_nx g -> g_x_vec g !! k = Some (Z.of_nat k * 4)%Z) /\
    (forall k, k < g_ny g -> g_y_vec g !! k = Some (Z.of_nat k * 4)%Z) /\
    (forall k, k < g_nx g <->
       ((0 < 4 -> Z.of_nat k * 4 < snd (5, 9)) /\
        (4 < 0 -> snd (5, 9) < Z.of_nat k * 4))%Z) /\
    (forall k, k < g_ny g <->
       ((0 < 4 -> Z.of_nat k * 4 < fst (5, 9)) /\
        (4 < 0 -> fst (5, 9) < Z.of_nat k * 4))%Z).
Proof.
  apply (proj2 (Grid_init_spec (5, 9)%Z 4)). lia.
Defined.


(** ** Cells side by side *)

(** [b] has the position next to that of [a], to the north or to the
    east. *)
Definition next_pos (d : dir) (a b : GridCell) : Prop :=
  match d with
  | NS => ix b = ix a /\ iy b = iy a + 1
  | EW => ix b = ix a + 1 /\ iy b = iy a
  end.

(** The cells of the top tier have a position each, and those next to
    each other are linked. *)
Definition TopLayout (m : MultiGrid) : Prop :=
  forall a b, a < cells_in_top_tier m -> b < cells_in_top_tier m ->
    (ix (cell m a) = ix (cell m b) -> iy (cell m a) = iy (cell m b) -> a = b) /\
    (forall d, next_pos d (cell m a) (cell m b) -> out_of d (cell m a) = Some b).

(** [split] sets links and never takes one away. *)
Lemma split_body_keeps_links m self r m' :
  Inv4 m -> self < length (heap m) -> children (cell m self) = None ->
  split_body self m = (r, m') ->
  forall d x y, out_of d (cell m x) = Some y -> out_of d (cell m' x) = Some y.
Proof.
  intros H4 Hself Hleaf E d x y Hxy. pose proof (Inv4_wf _ H4) as Hwf.
  destruct (split_body_outcome m self H4 Hself Hleaf r m' E) as (_&Hok&Hno).
  destruct (ids_after m self) as [[[[lm cb] cm] ct] rm] eqn:Hids.
  destruct (decide (can_refine m self)) as [Hcan|Hcan].
  - destruct (Hok Hcan) as [-> _].
    pose proof (split_body_ok_heap m self lm cb cm ct rm m' Hwf Hself Hids E)
      as Hheap. cbv zeta in Hheap.
    unfold cell at 1. rewrite Hheap.
    refine (W_keep (state_A m self) self lm cb cm ct rm _ _ _ _ _ _ _ d x y _).
    + by apply HeapWF_state_A.
    + done.
    + done.
    + intros w Hw. exact (lm_reused m self w lm cb cm ct rm Hids Hw).
    + intros w Hw. exact (cb_reused m self w lm cb cm ct rm Hids Hw).
    + intros w Hw. exact (ct_reused m self w lm cb cm ct rm Hids Hw).
    + intros w Hw. exact (rm_reused m self w lm cb cm ct rm Hids Hw).
    + done.
  - destruct (Hno Hcan) as [_ ->].
    rewrite (state_B_eq m self lm cb cm ct rm Hids).
    by rewrite B_out.
Qed.

Definition InvL (m : MultiGrid) : Prop := Inv4 m /\ TopLayout m.

Lemma InvL_wf m : InvL m -> HeapWF m.
Proof. intros [H _]. by apply Inv4_wf. Qed.

Lemma TopLayout_kept m m' :
  cells_in_top_tier m <= length (heap m) ->
  cells_in_top_tier m' = cells_in_top_tier m ->
  (forall c, c < length (heap m) ->
     ix (cell m' c) = ix (cell m c) /\ iy (cell m' c) = iy (cell m c)) ->
  (forall d x y, out_of d (cell m x) = Some y -> out_of d (cell m' x) = Some y) ->
  TopLayout m -> TopLayout m'.
Proof.
  intros Hle Htop Hpos Hlinks H a b. rewrite Htop. intros Ha Hb.
  destruct (Hpos a ltac:(lia)) as [Hxa Hya].
  destruct (Hpos b ltac:(lia)) as [Hxb Hyb].
  destruct (H a b Ha Hb) as [Hu Hn]. split.
  - rewrite Hxa, Hya, Hxb, Hyb. exact Hu.
  - intros d Hd. apply Hlinks, Hn.
    destruct d; unfold next_pos in *; rewrite Hxa, Hya, Hxb, Hyb in Hd; done.
Qed.

Lemma InvL_body m self r m' :
  InvL m -> self < length (heap m) -> children (cell m self) = None ->
  split_body self m = (r, m') -> InvL m'.
Proof.
  intros [H4 HT] Hself Hleaf E. pose proof (Inv4_wf _ H4) as Hwf.
  destruct (split_body_outcome m self H4 Hself Hleaf r m' E) as (H4'&_).
  split; [done|].
  pose proof (split_body_post m self Hwf Hself Hleaf r m' E) as Hp.
  destruct (body_post_extends m self r m' Hself Hleaf Hp) as (He&_).
  apply (TopLayout_kept m); try done.
  - apply (wf_roots _ Hwf).
  - apply He.
  - intros c Hc. destruct (ext_old _ _ He c Hc) as (_&_&_&_&_&?&?&_). done.
  - by eapply split_body_keeps_links.
Qed.

Lemma init_shape_TopLayout dim sp WS m : init_shape dim sp WS m -> TopLayout m.
Proof.
  intros Hs a b. rewrite (is_top _ _ _ _ Hs). intros Ha Hb.
  destruct (top_decomp _ _ _ Ha) as (ra&ca&->&Hra&Hca).
  destruct (top_decomp _ _ _ Hb) as (rb&cb&->&Hrb&Hcb).
  rewrite !(is_cell _ _ _ _ Hs) by done. unfold top_cell. split.
  - cbn [ix iy]. by intros -> ->.
  - intros [|]; unfold next_pos, out_of; cbn [ix iy north east].
    + intros [-> ->]. rewrite decide_True by lia. f_equal. lia.
    + intros [-> ->]. rewrite decide_True by lia. f_equal. lia.
Qed.

Lemma reachable_InvL m : reachable m -> InvL m.
Proof.
  induction 1 as [dim sp WS m E|m c r m' _ IH Hc E|m r m' _ IH E].
  - destruct (MultiGrid_init_shape _ _ _ _ E) as [Hsp Hs]. split.
    + by eapply init_shape_Inv4.
    + by eapply init_shape_TopLayout.
  - exact (sp_inv _ _ _ _ _
             (split_post_inv InvL InvL_wf InvL_body m c r m' IH Hc E)).
  - destruct IH as [H4 HT]. split; [by eapply new_tier_Inv4|].
    pose proof (new_tier_same_objects _ _ _ E) as HO.
    pose proof HO as (_&_&_&Htop&_).
    apply (TopLayout_kept m); try done.
    + apply (wf_roots _ (Inv4_wf _ H4)).
    + intros x _. by rewrite (same_objects_cell _ _ x HO).
    + intros d x y. by rewrite (same_objects_cell _ _ x HO).
Qed.

(** ** Positions of children *)

Lemma pos_x_inj m j k :
  spacing m <> 0%Z -> (pos_x m j == pos_x m k)%Q -> j = k.
Proof.
  intros Hs H. unfold pos_x in H.
  apply Qmult_inj_r in H.
  - apply (proj1 (inject_Z_injective _ _)) in H. lia.
  - intros Hz. change 0%Q with (inject_Z 0) in Hz.
    by apply (proj1 (inject_Z_injective _ _)) in Hz.
Qed.

(** The position of a cell that starts where its parent starts, or in the
    middle of its parent. *)
Lemma half_pos m t k kp (x0c x0p x1p : Q) :
  spacing m <> 0%Z ->
  (x0c * two_pow (t + 1) == pos_x m k)%Q ->
  (x0p * two_pow t == pos_x m kp)%Q ->
  (x1p * two_pow t == pos_x m (kp + 1))%Q ->
  ((x0c == x0p)%Q -> k = 2 * kp) /\
  ((x0c == (x0p + x1p) * (1 # 2))%Q -> k = 2 * kp + 1).
Proof.
  intros Hs Hc H0 H1. rewrite two_pow_S in Hc. rewrite pos_x_succ in H1.
  split; intros E; apply (pos_x_inj m); try done.
  - rewrite (Nat.mul_comm 2 kp), pos_x_double. rewrite E in Hc. lra.
  - rewrite pos_x_succ, (Nat.mul_comm 2 kp), pos_x_double. rewrite E in Hc. lra.
Qed.

Section adjacency.
Variable m : MultiGrid.
Hypothesis Hwf : HeapWF m.
Hypothesis Hgeo : Geo m.
Hypothesis Hpos : PosGeo m.
Hypothesis Hsp : spacing m <> 0%Z.
Hypothesis Htop : TopLayout m.
Hypothesis Hcomplete : Complete m.

Lemma child_pos p ch :
children (cell m p) = Some ch ->
(ix (cell m (ch_bl ch)) = 2 * ix (cell m p) /\
iy (cell m (ch_bl ch)) = 2 * iy (cell m p)) /\
(ix (cell m (ch_br ch)) = 2 * ix (cell m p) + 1 /\
iy (cell m (ch_br ch)) = 2 * iy (cell m p)) /\
(ix (cell m (ch_tl ch)) = 2 * ix (cell m p) /\
iy (cell m (ch_tl ch)) = 2 * iy (cell m p) + 1) /\
(ix (cell m (ch_tr ch)) = 2 * ix (cell m p) + 1 /\
iy (cell m (ch_tr ch)) = 2 * iy (cell m p) + 1).
Proof.
intros Hch. pose proof (wf_children _ Hwf p ch Hch) as Hs.
pose proof (children_valid _ _ _ Hch) as Hp.
pose proof (cs_br _ _ _ Hs). pose proof (cs_tl _ _ _ Hs).
pose proof (cs_tr _ _ _ Hs). pose proof (cs_valid _ _ _ Hs).
pose proof (cs_order _ _ _ Hs).
destruct (Hpos p Hp) as (Px0&Px1&Py0&Py1).
destruct (child_boxes m p ch Hwf Hgeo Hch)
as ((B1&_&B2&_)&(R1&_&R2&_)&(L1&_&L2&_)&(T1&_&T2&_)).
assert (Hc : forall x, is_child ch x ->
(cell_x0 m (cell m x) * two_pow (tier (cell m p) + 1) == pos_x m (ix (cell m x)))%Q /\
(cell_y0 m (cell m x) * two_pow (tier (cell m p) + 1) == pos_x m (iy (cell m x)))%Q).
{ intros x Hx.
assert (Hv : x < length (heap m)).
{ destruct Hx as [->|[->|[->| ->]]]; lia. }
destruct (Hpos x Hv) as (Cx0&_&Cy0&_).
rewrite (cs_tier _ _ _ Hs x Hx) in Cx0, Cy0.
replace (tier (cell m p) + 1) with (S (tier (cell m p))) by lia. done. }
unfold cell_xm, cell_ym in *.
destruct (Hc (ch_bl ch)) as [Bx By]; [unfold is_child; auto|].
destruct (Hc (ch_br ch)) as [Rx Ry]; [unfold is_child; auto|].
destruct (Hc (ch_tl ch)) as [Lx Ly]; [unfold is_child; auto|].
destruct (Hc (ch_tr ch)) as [Tx Ty]; [unfold is_child; auto|].
split_and!.
- exact (proj1 (half_pos m _ _ _ _ _ _ Hsp Bx Px0 Px1) B1).
- exact (proj1 (half_pos m _ _ _ _ _ _ Hsp By Py0 Py1) B2).
- exact (proj2 (half_pos m _ _ _ _ _ _ Hsp Rx Px0 Px1) R1).
- exact (proj1 (half_pos m _ _ _ _ _ _ Hsp Ry Py0 Py1) R2).
- exact (proj1 (half_pos m _ _ _ _ _ _ Hsp Lx Px0 Px1) L1).
- exact (proj2 (half_pos m _ _ _ _ _ _ Hsp Ly Py0 Py1) L2).
- exact (proj2 (half_pos m _ _ _ _ _ _ Hsp Tx Px0 Px1) T1).
- exact (proj2 (half_pos m _ _ _ _ _ _ Hsp Ty Py0 Py1) T2).
Qed.

(** A cell is a cell of the top tier or a child. *)
Lemma top_or_child c :
c < length (heap m) ->
(tier (cell m c) = 0 /\ c < cells_in_top_tier m) \/
(exists p ch, children (cell m p) = Some ch /\ is_child ch c /\
 p < length (heap m) /\ tier (cell m c) = S (tier (cell m p))).
Proof.
intros Hc. pose proof (wf_parent _ Hwf c Hc) as H.
destruct (parent (cell m c)) as [p|]; [right|by left].
destruct H as (ch&Hch&Hin). exists p, ch. split_and!; try done.
- by eapply children_valid.
- exact (cs_tier _ _ _ (wf_children _ Hwf p ch Hch) c Hin).
Qed.

(** No two cells of a tier have the same position. *)
Lemma pos_unique t : forall a b,
a < length (heap m) -> b < length (heap m) ->
tier (cell m a) = t -> tier (cell m b) = t ->
ix (cell m a) = ix (cell m b) -> iy (cell m a) = iy (cell m b) -> a = b.
Proof.
induction t as [|t IH]; intros a b Ha Hb Hta Htb Hx Hy.
- destruct (top_or_child a Ha) as [[_ Hat]|(?&?&_&_&_&?)]; [|lia].
destruct (top_or_child b Hb) as [[_ Hbt]|(?&?&_&_&_&?)]; [|lia].
by apply (Htop a b).
- destruct (top_or_child a Ha) as [[? _]|(pa&cha&Hcha&Hina&Hpa&Htpa)]; [lia|].
destruct (top_or_child b Hb) as [[? _]|(pb&chb&Hchb&Hinb&Hpb&Htpb)]; [lia|].
destruct (child_pos pa cha Hcha) as ((?&?)&(?&?)&(?&?)&(?&?)).
destruct (child_pos pb chb Hchb) as ((?&?)&(?&?)&(?&?)&(?&?)).
assert (pa = pb) as <-.
{ apply IH; try done; try lia;
    destruct Hina as [->|[->|[->| ->]]]; destruct Hinb as [->|[->|[->| ->]]];
    lia. }
assert (chb = cha) as -> by congruence.
destruct Hina as [->|[->|[->| ->]]]; destruct Hinb as [->|[->|[->| ->]]];
  try done; lia.
Qed.

(** Two cells of a tier that the mesh has reached, with positions next
  to each other, are linked. *)
Lemma linked_by_pos t : forall d a b,
a < length (heap m) -> b < length (heap m) ->
tier (cell m a) = t -> tier (cell m b) = t -> t <= max_tier m ->
next_pos d (cell m a) (cell m b) -> out_of d (cell m a) = Some b.
Proof.
induction t as [|t IH]; intros d a b Ha Hb Hta Htb Hmax Hn.
- destruct (top_or_child a Ha) as [[_ Hat]|(?&?&_&_&_&?)]; [|lia].
destruct (top_or_child b Hb) as [[_ Hbt]|(?&?&_&_&_&?)]; [|lia].
by apply (Htop a b).
- destruct (top_or_child a Ha) as [[? _]|(pa&cha&Hcha&Hina&Hpa&Htpa)]; [lia|].
destruct (top_or_child b Hb) as [[? _]|(pb&chb&Hchb&Hinb&Hpb&Htpb)]; [lia|].
destruct (child_pos pa cha Hcha) as ((?&?)&(?&?)&(?&?)&(?&?)).
destruct (child_pos pb chb Hchb) as ((?&?)&(?&?)&(?&?)&(?&?)).
destruct (Hcomplete pa cha Hcha ltac:(lia)) as [(I1&I2&I3&I4) Hout].
destruct (decide (pa = pb)) as [<-|Hne].
+ assert (chb = cha) as -> by congruence.
  destruct d; destruct Hn as [Hnx Hny];
    destruct Hina as [->|[->|[->| ->]]]; destruct Hinb as [->|[->|[->| ->]]];
    first [done | exfalso; lia].
+ assert (Hu : ix (cell m pa) = ix (cell m pb) ->
               iy (cell m pa) = iy (cell m pb) -> False).
  { intros ? ?. apply Hne. apply (pos_unique t); try done; lia. }
  assert (Hs : forall d, next_pos d (cell m pa) (cell m pb) ->
               outer_linked m d cha chb).
  { intros d' Hd'. apply (Hout d' pb chb); [|done].
    apply IH; try done; lia. }
  destruct d; destruct Hn as [Hnx Hny];
    destruct Hina as [->|[->|[->| ->]]]; destruct Hinb as [->|[->|[->| ->]]];
    first [ exfalso; lia
          | exfalso; apply Hu; lia
          | apply (Hs NS); unfold next_pos; lia
          | apply (Hs EW); unfold next_pos; lia ].
Qed.
End adjacency.

(** ** From a common edge to a link *)

Definition xy (w : CorrWindow) : Q * Q := (cw_x w, cw_y w).

(** The north edge of [a] is the south edge of [b], or the east edge of
    [a] is the west edge of [b]: the two ends of the edge lie at the same
    points. *)
Definition share_edge (d : dir) (m : MultiGrid) (a b : GridCell) : Prop :=
  match d with
  | NS => same_point (xy (tl_win m a)) (xy (bl_win m b)) /\
          same_point (xy (tr_win m a)) (xy (br_win m b))
  | EW => same_point (xy (br_win m a)) (xy (bl_win m b)) /\
          same_point (xy (tr_win m a)) (xy (tl_win m b))
  end.

(** Two cells with the same extent along an axis have the same tier and
    the same position on it. *)
Lemma same_extent m ta tb ka kb (lo hi lo' hi' : Q) :
  spacing m <> 0%Z ->
  (lo * two_pow ta == pos_x m ka)%Q -> (hi * two_pow ta == pos_x m (ka + 1))%Q ->
  (lo' * two_pow tb == pos_x m kb)%Q -> (hi' * two_pow tb == pos_x m (kb + 1))%Q ->
  (lo == lo')%Q -> (hi == hi')%Q ->
  ta = tb /\ ka = kb.
Proof.
  intros Hs A0 A1 B0 B1 El Eh. rewrite <- El in B0. rewrite <- Eh in B1.
  rewrite pos_x_succ in A1, B1.
  assert (Hsq : ~ (inject_Z (spacing m) == 0)%Q).
  { intros Hz. change 0%Q with (inject_Z 0) in Hz.
    by apply (proj1 (inject_Z_injective _ _)) in Hz. }
  assert (HA : ((hi - lo) * two_pow ta == inject_Z (spacing m))%Q) by lra.
  assert (HB : ((hi - lo) * two_pow tb == inject_Z (spacing m))%Q) by lra.
  assert (Hd : ~ (hi - lo == 0)%Q).
  { intros Hz. rewrite Hz in HA. lra. }
  assert (HT : (two_pow ta == two_pow tb)%Q).
  { apply (Qmult_inj_l _ _ (hi - lo)%Q Hd). lra. }
  assert (ta = tb) as ->.
  { unfold two_pow in HT. apply (proj1 (inject_Z_injective _ _)) in HT.
    apply Z.pow_inj_r in HT; lia. }
  split; [done|]. apply (pos_x_inj m); [done|]. lra.
Qed.

Lemma edge_next_pos m d a b :
  Geo m -> PosGeo m -> spacing m <> 0%Z ->
  a < length (heap m) -> b < length (heap m) ->
  share_edge d m (cell m a) (cell m b) ->
  tier (cell m a) = tier (cell m b) /\ next_pos d (cell m a) (cell m b).
Proof.
  intros [Hrect _] Hpos Hs Ha Hb He.
  destruct (Hrect a Ha) as ([Abx Aby]&[Alx Aly]&[Atx Aty]).
  destruct (Hrect b Hb) as ([Bbx Bby]&[Blx Bly]&[Btx Bty]).
  destruct (Hpos a Ha) as (Ax0&Ax1&Ay0&Ay1).
  destruct (Hpos b Hb) as (Bx0&Bx1&By0&By1).
  unfold cell_x0, cell_x1, cell_y0, cell_y1, share_edge in *.
  unfold bl_win, br_win, tl_win, tr_win in *.
  destruct d; destruct He as [[E1 E2] [E3 E4]]; unfold xy in *; cbn [fst snd] in *.
  - destruct (same_extent m _ _ _ _ _ _ _ _ Hs Ax0 Ax1 Bx0 Bx1) as [Ht Hk].
    + lra.
    + lra.
    + split; [done|]. split; [done|]. rewrite <- Ht in By0.
      apply (pos_x_inj m); [done|]. rewrite <- By0, <- Ay1.
      apply Qmult_comp; [|reflexivity]. lra.
  - destruct (same_extent m _ _ _ _ _ _ _ _ Hs Ay0 Ay1 By0 By1) as [Ht Hk].
    + lra.
    + lra.
    + split; [done|]. split; [|done]. rewrite <- Ht in Bx0.
      apply (pos_x_inj m); [done|]. rewrite <- Bx0, <- Ax1.
      apply Qmult_comp; [|reflexivity]. lra.
Qed.

(** X20 (point deduplication among the cells of the mesh).  On a
    reachable mesh, two registered cells with a common edge, the north
    edge of the one being the south edge of the other or the east edge
    the west edge, are linked as neighbours.  So when both have children
    the window in the middle of that edge is one and the same entry of
    the window list for both; and when one of them has children,
    [create_new_corrWindows] of the other takes that entry, which is in
    the list already, for the middle of the edge. *)
Theorem edge_neighbours_share_midpoint m d a b :
  reachable m -> a ∈ cells m -> b ∈ cells m ->
  share_edge d m (cell m a) (cell m b) ->
  out_of d (cell m a) = Some b /\ back_of d (cell m b) = Some a /\
  (forall cha chb,
     children (cell m a) = Some cha -> children (cell m b) = Some chb ->
     mid_out d m cha = mid_back d m chb) /\
  (forall cha lm cb cm ct rm m',
     children (cell m a) = Some cha ->
     create_new_corrWindows b m = (Ok (lm, cb, cm, ct, rm), m') ->
     match d with NS => cb | EW => lm end = mid_out d m cha /\
     mid_out d m cha < length (windows m)) /\
  (forall chb lm cb cm ct rm m',
     children (cell m b) = Some chb ->
     create_new_corrWindows a m = (Ok (lm, cb, cm, ct, rm), m') ->
     match d with NS => ct | EW => rm end = mid_back d m chb /\
     mid_back d m chb < length (windows m)).
Proof.
  intros Hr Hina Hinb He.
  destruct (reachable_InvL m Hr) as [_ HT].
  destruct (reachable_Inv5 m Hr) as (H4&HC&HR').
  destruct H4 as ([Hwf [Hsp _]]&_).
  destruct (reachable_InvP m Hr) as (_&Hgeo&Hpos).
  pose proof (reachable_valid_cells m a Hr Hina) as Ha.
  pose proof (reachable_valid_cells m b Hr Hinb) as Hb.
  destruct (edge_next_pos m d a b Hgeo Hpos Hsp Ha Hb He) as [Ht Hn].
  assert (Hab : out_of d (cell m a) = Some b).
  { apply (linked_by_pos m Hwf Hgeo Hpos Hsp HT HC (tier (cell m a)));
      try done. by apply HR'. }
  assert (Hba : back_of d (cell m b) = Some a) by (by apply (wf_sym _ Hwf)).
  split; [done|]. split; [done|]. split_and!.
  - intros cha chb Hcha Hchb. exact (wf_shared _ Hwf d a b cha chb Hab Hcha Hchb).
  - intros cha lm cb cm ct rm m' Hcha. rewrite create_new_corrWindows_eq.
    intros E. assert (Hids : ids_after m b = (lm, cb, cm, ct, rm)) by congruence.
    clear E. pose proof (wf_children _ Hwf a cha Hcha) as Hs.
    pose proof (wf_ids _ Hwf) as Hv.
    pose proof (cs_br _ _ _ Hs). pose proof (cs_tl _ _ _ Hs).
    pose proof (cs_tr _ _ _ Hs). pose proof (cs_valid _ _ _ Hs).
    destruct d; cbn [back_of out_of mid_out] in *.
    + assert (Hn' : nchildren m south b = Some cha).
      { unfold nchildren. by rewrite Hba. }
      split; [exact (cb_reused m b cha lm cb cm ct rm Hids Hn')|].
      apply (Hv (ch_tl cha)). lia.
    + assert (Hn' : nchildren m west b = Some cha).
      { unfold nchildren. by rewrite Hba. }
      split; [exact (lm_reused m b cha lm cb cm ct rm Hids Hn')|].
      apply (Hv (ch_br cha)). lia.
  - intros chb lm cb cm ct rm m' Hchb. rewrite create_new_corrWindows_eq.
    intros E. assert (Hids : ids_after m a = (lm, cb, cm, ct, rm)) by congruence.
    clear E. pose proof (wf_children _ Hwf b chb Hchb) as Hs.
    pose proof (wf_ids _ Hwf) as Hv.
    pose proof (cs_br _ _ _ Hs). pose proof (cs_tl _ _ _ Hs).
    pose proof (cs_tr _ _ _ Hs). pose proof (cs_valid _ _ _ Hs).
    destruct d; cbn [back_of out_of mid_back] in *.
    + assert (Hn' : nchildren m north a = Some chb).
      { unfold nchildren. by rewrite Hab. }
      rewrite (cs_cb _ _ _ Hs).
      split; [exact (ct_reused m a chb lm cb cm ct rm Hids Hn')|].
      apply (Hv (ch_br chb)). lia.
    + assert (Hn' : nchildren m east a = Some chb).
      { unfold nchildren. by rewrite Hab. }
      split; [exact (rm_reused m a chb lm cb cm ct rm Hids Hn')|].
      apply (Hv (ch_bl chb)). lia.
Qed.

(** [ex_wide2]: the mesh [ex_wide1] after its right cell was split too. *)
Definition ex_wide2 : MultiGrid := Eval vm_compute in (split 1 ex_wide1).2.

Lemma ex_wide2_reachable : reachable ex_wide2.
Proof.
  apply (reach_split ex_wide1 1 (Ok tt) _ ex_wide1_reachable); [vm_compute; lia|].
  vm_compute. reflexivity.
Qed.

Lemma edge_neighbours_share_midpoint_witness :
  (east (cell ex_wide2 0) = Some 1 /\
   exists cha chb,
     children (cell ex_wide2 0) = Some cha /\
     children (cell ex_wide2 1) = Some chb /\
     mid_out EW ex_wide2 cha = mid_back EW ex_wide2 chb /\
     mid_back EW ex_wide2 chb = 10) /\
  (shared_sides ex_wide1 1 = 1 /\
   exists cha m',
     children (cell ex_wide1 0) = Some cha /\
     create_new_corrWindows 1 ex_wide1 = (Ok (10, 11, 12, 13, 14), m') /\
     10 = mid_out EW ex_wide1 cha /\
     mid_out EW ex_wide1 cha < length (windows ex_wide1)).
Proof.
  split.
  - assert (H0 : 0 ∈ cells ex_wide2) by (vm_compute; left).
    assert (H1 : 1 ∈ cells ex_wide2) by (vm_compute; right; left).
    assert (He : share_edge EW ex_wide2 (cell ex_wide2 0) (cell ex_wide2 1)).
    { vm_compute. done. }
    destruct (edge_neighbours_share_midpoint ex_wide2 EW 0 1
                ex_wide2_reachable H0 H1 He) as (Hl&_&Hm&_).
    split; [exact Hl|].
    exists (mkChildren 2 3 4 5), (mkChildren 6 7 8 9).
    split; [vm_compute; reflexivity|]. split; [vm_compute; reflexivity|].
    split; [|vm_compute; reflexivity].
    apply Hm; vm_compute; reflexivity.
  - assert (H0 : 0 ∈ cells ex_wide1) by (vm_compute; left).
    assert (H1 : 1 ∈ cells ex_wide1) by (vm_compute; right; left).
    assert (He : share_edge EW ex_wide1 (cell ex_wide1 0) (cell ex_wide1 1)).
    { vm_compute. done. }
    destruct (edge_neighbours_share_midpoint ex_wide1 EW 0 1
                ex_wide1_reachable H0 H1 He) as (_&_&_&Hu&_).
    split; [vm_compute; reflexivity|].
    exists (mkChildren 2 3 4 5), (create_new_corrWindows 1 ex_wide1).2.
    split; [vm_compute; reflexivity|].
    assert (E : create_new_corrWindows 1 ex_wide1 =
                (Ok (10, 11, 12, 13, 14), (create_new_corrWindows 1 ex_wide1).2)).
    { vm_compute. reflexivity. }
    split; [exact E|].
    refine (Hu (mkChildren 2 3 4 5) 10 11 12 13 14 _ _ E).
    vm_compute. reflexivity.
Defined.

(** X21 (reuse through the links).  In every reachable mesh, also after
    a split that raised, two cells that are linked as neighbours and both
    have children hold one and the same entry of the window list in the
    middle of their common edge.  And [create_new_corrWindows] takes, on
    every side where the neighbour of the cell has children, the window
    those children already hold, which is an entry already in the list:
    it appends five windows less one for each such side. *)
Theorem linked_cells_share_points m :
  reachable m ->
  (forall a b cha chb,
     children (cell m a) = Some cha -> children (cell m b) = Some chb ->
     (north (cell m a) = Some b ->
      id_tr (cell m (ch_tl cha)) = id_br (cell m (ch_bl chb))) /\
     (east (cell m a) = Some b ->
      id_tr (cell m (ch_br cha)) = id_tl (cell m (ch_bl chb)))) /\
  (forall self, exists lm cb cm ct rm m',
     create_new_corrWindows self m = (Ok (lm, cb, cm, ct, rm), m') /\
     length (windows m') + shared_sides m self = length (windows m) + 5 /\
     (forall wc, nchildren m west self = Some wc ->
        lm = id_tr (cell m (ch_br wc)) /\ lm < length (windows m)) /\
     (forall sc, nchildren m south self = Some sc ->
        cb = id_tr (cell m (ch_tl sc)) /\ cb < length (windows m)) /\
     (forall nc, nchildren m north self = Some nc ->
        ct = id_bl (cell m (ch_br nc)) /\ ct < length (windows m)) /\
     (forall ec, nchildren m east self = Some ec ->
        rm = id_tl (cell m (ch_bl ec)) /\ rm < length (windows m))).
Proof.
  intros Hr. pose proof (reachable_HeapWF m Hr) as Hwf. split.
  - intros a b cha chb Ha Hb. split; intros Hab.
    + exact (wf_shared _ Hwf NS a b cha chb Hab Ha Hb).
    + exact (wf_shared _ Hwf EW a b cha chb Hab Ha Hb).
  - intros self.
    destruct (ids_after m self) as [[[[lm cb] cm] ct] rm] eqn:Hids.
    exists lm, cb, cm, ct, rm, (with_windows (windows_after m self) m).
    split; [by rewrite create_new_corrWindows_eq, Hids|].
    split; [apply windows_after_count|].
    split_and!.
    + intros wc Hc. pose proof (lm_reused m self wc lm cb cm ct rm Hids Hc) as ->.
      split; [done|].
      apply (reuse_valid m west ch_br id_tr self); auto.
      * intros ch. unfold is_child. auto.
      * by apply nchildren_reuse.
    + intros sc Hc. pose proof (cb_reused m self sc lm cb cm ct rm Hids Hc) as ->.
      split; [done|].
      apply (reuse_valid m south ch_tl id_tr self); auto.
      * intros ch. unfold is_child. auto.
      * by apply nchildren_reuse.
    + intros nc Hc. pose proof (ct_reused m self nc lm cb cm ct rm Hids Hc) as ->.
      split; [done|].
      apply (reuse_valid m north ch_br id_bl self); auto.
      * intros ch. unfold is_child. auto.
      * by apply nchildren_reuse.
    + intros ec Hc. pose proof (rm_reused m self ec lm cb cm ct rm Hids Hc) as ->.
      split; [done|].
      apply (reuse_valid m east ch_bl id_tl self); auto.
      * intros ch. unfold is_child. auto.
      * by apply nchildren_reuse.
Qed.

Lemma linked_cells_share_points_witness :
  shared_sides ex_wide1 1 = 1 /\
  nchildren ex_wide1 west 1 = Some (mkChildren 2 3 4 5) /\
  exists lm cb cm ct rm m',
    create_new_corrWindows 1 ex_wide1 = (Ok (lm, cb, cm, ct, rm), m') /\
    length (windows m') + 1 = length (windows ex_wide1) + 5 /\
    lm = id_tr (cell ex_wide1 3) /\ lm < length (windows ex_wide1).
Proof.
  split; [vm_compute; reflexivity|]. split; [vm_compute; reflexivity|].
  destruct (proj2 (linked_cells_share_points ex_wide1 ex_wide1_reachable) 1)
    as (lm&cb&cm&ct&rm&m'&E&Hl&Hw&_).
  exists lm, cb, cm, ct, rm, m'. split; [exact E|]. split; [exact Hl|].
  apply (Hw (mkChildren 2 3 4 5)). vm_compute. reflexivity.
Defined.
